(** * thought-cli: the section store, the backup engine and the tag helpers

    A shallow embedding of [src/tag.js], [src/backup.js], [src/config.js]
    and [src/logger.js], followed by the properties the specification
    states about them and by further properties of the same code.

    Conventions.
    - A JavaScript string is a [string]; one [ascii] stands for one
      character (code unit) of the string, so the character tests of the
      source ([trim], the regular expressions) are tests on one [ascii].
    - The file system is the two directories of [config.js], each a finite
      map from file name to file, absent when the directory does not exist.
    - A path is a directory and a file name, [path.join] of the two: file
      names hold no separator and no dot segment, as the names do that
      the program makes from sanitized section ids. Where a name comes
      from outside, an argument of [backup.js] or a key of a payload, and
      a separator in it would matter, the statement asks for
      [separator_free].
    - [readdirSync] lists a directory in an order that the platform
      chooses; [Node.listing] and [ByName.sorted_listing] are two such
      orders.
    - Code that touches the file system runs in a state-and-exception
      monad over the [world]; [try { } catch] is [try_catch]. *)

From Stdlib Require Import ZArith Lia Ascii String List Bool.
From stdpp Require Import base option list gmap strings pretty.

Set Warnings "-register-all".

Local Open Scope Z_scope.

(* ===================================================================== *)
(** * JavaScript string primitives                                        *)
(* ===================================================================== *)

Module JS.

Definition LF : ascii := "010"%char.
Definition CR : ascii := "013"%char.

Definition ascii_eqb (a b : ascii) : bool := Ascii.eqb a b.
Global Arguments ascii_eqb : simpl never.

(** The characters [String.prototype.trim] removes, among those an [ascii]
    can hold: TAB, LF, VT, FF, CR, SPACE and NBSP. *)
Definition is_white_space (c : ascii) : bool :=
  let n := nat_of_ascii c in
  ((9 <=? n)%nat && (n <=? 13)%nat) || (n =? 32)%nat || (n =? 160)%nat.
Global Arguments is_white_space : simpl never.

(** The characters the regular-expression atom [.] refuses. *)
Definition is_line_terminator (c : ascii) : bool :=
  ascii_eqb c LF || ascii_eqb c CR.
Global Arguments is_line_terminator : simpl never.

(** [s.includes(c)] for a one-character needle. *)
Fixpoint includes_char (c : ascii) (s : string) : bool :=
  match s with
  | EmptyString => false
  | String d r => ascii_eqb c d || includes_char c r
  end.

(** [s.startsWith(p)]. *)
Fixpoint startsWith (p s : string) : bool :=
  match p, s with
  | EmptyString, _ => true
  | String a p', String b s' => ascii_eqb a b && startsWith p' s'
  | String _ _, EmptyString => false
  end.

Fixpoint rev_string (s : string) : string :=
  match s with
  | EmptyString => EmptyString
  | String c r => rev_string r +:+ String c EmptyString
  end.

(** [s.endsWith(p)]. *)
Definition endsWith (p s : string) : bool :=
  startsWith (rev_string p) (rev_string s).

Fixpoint trimStart (s : string) : string :=
  match s with
  | EmptyString => EmptyString
  | String c r => if is_white_space c then trimStart r else s
  end.

Definition trimEnd (s : string) : string :=
  rev_string (trimStart (rev_string s)).

Definition trim (s : string) : string := trimEnd (trimStart s).

(** [s.split('\n')]: the pieces between the separators, the empty string
    giving one empty piece. *)
Fixpoint split_on (sep : ascii) (s : string) : list string :=
  match s with
  | EmptyString => [EmptyString]
  | String c r =>
      if ascii_eqb c sep then EmptyString :: split_on sep r
      else match split_on sep r with
           | [] => [String c EmptyString]
           | p :: ps => String c p :: ps
           end
  end.

Definition string_eqb (a b : string) : bool := String.eqb a b.
Global Arguments string_eqb : simpl never.

(** One character of [s.toLowerCase()], for the characters an [ascii] can
    hold: the letters A to Z and the capital letters of Latin-1. *)
Definition lower_char (c : ascii) : ascii :=
  let n := nat_of_ascii c in
  if ((65 <=? n)%nat && (n <=? 90)%nat)
     || ((192 <=? n)%nat && (n <=? 222)%nat && negb (n =? 215)%nat)
  then ascii_of_nat (n + 32) else c.

Fixpoint toLowerCase (s : string) : string :=
  match s with
  | EmptyString => EmptyString
  | String c r => String (lower_char c) (toLowerCase r)
  end.

(** [s.indexOf(pat)]: the first position where [pat] occurs, or [-1]. *)
Fixpoint indexOf (pat s : string) : Z :=
  if startsWith pat s then 0
  else match s with
       | EmptyString => -1
       | String _ r => let i := indexOf pat r in if i <? 0 then -1 else i + 1
       end.

Fixpoint take_string (n : nat) (s : string) : string :=
  match n, s with
  | S n', String c r => String c (take_string n' r)
  | _, _ => EmptyString
  end.

Fixpoint drop_string (n : nat) (s : string) : string :=
  match n, s with
  | S n', String _ r => drop_string n' r
  | _, _ => s
  end.

(** An index argument of [substring], brought into [0 .. s.length]. *)
Definition clamp (i : Z) (s : string) : nat :=
  Z.to_nat (Z.min (Z.max i 0) (Z.of_nat (String.length s))).

(** [s.substring(a, b)]: the arguments are clamped, and swapped when the
    first is the greater. *)
Definition substring (a b : Z) (s : string) : string :=
  let x := clamp a s in
  let y := clamp b s in
  take_string (Nat.max x y - Nat.min x y) (drop_string (Nat.min x y) s).

(** [s.substring(a)]. *)
Definition substring_from (a : Z) (s : string) : string :=
  drop_string (clamp a s) s.

End JS.

(* ===================================================================== *)
(** * tag.js                                                              *)
(* ===================================================================== *)

Module Tag.
Import JS.

(** The tail of [/\[(.*?)\]/] once the opening bracket is consumed: the
    shortest run of characters that are not line terminators, up to the
    first closing bracket. The result is the capture group. *)
Fixpoint lazy_until_close (s : string) : option string :=
  match s with
  | EmptyString => None
  | String c r =>
      if ascii_eqb c "]" then Some EmptyString
      else if is_line_terminator c then None
      else option_map (String c) (lazy_until_close r)
  end.

(** [log.match(/\[(.*?)\]/)]: the leftmost position where the pattern
    matches; [Some tag] is the first capture group, [None] is [null]. *)
Fixpoint match_tag (log : string) : option string :=
  match log with
  | EmptyString => None
  | String c r =>
      if ascii_eqb c "[" then
        match lazy_until_close r with
        | Some t => Some t
        | None => match_tag r
        end
      else match_tag r
  end.

Definition hasTag (log : string) : bool :=
  includes_char "[" log && bool_decide (is_Some (match_tag log)).

Definition extractTag (log : string) : option string :=
  if hasTag log then match_tag log else None.

Definition createTaggedMessage (tag message : string) : string :=
  "[" +:+ tag +:+ "] " +:+ message.

(** The four colours of [chalk] the module uses, each a function that
    wraps a text in the escape sequences of the colour. *)
Record palette : Type := Palette {
  red : string → string;
  green : string → string;
  blue : string → string;
  cyan : string → string
}.

Definition formatTaggedLog (chalk : palette) (log : string) : string :=
  if includes_char "[" log then
    match match_tag log with
    | Some tag =>
        let tagIndex := indexOf ("[" +:+ tag +:+ "]") log in
        let beforeTag := substring 0 tagIndex log in
        let afterTag :=
          substring_from (tagIndex + Z.of_nat (String.length tag) + 2) log in
        let lower := toLowerCase tag in
        if string_eqb lower "important" then red chalk log
        else if string_eqb lower "idea" then green chalk log
        else if string_eqb lower "todo" then blue chalk log
        else beforeTag +:+ cyan chalk ("[" +:+ tag +:+ "]") +:+ afterTag
    | None => log
    end
  else log.

End Tag.

(* ===================================================================== *)
(** * JSON values, as the program handles them                            *)
(* ===================================================================== *)

Module Json.
Import JS.

(** A parsed JSON document. An object is the list of its own properties
    in insertion order, the order [Object.entries] and [JSON.stringify]
    use for keys that are not array indices; that JavaScript lists keys
    that are array indices first is left out, the program reads objects
    by key and writes one file for each property. *)
Inductive json : Type :=
  | JNull
  | JBool (b : bool)
  | JNum (n : Z)
  | JStr (s : string)
  | JArr (items : list json)
  | JObj (props : list (string * json)).

(** Property keys of an object are pairwise distinct, at every depth. *)
Fixpoint json_wf (v : json) : Prop :=
  match v with
  | JArr items =>
      (fix all (l : list json) : Prop :=
         match l with [] => True | x :: r => json_wf x ∧ all r end) items
  | JObj props =>
      NoDup (props.*1) ∧
      (fix all (l : list (string * json)) : Prop :=
         match l with [] => True | kx :: r => json_wf kx.2 ∧ all r end) props
  | _ => True
  end.

(** [o[k]] on the property list of an object. *)
Fixpoint obj_get (k : string) (props : list (string * json)) : option json :=
  match props with
  | [] => None
  | (k', v) :: r => if string_eqb k k' then Some v else obj_get k r
  end.

(** [o[k] = v] on the property list of an object: an existing property
    keeps its place, a new one goes last. *)
Fixpoint obj_set (k : string) (v : json) (props : list (string * json))
  : list (string * json) :=
  match props with
  | [] => [(k, v)]
  | (k', v') :: r =>
      if string_eqb k k' then (k, v) :: r else (k', v') :: obj_set k v r
  end.

(** [o[k] = v] as an assignment. An object that has no property of its
    own named [__proto__] inherits the accessor of that name, and the
    assignment then changes its prototype (or nothing, when [v] is not an
    object) and none of its properties. *)
Definition obj_assign (k : string) (v : json) (props : list (string * json))
  : list (string * json) :=
  if string_eqb k "__proto__" then
    match obj_get k props with
    | Some _ => obj_set k v props
    | None => props
    end
  else obj_set k v props.

(** Truthiness of a value; [None] is [undefined]. *)
Definition truthy (v : option json) : bool :=
  match v with
  | None | Some JNull => false
  | Some (JBool b) => b
  | Some (JNum n) => negb (n =? 0)
  | Some (JStr s) => negb (string_eqb s "")
  | Some (JArr _) | Some (JObj _) => true
  end.

(** The decimal numeral of an array index, when [k] is one. *)
Fixpoint read_digits (acc : N) (s : string) : option N :=
  match s with
  | EmptyString => Some acc
  | String c r =>
      match Ascii.is_nat c with
      | Some d => read_digits (acc * 10 + N.of_nat d)%N r
      | None => None
      end
  end.

Definition array_index (k : string) : option nat :=
  match k with
  | EmptyString => None
  | _ =>
      match read_digits 0 k with
      | Some i =>
          if string_eqb (pretty i) k && (i <? 4294967295)%N
          then Some (N.to_nat i) else None
      | None => None
      end
  end.

(** [a[i] = v] on an array: elements past the end are created, the gap
    filled with holes, which [JSON.stringify] prints as [null]. *)
Definition arr_set (i : nat) (v : json) (items : list json) : list json :=
  if (i <? length items)%nat then <[i := v]> items
  else items ++ replicate (i - length items)%nat JNull ++ [v].

Fixpoint chars_from (i : nat) (s : string) : list (string * json) :=
  match s with
  | EmptyString => []
  | String c r => (pretty i, JStr (String c EmptyString)) :: chars_from (S i) r
  end.

End Json.

(* ===================================================================== *)
(** * The file system, the clock and the console                          *)
(* ===================================================================== *)

Module Fs.
Import JS Json.

(** [config.sectionsDir] and [config.backupDir]. *)
Inductive dir : Type := SectionsDir | BackupDir.

(** [path.join(dir, name)] for a [name] that holds no path separator;
    [p_name] is [path.basename]. The names the program joins to a
    directory are a section id with an extension, a name that
    [readdirSync] returned, and the name it gives an artifact; an id that
    [createSection] made holds no separator. A name that holds one, which
    only an argument of [backup.js] or the key of a payload can bring in,
    is resolved by [path.join] to a file of another directory: a
    directory is a flat map here, so such names are outside the model,
    and a statement that would be wrong for them excludes them with
    [separator_free]. *)
Record path : Type := Path { p_dir : dir; p_name : string }.

(** [name] holds neither ['/'] nor a backslash. *)
Definition separator_free (name : string) : bool :=
  negb (includes_char "/" name) && negb (includes_char "092" name).

Record file : Type := File { f_data : string; f_mtime : Z }.

(** What [fs.statSync] returns, as far as the program reads it. *)
Record stats : Type := Stats { st_mtime : Z; st_size : Z }.

Inductive exn : Type :=
  | ENOENT          (* no such file or directory *)
  | EIO             (* any other failure of the operating system *)
  | SyntaxError     (* JSON.parse *)
  | TypeError
  | ZlibError.      (* zlib.gunzipSync on data that is not gzip *)

(** What the program does to the outside, in the order it does it. *)
Inductive event : Type :=
  | Log (msg : string)                        (* console.log *)
  | LogError (msg : string) (e : option exn)  (* console.error *)
  | Wrote (p : path)
  | Appended (p : path)
  | Unlinked (p : path)
  | MadeDir (d : dir).

(** [faults] is the list of upcoming failures of the operating system: each
    call that can fail takes the head, and fails with [EIO] when it is
    [true]. The empty list is a machine on which nothing fails except for
    a missing file or directory. *)
Record world : Type := World {
  sectionsDir : option (gmap string file);
  backupDir : option (gmap string file);
  clock : Z;
  faults : list bool;
  trace : list event
}.

Definition get_dir (d : dir) (w : world) : option (gmap string file) :=
  match d with SectionsDir => sectionsDir w | BackupDir => backupDir w end.

Definition set_dir (d : dir) (m : gmap string file) (w : world) : world :=
  match d with
  | SectionsDir => World (Some m) (backupDir w) (clock w) (faults w) (trace w)
  | BackupDir => World (sectionsDir w) (Some m) (clock w) (faults w) (trace w)
  end.

Definition set_faults (f : list bool) (w : world) : world :=
  World (sectionsDir w) (backupDir w) (clock w) f (trace w).

Definition emit (e : event) (w : world) : world :=
  World (sectionsDir w) (backupDir w) (clock w) (faults w) (trace w ++ [e]).

(** The file at a path, if the directory and the file exist. *)
Definition lookup_file (p : path) (w : world) : option file :=
  m ← get_dir (p_dir p) w; m !! p_name p.

(** ** The monad *)

Inductive outcome (A : Type) : Type :=
  | Ok (a : A)
  | Throw (e : exn).
Arguments Ok {A} a.
Arguments Throw {A} e.

Definition M (A : Type) : Type := world → outcome A * world.

Definition ret {A} (a : A) : M A := λ w, (Ok a, w).

Definition throw {A} (e : exn) : M A := λ w, (Throw e, w).

Definition bind {A B} (m : M A) (k : A → M B) : M B :=
  λ w, match m w with
       | (Ok a, w') => k a w'
       | (Throw e, w') => (Throw e, w')
       end.

(** [try { m } catch (err) { h err }]: what [m] did before it threw stays
    done. *)
Definition try_catch {A} (m : M A) (h : exn → M A) : M A :=
  λ w, match m w with
       | (Ok a, w') => (Ok a, w')
       | (Throw e, w') => h e w'
       end.

Notation "x <- m ; k" := (bind m (λ x, k))
  (at level 20, m at level 100, k at level 200).
Notation "m ;; k" := (bind m (λ _, k))
  (at level 100, k at level 200, right associativity).

Fixpoint for_each {A} (l : list A) (body : A → M unit) : M unit :=
  match l with
  | [] => ret tt
  | x :: r => body x ;; for_each r body
  end.

Fixpoint map_each {A B} (l : list A) (f : A → M B) : M (list B) :=
  match l with
  | [] => ret []
  | x :: r => y <- f x; ys <- map_each r f; ret (y :: ys)
  end.

(** ** The primitives *)

Definition fault : M unit :=
  λ w, let w' := set_faults (tail (faults w)) w in
       if head (faults w) is Some true then (Throw EIO, w') else (Ok tt, w').

Definition console_log (msg : string) : M unit :=
  λ w, (Ok tt, emit (Log msg) w).

Definition console_error (msg : string) (e : option exn) : M unit :=
  λ w, (Ok tt, emit (LogError msg e) w).

(** [new Date()], in milliseconds since the epoch. *)
Definition now : M Z := λ w, (Ok (clock w), w).

(** [fs.existsSync] never throws. *)
Definition existsSync (p : path) : M bool :=
  λ w, (Ok (bool_decide (is_Some (lookup_file p w))), w).

Definition existsDir (d : dir) : M bool :=
  λ w, (Ok (bool_decide (is_Some (get_dir d w))), w).

Definition readFileSync (p : path) : M string :=
  fault ;;
  λ w, match lookup_file p w with
       | Some f => (Ok (f_data f), w)
       | None => (Throw ENOENT, w)
       end.

Definition writeFileSync (p : path) (data : string) : M unit :=
  fault ;;
  λ w, match get_dir (p_dir p) w with
       | Some m =>
           (Ok tt, emit (Wrote p)
                     (set_dir (p_dir p) (<[p_name p := File data (clock w)]> m) w))
       | None => (Throw ENOENT, w)
       end.

Definition appendFileSync (p : path) (data : string) : M unit :=
  fault ;;
  λ w, match get_dir (p_dir p) w with
       | Some m =>
           let old := match m !! p_name p with
                      | Some f => f_data f
                      | None => ""
                      end in
           (Ok tt, emit (Appended p)
                     (set_dir (p_dir p)
                        (<[p_name p := File (old +:+ data) (clock w)]> m) w))
       | None => (Throw ENOENT, w)
       end.

Definition unlinkSync (p : path) : M unit :=
  fault ;;
  λ w, match get_dir (p_dir p) w with
       | Some m =>
           match m !! p_name p with
           | Some _ =>
               (Ok tt, emit (Unlinked p) (set_dir (p_dir p) (delete (p_name p) m) w))
           | None => (Throw ENOENT, w)
           end
       | None => (Throw ENOENT, w)
       end.

Definition statSync (p : path) : M stats :=
  fault ;;
  λ w, match lookup_file p w with
       | Some f => (Ok (Stats (f_mtime f) (Z.of_nat (String.length (f_data f)))), w)
       | None => (Throw ENOENT, w)
       end.

(** [fs.copyFileSync(src, dest)]: [dest] is created or overwritten with the
    bytes of [src], and is as new as a file just written. *)
Definition copyFileSync (src dest : path) : M unit :=
  fault ;;
  λ w, match lookup_file src w, get_dir (p_dir dest) w with
       | Some f, Some m =>
           (Ok tt, emit (Wrote dest)
                     (set_dir (p_dir dest)
                        (<[p_name dest := File (f_data f) (clock w)]> m) w))
       | _, _ => (Throw ENOENT, w)
       end.

(** [fs.mkdirSync(dir, { recursive: true })]: no error when it exists. *)
Definition mkdirSync (d : dir) : M unit :=
  fault ;;
  λ w, match get_dir d w with
       | Some _ => (Ok tt, w)
       | None => (Ok tt, emit (MadeDir d) (set_dir d ∅ w))
       end.

(** ** What the platform provides

    [zlib], [JSON], the order in which a directory is enumerated and the
    printing of dates are not code of this program: they are taken
    through their interface, with the laws the program relies on. *)
Class Platform : Type := {
  gzipSync : string → string;
  gunzipSync : string → option string;
  gunzip_gzip : ∀ s, gunzipSync (gzipSync s) = Some s;
  (** [JSON.stringify(v, null, 2)] and [JSON.parse] *)
  JSON_stringify : json → string;
  JSON_parse : string → option json;
  JSON_parse_wf : ∀ s v, JSON_parse s = Some v → json_wf v;
  JSON_parse_stringify : ∀ v, json_wf v → JSON_parse (JSON_stringify v) = Some v;
  (** the names [fs.readdirSync] returns, in the order it returns them *)
  readdir : gmap string file → list string;
  readdir_perm : ∀ m, readdir m ≡ₚ (map_to_list m).*1;
  (** [Date.prototype.toISOString] and the default printing of a date *)
  toISOString : Z → string;
  dateString : Z → string
}.

Section WithPlatform.
Context `{P : Platform}.

Definition readdirSync (d : dir) : M (list string) :=
  fault ;;
  λ w, match get_dir d w with
       | Some m => (Ok (readdir m), w)
       | None => (Throw ENOENT, w)
       end.

Definition JSON_parse_or_throw (s : string) : M json :=
  match JSON_parse s with
  | Some v => ret v
  | None => throw SyntaxError
  end.

Definition gunzip_or_throw (s : string) : M string :=
  match gunzipSync s with
  | Some v => ret v
  | None => throw ZlibError
  end.

End WithPlatform.

(** ** Operations of the language on parsed JSON *)

(** [recv[k] = v] in non-strict code. *)
Definition js_assign (recv : json) (k : string) (v : json) : M json :=
  match recv with
  | JObj props => ret (JObj (obj_assign k v props))
  | JArr items =>
      match array_index k with
      | Some i => ret (JArr (arr_set i v items))
      | None => ret recv
      end
  | JNull => throw TypeError
  | JBool _ | JNum _ | JStr _ => ret recv
  end.

(** [recv.k] for a key that is neither an index nor [length]. *)
Definition js_get (recv : json) (k : string) : M (option json) :=
  match recv with
  | JObj props => ret (obj_get k props)
  | JNull => throw TypeError
  | _ => ret None
  end.

(** [Object.entries(v)]; [Object.keys(v)] is its first projection. *)
Definition Object_entries (v : option json) : M (list (string * json)) :=
  match v with
  | None | Some JNull => throw TypeError
  | Some (JObj props) => ret props
  | Some (JArr items) => ret (imap (λ i x, (pretty i, x)) items)
  | Some (JStr s) => ret (chars_from 0 s)
  | Some (JBool _) | Some (JNum _) => ret []
  end.

End Fs.

(* ===================================================================== *)
(** * config.js                                                           *)
(* ===================================================================== *)

Module Config.
Import Fs.

Definition maxLogsToDisplay : Z := 20.
Definition updateInterval : Z := 60000.
Definition logRotationSize : Z := 5 * 1024 * 1024.
Definition metadataFile : path := Path SectionsDir "metadata.json".
Definition maxSectionNameLength : Z := 30.
Definition maxDescriptionLength : Z := 100.
Definition defaultSection : string := "base".

(** How a path prints in a message. *)
Definition dir_string (d : dir) : string :=
  match d with SectionsDir => "sections" | BackupDir => "backups" end.

Definition path_string (p : path) : string :=
  dir_string (p_dir p) +:+ "/" +:+ p_name p.

End Config.

(* ===================================================================== *)
(** * logger.js: the section store                                        *)
(* ===================================================================== *)

Module Logger.
Import JS Json Fs Config.

Fixpoint map_chars (f : ascii → ascii) (s : string) : string :=
  match s with
  | EmptyString => EmptyString
  | String c r => String (f c) (map_chars f r)
  end.

Fixpoint drop_chars (n : nat) (s : string) : string :=
  match n, s with
  | O, _ => s
  | S n', String _ r => drop_chars n' r
  | S _, EmptyString => EmptyString
  end.

(** [s.replace(pat, rep)] with a string pattern: the first occurrence. *)
Fixpoint replace_first (pat rep s : string) : string :=
  if startsWith pat s then rep +:+ drop_chars (String.length pat) s
  else match s with
       | EmptyString => EmptyString
       | String c r => String c (replace_first pat rep r)
       end.

(** The class [[a-zA-Z0-9-_]]. *)
Definition is_section_char (c : ascii) : bool :=
  let n := nat_of_ascii c in
  ((97 <=? n)%nat && (n <=? 122)%nat)
  || ((65 <=? n)%nat && (n <=? 90)%nat)
  || ((48 <=? n)%nat && (n <=? 57)%nat)
  || ascii_eqb c "-" || ascii_eqb c "_".
Global Arguments is_section_char : simpl never.

(** [name.replace(/[^a-zA-Z0-9-_]/g, '_')]. *)
Definition sanitize (name : string) : string :=
  map_chars (λ c, if is_section_char c then c else "_"%char) name.

Definition getLogFilePath (section : string) : path :=
  Path SectionsDir (section +:+ ".txt").

Section WithPlatform.
Context `{P : Platform}.

Definition getSectionMetadata : M json :=
  try_catch
    (ex <- existsSync metadataFile;
     if ex then
       data <- readFileSync metadataFile;
       JSON_parse_or_throw data
     else ret (JObj []))
    (λ err,
       console_error "Error loading section metadata:" (Some err) ;;
       ret (JObj [])).

Definition saveSectionMetadata (metadata : json) : M unit :=
  try_catch
    (writeFileSync metadataFile (JSON_stringify metadata))
    (λ err, console_error "Error saving section metadata:" (Some err)).

Definition getSections : M (list string) :=
  try_catch
    (files <- readdirSync SectionsDir;
     ret (map (replace_first ".txt" "")
            (filter (λ file, endsWith ".txt" file
                             && negb (string_eqb file "metadata.json")) files)))
    (λ err,
       console_error "Error loading sections:" (Some err) ;;
       ret []).

Definition createSection (name description : string) : M string :=
  let sanitizedName := sanitize name in
  let logFilePath := getLogFilePath sanitizedName in
  ex <- existsSync logFilePath;
  (if negb ex then writeFileSync logFilePath "" else ret tt) ;;
  metadata <- getSectionMetadata;
  metadata' <- js_assign metadata sanitizedName
                 (JObj [("description", JStr description)]);
  saveSectionMetadata metadata' ;;
  ret sanitizedName.

Definition ensureDefaultSection : M unit :=
  sections <- getSections;
  if negb (existsb (string_eqb defaultSection) sections) then
    createSection defaultSection "General thoughts" ;;
    console_log ("Created default section: " +:+ defaultSection)
  else ret tt.

Definition loadAllLogs (section : string) : M (list string) :=
  try_catch
    (let logFilePath := getLogFilePath section in
     ex <- existsSync logFilePath;
     if ex then
       data <- readFileSync logFilePath;
       ret (filter (λ line, negb (string_eqb (trim line) ""))
              (split_on LF (trim data)))
     else ret [])
    (λ err,
       console_error "Error loading logs:" (Some err) ;;
       ret []).

Definition saveLog (section logEntry : string) : M bool :=
  try_catch
    (let logFilePath := getLogFilePath section in
     appendFileSync logFilePath (logEntry +:+ String LF "") ;;
     stats <- statSync logFilePath;
     ret (logRotationSize <? st_size stats))
    (λ err,
       console_error "Error saving log:" (Some err) ;;
       ret false).

Definition ensureDirectories : M unit :=
  exb <- existsDir BackupDir;
  (if negb exb then mkdirSync BackupDir else ret tt) ;;
  exs <- existsDir SectionsDir;
  if negb exs then mkdirSync SectionsDir else ret tt.

End WithPlatform.
End Logger.

(* ===================================================================== *)
(** * backup.js: the backup engine                                        *)
(* ===================================================================== *)

Module Backup.
Import JS Json Fs Config.

Record backupConfig : Type := BackupConfig {
  maxBackupsPerSection : nat;
  retentionDays : Z;
  useCompression : bool;
  backupExtension : string;
  compressedExtension : string;
  fullBackupPrefix : string
}.

(** The object [backupConfig] as the module creates it. *)
Definition defaultConfig : backupConfig :=
  {| maxBackupsPerSection := 5;
     retentionDays := 30;
     useCompression := true;
     backupExtension := ".bak";
     compressedExtension := ".bak.gz";
     fullBackupPrefix := "full-backup-" |}.

Inductive backupType : Type := TUnknown | TFull | TSection.

Definition backupType_eqb (a b : backupType) : bool :=
  match a, b with
  | TUnknown, TUnknown | TFull, TFull | TSection, TSection => true
  | _, _ => false
  end.

(** One element of what [listAllBackups] returns. *)
Record backup : Type := MkBackup {
  b_path : path;
  b_name : string;
  b_date : Z;
  b_size : Z;
  b_type : backupType;
  b_section : option string
}.

(** [.replace(/[:.]/g, '-')]. *)
Definition dashes (s : string) : string :=
  Logger.map_chars
    (λ c, if ascii_eqb c ":" || ascii_eqb c "." then "-"%char else c) s.

(** The characters of [s] before its first ['-'], when it has one. *)
Fixpoint before_dash (s : string) : option string :=
  match s with
  | EmptyString => None
  | String c r =>
      if ascii_eqb c "-" then Some EmptyString
      else option_map (String c) (before_dash r)
  end.

(** [file.match(/^([^-]+)-/)]: the first capture group, or [None] when
    the name does not match. *)
Definition match_section_name (file : string) : option string :=
  match before_dash file with
  | Some EmptyString => None
  | o => o
  end.

(** [b.section === section]. *)
Definition section_is (section : string) (b : backup) : bool :=
  match b_section b with
  | Some s => string_eqb s section
  | None => false
  end.

Definition msPerDay : Z := 86400000.

(** Passes a count along a loop. *)
Fixpoint fold_each {A S} (l : list A) (s : S) (body : A → S → M S) : M S :=
  match l with
  | [] => ret s
  | x :: r => s' <- body x s; fold_each r s' body
  end.

(** The lines of [forEach((backup, index) => console.log(...))]. *)
Fixpoint log_numbered (i : nat) (l : list backup) (line : nat → backup → string)
  : M unit :=
  match l with
  | [] => ret tt
  | b :: r => console_log (line i b) ;; log_numbered (S i) r line
  end.

Section WithPlatform.
Context `{P : Platform}.
Variable cfg : backupConfig.

Definition listAllBackups : M (list backup) :=
  try_catch
    (ex <- existsDir BackupDir;
     if negb ex then ret []
     else
       files <- readdirSync BackupDir;
       map_each files (λ file,
         let fullPath := Path BackupDir file in
         stats <- statSync fullPath;
         let '(type, sectionName) :=
           if startsWith (fullBackupPrefix cfg) file then (TFull, None)
           else (TSection, match_section_name file) in
         ret {| b_path := fullPath;
                b_name := file;
                b_date := st_mtime stats;
                b_size := st_size stats;
                b_type := type;
                b_section := sectionName |}))
    (λ err,
       console_error "error listing backups:" (Some err) ;;
       ret []).

Definition listBackups (fullBackups sectionBackups : option (list backup))
  : M (list backup) :=
  lists <-
    match fullBackups, sectionBackups with
    | Some f, Some s => ret (f, s)
    | _, _ =>
        allBackups <- listAllBackups;
        ret (filter (λ b, backupType_eqb (b_type b) TFull) allBackups,
             filter (λ b, backupType_eqb (b_type b) TSection) allBackups)
    end;
  let '(fullBackups, sectionBackups) := lists in
  console_log "Available backups:" ;;
  console_log "Full backups:" ;;
  (match fullBackups with
   | [] => console_log "No full backups available."
   | _ => log_numbered 0 fullBackups (λ index b,
            pretty (index + 1)%nat +:+ ". " +:+ b_name b +:+ " - "
            +:+ dateString (b_date b) +:+ " (" +:+ pretty (b_size b) +:+ ")")
   end) ;;
  console_log "Section backups:" ;;
  (match sectionBackups with
   | [] => console_log "No section backups available."
   | _ => log_numbered 0 sectionBackups (λ index b,
            pretty (index + 1)%nat +:+ ". "
            +:+ default "null" (b_section b) +:+ ": " +:+ b_name b +:+ " - "
            +:+ dateString (b_date b) +:+ " (" +:+ pretty (b_size b) +:+ ")")
   end) ;;
  console_log "Use /restore <type> <number> to restore a specific backup" ;;
  console_log "Example: /restore full 1 or /restore section 1" ;;
  ret (fullBackups ++ sectionBackups)%list.

Definition cleanupOldBackups (section : string) : M unit :=
  try_catch
    (allBackups <- listAllBackups;
     let backups :=
       filter (λ b, backupType_eqb (b_type b) TSection && section_is section b)
         allBackups in
     (if (maxBackupsPerSection cfg <? length backups)%nat then
        let toDelete := drop (maxBackupsPerSection cfg) backups in
        for_each toDelete (λ b,
          unlinkSync (b_path b) ;;
          console_log ("deleted old backup: " +:+ b_name b))
      else ret tt) ;;
     if 0 <? retentionDays cfg then
       t <- now;
       let cutoffDate := t - retentionDays cfg * msPerDay in
       let expiredBackups := filter (λ b, b_date b <? cutoffDate) backups in
       for_each expiredBackups (λ b,
         unlinkSync (b_path b) ;;
         console_log ("deleted expired backup: " +:+ b_name b))
     else ret tt)
    (λ err,
       console_error ("error cleaning up backups for section " +:+ section +:+ ":")
         (Some err)).

Definition cleanupOldFullBackups : M unit :=
  try_catch
    (listed <- listBackups None None;
     let backups := filter (λ b, backupType_eqb (b_type b) TFull) listed in
     (if (maxBackupsPerSection cfg <? length backups)%nat then
        let toDelete := drop (maxBackupsPerSection cfg) backups in
        for_each toDelete (λ b,
          unlinkSync (b_path b) ;;
          console_log "deleted old full backup: undefined")
      else ret tt) ;;
     if 0 <? retentionDays cfg then
       t <- now;
       let cutoffDate := t - retentionDays cfg * msPerDay in
       let expiredBackups := filter (λ b, b_date b <? cutoffDate) backups in
       for_each expiredBackups (λ b,
         unlinkSync (b_path b) ;;
         console_log "deleted expired full backup: undefined")
     else ret tt)
    (λ err, console_error "error cleaning up full backups:" (Some err)).

Definition getSections : M (list string) :=
  try_catch
    (files <- readdirSync SectionsDir;
     ret (map (Logger.replace_first ".txt" "")
            (filter (λ file, endsWith ".txt" file
                             && negb (string_eqb file "metadata.json")) files)))
    (λ err,
       console_error "error loading sections:" (Some err) ;;
       ret []).

Definition backupSection (section : string) (rotate : bool) : M (option path) :=
  try_catch
    (let logFilePath := Path SectionsDir (section +:+ ".txt") in
     ex <- existsSync logFilePath;
     if negb ex then
       console_log ("no log file found for section: " +:+ section) ;;
       ret None
     else
       t <- now;
       let timestamp := dashes (toISOString t) in
       let backupFileName :=
         section +:+ "-" +:+ timestamp +:+ backupExtension cfg in
       let backupPath := Path BackupDir backupFileName in
       content <- readFileSync logFilePath;
       if useCompression cfg then
         let compressed := gzipSync content in
         let compressedPath := Path BackupDir (backupFileName +:+ ".gz") in
         writeFileSync compressedPath compressed ;;
         (if rotate then writeFileSync logFilePath "" else ret tt) ;;
         console_log ("compressed backup created: " +:+ path_string compressedPath) ;;
         cleanupOldBackups section ;;
         ret (Some compressedPath)
       else
         writeFileSync backupPath content ;;
         (if rotate then writeFileSync logFilePath "" else ret tt) ;;
         console_log ("backup created: " +:+ path_string backupPath) ;;
         cleanupOldBackups section ;;
         ret (Some backupPath))
    (λ err,
       console_error ("error creating backup for section " +:+ section +:+ ":")
         (Some err) ;;
       ret None).

Definition createFullBackup : M (option path) :=
  try_catch
    (ex <- existsDir BackupDir;
     (if negb ex then mkdirSync BackupDir else ret tt) ;;
     t <- now;
     let timestamp := dashes (toISOString t) in
     let backupFileName :=
       fullBackupPrefix cfg +:+ timestamp +:+ backupExtension cfg in
     let backupPath := Path BackupDir backupFileName in
     sections <- getSections;
     t' <- now;
     exm <- existsSync metadataFile;
     metadata <-
       (if exm then
          metadataContent <- readFileSync metadataFile;
          JSON_parse_or_throw metadataContent
        else ret (JObj []));
     contents <-
       fold_each sections [] (λ section acc,
         let logFilePath := Path SectionsDir (section +:+ ".txt") in
         exs <- existsSync logFilePath;
         if exs then
           content <- readFileSync logFilePath;
           ret (obj_assign section (JStr content) acc)
         else ret acc);
     let backupData :=
       JObj [("timestamp", JStr (toISOString t'));
             ("metadata", metadata);
             ("sections", JObj contents)] in
     let backupContent := JSON_stringify backupData in
     if useCompression cfg then
       let compressed := gzipSync backupContent in
       let compressedPath := Path BackupDir (backupFileName +:+ ".gz") in
       writeFileSync compressedPath compressed ;;
       console_log ("full compressed backup created: "
                    +:+ path_string compressedPath) ;;
       cleanupOldFullBackups ;;
       ret (Some compressedPath)
     else
       writeFileSync backupPath backupContent ;;
       console_log ("full backup created: " +:+ path_string backupPath) ;;
       cleanupOldFullBackups ;;
       ret (Some backupPath))
    (λ err,
       console_error "error creating full backup:" (Some err) ;;
       ret None).

(** [fs.writeFileSync(path, content)] for a value taken from a parsed
    document: anything but a string is refused. *)
Definition writeValueSync (p : path) (content : json) : M unit :=
  match content with
  | JStr s => writeFileSync p s
  | _ => throw TypeError
  end.

Definition restoreFullBackup (backupData : json) (overwrite : bool) : M bool :=
  try_catch
    (ex <- existsDir SectionsDir;
     (if negb ex then mkdirSync SectionsDir else ret tt) ;;
     metadata <- js_get backupData "metadata";
     (if truthy metadata then
        let metadataPath := metadataFile in
        exm <- existsSync metadataPath;
        if overwrite || negb exm then
          writeFileSync metadataPath (JSON_stringify (default JNull metadata)) ;;
          console_log "metadata restored"
        else console_log "skipping metadata restoration (file exists)"
      else ret tt) ;;
     sections <- js_get backupData "sections";
     keys <- Object_entries sections;
     let sectionCount := length keys in
     entries <- Object_entries sections;
     successCount <-
       fold_each entries 0%nat (λ '(section, content) successCount,
         let logFilePath := Path SectionsDir (section +:+ ".txt") in
         exs <- existsSync logFilePath;
         if overwrite || negb exs then
           writeValueSync logFilePath content ;;
           ret (S successCount)
         else
           console_log ("skipping section " +:+ section +:+ " (file exists)") ;;
           ret successCount);
     console_log ("restored " +:+ pretty successCount +:+ " of "
                  +:+ pretty sectionCount +:+ " sections") ;;
     ret true)
    (λ err,
       console_error "error restoring full backup:" (Some err) ;;
       ret false).

Definition restoreSectionBackup (section content : string) (overwrite : bool)
  : M bool :=
  try_catch
    (let logFilePath := Path SectionsDir (section +:+ ".txt") in
     ex <- existsSync logFilePath;
     if overwrite || negb ex then
       writeFileSync logFilePath content ;;
       console_log ("section " +:+ section +:+ " restored successfully") ;;
       ret true
     else
       console_log ("skipping section " +:+ section +:+ " (file exists)") ;;
       ret false)
    (λ err,
       console_error ("error restoring section " +:+ section +:+ ":") (Some err) ;;
       ret false).

(** [section] is [None] for [null]; the empty string counts as absent, as
    every falsy value does. *)
Definition restoreFromBackup (backupPath : path) (section : option string)
    (overwrite : bool) : M bool :=
  try_catch
    (ex <- existsSync backupPath;
     if negb ex then
       console_error ("backup file not found: " +:+ path_string backupPath) None ;;
       ret false
     else
       backupContent <-
         (if endsWith ".gz" (path_string backupPath) then
            compressed <- readFileSync backupPath;
            gunzip_or_throw compressed
          else readFileSync backupPath);
       if startsWith (fullBackupPrefix cfg) (p_name backupPath) then
         backupData <- JSON_parse_or_throw backupContent;
         restoreFullBackup backupData overwrite
       else if truthy (JStr <$> section) then
         restoreSectionBackup (default "" section) backupContent overwrite
       else
         console_error "section name required for individual backup restoration"
           None ;;
         ret false)
    (λ err,
       console_error "error restoring from backup:" (Some err) ;;
       ret false).

End WithPlatform.

(** [list[i]] for an integer [i]: [undefined] outside the list. *)
Definition at_index {A} (i : Z) (l : list A) : option A :=
  if i <? 0 then None else l !! Z.to_nat i.

Definition restoreBackup (type : string) (number : Z)
    (fullBackups sectionBackups : list backup) : M unit :=
  let backup :=
    if string_eqb type "full" then at_index (number - 1) fullBackups
    else if string_eqb type "section" then at_index (number - 1) sectionBackups
    else None in
  match backup with
  | None => console_log "Invalid backup number or type."
  | Some b => console_log ("Restoring backup: " +:+ b_name b)
  end.

End Backup.

(* ===================================================================== *)
(** * logger.js: the backup of the log rotation                           *)
(* ===================================================================== *)

Module Rotation.
Import JS Json Fs Config Logger Backup.

Section WithPlatform.
Context `{P : Platform}.

Definition createBackup (section : string) (rotate : bool) : M bool :=
  try_catch
    (let logFilePath := getLogFilePath section in
     ex <- existsSync logFilePath;
     if ex then
       t <- now;
       let timestamp := dashes (toISOString t) in
       let backupPath :=
         Path BackupDir (section +:+ "-" +:+ timestamp +:+ ".bak") in
       copyFileSync logFilePath backupPath ;;
       if rotate then
         writeFileSync logFilePath "" ;;
         ret true
       else
         console_log ("Logs backed up to " +:+ path_string backupPath) ;;
         ret false
     else ret false)
    (λ err,
       console_error "Error creating backup:" (Some err) ;;
       ret false).

End WithPlatform.
End Rotation.

(* ===================================================================== *)
(** * A concrete platform                                                 *)
(* ===================================================================== *)

(** The parts of Node.js the program calls, written out: the JSON codec
    with its two-space layout, the ISO rendering of a date, a directory
    listing, and a lossless stand-in for zlib.  Text is held as its UTF-8
    bytes, and a JSON number is an integer. *)

Module Node.
Import JS Json Fs.

Definition DQ : ascii := "034"%char.
Definition BS : ascii := "092"%char.
Definition NL : string := String LF EmptyString.

(** ** [JSON.stringify(value, null, 2)] *)

Definition hex_digit (n : N) : ascii :=
  match n with
  | 0 => "0" | 1 => "1" | 2 => "2" | 3 => "3" | 4 => "4" | 5 => "5"
  | 6 => "6" | 7 => "7" | 8 => "8" | 9 => "9" | 10 => "a" | 11 => "b"
  | 12 => "c" | 13 => "d" | 14 => "e" | _ => "f"
  end%char%N.

Definition one (c : ascii) : string := String c EmptyString.

(** The text of one character inside a JSON string. *)
Definition escape_char (c : ascii) : string :=
  let n := N_of_ascii c in
  if ascii_eqb c DQ then String BS (one DQ)
  else if ascii_eqb c BS then String BS (one BS)
  else if (n =? 8)%N then String BS "b"
  else if (n =? 9)%N then String BS "t"
  else if (n =? 10)%N then String BS "n"
  else if (n =? 12)%N then String BS "f"
  else if (n =? 13)%N then String BS "r"
  else if (n <? 32)%N then
    String BS ("u00" +:+ String (hex_digit (n / 16)) (one (hex_digit (n mod 16))))
  else one c.

Fixpoint escape (s : string) : string :=
  match s with
  | EmptyString => EmptyString
  | String c r => escape_char c +:+ escape r
  end.

Definition quote (s : string) : string := String DQ (escape s +:+ one DQ).

Fixpoint pad (n : nat) : string :=
  match n with O => EmptyString | S k => String " " (pad k) end.

(** The strings of [l], with a comma between two of them. *)
Fixpoint commas (l : list string) : string :=
  match l with
  | [] => EmptyString
  | [x] => x
  | x :: r => x +:+ "," +:+ commas r
  end.

Fixpoint stringify (indent : nat) (v : json) : string :=
  match v with
  | JNull => "null"
  | JBool b => if b then "true" else "false"
  | JNum n => pretty n
  | JStr s => quote s
  | JArr items =>
      match items with
      | [] => "[]"
      | _ :: _ =>
          "[" +:+ commas (map (λ x, NL +:+ pad (indent + 2)
                                    +:+ stringify (indent + 2) x) items)
          +:+ NL +:+ pad indent +:+ "]"
      end
  | JObj props =>
      match props with
      | [] => "{}"
      | _ :: _ =>
          "{" +:+ commas (map (λ kx, let '(k, x) := kx in
                                NL +:+ pad (indent + 2) +:+ quote k +:+ ": "
                                +:+ stringify (indent + 2) x) props)
          +:+ NL +:+ pad indent +:+ "}"
      end
  end.

(** ** [JSON.parse] *)

(** The white space of the JSON grammar: space, TAB, LF and CR. *)
Definition is_ws (c : ascii) : bool :=
  let n := N_of_ascii c in
  (n =? 32)%N || (n =? 9)%N || (n =? 10)%N || (n =? 13)%N.

Fixpoint skip_ws (s : string) : string :=
  match s with
  | EmptyString => EmptyString
  | String c r => if is_ws c then skip_ws r else s
  end.

Definition is_digit (c : ascii) : bool :=
  let n := N_of_ascii c in (48 <=? n)%N && (n <=? 57)%N.

Definition digit_val (c : ascii) : N := (N_of_ascii c - 48)%N.

Fixpoint read_number (acc : N) (s : string) : N * string :=
  match s with
  | EmptyString => (acc, s)
  | String c r =>
      if is_digit c then read_number (acc * 10 + digit_val c) r else (acc, s)
  end.

(** The digits of an integer: a lone zero, or a run that does not start
    with a zero. *)
Definition parse_nat (s : string) : option (N * string) :=
  match s with
  | EmptyString => None
  | String c r =>
      if ascii_eqb c "0" then
        match r with
        | String d _ => if is_digit d then None else Some (0%N, r)
        | EmptyString => Some (0%N, r)
        end
      else if is_digit c then Some (read_number 0 s)
      else None
  end.

(** What may not follow the digits of an integer: a fraction or an
    exponent, which this model of numbers does not hold. *)
Definition ends_integer (s : string) : bool :=
  match s with
  | EmptyString => true
  | String c _ =>
      negb (ascii_eqb c "." || ascii_eqb c "e" || ascii_eqb c "E")
  end.

Definition parse_number (s : string) : option (json * string) :=
  let '(negative, digits) :=
    match s with
    | String c r => if ascii_eqb c "-" then (true, r) else (false, s)
    | EmptyString => (false, s)
    end in
  match parse_nat digits with
  | Some (n, rest) =>
      if ends_integer rest
      then Some (JNum (if negative then - Z.of_N n else Z.of_N n), rest)
      else None
  | None => None
  end.

Definition hex_val (c : ascii) : option N :=
  let n := N_of_ascii c in
  if (48 <=? n)%N && (n <=? 57)%N then Some (n - 48)%N
  else if (97 <=? n)%N && (n <=? 102)%N then Some (n - 87)%N
  else if (65 <=? n)%N && (n <=? 70)%N then Some (n - 55)%N
  else None.

Definition hex4 (a b c d : ascii) : option N :=
  match hex_val a, hex_val b, hex_val c, hex_val d with
  | Some x, Some y, Some z, Some u => Some (((x * 16 + y) * 16 + z) * 16 + u)%N
  | _, _, _, _ => None
  end.

Definition byte (n : N) : ascii := ascii_of_N n.

(** The UTF-8 bytes of a code unit of an escape; a surrogate has none. *)
Definition utf8 (n : N) : option string :=
  if (n <? 128)%N then Some (one (byte n))
  else if (n <? 2048)%N then
    Some (String (byte (192 + n / 64)) (one (byte (128 + n mod 64))))
  else if (55296 <=? n)%N && (n <? 57344)%N then None
  else
    Some (String (byte (224 + n / 4096))
            (String (byte (128 + (n / 64) mod 64))
               (one (byte (128 + n mod 64))))).

Definition simple_escape (e : ascii) : option ascii :=
  if ascii_eqb e DQ then Some DQ
  else if ascii_eqb e BS then Some BS
  else if ascii_eqb e "/" then Some "/"%char
  else if ascii_eqb e "b" then Some "008"%char
  else if ascii_eqb e "f" then Some "012"%char
  else if ascii_eqb e "n" then Some LF
  else if ascii_eqb e "r" then Some CR
  else if ascii_eqb e "t" then Some "009"%char
  else None.

(** The characters of a string up to its closing quote, and what follows
    the quote. *)
Fixpoint parse_string (s : string) : option (string * string) :=
  match s with
  | EmptyString => None
  | String c r =>
      if ascii_eqb c DQ then Some (EmptyString, r)
      else if ascii_eqb c BS then
        match r with
        | EmptyString => None
        | String e r1 =>
            if ascii_eqb e "u" then
              match r1 with
              | String a (String b (String c' (String d r2))) =>
                  match hex4 a b c' d with
                  | Some n =>
                      match utf8 n, parse_string r2 with
                      | Some bytes, Some (str, rest) =>
                          Some (bytes +:+ str, rest)
                      | _, _ => None
                      end
                  | None => None
                  end
              | _ => None
              end
            else
              match simple_escape e, parse_string r1 with
              | Some ch, Some (str, rest) => Some (String ch str, rest)
              | _, _ => None
              end
        end
      else if (N_of_ascii c <? 32)%N then None
      else
        match parse_string r with
        | Some (str, rest) => Some (String c str, rest)
        | None => None
        end
  end.

(** [s] without the prefix [p]. *)
Fixpoint strip_prefix (p s : string) : option string :=
  match p, s with
  | EmptyString, _ => Some s
  | String a p', String b s' =>
      if ascii_eqb a b then strip_prefix p' s' else None
  | String _ _, EmptyString => None
  end.

Definition literal (p : string) (v : json) (s : string)
  : option (json * string) :=
  match strip_prefix p s with
  | Some rest => Some (v, rest)
  | None => None
  end.

(** The elements of an array after its bracket, by the parser [value] of
    one element. *)
Fixpoint parse_items (value : string → option (json * string)) (fuel : nat)
    (s : string) : option (list json * string) :=
  match fuel with
  | O => None
  | S n =>
      match value s with
      | None => None
      | Some (v, r) =>
          match skip_ws r with
          | EmptyString => None
          | String c r1 =>
              if ascii_eqb c "," then
                match parse_items value n r1 with
                | Some (vs, rest) => Some (v :: vs, rest)
                | None => None
                end
              else if ascii_eqb c "]" then Some ([v], r1)
              else None
          end
      end
  end.

(** The members of an object after its brace, in the order of the text. *)
Fixpoint parse_members (value : string → option (json * string)) (fuel : nat)
    (s : string) : option (list (string * json) * string) :=
  match fuel with
  | O => None
  | S n =>
      match skip_ws s with
      | EmptyString => None
      | String q r0 =>
          if ascii_eqb q DQ then
            match parse_string r0 with
            | None => None
            | Some (k, r1) =>
                match skip_ws r1 with
                | EmptyString => None
                | String colon r2 =>
                    if ascii_eqb colon ":" then
                      match value r2 with
                      | None => None
                      | Some (v, r3) =>
                          match skip_ws r3 with
                          | EmptyString => None
                          | String c r4 =>
                              if ascii_eqb c "," then
                                match parse_members value n r4 with
                                | Some (kvs, rest) => Some ((k, v) :: kvs, rest)
                                | None => None
                                end
                              else if ascii_eqb c "}" then Some ([(k, v)], r4)
                              else None
                          end
                      end
                    else None
                end
            end
          else None
      end
  end.

(** The object of a member list: a repeated key keeps its first place and
    its last value. *)
Definition object_of (members : list (string * json)) : json :=
  JObj (fold_left (λ props kv, obj_set kv.1 kv.2 props) members []).

Fixpoint parse_value (fuel : nat) (s : string) : option (json * string) :=
  match fuel with
  | O => None
  | S n =>
      match skip_ws s with
      | EmptyString => None
      | String c r =>
          if ascii_eqb c "n" then literal "ull" JNull r
          else if ascii_eqb c "t" then literal "rue" (JBool true) r
          else if ascii_eqb c "f" then literal "alse" (JBool false) r
          else if ascii_eqb c DQ then
            match parse_string r with
            | Some (str, rest) => Some (JStr str, rest)
            | None => None
            end
          else if ascii_eqb c "[" then
            match skip_ws r with
            | EmptyString => None
            | String c1 r1 =>
                if ascii_eqb c1 "]" then Some (JArr [], r1)
                else
                  match parse_items (parse_value n) n r with
                  | Some (vs, rest) => Some (JArr vs, rest)
                  | None => None
                  end
            end
          else if ascii_eqb c "{" then
            match skip_ws r with
            | EmptyString => None
            | String c1 r1 =>
                if ascii_eqb c1 "}" then Some (JObj [], r1)
                else
                  match parse_members (parse_value n) n r with
                  | Some (kvs, rest) => Some (object_of kvs, rest)
                  | None => None
                  end
            end
          else parse_number (String c r)
      end
  end.

Definition parse (s : string) : option json :=
  match parse_value (S (String.length s)) s with
  | Some (v, rest) =>
      match skip_ws rest with
      | EmptyString => Some v
      | String _ _ => None
      end
  | None => None
  end.

(** ** [Date.prototype.toISOString] *)

Fixpoint zeros (k : nat) (s : string) : string :=
  match k with O => s | S k' => String "0" (zeros k' s) end.

(** [n] in decimal, with zeros in front up to [width] digits. *)
Definition digits (width : nat) (n : Z) : string :=
  let s := pretty n in zeros (width - String.length s)%nat s.

(** Year, month and day of the day number [days] counted from
    1970-01-01, in the proleptic Gregorian calendar. *)
Definition civil (days : Z) : Z * Z * Z :=
  let z := days + 719468 in
  let era := z / 146097 in
  let doe := z - era * 146097 in
  let yoe := (doe - doe / 1460 + doe / 36524 - doe / 146096) / 365 in
  let doy := doe - (365 * yoe + yoe / 4 - yoe / 100) in
  let mp := (5 * doy + 2) / 153 in
  let d := doy - (153 * mp + 2) / 5 + 1 in
  let m := if mp <? 10 then mp + 3 else mp - 9 in
  (yoe + era * 400 + (if m <=? 2 then 1 else 0), m, d).

Definition toISO (t : Z) : string :=
  let '(y, m, d) := civil (t / 86400000) in
  let ms := t mod 86400000 in
  let year :=
    if (0 <=? y) && (y <=? 9999) then digits 4 y
    else if y <? 0 then "-" +:+ digits 6 (- y)
    else "+" +:+ digits 6 y in
  year +:+ "-" +:+ digits 2 m +:+ "-" +:+ digits 2 d
  +:+ "T" +:+ digits 2 (ms / 3600000)
  +:+ ":" +:+ digits 2 (ms / 60000 mod 60)
  +:+ ":" +:+ digits 2 (ms / 1000 mod 60)
  +:+ "." +:+ digits 3 (ms mod 1000) +:+ "Z".

(** ** [fs.readdirSync] and zlib *)

(** The names of a directory, in the order of the map. *)
Definition listing (m : gmap string file) : list string :=
  (map_to_list m).*1.

(** A lossless stand-in for gzip: the two bytes that open a gzip member,
    then the data as they are. *)
Definition gzip (s : string) : string := String "031" (String "139" s).

Definition gunzip (s : string) : option string :=
  match s with
  | String a (String b r) =>
      if ascii_eqb a "031" && ascii_eqb b "139" then Some r else None
  | _ => None
  end.

End Node.

(* ===================================================================== *)
(** * Properties of the string primitives                                 *)
(* ===================================================================== *)

Module JSFacts.
Import JS.

Lemma ascii_eqb_refl c : ascii_eqb c c = true.
Proof. apply Ascii.eqb_refl. Qed.

Lemma ascii_eqb_eq a b : ascii_eqb a b = true ↔ a = b.
Proof. apply Ascii.eqb_eq. Qed.

Lemma ascii_eqb_neq a b : ascii_eqb a b = false ↔ a ≠ b.
Proof. apply Ascii.eqb_neq. Qed.

Lemma ascii_eqb_sym a b : ascii_eqb a b = ascii_eqb b a.
Proof. apply Ascii.eqb_sym. Qed.

Lemma string_eqb_eq a b : string_eqb a b = true ↔ a = b.
Proof. apply String.eqb_eq. Qed.

Lemma string_eqb_neq a b : string_eqb a b = false ↔ a ≠ b.
Proof. apply String.eqb_neq. Qed.

Lemma string_eqb_refl a : string_eqb a a = true.
Proof. apply String.eqb_refl. Qed.

Lemma app_nil_l (s : string) : "" +:+ s = s.
Proof. reflexivity. Qed.

Lemma app_cons c (s t : string) : String c s +:+ t = String c (s +:+ t).
Proof. reflexivity. Qed.

Lemma app_empty_r (s : string) : s +:+ "" = s.
Proof. induction s as [|c s IH]; [done | by rewrite app_cons, IH]. Qed.

Lemma app_assoc (a b c : string) : (a +:+ b) +:+ c = a +:+ (b +:+ c).
Proof. induction a as [|x a IH]; [done | by rewrite !app_cons, IH]. Qed.

Lemma rev_string_app (a b : string) :
  rev_string (a +:+ b) = rev_string b +:+ rev_string a.
Proof.
  induction a as [|x a IH].
  - by rewrite app_nil_l, app_empty_r.
  - rewrite app_cons. simpl. by rewrite IH, app_assoc.
Qed.

Lemma rev_string_involutive (s : string) : rev_string (rev_string s) = s.
Proof.
  induction s as [|c s IH]; simpl; [done |].
  by rewrite rev_string_app, IH.
Qed.

Lemma startsWith_app (p s : string) : startsWith p (p +:+ s) = true.
Proof.
  induction p as [|c p IH]; [done |].
  rewrite app_cons; simpl. by rewrite ascii_eqb_refl.
Qed.

Lemma endsWith_app (p s : string) : endsWith p (s +:+ p) = true.
Proof. unfold endsWith. rewrite rev_string_app. apply startsWith_app. Qed.

Lemma endsWith_gz_bak (x : string) : endsWith ".gz" (x +:+ ".bak") = false.
Proof. unfold endsWith. by rewrite rev_string_app. Qed.

Lemma includes_char_app c (a b : string) :
  includes_char c (a +:+ b) = includes_char c a || includes_char c b.
Proof.
  induction a as [|x a IH]; [done |].
  rewrite app_cons; simpl. by rewrite IH, orb_assoc.
Qed.

End JSFacts.

(* ===================================================================== *)
(** * tag.js: extracting the tag of a tagged message                      *)
(* ===================================================================== *)

Module TagFacts.
Import JS JSFacts Tag.

(** No character of the string is a line terminator. *)
Fixpoint single_line (s : string) : bool :=
  match s with
  | EmptyString => true
  | String c r => negb (is_line_terminator c) && single_line r
  end.

Lemma lazy_until_close_tag (tag rest : string) :
  includes_char "]" tag = false →
  single_line tag = true →
  lazy_until_close (tag +:+ String "]" rest) = Some tag.
Proof.
  induction tag as [|c tag IH]; rewrite ?app_cons, ?app_nil_l; simpl;
    intros Hclose Hline.
  - done.
  - apply orb_false_iff in Hclose as [Hc Hclose].
    apply andb_true_iff in Hline as [Hl Hline].
    rewrite ascii_eqb_sym in Hc. rewrite Hc.
    apply negb_true_iff in Hl. rewrite Hl.
    by rewrite IH.
Qed.

Lemma match_tag_tagged (tag message : string) :
  includes_char "]" tag = false →
  single_line tag = true →
  match_tag (createTaggedMessage tag message) = Some tag.
Proof.
  intros Hclose Hline. unfold createTaggedMessage.
  rewrite app_cons, app_nil_l. simpl.
  change ("] " +:+ message) with (String "]" (" " +:+ message)).
  by rewrite lazy_until_close_tag.
Qed.

(** C10, as amended: for a tag with no closing bracket and no line
    terminator, and any message, the tagged message [[tag] message] has a
    tag and [extractTag] gives back exactly [tag]. *)
Theorem extractTag_createTaggedMessage (tag message : string) :
  includes_char "]" tag = false →
  single_line tag = true →
  hasTag (createTaggedMessage tag message) = true
  ∧ extractTag (createTaggedMessage tag message) = Some tag.
Proof.
  intros Hclose Hline.
  assert (Hm := match_tag_tagged tag message Hclose Hline).
  assert (Hh : hasTag (createTaggedMessage tag message) = true).
  { unfold hasTag. rewrite Hm. apply andb_true_intro; split.
    - unfold createTaggedMessage. by rewrite app_cons.
    - apply bool_decide_eq_true. eauto. }
  split; [done |]. unfold extractTag. by rewrite Hh.
Qed.

Lemma extractTag_createTaggedMessage_witness :
  hasTag (createTaggedMessage "todo" "buy milk") = true
  ∧ extractTag (createTaggedMessage "todo" "buy milk") = Some "todo".
Proof. apply extractTag_createTaggedMessage; reflexivity. Defined.

(** C10, as stated, fails: a tag that holds a line feed has no closing
    bracket, yet the pattern cannot cross the line feed and no tag is
    found. *)
Lemma extractTag_createTaggedMessage_line_feed :
  ¬ (∀ tag message : string,
       includes_char "]" tag = false →
       extractTag (createTaggedMessage tag message) = Some tag).
Proof.
  intros H.
  specialize (H (String "a" (String LF "b")) "m" eq_refl).
  vm_compute in H. discriminate H.
Qed.

End TagFacts.

(* ===================================================================== *)
(** * Reasoning about programs in the monad                               *)
(* ===================================================================== *)

Module FsFacts.
Import JS Json Fs Config.

(** [run m w Q]: running [m] from [w] ends in an outcome and a world that
    satisfy [Q]. *)
Definition run {A} (m : M A) (w : world) (Q : outcome A → world → Prop) : Prop :=
  Q (m w).1 (m w).2.

(** [w'] is [w] after some calls that only read: the same files, clock and
    trace, and possibly fewer pending faults. *)
Definition quiet (w w' : world) : Prop :=
  sectionsDir w' = sectionsDir w ∧ backupDir w' = backupDir w
  ∧ clock w' = clock w ∧ trace w' = trace w.

Lemma quiet_refl w : quiet w w.
Proof. by repeat split. Qed.

Lemma quiet_trans w1 w2 w3 : quiet w1 w2 → quiet w2 w3 → quiet w1 w3.
Proof.
  intros (?&?&?&?) (?&?&?&?). repeat split; congruence.
Qed.

Lemma quiet_set_faults f w : quiet w (set_faults f w).
Proof. by repeat split. Qed.

Lemma quiet_get_dir d w w' : quiet w w' → get_dir d w' = get_dir d w.
Proof. intros (?&?&?&?). by destruct d. Qed.

Lemma quiet_lookup_file p w w' : quiet w w' → lookup_file p w' = lookup_file p w.
Proof. intros H. unfold lookup_file. by rewrite (quiet_get_dir _ _ _ H). Qed.

Lemma run_mono {A} (m : M A) w (Q Q' : outcome A → world → Prop) :
  run m w Q → (∀ r w', Q r w' → Q' r w') → run m w Q'.
Proof. unfold run. auto. Qed.

Lemma run_ret {A} (a : A) w Q : Q (Ok a) w → run (ret a) w Q.
Proof. done. Qed.

Lemma run_throw {A} e w (Q : outcome A → world → Prop) :
  Q (Throw e) w → run (throw e) w Q.
Proof. done. Qed.

Lemma run_bind {A B} (m : M A) (k : A → M B) w Q :
  run m w (λ r w', match r with
                   | Ok a => run (k a) w' Q
                   | Throw e => Q (Throw e) w'
                   end) →
  run (bind m k) w Q.
Proof. unfold run, bind. by destruct (m w) as [[a|e] w']. Qed.

Lemma run_try_catch {A} (m : M A) (h : exn → M A) w Q :
  run m w (λ r w', match r with
                   | Ok a => Q (Ok a) w'
                   | Throw e => run (h e) w' Q
                   end) →
  run (try_catch m h) w Q.
Proof. unfold run, try_catch. by destruct (m w) as [[a|e] w']. Qed.

Lemma run_if {A} (b : bool) (m1 m2 : M A) w Q :
  (b = true → run m1 w Q) → (b = false → run m2 w Q) →
  run (if b then m1 else m2) w Q.
Proof. destruct b; auto. Qed.

(** ** The primitives, on any machine *)

Lemma run_fault w (Q : outcome unit → world → Prop) :
  (∀ w', quiet w w' → Q (Ok tt) w') →
  (∀ w', quiet w w' → Q (Throw EIO) w') →
  run fault w Q.
Proof.
  intros Hok Hthrow. unfold run, fault.
  destruct (faults w) as [|[] f]; simpl; auto using quiet_set_faults.
Qed.

Lemma run_console_log msg w (Q : outcome unit → world → Prop) :
  Q (Ok tt) (emit (Log msg) w) → run (console_log msg) w Q.
Proof. done. Qed.

Lemma run_console_error msg e w (Q : outcome unit → world → Prop) :
  Q (Ok tt) (emit (LogError msg e) w) → run (console_error msg e) w Q.
Proof. done. Qed.

Lemma run_now w (Q : outcome Z → world → Prop) :
  Q (Ok (clock w)) w → run now w Q.
Proof. done. Qed.

Lemma run_existsSync p w (Q : outcome bool → world → Prop) :
  Q (Ok (bool_decide (is_Some (lookup_file p w)))) w → run (existsSync p) w Q.
Proof. done. Qed.

Lemma run_existsDir d w (Q : outcome bool → world → Prop) :
  Q (Ok (bool_decide (is_Some (get_dir d w)))) w → run (existsDir d) w Q.
Proof. done. Qed.

Lemma run_readFileSync p w (Q : outcome string → world → Prop) :
  (∀ w' f, quiet w w' → lookup_file p w = Some f → Q (Ok (f_data f)) w') →
  (∀ w' e, quiet w w' → Q (Throw e) w') →
  run (readFileSync p) w Q.
Proof.
  intros Hok Hthrow. unfold readFileSync. apply run_bind, run_fault.
  - intros w' Hq. unfold run.
    rewrite (quiet_lookup_file _ _ _ Hq).
    destruct (lookup_file p w) eqn:E; simpl; eauto.
  - intros w' Hq. eauto.
Qed.

Lemma run_statSync p w (Q : outcome stats → world → Prop) :
  (∀ w' f, quiet w w' → lookup_file p w = Some f →
     Q (Ok (Stats (f_mtime f) (Z.of_nat (String.length (f_data f))))) w') →
  (∀ w' e, quiet w w' → Q (Throw e) w') →
  run (statSync p) w Q.
Proof.
  intros Hok Hthrow. unfold statSync. apply run_bind, run_fault.
  - intros w' Hq. unfold run.
    rewrite (quiet_lookup_file _ _ _ Hq).
    destruct (lookup_file p w) eqn:E; simpl; eauto.
  - intros w' Hq. eauto.
Qed.

Lemma run_writeFileSync p data w (Q : outcome unit → world → Prop) :
  (∀ w' m, quiet w w' → get_dir (p_dir p) w = Some m →
     Q (Ok tt)
       (emit (Wrote p)
          (set_dir (p_dir p) (<[p_name p := File data (clock w)]> m) w'))) →
  (∀ w' e, quiet w w' → Q (Throw e) w') →
  run (writeFileSync p data) w Q.
Proof.
  intros Hok Hthrow. unfold writeFileSync. apply run_bind, run_fault.
  - intros w' Hq. unfold run.
    rewrite (quiet_get_dir _ _ _ Hq).
    destruct (get_dir (p_dir p) w) eqn:E; simpl; [|by eauto].
    destruct Hq as (?&?&Hc&?). rewrite Hc. apply Hok; [by repeat split | done].
  - intros w' Hq. eauto.
Qed.

Lemma run_unlinkSync p w (Q : outcome unit → world → Prop) :
  (∀ w' m, quiet w w' → get_dir (p_dir p) w = Some m →
     is_Some (m !! p_name p) →
     Q (Ok tt) (emit (Unlinked p) (set_dir (p_dir p) (delete (p_name p) m) w'))) →
  (∀ w' e, quiet w w' → Q (Throw e) w') →
  run (unlinkSync p) w Q.
Proof.
  intros Hok Hthrow. unfold unlinkSync. apply run_bind, run_fault.
  - intros w' Hq. unfold run.
    rewrite (quiet_get_dir _ _ _ Hq).
    destruct (get_dir (p_dir p) w) eqn:E; simpl; [|by eauto].
    destruct (g !! p_name p) eqn:E'; simpl; [|by eauto].
    apply Hok; eauto.
  - intros w' Hq. eauto.
Qed.

Lemma run_mkdirSync d w (Q : outcome unit → world → Prop) :
  (∀ w', quiet w w' → is_Some (get_dir d w) → Q (Ok tt) w') →
  (∀ w', quiet w w' → get_dir d w = None →
     Q (Ok tt) (emit (MadeDir d) (set_dir d ∅ w'))) →
  (∀ w' e, quiet w w' → Q (Throw e) w') →
  run (mkdirSync d) w Q.
Proof.
  intros Hex Hnew Hthrow. unfold mkdirSync. apply run_bind, run_fault.
  - intros w' Hq. unfold run.
    rewrite (quiet_get_dir _ _ _ Hq).
    destruct (get_dir d w) eqn:E; simpl; eauto.
  - intros w' Hq. eauto.
Qed.

Section WithPlatform.
Context `{P : Platform}.

Lemma run_readdirSync d w (Q : outcome (list string) → world → Prop) :
  (∀ w' m, quiet w w' → get_dir d w = Some m → Q (Ok (readdir m)) w') →
  (∀ w' e, quiet w w' → Q (Throw e) w') →
  run (readdirSync d) w Q.
Proof.
  intros Hok Hthrow. unfold readdirSync. apply run_bind, run_fault.
  - intros w' Hq. unfold run.
    rewrite (quiet_get_dir _ _ _ Hq).
    destruct (get_dir d w) eqn:E; simpl; eauto.
  - intros w' Hq. eauto.
Qed.

End WithPlatform.

(** ** The primitives, with the pending faults followed *)

Lemma run_fault_cases w (Q : outcome unit → world → Prop) :
  (∀ w', quiet w w' → faults w' = tail (faults w) →
     head (faults w) = Some true → Q (Throw EIO) w') →
  (∀ w', quiet w w' → faults w' = tail (faults w) →
     head (faults w) ≠ Some true → Q (Ok tt) w') →
  run fault w Q.
Proof.
  intros Hthrow Hok. unfold run, fault.
  destruct (faults w) as [|[] f] eqn:E; simpl.
  - apply Hok; [apply quiet_set_faults | done | done].
  - apply Hthrow; [apply quiet_set_faults | done | done].
  - apply Hok; [apply quiet_set_faults | done | done].
Qed.

Lemma run_readFileSync_cases p w (Q : outcome string → world → Prop) :
  (∀ w', quiet w w' → faults w' = tail (faults w) →
     head (faults w) = Some true → Q (Throw EIO) w') →
  (∀ w', quiet w w' → faults w' = tail (faults w) →
     head (faults w) ≠ Some true →
     match lookup_file p w with
     | Some f => Q (Ok (f_data f)) w'
     | None => Q (Throw ENOENT) w'
     end) →
  run (readFileSync p) w Q.
Proof.
  intros Hthrow Hok. unfold readFileSync. apply run_bind, run_fault_cases.
  - intros w' Hq Hf Hh. by apply Hthrow.
  - intros w' Hq Hf Hh. specialize (Hok w' Hq Hf Hh). unfold run.
    rewrite (quiet_lookup_file _ _ _ Hq).
    by destruct (lookup_file p w).
Qed.

Lemma run_writeFileSync_cases p data w (Q : outcome unit → world → Prop) :
  (∀ w', quiet w w' → faults w' = tail (faults w) →
     head (faults w) = Some true → Q (Throw EIO) w') →
  (∀ w', quiet w w' → faults w' = tail (faults w) →
     head (faults w) ≠ Some true →
     match get_dir (p_dir p) w with
     | Some m =>
         Q (Ok tt)
           (emit (Wrote p)
              (set_dir (p_dir p) (<[p_name p := File data (clock w)]> m) w'))
     | None => Q (Throw ENOENT) w'
     end) →
  run (writeFileSync p data) w Q.
Proof.
  intros Hthrow Hok. unfold writeFileSync. apply run_bind, run_fault_cases.
  - intros w' Hq Hf Hh. by apply Hthrow.
  - intros w' Hq Hf Hh. specialize (Hok w' Hq Hf Hh). unfold run.
    rewrite (quiet_get_dir _ _ _ Hq).
    destruct (get_dir (p_dir p) w); [|done].
    destruct Hq as (_&_&Hc&_). simpl. by rewrite Hc.
Qed.

Lemma faults_head_true n (f : list bool) :
  head f = Some true → true ∈ take (S n) f.
Proof. destruct f as [|[] f]; [done | | done]. intros _. by left. Qed.

Lemma faults_head_other n (f : list bool) :
  head f ≠ Some true → true ∈ take (S n) f ↔ true ∈ take n (tail f).
Proof.
  destruct f as [|[] f]; simpl; [by destruct n | done |].
  intros _. rewrite elem_of_cons. split; [by intros [|] | by right].
Qed.

(** ** The primitives, on a machine where nothing fails *)

Lemma set_faults_id w : set_faults (faults w) w = w.
Proof. by destruct w. Qed.

Lemma run_fault_none w (Q : outcome unit → world → Prop) :
  faults w = [] → Q (Ok tt) w → run fault w Q.
Proof.
  intros Hf HQ. unfold run, fault. rewrite Hf. simpl.
  by rewrite <- Hf, set_faults_id.
Qed.

Lemma run_readFileSync_ok p f w (Q : outcome string → world → Prop) :
  faults w = [] → lookup_file p w = Some f →
  Q (Ok (f_data f)) w → run (readFileSync p) w Q.
Proof.
  intros Hf Hp HQ. unfold readFileSync. apply run_bind, run_fault_none; [done |].
  unfold run. by rewrite Hp.
Qed.

Lemma run_writeFileSync_ok p data m w (Q : outcome unit → world → Prop) :
  faults w = [] → get_dir (p_dir p) w = Some m →
  Q (Ok tt)
    (emit (Wrote p) (set_dir (p_dir p) (<[p_name p := File data (clock w)]> m) w)) →
  run (writeFileSync p data) w Q.
Proof.
  intros Hf Hp HQ. unfold writeFileSync. apply run_bind, run_fault_none; [done |].
  unfold run. by rewrite Hp.
Qed.

Lemma run_writeFileSync_nodir p data w (Q : outcome unit → world → Prop) :
  faults w = [] → get_dir (p_dir p) w = None →
  Q (Throw ENOENT) w → run (writeFileSync p data) w Q.
Proof.
  intros Hf Hp HQ. unfold writeFileSync. apply run_bind, run_fault_none; [done |].
  unfold run. by rewrite Hp.
Qed.

Lemma run_appendFileSync_ok p data m w (Q : outcome unit → world → Prop) :
  faults w = [] → get_dir (p_dir p) w = Some m →
  Q (Ok tt)
    (emit (Appended p)
       (set_dir (p_dir p)
          (<[p_name p := File (from_option f_data "" (m !! p_name p) +:+ data)
                           (clock w)]> m) w)) →
  run (appendFileSync p data) w Q.
Proof.
  intros Hf Hp HQ. unfold appendFileSync. apply run_bind, run_fault_none; [done |].
  unfold run. rewrite Hp. by destruct (m !! p_name p).
Qed.

Lemma run_unlinkSync_ok p m f w (Q : outcome unit → world → Prop) :
  faults w = [] → get_dir (p_dir p) w = Some m → m !! p_name p = Some f →
  Q (Ok tt) (emit (Unlinked p) (set_dir (p_dir p) (delete (p_name p) m) w)) →
  run (unlinkSync p) w Q.
Proof.
  intros Hf Hp Hm HQ. unfold unlinkSync. apply run_bind, run_fault_none; [done |].
  unfold run. by rewrite Hp, Hm.
Qed.

Lemma run_unlinkSync_missing p m w (Q : outcome unit → world → Prop) :
  faults w = [] → get_dir (p_dir p) w = Some m → m !! p_name p = None →
  Q (Throw ENOENT) w →
  run (unlinkSync p) w Q.
Proof.
  intros Hf Hp Hm HQ. unfold unlinkSync. apply run_bind, run_fault_none; [done |].
  unfold run. by rewrite Hp, Hm.
Qed.

Lemma run_statSync_ok p f w (Q : outcome stats → world → Prop) :
  faults w = [] → lookup_file p w = Some f →
  Q (Ok (Stats (f_mtime f) (Z.of_nat (String.length (f_data f))))) w →
  run (statSync p) w Q.
Proof.
  intros Hf Hp HQ. unfold statSync. apply run_bind, run_fault_none; [done |].
  unfold run. by rewrite Hp.
Qed.

Lemma run_mkdirSync_ok d w (Q : outcome unit → world → Prop) :
  faults w = [] →
  Q (Ok tt) (match get_dir d w with
             | Some _ => w
             | None => emit (MadeDir d) (set_dir d ∅ w)
             end) →
  run (mkdirSync d) w Q.
Proof.
  intros Hf HQ. unfold mkdirSync. apply run_bind, run_fault_none; [done |].
  unfold run. by destruct (get_dir d w).
Qed.

Lemma run_readdirSync_ok `{P : Platform} d m w
    (Q : outcome (list string) → world → Prop) :
  faults w = [] → get_dir d w = Some m →
  Q (Ok (readdir m)) w → run (readdirSync d) w Q.
Proof.
  intros Hf Hp HQ. unfold readdirSync. apply run_bind, run_fault_none; [done |].
  unfold run. by rewrite Hp.
Qed.

Lemma run_from_eq {A} (m : M A) w r w' (Q : outcome A → world → Prop) :
  m w = (r, w') → Q r w' → run m w Q.
Proof. unfold run. by intros ->. Qed.

(** [m] run from [w] gives exactly [r] and [w']. *)
Lemma run_eq {A} (m : M A) w r w' :
  run m w (λ r1 w1, r1 = r ∧ w1 = w') ↔ m w = (r, w').
Proof.
  unfold run. destruct (m w) as [r1 w1]. simpl. split.
  - by intros [-> ->].
  - by intros [= -> ->].
Qed.

Lemma fault_none w : faults w = [] → fault w = (Ok tt, w).
Proof.
  unfold fault. intros E. rewrite E. simpl. by rewrite <- E, set_faults_id.
Qed.

End FsFacts.

(* ===================================================================== *)
(** * backup.js: listing and retention                                    *)
(* ===================================================================== *)

Module RetentionFacts.
Import JS JSFacts Json Fs Config FsFacts Backup.

Lemma run_map_each {A B} (I : world → Prop) (R : B → Prop)
    (f : A → M B) (l : list A) w :
  I w →
  (∀ x w1, I w1 →
     run (f x) w1 (λ r w', I w' ∧ match r with Ok y => R y | Throw _ => True end)) →
  run (map_each l f) w
    (λ r w', I w' ∧ match r with Ok ys => Forall R ys | Throw _ => True end).
Proof.
  intros HI Hf. revert w HI.
  induction l as [|x l IH]; intros w HI; simpl.
  - apply run_ret. by split.
  - apply run_bind. eapply run_mono; [by apply Hf |].
    intros [y|e] w1 [HI1 Hy]; [|done].
    apply run_bind. eapply run_mono; [by apply IH |].
    intros [ys|e] w2 [HI2 Hys]; [|done].
    apply run_ret. split; [done |]. by constructor.
Qed.

Lemma run_for_each {A} (I : world → Prop) (body : A → M unit) (l : list A) w :
  I w →
  (∀ x w1, x ∈ l → I w1 → run (body x) w1 (λ _ w', I w')) →
  run (for_each l body) w (λ _ w', I w').
Proof.
  intros HI Hbody. revert w HI.
  induction l as [|x l IH]; intros w HI; simpl.
  - by apply run_ret.
  - apply run_bind. eapply run_mono; [apply Hbody; [by left | done] |].
    intros [[]|e] w1 HI1; [|done].
    apply IH; [|done]. intros y w2 Hy. apply Hbody. by right.
Qed.

Lemma before_dash_no_dash s t :
  before_dash s = Some t → includes_char "-" t = false.
Proof.
  revert t. induction s as [|c s IH]; intros t; simpl; [done |].
  destruct (ascii_eqb c "-") eqn:Ec.
  - by intros [= <-].
  - destruct (before_dash s) as [t'|]; simpl; [|done].
    intros [= <-]. simpl. rewrite ascii_eqb_sym, Ec. by apply IH.
Qed.

Lemma match_section_name_no_dash file s :
  match_section_name file = Some s → includes_char "-" s = false.
Proof.
  unfold match_section_name.
  destruct (before_dash file) as [[|c t]|] eqn:E; [done | | done].
  intros [= <-]. by apply before_dash_no_dash in E.
Qed.

(** The record [listAllBackups] builds for the file [file] with the
    attributes [st]. *)
Definition record_of (cfg : backupConfig) (file : string) (st : stats) : backup :=
  {| b_path := Path BackupDir file;
     b_name := file;
     b_date := st_mtime st;
     b_size := st_size st;
     b_type := if startsWith (fullBackupPrefix cfg) file then TFull else TSection;
     b_section := if startsWith (fullBackupPrefix cfg) file then None
                  else match_section_name file |}.

Definition stats_of (f : file) : stats :=
  Stats (f_mtime f) (Z.of_nat (String.length (f_data f))).

(** [b] is the record of a file of the backup directory [m]. *)
Definition listed (cfg : backupConfig) (m : option (gmap string file))
    (b : backup) : Prop :=
  ∃ m' f, m = Some m' ∧ m' !! b_name b = Some f
          ∧ b = record_of cfg (b_name b) (stats_of f).

Lemma listed_section_no_dash cfg m b s :
  listed cfg m b → b_section b = Some s → includes_char "-" s = false.
Proof.
  intros (m' & f & _ & _ & ->). simpl.
  destruct (startsWith _ _); [done |]. apply match_section_name_no_dash.
Qed.

Lemma listed_path cfg m b : listed cfg m b → b_path b = Path BackupDir (b_name b).
Proof. by intros (m' & f & _ & _ & ->). Qed.

(** [w'] has the files and the clock of [w]; console output and spent
    faults apart. *)
Definition same_files (w w' : world) : Prop :=
  sectionsDir w' = sectionsDir w ∧ backupDir w' = backupDir w
  ∧ clock w' = clock w.

Lemma quiet_same_files w w' : quiet w w' → same_files w w'.
Proof. intros (?&?&?&?). by repeat split. Qed.

Lemma same_files_trans w1 w2 w3 :
  same_files w1 w2 → same_files w2 w3 → same_files w1 w3.
Proof. intros (?&?&?) (?&?&?). repeat split; congruence. Qed.

Lemma same_files_emit e w w' : same_files w w' → same_files w (emit e w').
Proof. done. Qed.

(** The events that are console output. *)
Definition is_output (e : event) : Prop :=
  match e with Log _ | LogError _ _ => True | _ => False end.

(** [w'] is [w] after some reads and some console output. *)
Definition only_output (w w' : world) : Prop :=
  same_files w w' ∧ ∃ evs, trace w' = trace w ++ evs ∧ Forall is_output evs.

Lemma only_output_quiet w w' : quiet w w' → only_output w w'.
Proof.
  intros Hq. split; [by apply quiet_same_files |].
  exists []. destruct Hq as (_&_&_&->). by rewrite app_nil_r.
Qed.

Lemma only_output_emit e w w' :
  is_output e → only_output w w' → only_output w (emit e w').
Proof.
  intros He [Hs (evs & Ht & Hevs)]. split; [done |].
  exists (evs ++ [e]). simpl. rewrite Ht, (assoc_L (++)). split; [done |].
  apply Forall_app. split; [done | by constructor].
Qed.

Section WithPlatform.
Context `{P : Platform}.
Variable cfg : backupConfig.

Lemma listAllBackups_reads w :
  run (listAllBackups cfg) w
    (λ r w', only_output w w'
             ∧ ∃ l, r = Ok l ∧ Forall (listed cfg (backupDir w)) l).
Proof.
  unfold listAllBackups. apply run_try_catch, run_bind, run_existsDir.
  apply run_if; intros _.
  { apply run_ret. split; [by apply only_output_quiet, quiet_refl | by exists []]. }
  apply run_bind, run_readdirSync.
  2:{ intros w' e Hq. apply run_bind, run_console_error, run_ret.
      split; [by apply only_output_emit, only_output_quiet | by exists []]. }
  intros w' m Hq Hm. simpl in Hm.
  eapply run_mono.
  { apply (run_map_each (λ w1, quiet w w1) (listed cfg (backupDir w))); [done |].
    intros file w1 Hq1. apply run_bind, run_statSync.
    - intros w2 f Hq2 Hf.
      rewrite (quiet_lookup_file _ _ _ Hq1) in Hf.
      unfold lookup_file in Hf. simpl in Hf. rewrite Hm in Hf. simpl in Hf.
      assert (Hl : listed cfg (backupDir w)
                     (record_of cfg file (stats_of f))).
      { exists m, f. by repeat split. }
      unfold record_of in Hl.
      destruct (startsWith (fullBackupPrefix cfg) file); apply run_ret;
        (split; [by eapply quiet_trans | done]).
    - intros w2 e Hq2. split; [by eapply quiet_trans | done]. }
  intros [l|e] w1 [Hq1 Hl]; simpl.
  - split; [by apply only_output_quiet | by exists l].
  - apply run_bind, run_console_error, run_ret.
    split; [by apply only_output_emit, only_output_quiet | by exists []].
Qed.

(** C9: for a section id that holds a hyphen, [cleanupOldBackups] deletes
    nothing. It returns normally and leaves both directories as they
    were, on every machine: no backup that [listAllBackups] returns
    carries such an id as its section, so the list the two retention
    rules work on is empty. *)
Theorem cleanupOldBackups_hyphen_deletes_nothing (section : string) (w : world) :
  includes_char "-" section = true →
  run (cleanupOldBackups cfg section) w
    (λ r w', r = Ok tt
             ∧ sectionsDir w' = sectionsDir w
             ∧ backupDir w' = backupDir w).
Proof.
  intros Hdash. unfold cleanupOldBackups.
  apply run_try_catch, run_bind.
  eapply run_mono; [apply listAllBackups_reads |].
  intros r w1 [[Hsame _] (l & -> & Hl)].
  assert (Hnone : filter (λ b, backupType_eqb (b_type b) TSection
                               && section_is section b) l = []).
  { induction Hl as [|b l Hb Hl IH]; [done |].
    rewrite filter_cons. rewrite IH.
    destruct (decide _) as [Hyes|]; [|done]. exfalso.
    apply Is_true_true, andb_true_iff in Hyes as [_ Hsec].
    unfold section_is in Hsec.
    destruct (b_section b) as [s|] eqn:Es; [|done].
    apply string_eqb_eq in Hsec as ->.
    apply (listed_section_no_dash _ _ _ _ Hb) in Es. congruence. }
  rewrite Hnone. simpl.
  destruct (maxBackupsPerSection cfg <? 0)%nat eqn:Emax.
  { apply Nat.ltb_lt in Emax. lia. }
  apply run_bind, run_ret.
  destruct Hsame as (Hs & Hb & _).
  destruct (0 <? retentionDays cfg).
  - apply run_bind, run_now. by apply run_ret.
  - by apply run_ret.
Qed.

(** [w'] is [w] after some reads, some console output and some deletions
    in the backup directory: nothing was written, and the sections
    directory is as it was. *)
Definition housekeeping (w w' : world) : Prop :=
  sectionsDir w' = sectionsDir w ∧ clock w' = clock w
  ∧ ∃ evs, trace w' = trace w ++ evs ∧ Forall (λ e, ∀ p, e ≠ Wrote p) evs.

Lemma housekeeping_only_output w w' : only_output w w' → housekeeping w w'.
Proof.
  intros [(Hs & _ & Hc) (evs & Ht & Hevs)]. repeat split; [done.. |].
  exists evs. split; [done |].
  eapply Forall_impl; [done |]. by intros [] ?.
Qed.

Lemma housekeeping_quiet w w1 w2 :
  housekeeping w w1 → quiet w1 w2 → housekeeping w w2.
Proof.
  intros (Hs & Hc & evs & Ht & Hevs) (Hs' & _ & Hc' & Ht').
  repeat split; [congruence.. |]. exists evs. split; [congruence | done].
Qed.

Lemma housekeeping_emit e w w' :
  (∀ p, e ≠ Wrote p) → housekeeping w w' → housekeeping w (emit e w').
Proof.
  intros He (Hs & Hc & evs & Ht & Hevs). repeat split; [done.. |].
  exists (evs ++ [e]). simpl. rewrite Ht, (assoc_L (++)). split; [done |].
  apply Forall_app. split; [done | by constructor].
Qed.

Lemma housekeeping_set_backups m w w' :
  housekeeping w w' → housekeeping w (set_dir BackupDir m w').
Proof. done. Qed.

Lemma run_delete_all (w0 : world) (l : list backup) (msg : backup → string) w :
  Forall (λ b, p_dir (b_path b) = BackupDir) l →
  housekeeping w0 w →
  run (for_each l (λ b, unlinkSync (b_path b) ;; console_log (msg b))) w
    (λ _ w', housekeeping w0 w').
Proof.
  intros Hl Hw. apply (run_for_each (housekeeping w0)); [done |].
  intros b w1 Hb Hw1. rewrite Forall_forall in Hl. specialize (Hl _ Hb).
  apply run_bind, run_unlinkSync.
  - intros w2 m Hq _ _. apply run_console_log. rewrite Hl.
    apply housekeeping_emit; [done |]. apply housekeeping_emit; [done |].
    apply housekeeping_set_backups. by eapply housekeeping_quiet.
  - intros w2 e Hq. by eapply housekeeping_quiet.
Qed.

(** Retention never throws, never writes and never touches a section. *)
Lemma cleanupOldBackups_housekeeping (section : string) (w : world) :
  run (cleanupOldBackups cfg section) w
    (λ r w', r = Ok tt ∧ housekeeping w w').
Proof.
  unfold cleanupOldBackups. apply run_try_catch, run_bind.
  eapply run_mono; [apply listAllBackups_reads |].
  intros r w1 [Hout (l & -> & Hl)].
  apply housekeeping_only_output in Hout.
  set (backups := filter _ l).
  assert (Hdirs : ∀ l', l' ⊆ l → Forall (λ b, p_dir (b_path b) = BackupDir) l').
  { intros l' Hsub. apply Forall_forall. intros b Hb.
    rewrite Forall_forall in Hl. apply Hsub, Hl, listed_path in Hb.
    by rewrite Hb. }
  assert (Hsub : backups ⊆ l) by (intros b [_ ?]%list_elem_of_filter; done).
  apply run_bind.
  eapply (run_mono _ _ (λ _ w2, housekeeping w w2)).
  { apply run_if; intros _; [|by apply run_ret].
    apply run_delete_all; [|done]. apply Hdirs.
    intros b Hb. by apply Hsub, (subseteq_drop (maxBackupsPerSection cfg)). }
  intros [[]|e] w2 Hw2.
  - apply run_if; intros _; [|by apply run_ret].
    apply run_bind, run_now.
    eapply run_mono.
    { apply (run_delete_all w); [|done]. apply Hdirs.
      intros b [_ ?]%list_elem_of_filter. by apply Hsub. }
    intros [[]|e] w3 Hw3; simpl; [done |].
    apply run_console_error. split; [done |]. by apply housekeeping_emit.
  - apply run_console_error. split; [done |]. by apply housekeeping_emit.
Qed.

End WithPlatform.
End RetentionFacts.

(* ===================================================================== *)
(** * backup.js: creating the backup of a section                         *)
(* ===================================================================== *)

Module BackupFacts.
Import JS JSFacts Json Fs Config FsFacts Backup RetentionFacts.

(** The calls of [backupSection] that can fail before it returns: the
    read of the log file, the write of the snapshot and, when rotating,
    the truncation of the log file. *)
Definition steps (rotate : bool) : nat := if rotate then 3%nat else 2%nat.

(** The live log file is written only after the snapshot. *)
Definition truncated_after_snapshot (log snap : path) (evs : list event) : Prop :=
  ∀ pre post, evs = pre ++ Wrote log :: post → Wrote snap ∈ pre.

Lemma truncated_after_snapshot_nil log snap :
  truncated_after_snapshot log snap [].
Proof. intros [|e pre] post; simpl; discriminate. Qed.

Lemma truncated_after_snapshot_other log snap e evs :
  e ≠ Wrote log →
  truncated_after_snapshot log snap evs →
  truncated_after_snapshot log snap (e :: evs).
Proof.
  intros He Hevs [|e' pre] post; simpl; intros [= -> Heq]; [done |].
  right. by eapply Hevs.
Qed.

Lemma truncated_after_snapshot_quiet log snap evs :
  Forall (λ e, ∀ p, e ≠ Wrote p) evs →
  truncated_after_snapshot log snap evs.
Proof.
  induction 1 as [|e evs He _ IH].
  - apply truncated_after_snapshot_nil.
  - by apply truncated_after_snapshot_other.
Qed.

Lemma truncated_after_snapshot_snoc log snap evs e :
  e ≠ Wrote log →
  truncated_after_snapshot log snap evs →
  truncated_after_snapshot log snap (evs ++ [e]).
Proof.
  intros He Hevs pre post Heq.
  destruct post as [|x post _] using rev_ind.
  - apply (app_inj_tail evs pre) in Heq as [_ ->]. done.
  - change (Wrote log :: post ++ [x]) with ((Wrote log :: post) ++ [x]) in Heq.
    rewrite (assoc_L (++)) in Heq.
    apply app_inj_tail in Heq as [-> _]. by eapply Hevs.
Qed.

Lemma truncated_after_snapshot_first log snap evs :
  log ≠ snap →
  truncated_after_snapshot log snap (Wrote snap :: evs).
Proof.
  intros Hne [|e' pre] post; simpl; intros [= Heq1 Heq2]; [congruence |].
  subst e'. by left.
Qed.

Section WithPlatform.
Context `{P : Platform}.
Variable cfg : backupConfig.

(** The path of the artifact [backupSection] writes at time [t]. *)
Definition sectionArtifact (section : string) (t : Z) : path :=
  let backupFileName :=
    section +:+ "-" +:+ dashes (toISOString t) +:+ backupExtension cfg in
  Path BackupDir
    (if useCompression cfg then backupFileName +:+ ".gz" else backupFileName).

Lemma faults_take1 (f : list bool) : head f ≠ Some true → true ∉ take 1 f.
Proof.
  destruct f as [|[] f]; simpl; [by intros _ ?%elem_of_nil | done |].
  intros _ [|?%elem_of_nil]%elem_of_cons; done.
Qed.

Lemma faults_take2 (f : list bool) :
  head f ≠ Some true → head (tail f) ≠ Some true → true ∉ take 2 f.
Proof.
  intros H1 H2 Hin. apply (faults_head_other 1%nat) in Hin; [|done].
  by apply faults_take1 in Hin.
Qed.

(** What [backupSection] does once the log file has been read: the
    snapshot, the truncation, the message, the retention. *)
Lemma backupSection_tail (section : string) (rotate : bool) (w0 w : world)
    (name data created : string) (ms : gmap string file) :
  let log := Path SectionsDir (section +:+ ".txt") in
  let snap := Path BackupDir name in
  quiet w0 w →
  sectionsDir w0 = Some ms →
  run (writeFileSync snap data ;;
       (if rotate then writeFileSync log "" else ret tt) ;;
       console_log created ;;
       cleanupOldBackups cfg section ;;
       ret (Some snap)) w
    (λ r w',
       ∃ evs, trace w' = trace w0 ++ evs
       ∧ (r = Ok (Some snap) ∨ ∃ e, r = Throw e)
       ∧ (r = Ok (Some snap) ↔
            is_Some (backupDir w0)
            ∧ true ∉ take (if rotate then 2 else 1)%nat (faults w))
       ∧ truncated_after_snapshot log snap evs
       ∧ (Wrote snap ∉ evs → sectionsDir w' = sectionsDir w0 ∧ evs = [])).
Proof.
  intros log snap (Hs0 & Hb0 & Hc0 & Ht0) Hms.
  assert (Hne : log ≠ snap) by done.
  apply run_bind, run_writeFileSync_cases.
  { intros w1 (Hs1 & Hb1 & Hc1 & Ht1) Hf1 Hh.
    exists []. rewrite app_nil_r. split; [congruence |].
    split; [right; by eexists |]. split; [split; [done |] |].
    - intros (_ & Hno). destruct Hno. destruct rotate; by apply faults_head_true.
    - split; [apply truncated_after_snapshot_nil |]. intros _. split; congruence. }
  intros w1 (Hs1 & Hb1 & Hc1 & Ht1) Hf1 Hh. simpl.
  destruct (backupDir w) as [m|] eqn:Em.
  2:{ exists []. rewrite app_nil_r. split; [congruence |].
      split; [right; by eexists |]. split; [split; [done |] |].
      - intros ([? Hsome] & _). congruence.
      - split; [apply truncated_after_snapshot_nil |]. intros _. split; congruence. }
  assert (Hex : is_Some (backupDir w0)) by (rewrite <- Hb0; eauto).
  assert (Hend : ∀ w3 evs3,
            trace w3 = trace w0 ++ Wrote snap :: evs3 →
            run (console_log created ;; cleanupOldBackups cfg section ;;
                 ret (Some snap)) w3
              (λ r w',
                 ∃ evs, trace w' = trace w0 ++ Wrote snap :: evs
                 ∧ r = Ok (Some snap))).
  { intros w3 evs3 Ht3. apply run_bind, run_console_log, run_bind.
    eapply run_mono; [apply cleanupOldBackups_housekeeping |].
    intros r w4 [-> (_ & _ & evs & Ht4 & _)]. apply run_ret.
    exists (evs3 ++ Log created :: evs). split; [|done].
    rewrite Ht4. simpl. rewrite Ht3.
    by rewrite <- !(assoc_L (++)). }
  apply run_bind. destruct rotate.
  - apply run_writeFileSync_cases.
    { intros w3 (Hs3 & Hb3 & Hc3 & Ht3) Hf3 Hh3. simpl in *.
      exists [Wrote snap]. split; [by rewrite Ht3, Ht1, Ht0 |].
      split; [right; by eexists |]. split; [split; [done |] |].
      - intros (_ & Hno). destruct Hno.
        apply faults_head_other; [done |]. rewrite <- Hf1.
        by apply faults_head_true.
      - split; [by apply truncated_after_snapshot_first |].
        intros Hno. destruct Hno. by left. }
    intros w3 (Hs3 & Hb3 & Hc3 & Ht3) Hf3 Hh3. simpl in *.
    rewrite Hs1, Hs0, Hms.
    eapply run_mono.
    { apply (Hend _ [Wrote log]). simpl. rewrite Ht3, Ht1, Ht0.
      by rewrite <- (assoc_L (++)). }
    intros r w5 (evs & Ht5 & ->). exists (Wrote snap :: evs).
    split; [done |]. split; [by left |]. split; [split; [intros _ | done] |].
    + split; [done |]. rewrite Hf1 in Hh3. by apply faults_take2.
    + split; [by apply truncated_after_snapshot_first |].
      intros Hno. destruct Hno. by left.
  - apply run_ret.
    eapply run_mono.
    { apply (Hend _ []). simpl. by rewrite Ht1, Ht0. }
    intros r w5 (evs & Ht5 & ->). exists (Wrote snap :: evs).
    split; [done |]. split; [by left |]. split; [split; [intros _ | done] |].
    + split; [done |]. by apply faults_take1.
    + split; [by apply truncated_after_snapshot_first |].
      intros Hno. destruct Hno. by left.
Qed.

(** C7: [backupSection] never throws; it returns [null] exactly when the
    section has no log file or one of its steps fails (the read of the
    log, the write of the snapshot, the truncation), and it then prints a
    diagnostic; the log file is written only after the snapshot has been
    written, so that when the snapshot was not written the sections
    directory is as it was. This holds on every machine, whatever
    fails. *)
Theorem backupSection_null_and_order (section : string) (rotate : bool) (w : world) :
  let log := Path SectionsDir (section +:+ ".txt") in
  let snap := sectionArtifact section (clock w) in
  run (backupSection cfg section rotate) w (λ r w',
    ∃ evs, trace w' = trace w ++ evs
    ∧ (r = Ok None ∨ r = Ok (Some snap))
    ∧ (r = Ok (Some snap) ↔
         is_Some (lookup_file log w) ∧ is_Some (backupDir w)
         ∧ true ∉ take (steps rotate) (faults w))
    ∧ (lookup_file log w = None →
         evs = [Log ("no log file found for section: " +:+ section)])
    ∧ (r = Ok None → is_Some (lookup_file log w) →
         ∃ e, LogError ("error creating backup for section " +:+ section +:+ ":")
                (Some e) ∈ evs)
    ∧ truncated_after_snapshot log snap evs
    ∧ (Wrote snap ∉ evs → sectionsDir w' = sectionsDir w)).
Proof.
  intros log snap.
  assert (Hne : log ≠ snap) by done.
  set (err := "error creating backup for section " +:+ section +:+ ":").
  match goal with |- run _ _ ?post => set (Q := post) end.
  unfold backupSection.
  apply run_try_catch, run_bind, run_existsSync.
  fold log. fold err.
  destruct (lookup_file log w) as [f|] eqn:Ef.
  2:{ rewrite bool_decide_eq_false_2 by (by intros [? ?]). simpl.
      apply run_bind, run_console_log, run_ret. unfold Q.
      eexists. split; [done |]. split; [by left |].
      split; [split; [done | by intros ([? ?] & _)] |].
      split; [done |]. split; [by intros _ [? ?] |].
      split; [|done].
      apply truncated_after_snapshot_other; [done |].
      apply truncated_after_snapshot_nil. }
  rewrite bool_decide_eq_true_2 by eauto. simpl.
  assert (∃ ms, sectionsDir w = Some ms) as [ms Hms].
  { unfold lookup_file in Ef. simpl in Ef.
    destruct (sectionsDir w); [eauto | done]. }
  apply run_bind, run_now, run_bind, run_readFileSync_cases.
  { intros w1 (Hs1 & Hb1 & Hc1 & Ht1) Hf1 Hh.
    apply run_bind, run_console_error, run_ret. unfold Q.
    exists [LogError err (Some EIO)]. simpl. rewrite Ht1.
    split; [done |]. split; [by left |]. split; [split; [done |] |].
    - intros (_ & _ & Hno). destruct Hno. destruct rotate; by apply faults_head_true.
    - split; [done |]. split; [intros _ _; eexists; by left |].
      split; [|done].
      apply truncated_after_snapshot_other; [done |].
      apply truncated_after_snapshot_nil. }
  intros w1 Hq1 Hf1 Hh. fold log. rewrite Ef.
  assert (Hfinish : ∀ name data created,
    snap = Path BackupDir name →
    run (writeFileSync (Path BackupDir name) data ;;
         (if rotate then writeFileSync log "" else ret tt) ;;
         console_log created ;;
         cleanupOldBackups cfg section ;;
         ret (Some (Path BackupDir name))) w1
      (λ r w', match r with
               | Ok a => Q (Ok a) w'
               | Throw e => run (console_error err (Some e) ;; ret None) w' Q
               end)).
  { intros name data created Hsnap.
    eapply run_mono; [by apply (backupSection_tail section rotate w w1 _ _ _ ms) |].
    rewrite <- Hsnap.
    intros r w2 (evs & Ht & Hr & Hiff & Htas & Hno).
    assert (Hsteps : true ∉ take (steps rotate) (faults w)
                     ↔ true ∉ take (if rotate then 2 else 1)%nat (faults w1)).
    { rewrite Hf1. destruct rotate; simpl steps;
        by rewrite (faults_head_other _ _ Hh). }
    destruct Hr as [-> | [e ->]].
    - unfold Q.
      exists evs. split; [done |]. split; [by right |].
      split.
      { split; [intros _ | done]. destruct Hiff as [Hi _].
        destruct (Hi eq_refl) as [? ?].
        split; [by eexists |]. split; [done |]. by apply Hsteps. }
      split; [done |]. split; [done |]. split; [done |].
      intros Hn. by apply Hno.
    - apply run_bind, run_console_error, run_ret. unfold Q.
      exists (evs ++ [LogError err (Some e)]). simpl.
      split; [by rewrite Ht, (assoc_L (++)) |]. split; [by left |].
      split; [split; [done |] |].
      + rewrite Hsteps. intros (_ & ? & ?).
        assert (Throw e = Ok (Some snap)) by (apply Hiff; done). done.
      + split; [done |].
        split; [intros _ _; exists e; apply elem_of_app; right; by left |].
        split.
        * by apply truncated_after_snapshot_snoc.
        * intros Hn. apply Hno. intros Hin. apply Hn, elem_of_app. by left. }
  subst snap. unfold sectionArtifact in *.
  destruct Hq1 as (_ & _ & Hc1 & _).
  destruct (useCompression cfg) eqn:Ec; by apply Hfinish.
Qed.

End WithPlatform.
End BackupFacts.

(* ===================================================================== *)
(** * backup.js: restoring                                                *)
(* ===================================================================== *)

Module RestoreFacts.
Import JS JSFacts Json Fs Config FsFacts Backup RetentionFacts.

(** Every file the sections directory holds in [w], the sidecar included,
    is in [w'] with the same content and date. *)
Definition preserves_existing (w w' : world) : Prop :=
  ∀ name f,
    lookup_file (Path SectionsDir name) w = Some f →
    lookup_file (Path SectionsDir name) w' = Some f.

Lemma preserves_existing_refl w : preserves_existing w w.
Proof. by intros name f. Qed.

Lemma preserves_existing_quiet w w1 w2 :
  preserves_existing w w1 → quiet w1 w2 → preserves_existing w w2.
Proof.
  intros H Hq name f Hf. rewrite (quiet_lookup_file _ _ _ Hq). by apply H.
Qed.

Lemma preserves_existing_emit e w w1 :
  preserves_existing w w1 → preserves_existing w (emit e w1).
Proof. done. Qed.

Lemma preserves_existing_write w w1 w2 p data m t :
  preserves_existing w w1 → quiet w1 w2 →
  p_dir p = SectionsDir →
  get_dir (p_dir p) w1 = Some m →
  lookup_file p w1 = None →
  preserves_existing w
    (emit (Wrote p) (set_dir (p_dir p) (<[p_name p := File data t]> m) w2)).
Proof.
  intros H Hq Hd Hm Hnone name f Hf. destruct p as [d pname]. simpl in *. subst d.
  apply H in Hf. unfold lookup_file in *. simpl in *.
  rewrite Hm in Hf, Hnone. simpl in *.
  rewrite lookup_insert_ne; [done | congruence].
Qed.

Lemma preserves_existing_mkdir w w1 w2 :
  preserves_existing w w1 → quiet w1 w2 →
  get_dir SectionsDir w1 = None →
  preserves_existing w (emit (MadeDir SectionsDir) (set_dir SectionsDir ∅ w2)).
Proof.
  intros H Hq Hnone name f Hf. apply H in Hf.
  unfold lookup_file in Hf. simpl in *. by rewrite Hnone in Hf.
Qed.

Lemma run_fold_each {A S} (I : world → Prop) (body : A → S → M S)
    (l : list A) (s : S) w :
  I w →
  (∀ x s1 w1, x ∈ l → I w1 → run (body x s1) w1 (λ _ w', I w')) →
  run (fold_each l s body) w (λ _ w', I w').
Proof.
  intros HI Hbody. revert s w HI.
  induction l as [|x l IH]; intros s w HI; simpl.
  - by apply run_ret.
  - apply run_bind. eapply run_mono; [apply Hbody; [by left | done] |].
    intros [s1|e] w1 HI1; [|done].
    apply IH; [|done]. intros y s2 w2 Hy. apply Hbody. by right.
Qed.

(** Steps that only compute: the world is as it was. *)
Lemma run_js_get recv k w (Q : outcome (option json) → world → Prop) :
  (∀ r, Q r w) → run (js_get recv k) w Q.
Proof. intros HQ. unfold run. by destruct recv. Qed.

Lemma run_Object_entries v w (Q : outcome (list (string * json)) → world → Prop) :
  (∀ r, Q r w) → run (Object_entries v) w Q.
Proof. intros HQ. unfold run. by destruct v as [[]|]. Qed.

Section WithPlatform.
Context `{P : Platform}.
Variable cfg : backupConfig.

Lemma run_JSON_parse_or_throw s w (Q : outcome json → world → Prop) :
  (∀ r, Q r w) → run (JSON_parse_or_throw s) w Q.
Proof. intros HQ. unfold run, JSON_parse_or_throw. by destruct (JSON_parse s). Qed.

Lemma run_gunzip_or_throw s w (Q : outcome string → world → Prop) :
  (∀ r, Q r w) → run (gunzip_or_throw s) w Q.
Proof. intros HQ. unfold run, gunzip_or_throw. by destruct (gunzipSync s). Qed.

Lemma restoreSectionBackup_keeps (section content : string) w0 w :
  preserves_existing w0 w →
  run (restoreSectionBackup section content false) w
    (λ _ w', preserves_existing w0 w').
Proof.
  intros H0. unfold restoreSectionBackup.
  apply run_try_catch, run_bind, run_existsSync. simpl.
  destruct (lookup_file _ w) as [f|] eqn:Ef.
  - rewrite bool_decide_eq_true_2 by eauto. simpl.
    by apply run_bind, run_console_log, run_ret.
  - rewrite bool_decide_eq_false_2 by (by intros [? ?]). simpl.
    apply run_bind, run_writeFileSync.
    + intros w1 m Hq Hm. apply run_bind, run_console_log, run_ret.
      apply preserves_existing_emit.
      by apply (preserves_existing_write w0 w w1 (Path SectionsDir _)).
    + intros w1 e Hq. apply run_bind, run_console_error, run_ret.
      apply preserves_existing_emit. by eapply preserves_existing_quiet.
Qed.

Lemma restoreFullBackup_keeps (backupData : json) w0 w :
  preserves_existing w0 w →
  run (restoreFullBackup backupData false) w
    (λ _ w', preserves_existing w0 w').
Proof.
  intros H0. unfold restoreFullBackup.
  assert (Hcatch : ∀ w1 e, preserves_existing w0 w1 →
            run (console_error "error restoring full backup:" (Some e) ;;
                 ret false) w1 (λ _ w', preserves_existing w0 w')).
  { intros w1 e H1. by apply run_bind, run_console_error, run_ret. }
  apply run_try_catch, run_bind, run_existsDir, run_bind.
  eapply (run_mono _ _ (λ _ w1, preserves_existing w0 w1)).
  { destruct (get_dir SectionsDir w) eqn:Ed.
    - rewrite bool_decide_eq_true_2 by eauto. by apply run_ret.
    - rewrite bool_decide_eq_false_2 by (by intros [? ?]). simpl.
      apply run_mkdirSync.
      + intros w1 Hq _. by eapply preserves_existing_quiet.
      + intros w1 Hq _. by eapply preserves_existing_mkdir.
      + intros w1 e Hq. by eapply preserves_existing_quiet. }
  intros [[]|e] w1 H1; [|by apply Hcatch].
  apply run_bind, run_js_get. intros [metadata|e]; [|by apply Hcatch].
  apply run_bind.
  eapply (run_mono _ _ (λ _ w2, preserves_existing w0 w2)).
  { apply run_if; intros _; [|by apply run_ret].
    apply run_bind, run_existsSync. simpl.
    destruct (lookup_file metadataFile w1) as [f|] eqn:Ef.
    - rewrite bool_decide_eq_true_2 by eauto. by apply run_console_log.
    - rewrite bool_decide_eq_false_2 by (by intros [? ?]). simpl.
      apply run_bind, run_writeFileSync.
      + intros w2 m Hq Hm. apply run_console_log, preserves_existing_emit.
        by apply (preserves_existing_write w0 w1 w2 metadataFile).
      + intros w2 e Hq. by eapply preserves_existing_quiet. }
  intros [[]|e] w2 H2; [|by apply Hcatch].
  apply run_bind, run_js_get. intros [sections|e]; [|by apply Hcatch].
  apply run_bind, run_Object_entries. intros [keys|e]; [|by apply Hcatch].
  apply run_bind, run_Object_entries. intros [entries|e]; [|by apply Hcatch].
  apply run_bind.
  eapply run_mono.
  { apply (run_fold_each (preserves_existing w0)); [done |].
    intros [section content] n w3 _ H3.
    apply run_bind, run_existsSync. simpl.
    destruct (lookup_file _ w3) as [f|] eqn:Ef.
    - rewrite bool_decide_eq_true_2 by eauto. simpl.
      by apply run_bind, run_console_log, run_ret.
    - rewrite bool_decide_eq_false_2 by (by intros [? ?]). simpl.
      apply run_bind. destruct content; try done.
      apply run_writeFileSync.
      + intros w4 m Hq Hm. apply run_ret.
        by apply (preserves_existing_write w0 w3 w4 (Path SectionsDir _)).
      + intros w4 e Hq. by eapply preserves_existing_quiet. }
  intros [n|e] w3 H3; [|by apply Hcatch].
  by apply run_bind, run_console_log, run_ret.
Qed.

(** With [overwrite] false, a restore of any artifact, on any machine and
    however it ends, leaves every existing file of the sections directory
    as it is. *)
Lemma restoreFromBackup_keeps (backupPath : path) (section : option string) w :
  run (restoreFromBackup cfg backupPath section false) w
    (λ _ w', preserves_existing w w').
Proof.
  unfold restoreFromBackup.
  assert (Hcatch : ∀ w1 e, preserves_existing w w1 →
            run (console_error "error restoring from backup:" (Some e) ;;
                 ret false) w1 (λ _ w', preserves_existing w w')).
  { intros w1 e H1. by apply run_bind, run_console_error, run_ret. }
  apply run_try_catch, run_bind, run_existsSync.
  assert (Hw := preserves_existing_refl w).
  apply run_if; intros _.
  { by apply run_bind, run_console_error, run_ret. }
  apply run_bind.
  eapply (run_mono _ _ (λ _ w1, preserves_existing w w1)).
  { apply run_if; intros _.
    - apply run_bind, run_readFileSync.
      + intros w1 f Hq _. apply run_gunzip_or_throw. intros _.
        by apply (preserves_existing_quiet w w).
      + intros w1 e Hq. by apply (preserves_existing_quiet w w).
    - apply run_readFileSync; intros; by apply (preserves_existing_quiet w w). }
  intros [content|e] w1 H1; [|by apply Hcatch].
  apply run_if; intros _.
  - apply run_bind, run_JSON_parse_or_throw. intros [data|e]; [|by apply Hcatch].
    eapply run_mono; [by apply restoreFullBackup_keeps |].
    intros [b|e] w2 H2; [done | by apply Hcatch].
  - apply run_if; intros _.
    + eapply run_mono; [by apply restoreSectionBackup_keeps |].
      intros [b|e] w2 H2; [done | by apply Hcatch].
    + by apply run_bind, run_console_error, run_ret.
Qed.

(** The text a restore takes from the artifact [a] at [backupPath]. *)
Definition decodes (backupPath : path) (a : file) (content : string) : Prop :=
  if endsWith ".gz" (path_string backupPath)
  then gunzipSync (f_data a) = Some content
  else f_data a = content.

(** C8: a restore with [overwrite] false never changes a file that
    exists in the sections directory, whatever the artifact and whatever
    fails; and when the artifact is a readable section backup, a section
    id is given and that section's file exists, the restore is skipped:
    the call returns [false] without throwing, prints the notice
    [skipping section ... (file exists)] with [console.log], prints
    nothing with [console.error], and changes nothing else. *)
Theorem restoreFromBackup_skips_existing :
  (∀ (backupPath : path) (section : option string) (w : world),
     run (restoreFromBackup cfg backupPath section false) w
       (λ _ w', preserves_existing w w'))
  ∧ (∀ (backupPath : path) (section : string) (a f : file) (content : string)
       (w : world),
       faults w = [] →
       lookup_file backupPath w = Some a →
       decodes backupPath a content →
       startsWith (fullBackupPrefix cfg) (p_name backupPath) = false →
       section ≠ "" →
       lookup_file (Path SectionsDir (section +:+ ".txt")) w = Some f →
       restoreFromBackup cfg backupPath (Some section) false w
       = (Ok false,
          emit (Log ("skipping section " +:+ section +:+ " (file exists)")) w)).
Proof.
  split; [apply restoreFromBackup_keeps |].
  intros backupPath section a f content w Hf Ha Hdec Hfull Hsec Hlog.
  apply run_eq. unfold restoreFromBackup.
  apply run_try_catch, run_bind, run_existsSync.
  rewrite bool_decide_eq_true_2 by eauto. simpl.
  apply run_bind.
  apply (run_mono _ _ (λ r w1, r = Ok content ∧ w1 = w)).
  { unfold decodes in Hdec. destruct (endsWith _ _).
    - apply run_bind. eapply run_readFileSync_ok; [done.. |].
      unfold run, gunzip_or_throw. by rewrite Hdec.
    - eapply run_readFileSync_ok; [done.. |]. by rewrite Hdec. }
  intros r w1 [-> ->]. rewrite Hfull. simpl.
  apply string_eqb_neq in Hsec. rewrite Hsec. simpl.
  unfold restoreSectionBackup.
  apply run_try_catch, run_bind, run_existsSync.
  rewrite bool_decide_eq_true_2 by eauto. simpl.
  by apply run_bind, run_console_log, run_ret.
Qed.

End WithPlatform.
End RestoreFacts.
(* ===================================================================== *)
(** * backup.js: restoring a full backup, section by section              *)
(* ===================================================================== *)

Module FullRestoreFacts.
Import JS JSFacts Json Fs Config FsFacts Backup RetentionFacts RestoreFacts.

Definition logName (section : string) : string := section +:+ ".txt".

Lemma app_inj_r (a b t : string) : a +:+ t = b +:+ t → a = b.
Proof.
  intros H. apply (f_equal rev_string) in H. rewrite !rev_string_app in H.
  apply (inj _) in H. apply (f_equal rev_string) in H.
  by rewrite !rev_string_involutive in H.
Qed.

Lemma logName_inj a b : logName a = logName b → a = b.
Proof. apply app_inj_r. Qed.

Lemma logName_not_metadata s : logName s ≠ "metadata.json".
Proof.
  intros H. assert (E := endsWith_app ".txt" s).
  unfold logName in H. rewrite H in E. vm_compute in E. discriminate E.
Qed.

(** The sections of a payload as [JSON.parse] gives them. *)
Definition payload_sections (entries : list (string * string))
  : list (string * json) :=
  map (λ sc, (sc.1, JStr sc.2)) entries.

Section Merge.
Variable overwrite : bool.

(** Whether the loop of [restoreFullBackup] writes a section, given the
    sections directory. *)
Definition writes (m : gmap string file) (section : string) : bool :=
  overwrite || negb (bool_decide (is_Some (m !! logName section))).

Definition restore_step (t : Z) (m : gmap string file) (sc : string * string)
  : gmap string file :=
  if writes m sc.1 then <[logName sc.1 := File sc.2 t]> m else m.

Lemma restore_step_other t m (sc : string * string) name :
  name ≠ logName sc.1 → restore_step t m sc !! name = m !! name.
Proof.
  intros Hne. unfold restore_step. destruct (writes m sc.1); [|done].
  by rewrite lookup_insert_ne.
Qed.

Lemma writes_restore_step t m (sc : string * string) s :
  s ≠ sc.1 → writes (restore_step t m sc) s = writes m s.
Proof.
  intros Hne. unfold writes. rewrite restore_step_other; [done |].
  intros H%logName_inj. done.
Qed.

Lemma foldl_restore_other t (entries : list (string * string)) m name :
  (∀ s, s ∈ entries.*1 → name ≠ logName s) →
  foldl (restore_step t) m entries !! name = m !! name.
Proof.
  revert m. induction entries as [|sc entries IH]; intros m Hne; [done |].
  simpl. rewrite IH.
  - apply restore_step_other, Hne. by left.
  - intros s Hs. apply Hne. by right.
Qed.

Lemma foldl_restore_entry t (entries : list (string * string)) m s c :
  NoDup (entries.*1) → (s, c) ∈ entries →
  foldl (restore_step t) m entries !! logName s
  = if writes m s then Some (File c t) else m !! logName s.
Proof.
  revert m. induction entries as [|sc entries IH]; intros m Hnd Hin.
  { by apply elem_of_nil in Hin. }
  simpl in Hnd. apply NoDup_cons in Hnd as [Hfresh Hnd].
  apply elem_of_cons in Hin as [<- | Hin]; simpl.
  - rewrite foldl_restore_other.
    + unfold restore_step. simpl. destruct (writes m s); [|done].
      by rewrite lookup_insert_eq.
    + intros s' Hs' H%logName_inj. by subst s'.
  - assert (Hne : s ≠ sc.1).
    { intros ->. apply Hfresh. apply list_elem_of_fmap. by exists (sc.1, c). }
    rewrite IH by done. rewrite writes_restore_step by done.
    rewrite restore_step_other; [done |]. by intros H%logName_inj.
Qed.

Lemma foldl_restore_keeps t (entries : list (string * string)) m name :
  is_Some (m !! name) → is_Some (foldl (restore_step t) m entries !! name).
Proof.
  revert m. induction entries as [|sc entries IH]; intros m Hm; [done |].
  simpl. apply IH. unfold restore_step. destruct (writes m sc.1); [|done].
  rewrite lookup_insert. by case_decide.
Qed.

Lemma writes_count_restore_step t m (sc : string * string)
    (entries : list (string * string)) :
  sc.1 ∉ entries.*1 →
  length (filter (λ sc', writes (restore_step t m sc) sc'.1) entries)
  = length (filter (λ sc', writes m sc'.1) entries).
Proof.
  induction entries as [|sc' entries IH]; intros Hfresh; [done |].
  rewrite !filter_cons.
  rewrite writes_restore_step.
  2:{ intros Heq. apply Hfresh. rewrite <- Heq. by left. }
  assert (Hrest : sc.1 ∉ entries.*1) by (intros ?; apply Hfresh; by right).
  destruct (decide _); simpl; by rewrite IH.
Qed.

(** The loop over the sections of the payload, on a machine where nothing
    fails. *)
Lemma restore_loop (entries : list (string * string)) (n : nat)
    (m : gmap string file) (w : world) :
  faults w = [] → sectionsDir w = Some m → NoDup (entries.*1) →
  run (fold_each (payload_sections entries) n
         (λ '(section, content) successCount,
            let logFilePath := Path SectionsDir (section +:+ ".txt") in
            exs <- existsSync logFilePath;
            if overwrite || negb exs then
              writeValueSync logFilePath content ;;
              ret (S successCount)
            else
              console_log ("skipping section " +:+ section +:+ " (file exists)") ;;
              ret successCount)) w
    (λ r w',
       r = Ok (n + length (filter (λ sc, writes m sc.1) entries))%nat
       ∧ faults w' = [] ∧ backupDir w' = backupDir w ∧ clock w' = clock w
       ∧ sectionsDir w' = Some (foldl (restore_step (clock w)) m entries)).
Proof.
  revert n m w. induction entries as [|[s c] entries IH]; intros n m w Hf Hm Hnd.
  { apply run_ret. simpl. by rewrite Nat.add_0_r. }
  simpl in Hnd. apply NoDup_cons in Hnd as [Hfresh Hnd].
  simpl. apply run_bind, run_bind, run_existsSync.
  unfold lookup_file. simpl. rewrite Hm. simpl.
  rewrite filter_cons. unfold restore_step at 2. simpl.
  fold (logName s). change (overwrite || negb (bool_decide (is_Some (m !! logName s))))
    with (writes m s).
  destruct (writes m s) eqn:Ew.
  - apply run_bind. eapply run_writeFileSync_ok; [done.. |].
    apply run_ret. simpl.
    eapply run_mono.
    { apply (IH (S n) (<[logName s := File c (clock w)]> m)); done. }
    intros r w' (-> & ? & ? & ? & Hs). simpl in *.
    assert (Hcount := writes_count_restore_step (clock w) m (s, c) entries Hfresh).
    unfold restore_step in Hcount. simpl in Hcount. rewrite Ew in Hcount.
    rewrite Hcount.
    repeat split; [f_equal; lia | done.. ].
  - apply run_bind, run_console_log, run_ret.
    eapply run_mono; [by apply (IH n m) |].
    intros r w' (-> & ? & ? & ? & Hs). simpl in *.
    by repeat split.
Qed.

End Merge.

Section WithPlatform.
Context `{P : Platform}.

(** What [restoreFullBackup] does with the sidecar. *)
Definition restores_metadata (overwrite : bool) (md : option json) (w : world)
  : bool :=
  truthy md
  && (overwrite || negb (bool_decide (is_Some (lookup_file metadataFile w)))).

(** [restoreFullBackup] on a machine where nothing fails, for a payload
    whose [sections] hold the texts [entries]. *)
Lemma restoreFullBackup_exact (props : list (string * json))
    (entries : list (string * string)) (overwrite : bool) (w : world) :
  faults w = [] →
  obj_get "sections" props = Some (JObj (payload_sections entries)) →
  NoDup (entries.*1) →
  let existed (s : string) :=
    bool_decide (is_Some (lookup_file (Path SectionsDir (s +:+ ".txt")) w)) in
  let written :=
    filter (λ sc : string * string, overwrite || negb (existed sc.1)) entries in
  let md := obj_get "metadata" props in
  run (restoreFullBackup (JObj props) overwrite) w (λ r w',
    r = Ok true
    ∧ (∀ s c, (s, c) ∈ entries →
         lookup_file (Path SectionsDir (s +:+ ".txt")) w'
         = if overwrite || negb (existed s) then Some (File c (clock w))
           else lookup_file (Path SectionsDir (s +:+ ".txt")) w)
    ∧ (∀ name, name ≠ "metadata.json" →
         (∀ s, s ∈ entries.*1 → name ≠ s +:+ ".txt") →
         lookup_file (Path SectionsDir name) w'
         = lookup_file (Path SectionsDir name) w)
    ∧ (∀ name, is_Some (lookup_file (Path SectionsDir name) w) →
         is_Some (lookup_file (Path SectionsDir name) w'))
    ∧ backupDir w' = backupDir w
    ∧ last (trace w')
      = Some (Log ("restored " +:+ pretty (length written) +:+ " of "
                   +:+ pretty (length entries) +:+ " sections"))
    ∧ lookup_file metadataFile w'
      = (if restores_metadata overwrite md w
         then Some (File (JSON_stringify (default JNull md)) (clock w))
         else lookup_file metadataFile w)
    ∧ faults w' = [] ∧ clock w' = clock w).
Proof.
  intros Hf Hsec Hnd existed written md.
  set (before name := lookup_file (Path SectionsDir name) w).
  unfold restoreFullBackup.
  apply run_try_catch, run_bind, run_existsDir, run_bind.
  apply (run_mono _ _ (λ r w1,
    r = Ok tt ∧ faults w1 = [] ∧ backupDir w1 = backupDir w
    ∧ clock w1 = clock w
    ∧ ∃ m1, sectionsDir w1 = Some m1 ∧ ∀ name, m1 !! name = before name)).
  { simpl. unfold before, lookup_file. simpl.
    destruct (sectionsDir w) as [m|] eqn:Em.
    - rewrite bool_decide_eq_true_2 by eauto. apply run_ret.
      repeat split; [done.. |]. by exists m.
    - rewrite bool_decide_eq_false_2 by (by intros [? ?]). simpl.
      apply run_mkdirSync_ok; [done |]. simpl. rewrite Em.
      repeat split; [done.. |]. exists ∅. split; [done |].
      intros name. by rewrite lookup_empty. }
  intros r w1 (-> & Hf1 & Hb1 & Hc1 & m1 & Hs1 & Hm1).
  apply run_bind, run_ret, run_bind. fold md.
  apply (run_mono _ _ (λ r w2,
    r = Ok tt ∧ faults w2 = [] ∧ backupDir w2 = backupDir w
    ∧ clock w2 = clock w
    ∧ ∃ m2, sectionsDir w2 = Some m2
        ∧ (∀ name, name ≠ "metadata.json" → m2 !! name = before name)
        ∧ (∀ name, is_Some (before name) → is_Some (m2 !! name))
        ∧ m2 !! "metadata.json"
          = if restores_metadata overwrite md w
            then Some (File (JSON_stringify (default JNull md)) (clock w))
            else before "metadata.json")).
  { unfold restores_metadata.
    change (lookup_file metadataFile w) with (before "metadata.json").
    assert (Hex : bool_decide (is_Some (lookup_file metadataFile w1))
                  = bool_decide (is_Some (before "metadata.json"))).
    { unfold lookup_file. simpl. rewrite Hs1. simpl. by rewrite Hm1. }
    destruct (truthy md); simpl.
    - apply run_bind, run_existsSync. rewrite Hex.
      destruct (overwrite || negb (bool_decide (is_Some (before "metadata.json")))).
      + apply run_bind. eapply run_writeFileSync_ok; [done.. |].
        apply run_console_log. simpl.
        repeat split; [done.. |]. eexists. split; [done |]. split; [|split].
        * intros name Hne. rewrite lookup_insert_ne by done. apply Hm1.
        * intros name Hsome. rewrite lookup_insert. case_decide; [by eexists |].
          by rewrite Hm1.
        * by rewrite lookup_insert_eq, Hc1.
      + apply run_console_log. simpl.
        repeat split; [done.. |]. exists m1. split; [done |]. split; [|split].
        * intros name _. apply Hm1.
        * intros name. by rewrite Hm1.
        * apply Hm1.
    - apply run_ret.
      repeat split; [done.. |]. exists m1. split; [done |]. split; [|split].
      + intros name _. apply Hm1.
      + intros name. by rewrite Hm1.
      + apply Hm1. }
  intros r w2 (-> & Hf2 & Hb2 & Hc2 & m2 & Hs2 & Hm2 & Hkeep & Hmeta).
  apply run_bind. unfold js_get. rewrite Hsec. apply run_ret.
  apply run_bind, run_ret, run_bind, run_ret, run_bind.
  eapply run_mono; [by apply (restore_loop overwrite entries 0%nat m2) |].
  intros r w3 (-> & Hf3 & Hb3 & Hc3 & Hs3).
  apply run_bind, run_console_log, run_ret. simpl.
  assert (Hw : ∀ s, writes overwrite m2 s = overwrite || negb (existed s)).
  { intros s. unfold writes, existed. rewrite Hm2 by apply logName_not_metadata.
    done. }
  assert (Hcount : length (filter (λ sc : string * string,
                                     writes overwrite m2 sc.1) entries)
                   = length written).
  { unfold written. f_equal. apply list_filter_iff. intros sc. by rewrite Hw. }
  assert (Hlast : last (trace w3 ++ [Log ("restored "
                    +:+ pretty (length (filter (λ sc : string * string,
                                     writes overwrite m2 sc.1) entries))
                    +:+ " of " +:+ pretty (length (payload_sections entries))
                    +:+ " sections")])
                  = Some (Log ("restored " +:+ pretty (length written) +:+ " of "
                   +:+ pretty (length entries) +:+ " sections"))).
  { rewrite last_snoc, Hcount. unfold payload_sections. by rewrite length_map. }
  unfold lookup_file. simpl. rewrite Hs3.
  split; [done |].
  split; [|split; [|split; [|split; [congruence |split; [|split; [|split]]]]]].
  - intros s c Hin. simpl. rewrite Hc2.
    fold (logName s). rewrite (foldl_restore_entry overwrite _ _ _ _ _ Hnd Hin).
    rewrite Hw. destruct (overwrite || negb (existed s)); [done |].
    apply Hm2, logName_not_metadata.
  - intros name Hne Hnames. simpl. rewrite foldl_restore_other; [by apply Hm2 |].
    apply Hnames.
  - intros name Hsome. simpl.
    by apply foldl_restore_keeps, Hkeep.
  - apply Hlast.
  - simpl. rewrite foldl_restore_other; [done |].
    intros s _ Heq. by apply (logName_not_metadata s).
  - done.
  - congruence.
Qed.

(** C4: restoring a full backup merges section by section. On a machine
    where nothing fails, for a payload whose [sections] hold the texts
    [entries]: the call returns [true]; the file of each contained
    section is written (with the payload's text, at the current time) if
    [overwrite] is true or the file did not exist, and is otherwise left
    as it was; every other file but the sidecar is left as it was, and no
    file is deleted; the last line printed is
    [restored N of M sections], with N the number of sections written and
    M the number of sections in the payload. In particular when one of
    three is written the line is [restored 1 of 3 sections]. *)
Theorem restoreFullBackup_merges (props : list (string * json))
    (entries : list (string * string)) (overwrite : bool) (w : world) :
  faults w = [] →
  obj_get "sections" props = Some (JObj (payload_sections entries)) →
  NoDup (entries.*1) →
  let existed (s : string) :=
    bool_decide (is_Some (lookup_file (Path SectionsDir (s +:+ ".txt")) w)) in
  let written :=
    filter (λ sc : string * string, overwrite || negb (existed sc.1)) entries in
  run (restoreFullBackup (JObj props) overwrite) w (λ r w',
    r = Ok true
    ∧ (∀ s c, (s, c) ∈ entries →
         lookup_file (Path SectionsDir (s +:+ ".txt")) w'
         = if overwrite || negb (existed s) then Some (File c (clock w))
           else lookup_file (Path SectionsDir (s +:+ ".txt")) w)
    ∧ (∀ name, name ≠ "metadata.json" →
         (∀ s, s ∈ entries.*1 → name ≠ s +:+ ".txt") →
         lookup_file (Path SectionsDir name) w'
         = lookup_file (Path SectionsDir name) w)
    ∧ (∀ name, is_Some (lookup_file (Path SectionsDir name) w) →
         is_Some (lookup_file (Path SectionsDir name) w'))
    ∧ backupDir w' = backupDir w
    ∧ last (trace w')
      = Some (Log ("restored " +:+ pretty (length written) +:+ " of "
                   +:+ pretty (length entries) +:+ " sections"))
    ∧ (length written = 1%nat → length entries = 3%nat →
         last (trace w') = Some (Log "restored 1 of 3 sections"))).
Proof.
  intros Hf Hsec Hnd existed written.
  eapply run_mono; [by apply restoreFullBackup_exact |].
  intros r w' (Hr & Hentries & Hother & Hkeep & Hb & Hlast & _).
  repeat (split; [done |]).
  intros H1 H3. rewrite Hlast. unfold written, existed in H1. by rewrite H1, H3.
Qed.

End WithPlatform.
End FullRestoreFacts.

(* ===================================================================== *)
(** * backup.js: what retention keeps                                     *)
(* ===================================================================== *)

Module RetentionExact.
Import JS JSFacts Json Fs Config FsFacts Backup RetentionFacts.

Section WithPlatform.
Context `{P : Platform}.
Variable cfg : backupConfig.

(** What [listAllBackups] returns for the backup directory [mb]. *)
Definition records (mb : gmap string file) : list backup :=
  omap (λ name, (λ f, record_of cfg name (stats_of f)) <$> mb !! name)
    (readdir mb).

(** The filter of [cleanupOldBackups]. *)
Definition sectionBackups (section : string) (l : list backup) : list backup :=
  filter (λ b, backupType_eqb (b_type b) TSection && section_is section b) l.

Lemma readdir_elem mb name : name ∈ readdir mb ↔ is_Some (mb !! name).
Proof.
  rewrite (readdir_perm mb). rewrite list_elem_of_fmap. split.
  - intros ([k f] & -> & Hin). apply elem_of_map_to_list in Hin. by eexists.
  - intros [f Hf]. exists (name, f). split; [done |]. by apply elem_of_map_to_list.
Qed.

Lemma readdir_NoDup mb : NoDup (readdir mb).
Proof. rewrite (readdir_perm mb). apply NoDup_fst_map_to_list. Qed.

Lemma records_names mb : b_name <$> records mb = readdir mb.
Proof.
  unfold records.
  assert (H : ∀ name, name ∈ readdir mb → is_Some (mb !! name))
    by (intros; by apply readdir_elem).
  induction (readdir mb) as [|name names IH]; [done |].
  simpl. destruct (H name) as [f Hf]; [by left |]. rewrite Hf. simpl.
  f_equal. apply IH. intros n Hn. apply H. by right.
Qed.

Lemma records_elem mb b :
  b ∈ records mb ↔
  ∃ f, mb !! b_name b = Some f ∧ b = record_of cfg (b_name b) (stats_of f).
Proof.
  unfold records. rewrite list_elem_of_omap. split.
  - intros (name & Hin & Hb). destruct (mb !! name) as [f|] eqn:Ef; [|done].
    simpl in Hb. injection Hb as <-. simpl. by exists f.
  - intros (f & Hf & Hb). exists (b_name b). split.
    + apply readdir_elem. by eexists.
    + rewrite Hf. simpl. by rewrite <- Hb.
Qed.

Lemma listAllBackups_ok w mb :
  faults w = [] → backupDir w = Some mb →
  listAllBackups cfg w = (Ok (records mb), w).
Proof.
  intros Hf Hb. apply run_eq. unfold listAllBackups.
  apply run_try_catch, run_bind, run_existsDir. simpl. rewrite Hb.
  rewrite bool_decide_eq_true_2 by eauto. simpl.
  apply run_bind. eapply run_readdirSync_ok; [done.. |].
  unfold records.
  assert (H : ∀ name, name ∈ readdir mb → is_Some (mb !! name))
    by (intros; by apply readdir_elem).
  assert (Hgoal : run (map_each (readdir mb) (λ file,
             stats <- statSync (Path BackupDir file);
             (let '(type, sectionName) :=
                if startsWith (fullBackupPrefix cfg) file then (TFull, None)
                else (TSection, match_section_name file) in
              ret {| b_path := Path BackupDir file; b_name := file;
                     b_date := st_mtime stats; b_size := st_size stats;
                     b_type := type; b_section := sectionName |}))) w
            (λ r w', r = Ok (omap (λ name, (λ f, record_of cfg name (stats_of f))
                                             <$> mb !! name) (readdir mb))
                     ∧ w' = w)).
  { induction (readdir mb) as [|name names IH]; simpl.
    - by apply run_ret.
    - destruct (H name) as [f Hfile]; [by left |]. rewrite Hfile. simpl.
      apply run_bind, run_bind.
      eapply (run_statSync_ok _ f); [done | |].
      { unfold lookup_file. simpl. by rewrite Hb. }
      apply (run_mono _ _ (λ r w', r = Ok (record_of cfg name (stats_of f))
                                   ∧ w' = w)).
      { unfold record_of, stats_of.
        by destruct (startsWith (fullBackupPrefix cfg) name); apply run_ret. }
      intros r w' [-> ->]. apply run_bind.
      eapply run_mono; [apply IH; intros n Hn; apply H; by right |].
      intros r w' [-> ->]. by apply run_ret. }
  eapply run_mono; [apply Hgoal |]. by intros r w' [-> ->].
Qed.

(** The backup directory once the files of the records [l] are deleted. *)
Definition del_all (m : gmap string file) (l : list backup) : gmap string file :=
  foldl (λ m b, delete (b_name b) m) m l.

Lemma del_all_lookup (l : list backup) m name :
  del_all m l !! name
  = if decide (name ∈ b_name <$> l) then None else m !! name.
Proof.
  revert m. induction l as [|b l IH]; intros m.
  - case_decide as Hin; [by apply elem_of_nil in Hin | done].
  - change (del_all m (b :: l)) with (del_all (delete (b_name b) m) l).
    rewrite IH. rewrite fmap_cons.
    destruct (decide (name ∈ b_name <$> l)) as [Hin|Hout].
    + rewrite decide_True; [done |]. by right.
    + rewrite lookup_delete. case_decide as Hb.
      * rewrite decide_True; [done |]. subst name. by left.
      * rewrite decide_False; [done |].
        intros [->|?]%elem_of_cons; done.
Qed.

Lemma del_all_app m (l1 l2 : list backup) :
  del_all m (l1 ++ l2) = del_all (del_all m l1) l2.
Proof. apply foldl_app. Qed.

Lemma run_for_each_app {A} (l1 l2 : list A) (body : A → M unit) w Q :
  run (for_each l1 body) w
    (λ r w1, match r with
             | Ok _ => run (for_each l2 body) w1 Q
             | Throw e => Q (Throw e) w1
             end) →
  run (for_each (l1 ++ l2) body) w Q.
Proof.
  revert w. induction l1 as [|x l1 IH]; intros w; simpl.
  - done.
  - unfold run, bind. destruct (body x w) as [[[]|e] w1]; simpl; [|done].
    apply IH.
Qed.

(** Deleting records whose files are all there. *)
Lemma run_delete_present (l : list backup) (msg : backup → string) m w :
  faults w = [] → backupDir w = Some m →
  NoDup (b_name <$> l) →
  (∀ b, b ∈ l → b_path b = Path BackupDir (b_name b) ∧ is_Some (m !! b_name b)) →
  run (for_each l (λ b, unlinkSync (b_path b) ;; console_log (msg b))) w
    (λ r w', r = Ok tt ∧ faults w' = [] ∧ sectionsDir w' = sectionsDir w
             ∧ clock w' = clock w ∧ backupDir w' = Some (del_all m l)).
Proof.
  revert m w. induction l as [|b l IH]; intros m w Hf Hb Hnd Hl; simpl.
  { by apply run_ret. }
  simpl in Hnd. apply NoDup_cons in Hnd as [Hfresh Hnd].
  destruct (Hl b) as [Hpath [f Hfile]]; [by left |].
  apply run_bind, run_bind. rewrite Hpath.
  eapply run_unlinkSync_ok; [done.. |].
  apply run_console_log. simpl.
  eapply run_mono.
  { apply (IH (delete (b_name b) m)); [done.. |].
    intros b' Hb'. destruct (Hl b') as [Hpath' Hsome']; [by right |].
    split; [done |]. rewrite lookup_delete_ne; [done |].
    intros Heq. apply Hfresh. rewrite Heq. apply list_elem_of_fmap. by exists b'. }
  by intros r w' (-> & ? & ? & ? & ?).
Qed.

(** Deleting records of which the first is already gone. *)
Lemma run_delete_gone (b : backup) (l : list backup) (msg : backup → string) m w :
  faults w = [] → backupDir w = Some m →
  b_path b = Path BackupDir (b_name b) → m !! b_name b = None →
  run (for_each (b :: l) (λ b, unlinkSync (b_path b) ;; console_log (msg b))) w
    (λ r w', r = Throw ENOENT ∧ w' = w).
Proof.
  intros Hf Hb Hpath Hgone. simpl. apply run_bind, run_bind. rewrite Hpath.
  by eapply run_unlinkSync_missing.
Qed.

(** A record is expired at time [now] when [retentionDays] is positive
    and the record is older than [now] less that many days. *)
Definition expired (now : Z) (b : backup) : bool :=
  (0 <? retentionDays cfg) && (b_date b <? now - retentionDays cfg * msPerDay).

(** What the two retention rules delete of the list [backups]: the
    records past the first [maxBackupsPerSection], and among the first
    ones those that are expired. *)
Definition doomed_of (backups : list backup) (now : Z) : list backup :=
  drop (maxBackupsPerSection cfg) backups
  ++ filter (λ b, expired now b) (take (maxBackupsPerSection cfg) backups).

Definition doomed (section : string) (now : Z) (mb : gmap string file)
  : list backup :=
  doomed_of (sectionBackups section (records mb)) now.

(** The two retention rules, run on records whose files are all there, on
    a machine where nothing fails. They end normally or on the deletion
    of a file the first rule has already deleted; the directory is the
    same in both cases. *)
Lemma retention_rules (backups : list backup) (msg1 msg2 : backup → string)
    w mb :
  faults w = [] → backupDir w = Some mb →
  NoDup (b_name <$> backups) →
  (∀ b, b ∈ backups →
     b_path b = Path BackupDir (b_name b) ∧ is_Some (mb !! b_name b)) →
  run ((if (maxBackupsPerSection cfg <? length backups)%nat then
          for_each (drop (maxBackupsPerSection cfg) backups) (λ b,
            unlinkSync (b_path b) ;; console_log (msg1 b))
        else ret tt) ;;
       if 0 <? retentionDays cfg then
         t <- now;
         for_each
           (filter (λ b, b_date b <? t - retentionDays cfg * msPerDay) backups)
           (λ b, unlinkSync (b_path b) ;; console_log (msg2 b))
       else ret tt) w
    (λ r w', (r = Ok tt ∨ r = Throw ENOENT) ∧ faults w' = []
             ∧ sectionsDir w' = sectionsDir w ∧ clock w' = clock w
             ∧ backupDir w' = Some (del_all mb (doomed_of backups (clock w)))).
Proof.
  intros Hf Hb Hnd Hin.
  set (max := maxBackupsPerSection cfg).
  assert (Hsplit : backups = take max backups ++ drop max backups)
    by (by rewrite take_drop).
  assert (Hnd' : NoDup (b_name <$> take max backups ++ drop max backups))
    by (by rewrite <- Hsplit).
  rewrite fmap_app in Hnd'. apply NoDup_app in Hnd' as (Hnd1 & Hdisj & Hnd2).
  apply run_bind.
  apply (run_mono _ _ (λ r w1, r = Ok tt ∧ faults w1 = []
            ∧ sectionsDir w1 = sectionsDir w ∧ clock w1 = clock w
            ∧ backupDir w1 = Some (del_all mb (drop max backups)))).
  { destruct (max <? length backups)%nat eqn:Emax.
    - apply run_delete_present; [done.. |].
      intros b Hb'. apply Hin. by apply (subseteq_drop max).
    - apply Nat.ltb_ge in Emax. rewrite drop_ge by done. by apply run_ret. }
  intros r w1 (-> & Hf1 & Hs1 & Hc1 & Hb1).
  unfold doomed_of. fold max. rewrite del_all_app.
  set (mb1 := del_all mb (drop max backups)) in *.
  unfold expired.
  destruct (0 <? retentionDays cfg) eqn:Eret; simpl.
  2:{ apply run_ret. split; [by left |]. repeat split; [done.. |].
      rewrite Hb1. f_equal. symmetry.
      replace (filter _ (take max backups)) with (@nil backup); [done |].
      symmetry. apply elem_of_nil_inv. intros b [Hex _]%list_elem_of_filter.
      done. }
  apply run_bind, run_now. rewrite Hc1.
  rewrite Hsplit at 1. rewrite filter_app.
  apply run_for_each_app.
  eapply run_mono.
  { apply (run_delete_present _ _ mb1); [done.. | |].
    - apply (sublist_NoDup _ (b_name <$> take max backups)); [done |].
      apply fmap_sublist, sublist_filter.
    - intros b [_ Hb']%list_elem_of_filter. split.
      + apply Hin. by apply (subseteq_take max).
      + unfold mb1. rewrite del_all_lookup. rewrite decide_False.
        * apply Hin. by apply (subseteq_take max).
        * intros Hd. apply (Hdisj (b_name b)); [|done].
          apply list_elem_of_fmap. by exists b. }
  intros r w2 (-> & Hf2 & Hs2 & Hc2 & Hb2).
  destruct (filter _ (drop max backups)) as [|b rest] eqn:Erest.
  { apply run_ret. split; [by left |]. repeat split; congruence. }
  assert (Hbin : b ∈ drop max backups).
  { assert (Hb' : b ∈ b :: rest) by (by left).
    rewrite <- Erest in Hb'. by apply list_elem_of_filter in Hb' as [_ ?]. }
  eapply run_mono.
  { eapply (run_delete_gone b rest); [done.. | |].
    - apply Hin. by apply (subseteq_drop max).
    - rewrite del_all_lookup. case_decide; [done |].
      unfold mb1. rewrite del_all_lookup. rewrite decide_True; [done |].
      apply list_elem_of_fmap. by exists b. }
  intros r w3 [-> ->]. split; [by right |]. repeat split; congruence.
Qed.

Lemma records_present mb (l : list backup) b :
  l ⊆ records mb → b ∈ l →
  b_path b = Path BackupDir (b_name b) ∧ is_Some (mb !! b_name b).
Proof.
  intros Hsub Hb. apply Hsub, records_elem in Hb as (f & Hfile & ->).
  simpl. eauto.
Qed.

Lemma cleanupOldBackups_exact (section : string) w mb :
  faults w = [] → backupDir w = Some mb →
  run (cleanupOldBackups cfg section) w
    (λ r w', r = Ok tt ∧ faults w' = [] ∧ sectionsDir w' = sectionsDir w
             ∧ clock w' = clock w
             ∧ backupDir w' = Some (del_all mb (doomed section (clock w) mb))).
Proof.
  intros Hf Hb. unfold cleanupOldBackups.
  apply run_try_catch, run_bind.
  unfold run at 1. rewrite (listAllBackups_ok w mb Hf Hb). simpl.
  fold (sectionBackups section (records mb)).
  eapply run_mono.
  { apply (retention_rules (sectionBackups section (records mb)) _ _ w mb);
      [done.. | |].
    - apply (sublist_NoDup _ (b_name <$> records mb)).
      + rewrite records_names. apply readdir_NoDup.
      + apply fmap_sublist, sublist_filter.
    - intros b Hb'. apply (records_present mb _ b) in Hb'; [done |].
      by intros b' [_ ?]%list_elem_of_filter. }
  intros r w1 ([-> | ->] & ? & ? & ? & ?); [done |].
  apply run_console_error. by repeat split.
Qed.

Lemma NoDup_fmap_eq {A B} (f : A → B) (l : list A) x y :
  NoDup (f <$> l) → x ∈ l → y ∈ l → f x = f y → x = y.
Proof.
  induction l as [|a l IH]; intros Hnd Hx Hy Heq.
  { by apply elem_of_nil in Hx. }
  rewrite fmap_cons in Hnd. apply NoDup_cons in Hnd as [Hfresh Hnd].
  apply elem_of_cons in Hx as [-> | Hx], Hy as [-> | Hy]; [done | | | by apply IH].
  - destruct Hfresh. rewrite Heq. apply list_elem_of_fmap. by exists y.
  - destruct Hfresh. rewrite <- Heq. apply list_elem_of_fmap. by exists x.
Qed.

(** The records retention keeps for the section. *)
Definition kept (section : string) (now : Z) (mb : gmap string file)
  : list backup :=
  filter (λ b, negb (expired now b))
    (take (maxBackupsPerSection cfg) (sectionBackups section (records mb))).

Lemma sectionBackups_NoDup section mb :
  NoDup (b_name <$> sectionBackups section (records mb)).
Proof.
  apply (sublist_NoDup _ (b_name <$> records mb)).
  - rewrite records_names. apply readdir_NoDup.
  - apply fmap_sublist, sublist_filter.
Qed.

Lemma doomed_or_kept section now mb b :
  b ∈ sectionBackups section (records mb) →
  (b ∈ kept section now mb ∧ b_name b ∉ (b_name <$> doomed section now mb))
  ∨ ((b ∉ kept section now mb) ∧ b_name b ∈ (b_name <$> doomed section now mb)).
Proof.
  intros Hb. unfold kept, doomed.
  set (backups := sectionBackups section (records mb)) in *.
  set (max := maxBackupsPerSection cfg).
  assert (Hnd := sectionBackups_NoDup section mb). fold backups in Hnd.
  assert (Hsame : ∀ b', b' ∈ backups → b_name b' = b_name b → b' = b).
  { intros b' Hb' Heq. by apply (NoDup_fmap_eq b_name backups). }
  assert (Hnd' := Hnd). rewrite <- (take_drop max backups) in Hnd'.
  rewrite fmap_app in Hnd'. apply NoDup_app in Hnd' as (_ & Hdisj & _).
  rewrite <- (take_drop max backups) in Hb.
  apply elem_of_app in Hb as [Hb | Hb].
  - destruct (expired now b) eqn:Eb.
    + right. split.
      * intros [Hk _]%list_elem_of_filter. by rewrite Eb in Hk.
      * apply list_elem_of_fmap. exists b. split; [done |].
        apply elem_of_app. right. apply list_elem_of_filter. by rewrite Eb.
    + left. split.
      * apply list_elem_of_filter. by rewrite Eb.
      * intros (b' & Heq & Hb')%list_elem_of_fmap.
        apply elem_of_app in Hb' as [Hb' | Hb'].
        -- apply (Hdisj (b_name b)); apply list_elem_of_fmap; eauto.
        -- apply list_elem_of_filter in Hb' as [Hex Hb'].
           rewrite (Hsame b') in Hex; [by rewrite Eb in Hex | | done].
           by apply (subseteq_take max).
  - right. split.
    + intros [_ Hk]%list_elem_of_filter.
      apply (Hdisj (b_name b)); apply list_elem_of_fmap; eauto.
    + apply list_elem_of_fmap. exists b. split; [done |].
      apply elem_of_app. by left.
Qed.

Lemma doomed_subset section now mb b :
  b ∈ doomed section now mb → b ∈ sectionBackups section (records mb).
Proof.
  unfold doomed. intros [Hb | [_ Hb]%list_elem_of_filter]%elem_of_app.
  - by apply (subseteq_drop (maxBackupsPerSection cfg)).
  - by apply (subseteq_take (maxBackupsPerSection cfg)).
Qed.

(** What is listed for the section after retention is among the kept. *)
Lemma listed_after_kept section now mb b :
  b ∈ sectionBackups section (records (del_all mb (doomed section now mb))) →
  b ∈ kept section now mb.
Proof.
  intros [Hsec Hb]%list_elem_of_filter.
  apply records_elem in Hb as (f & Hfile & Hb).
  rewrite del_all_lookup in Hfile. case_decide as Hd; [done |].
  assert (Hin : b ∈ sectionBackups section (records mb)).
  { apply list_elem_of_filter. split; [done |]. apply records_elem. eauto. }
  destruct (doomed_or_kept section now mb b Hin) as [[? _] | [_ ?]]; done.
Qed.

Lemma records_NoDup mb : NoDup (records mb).
Proof. apply (NoDup_fmap_1 b_name). rewrite records_names. apply readdir_NoDup. Qed.

(** Retention as [cleanupOldBackups] sees it, with its own filter
    [sectionBackups], which takes no record at all for an id that holds a
    ['-']. On a machine where nothing fails, when [backupSection] returns
    the path of the artifact it wrote, retention has run on the backup
    directory [mb1] that holds the artifact and has left the directory
    [mb']. Of the records [listAllBackups] gives for the section in [mb1],
    in the order it gives them, the first [maxBackupsPerSection] that are
    not older than the cutoff are kept as they were and all the others
    are deleted; every other file is kept. So what [listAllBackups] gives
    for the section afterwards has at most [maxBackupsPerSection]
    elements, and when [retentionDays] is positive none of them is older
    than the current time less [retentionDays] days. *)
Lemma retention_after_backupSection (section : string) (rotate : bool)
    (w : world) :
  faults w = [] →
  run (backupSection cfg section rotate) w (λ r w',
    ∀ p, r = Ok (Some p) →
    ∃ mb0 a mb',
      backupDir w = Some mb0 ∧ backupDir w' = Some mb' ∧ faults w' = [] ∧
      let mb1 := <[p_name p := a]> mb0 in
      let backups := sectionBackups section (records mb1) in
      (∀ b, b ∈ kept section (clock w) mb1 → mb' !! b_name b = mb1 !! b_name b)
      ∧ (∀ b, b ∈ backups → b ∉ kept section (clock w) mb1 →
           mb' !! b_name b = None)
      ∧ (∀ name, name ∉ b_name <$> backups → mb' !! name = mb1 !! name)
      ∧ (length (sectionBackups section (records mb'))
         ≤ maxBackupsPerSection cfg)%nat
      ∧ (0 < retentionDays cfg →
           ∀ b, b ∈ sectionBackups section (records mb') →
                ¬ b_date b < clock w - retentionDays cfg * msPerDay)).
Proof.
  intros Hf.
  match goal with |- run _ _ ?post => set (Q := post) end.
  assert (Hcatch : ∀ e w1,
    run (console_error ("error creating backup for section " +:+ section +:+ ":")
           (Some e) ;; ret (None : option path)) w1 Q).
  { intros e w1. by apply run_bind, run_console_error, run_ret. }
  unfold backupSection.
  apply run_try_catch, run_bind, run_existsSync.
  destruct (lookup_file _ w) as [f|] eqn:Ef.
  2:{ rewrite bool_decide_eq_false_2 by (by intros [? ?]). simpl.
      by apply run_bind, run_console_log, run_ret. }
  rewrite bool_decide_eq_true_2 by eauto. simpl.
  assert (∃ ms, sectionsDir w = Some ms) as [ms Hms].
  { unfold lookup_file in Ef. simpl in Ef.
    destruct (sectionsDir w); [eauto | done]. }
  apply run_bind, run_now, run_bind.
  eapply run_readFileSync_ok; [done.. |].
  assert (Hfinish : ∀ name data created,
    run (writeFileSync (Path BackupDir name) data ;;
         (if rotate
          then writeFileSync (Path SectionsDir (section +:+ ".txt")) ""
          else ret tt) ;;
         console_log created ;;
         cleanupOldBackups cfg section ;;
         ret (Some (Path BackupDir name))) w
      (λ r w',
         match r with
         | Ok r => Q (Ok r) w'
         | Throw e =>
             run (console_error
                    ("error creating backup for section " +:+ section +:+ ":")
                    (Some e) ;; ret (None : option path)) w' Q
         end)).
  { intros name data created.
    destruct (backupDir w) as [mb0|] eqn:Eb.
    2:{ apply run_bind. eapply run_writeFileSync_nodir; [done.. |]. apply Hcatch. }
    apply run_bind. eapply run_writeFileSync_ok; [done.. |]. simpl.
    set (mb1 := <[name := File data (clock w)]> mb0).
    apply run_bind.
    apply (run_mono _ _ (λ r w1, r = Ok tt ∧ faults w1 = []
              ∧ clock w1 = clock w ∧ backupDir w1 = Some mb1)).
    { destruct rotate; [|by apply run_ret].
      eapply run_writeFileSync_ok; [done.. |]. by simpl. }
    intros r w1 (-> & Hf1 & Hc1 & Hb1).
    apply run_bind, run_console_log, run_bind.
    eapply run_mono; [by apply (cleanupOldBackups_exact section _ mb1) |].
    intros r w2 (-> & Hf2 & _ & _ & Hb2). apply run_ret.
    unfold Q. intros p [= <-]. simpl in Hb2. rewrite Hc1 in Hb2.
    exists mb0, (File data (clock w)), (del_all mb1 (doomed section (clock w) mb1)).
    split; [done |]. split; [done |]. split; [done |]. simpl. fold mb1.
    split; [|split; [|split; [|split]]].
    - intros b Hk. rewrite del_all_lookup.
      assert (Hb : b ∈ sectionBackups section (records mb1)).
      { apply list_elem_of_filter in Hk as [_ Hk].
        by apply (subseteq_take (maxBackupsPerSection cfg)). }
      destruct (doomed_or_kept section (clock w) mb1 b Hb) as [[_ ?] | [? _]];
        [|done]. by rewrite decide_False.
    - intros b Hb Hk. rewrite del_all_lookup.
      destruct (doomed_or_kept section (clock w) mb1 b Hb) as [[? _] | [_ ?]];
        [done |]. by rewrite decide_True.
    - intros nm Hnm. rewrite del_all_lookup. rewrite decide_False; [done |].
      intros (b & -> & Hb)%list_elem_of_fmap. apply Hnm.
      apply list_elem_of_fmap. exists b. split; [done |].
      by eapply doomed_subset.
    - transitivity (length (kept section (clock w) mb1)).
      + apply submseteq_length, NoDup_submseteq.
        * apply (sublist_NoDup _
                   (records (del_all mb1 (doomed section (clock w) mb1))));
            [apply records_NoDup | apply sublist_filter].
        * intros b. apply listed_after_kept.
      + unfold kept. etransitivity; [apply length_filter |].
        rewrite length_take. lia.
    - intros Hpos b Hb Hold. apply listed_after_kept in Hb.
      apply list_elem_of_filter in Hb as [Hex _].
      unfold expired in Hex.
      rewrite (proj2 (Z.ltb_lt _ _) Hpos), (proj2 (Z.ltb_lt _ _) Hold) in Hex.
      done. }
  destruct (useCompression cfg); apply Hfinish.
Qed.

End WithPlatform.
End RetentionExact.

(* ===================================================================== *)
(** * logger.js: creating a section                                       *)
(* ===================================================================== *)

Module SectionFacts.
Import JS JSFacts Json Fs Config FsFacts Logger FullRestoreFacts.

Lemma obj_set_keys k v (props : list (string * json)) :
  (obj_set k v props).*1
  = if bool_decide (k ∈ props.*1) then props.*1 else props.*1 ++ [k].
Proof.
  induction props as [|[k' v'] props IH].
  { rewrite bool_decide_eq_false_2; [done |]. by intros ?%elem_of_nil. }
  cbn [obj_set]. destruct (string_eqb k k') eqn:Ek; rewrite !fmap_cons; cbn [fst].
  - apply string_eqb_eq in Ek as <-.
    rewrite bool_decide_eq_true_2; [done | by left].
  - apply string_eqb_neq in Ek. rewrite IH.
    destruct (bool_decide (k ∈ props.*1)) eqn:Ein.
    + apply bool_decide_eq_true in Ein.
      rewrite bool_decide_eq_true_2; [done | by right].
    + apply bool_decide_eq_false in Ein.
      rewrite bool_decide_eq_false_2; [done |].
      by intros [?|?]%elem_of_cons.
Qed.

Lemma obj_get_set k v (props : list (string * json)) :
  obj_get k (obj_set k v props) = Some v.
Proof.
  induction props as [|[k' v'] props IH]; simpl.
  - by rewrite string_eqb_refl.
  - destruct (string_eqb k k') eqn:Ek; simpl.
    + by rewrite string_eqb_refl.
    + by rewrite Ek.
Qed.

Lemma obj_get_set_other k k' v (props : list (string * json)) :
  k' ≠ k → obj_get k' (obj_set k v props) = obj_get k' props.
Proof.
  intros Hne. induction props as [|[k0 v0] props IH]; simpl.
  - by rewrite (proj2 (string_eqb_neq _ _) Hne).
  - destruct (string_eqb k k0) eqn:Ek; simpl.
    + apply string_eqb_eq in Ek as <-.
      by rewrite (proj2 (string_eqb_neq _ _) Hne).
    + by rewrite IH.
Qed.

Lemma obj_assign_plain k v (props : list (string * json)) :
  k ≠ "__proto__" → obj_assign k v props = obj_set k v props.
Proof.
  intros Hne. unfold obj_assign. by rewrite (proj2 (string_eqb_neq _ _) Hne).
Qed.

Lemma json_wf_obj (props : list (string * json)) :
  json_wf (JObj props) ↔ NoDup (props.*1) ∧ Forall (λ kv, json_wf kv.2) props.
Proof.
  simpl. apply and_iff_compat_l.
  induction props as [|kv props IH]; [by split; [constructor|] |].
  rewrite Forall_cons, IH. done.
Qed.

Lemma obj_set_wf k v (props : list (string * json)) :
  json_wf (JObj props) → json_wf v → json_wf (JObj (obj_set k v props)).
Proof.
  rewrite !json_wf_obj. intros [Hnd Hall] Hv. split.
  - rewrite obj_set_keys. case_bool_decide as Hin; [done |].
    apply NoDup_app. split; [done |]. split; [|apply NoDup_singleton].
    intros x Hx ->%list_elem_of_singleton. done.
  - clear Hnd. induction Hall as [|[k' v'] props Hkv Hall IH]; simpl.
    + by repeat constructor.
    + destruct (string_eqb k k'); constructor; done.
Qed.

Section WithPlatform.
Context `{P : Platform}.

(** The mapping the sidecar holds, as [getSectionMetadata] reads it: the
    empty object when the file is missing or cannot be parsed. *)
Definition metadata_of (w : world) : json :=
  match lookup_file metadataFile w with
  | Some f => default (JObj []) (JSON_parse (f_data f))
  | None => JObj []
  end.

Lemma metadata_of_wf w : json_wf (metadata_of w).
Proof.
  unfold metadata_of. destruct (lookup_file metadataFile w) as [f|].
  - destruct (JSON_parse (f_data f)) as [v|] eqn:E; simpl.
    + by eapply JSON_parse_wf.
    + split; [constructor | done].
  - split; [constructor | done].
Qed.

Lemma getSectionMetadata_ok w :
  faults w = [] →
  run getSectionMetadata w
    (λ r w', r = Ok (metadata_of w) ∧ faults w' = []
             ∧ sectionsDir w' = sectionsDir w ∧ backupDir w' = backupDir w
             ∧ clock w' = clock w).
Proof.
  intros Hf. unfold getSectionMetadata, metadata_of.
  apply run_try_catch, run_bind, run_existsSync.
  destruct (lookup_file metadataFile w) as [f|] eqn:Ef.
  - rewrite bool_decide_eq_true_2 by eauto.
    apply run_bind. eapply run_readFileSync_ok; [done.. |].
    unfold JSON_parse_or_throw. destruct (JSON_parse (f_data f)); simpl.
    + by apply run_ret.
    + apply run_throw, run_bind, run_console_error, run_ret. by simpl.
  - rewrite bool_decide_eq_false_2 by (by intros [? ?]). by apply run_ret.
Qed.

(** What C6 says of [createSection], for every name whose sanitized form
    is not [__proto__]: on a machine where nothing fails, with the
    sections directory in place and a sidecar that is missing, unparsable
    or a JSON object,
    [createSection] returns the sanitized name; it creates the log file,
    empty, when there was none and otherwise leaves it as it was; it
    touches no other log file and no backup; and the sidecar then holds the
    former mapping with the entry of that id set to [{description}]. The
    state it leaves satisfies the same conditions, so a second call with a
    name that sanitizes to the same id finds the file, leaves it alone,
    and replaces the description. *)
Theorem createSection_spec (name description : string)
    (ms : gmap string file) (props : list (string * json)) (w : world) :
  faults w = [] → sectionsDir w = Some ms → metadata_of w = JObj props →
  sanitize name ≠ "__proto__" →
  let id := sanitize name in
  let entry := JObj [("description", JStr description)] in
  run (createSection name description) w (λ r w',
    r = Ok id
    ∧ lookup_file (getLogFilePath id) w'
      = match lookup_file (getLogFilePath id) w with
        | Some f => Some f
        | None => Some (File "" (clock w))
        end
    ∧ (∀ other, other ≠ id →
         lookup_file (getLogFilePath other) w'
         = lookup_file (getLogFilePath other) w)
    ∧ backupDir w' = backupDir w
    ∧ metadata_of w' = JObj (obj_set id entry props)
    ∧ obj_get id (obj_set id entry props) = Some entry
    ∧ (∀ other, other ≠ id →
         obj_get other (obj_set id entry props) = obj_get other props)
    ∧ faults w' = [] ∧ is_Some (sectionsDir w')).
Proof.
  intros Hf Hms Hmeta Hid id entry. unfold createSection. fold id. fold entry.
  apply run_bind, run_existsSync, run_bind.
  set (ms1 := match ms !! logName id with
              | Some _ => ms
              | None => <[logName id := File "" (clock w)]> ms
              end).
  apply (run_mono _ _ (λ r w1, r = Ok tt ∧ faults w1 = []
            ∧ sectionsDir w1 = Some ms1 ∧ backupDir w1 = backupDir w
            ∧ clock w1 = clock w)).
  { unfold lookup_file, ms1. simpl. rewrite Hms. simpl. fold (logName id).
    destruct (ms !! logName id) as [f|] eqn:Ef.
    - rewrite bool_decide_eq_true_2 by eauto. by apply run_ret.
    - rewrite bool_decide_eq_false_2 by (by intros [? ?]). simpl.
      eapply run_writeFileSync_ok; [done.. |]. by simpl. }
  intros r w1 (-> & Hf1 & Hs1 & Hb1 & Hc1).
  assert (Hmeta1 : metadata_of w1 = JObj props).
  { rewrite <- Hmeta. unfold metadata_of, lookup_file. simpl.
    rewrite Hs1, Hms. simpl. unfold ms1.
    destruct (ms !! logName id); [done |].
    rewrite lookup_insert_ne; [done | apply logName_not_metadata]. }
  apply run_bind.
  eapply run_mono; [by apply getSectionMetadata_ok |].
  intros r w2 (-> & Hf2 & Hs2 & Hb2 & Hc2). rewrite Hmeta1. simpl.
  rewrite (obj_assign_plain id entry props Hid).
  apply run_bind, run_ret, run_bind.
  unfold saveSectionMetadata. apply run_try_catch.
  eapply run_writeFileSync_ok; [done | simpl; by rewrite Hs2, Hs1 |].
  apply run_ret. simpl.
  split; [done |]. split; [|split; [|split; [congruence |split; [|split; [|split]]]]].
  - unfold lookup_file. simpl. rewrite Hms. simpl. fold (logName id).
    rewrite lookup_insert_ne by (symmetry; apply logName_not_metadata).
    unfold ms1. destruct (ms !! logName id) as [f|] eqn:Ef; [done |].
    by rewrite lookup_insert_eq.
  - intros other Hne. unfold lookup_file. simpl. rewrite Hms. simpl.
    fold (logName other).
    rewrite lookup_insert_ne by (symmetry; apply logName_not_metadata).
    unfold ms1. destruct (ms !! logName id); [done |].
    rewrite lookup_insert_ne; [done |]. by intros ?%logName_inj.
  - unfold metadata_of, lookup_file. simpl. rewrite lookup_insert_eq. simpl.
    rewrite JSON_parse_stringify; [done |].
    apply obj_set_wf; [|by split; [repeat constructor; set_solver |]].
    rewrite <- Hmeta. apply metadata_of_wf.
  - apply obj_get_set.
  - intros other Hne. by apply obj_get_set_other.
  - done.
Qed.

End WithPlatform.
End SectionFacts.

(* ===================================================================== *)
(** * logger.js: appending entries and reading them back                  *)
(* ===================================================================== *)

Module LogFacts.
Import JS JSFacts Json Fs Config FsFacts Logger FullRestoreFacts.

(** Every character of the string is white space. *)
Fixpoint all_white (s : string) : bool :=
  match s with
  | EmptyString => true
  | String c r => is_white_space c && all_white r
  end.

Lemma all_white_app a b : all_white (a +:+ b) = all_white a && all_white b.
Proof.
  induction a as [|c a IH]; [done |].
  rewrite app_cons. simpl. by rewrite IH, andb_assoc.
Qed.

Lemma all_white_rev s : all_white (rev_string s) = all_white s.
Proof.
  induction s as [|c s IH]; [done |].
  simpl. rewrite all_white_app, IH. simpl. by rewrite andb_true_r, andb_comm.
Qed.

Lemma trimStart_empty s : trimStart s = "" ↔ all_white s = true.
Proof.
  induction s as [|c s IH]; simpl; [done |].
  destruct (is_white_space c); simpl; [done |]. split; discriminate.
Qed.

Lemma all_white_trimStart s : all_white (trimStart s) = all_white s.
Proof.
  induction s as [|c s IH]; simpl; [done |].
  destruct (is_white_space c) eqn:Ec; simpl; [done |]. by rewrite Ec.
Qed.

Lemma trimEnd_empty s : trimEnd s = "" ↔ all_white s = true.
Proof.
  unfold trimEnd. rewrite <- all_white_rev, <- trimStart_empty. split.
  - intros H. apply (f_equal rev_string) in H.
    by rewrite rev_string_involutive in H.
  - by intros ->.
Qed.

Lemma all_white_trimEnd s : all_white (trimEnd s) = all_white s.
Proof.
  unfold trimEnd. by rewrite all_white_rev, all_white_trimStart, all_white_rev.
Qed.

Lemma trim_empty s : trim s = "" ↔ all_white s = true.
Proof. unfold trim. by rewrite trimEnd_empty, all_white_trimStart. Qed.

Lemma trimStart_app a b :
  all_white a = false → trimStart (a +:+ b) = trimStart a +:+ b.
Proof.
  induction a as [|c a IH]; [done |].
  rewrite app_cons. simpl. destruct (is_white_space c); simpl; [done |].
  intros _. by rewrite app_cons.
Qed.

Lemma trimEnd_app a b :
  all_white b = false → trimEnd (a +:+ b) = a +:+ trimEnd b.
Proof.
  intros Hb. unfold trimEnd. rewrite rev_string_app.
  rewrite trimStart_app by (by rewrite all_white_rev).
  by rewrite rev_string_app, rev_string_involutive.
Qed.

Lemma trimEnd_white a b : all_white b = true → trimEnd (a +:+ b) = trimEnd a.
Proof.
  intros Hb. unfold trimEnd. rewrite rev_string_app. f_equal.
  rewrite <- all_white_rev in Hb.
  induction (rev_string b) as [|c r IH]; [done |].
  simpl in Hb. apply andb_true_iff in Hb as [Hc Hr].
  rewrite app_cons. simpl. rewrite Hc. by apply IH.
Qed.

Lemma includes_char_rev c s : includes_char c (rev_string s) = includes_char c s.
Proof.
  induction s as [|d s IH]; [done |].
  simpl. rewrite includes_char_app, IH. simpl.
  by rewrite orb_false_r, orb_comm.
Qed.

Lemma includes_char_trimStart c s :
  includes_char c s = false → includes_char c (trimStart s) = false.
Proof.
  induction s as [|d s IH]; simpl; [done |].
  intros [Hd Hs]%orb_false_iff.
  destruct (is_white_space d); [by apply IH |]. simpl. by rewrite Hd, Hs.
Qed.

Lemma includes_char_trimEnd c s :
  includes_char c s = false → includes_char c (trimEnd s) = false.
Proof.
  intros H. unfold trimEnd. rewrite includes_char_rev.
  apply includes_char_trimStart. by rewrite includes_char_rev.
Qed.

Lemma split_on_single c s : includes_char c s = false → split_on c s = [s].
Proof.
  induction s as [|d s IH]; simpl; [done |].
  intros [Hd Hs]%orb_false_iff. rewrite ascii_eqb_sym, Hd. by rewrite IH.
Qed.

Lemma split_on_app c a b :
  includes_char c a = false →
  split_on c (a +:+ String c b) = a :: split_on c b.
Proof.
  induction a as [|d a IH]; intros Ha.
  - rewrite app_nil_l. simpl. by rewrite ascii_eqb_refl.
  - simpl in Ha. apply orb_false_iff in Ha as [Hd Ha].
    rewrite app_cons. simpl. rewrite ascii_eqb_sym, Hd. by rewrite IH.
Qed.

(** What the log file holds once the entries are appended to an empty
    file. *)
Fixpoint lines (entries : list string) : string :=
  match entries with
  | [] => ""
  | e :: r => e +:+ String LF (lines r)
  end.

(** The entries as [loadAllLogs] gives them back: the first without its
    leading white space, the last without its trailing white space. *)
Definition trim_first (entries : list string) : list string :=
  match entries with
  | [] => []
  | e :: r => trimStart e :: r
  end.

Fixpoint trim_last (entries : list string) : list string :=
  match entries with
  | [] => []
  | [e] => [trimEnd e]
  | e :: r => e :: trim_last r
  end.

(** An entry is one line that is not blank. *)
Definition entry_ok (e : string) : Prop :=
  includes_char LF e = false ∧ trim e ≠ "".

Lemma entry_ok_white e : entry_ok e → all_white e = false.
Proof.
  intros [_ H]. destruct (all_white e) eqn:E; [|done].
  by apply trim_empty in E.
Qed.

Lemma entry_ok_trimStart e : entry_ok e → entry_ok (trimStart e).
Proof.
  intros He. assert (Hw := entry_ok_white e He). destruct He as [Hl Hb].
  split; [by apply includes_char_trimStart |].
  intros H%trim_empty. by rewrite all_white_trimStart, Hw in H.
Qed.

Lemma entry_ok_trimEnd e : entry_ok e → entry_ok (trimEnd e).
Proof.
  intros He. assert (Hw := entry_ok_white e He). destruct He as [Hl Hb].
  split; [by apply includes_char_trimEnd |].
  intros H%trim_empty. by rewrite all_white_trimEnd, Hw in H.
Qed.

Lemma lines_white entries :
  Forall entry_ok entries → entries ≠ [] → all_white (lines entries) = false.
Proof.
  intros [|e r He _]; [done |]. intros _. simpl.
  rewrite all_white_app, (entry_ok_white e He). done.
Qed.

Lemma trimStart_lines entries :
  Forall entry_ok entries →
  trimStart (lines entries) = lines (trim_first entries).
Proof.
  intros [|e r He _]; [done |]. simpl.
  by rewrite trimStart_app by (by apply entry_ok_white).
Qed.

(** The text of the entries with the last line feed and the trailing white
    space of the last entry removed. *)
Fixpoint body (entries : list string) : string :=
  match entries with
  | [] => ""
  | [e] => trimEnd e
  | e :: r => e +:+ String LF (body r)
  end.

Lemma trimEnd_lines entries :
  Forall entry_ok entries → trimEnd (lines entries) = body entries.
Proof.
  induction 1 as [|e r He Hr IH]; [done |].
  destruct r as [|e' r].
  - simpl. by rewrite trimEnd_white.
  - change (lines (e :: e' :: r)) with (e +:+ String LF (lines (e' :: r))).
    change (body (e :: e' :: r)) with (e +:+ String LF (body (e' :: r))).
    rewrite <- IH.
    assert (Hw : all_white (lines (e' :: r)) = false) by (by apply lines_white).
    replace (e +:+ String LF (lines (e' :: r)))
      with ((e +:+ String LF "") +:+ lines (e' :: r)) by (by rewrite app_assoc).
    rewrite trimEnd_app by done. by rewrite app_assoc.
Qed.

Lemma split_body entries :
  Forall entry_ok entries → entries ≠ [] →
  split_on LF (body entries) = trim_last entries.
Proof.
  induction 1 as [|e r He Hr IH]; [done |]. intros _.
  destruct r as [|e' r].
  - simpl. apply split_on_single, includes_char_trimEnd, He.
  - change (body (e :: e' :: r)) with (e +:+ String LF (body (e' :: r))).
    rewrite split_on_app by apply He. by rewrite IH.
Qed.

Lemma trim_last_ok entries :
  Forall entry_ok entries → Forall entry_ok (trim_last entries).
Proof.
  induction 1 as [|e r He Hr IH]; [done |].
  destruct r as [|e' r]; simpl.
  - constructor; [by apply entry_ok_trimEnd | done].
  - by constructor.
Qed.

Lemma trim_first_ok entries :
  Forall entry_ok entries → Forall entry_ok (trim_first entries).
Proof.
  intros [|e r He Hr]; [done |]. constructor; [by apply entry_ok_trimStart | done].
Qed.

(** What [loadAllLogs] computes from the text of the file. *)
Definition parse_log (data : string) : list string :=
  filter (λ line, negb (string_eqb (trim line) "")) (split_on LF (trim data)).

Lemma parse_log_lines entries :
  Forall entry_ok entries →
  parse_log (lines entries) = trim_last (trim_first entries).
Proof.
  intros Hok. unfold parse_log, trim.
  rewrite trimStart_lines by done.
  assert (Hok' := trim_first_ok _ Hok).
  rewrite trimEnd_lines by done.
  destruct (trim_first entries) as [|e r] eqn:E.
  { destruct entries; [done | discriminate]. }
  rewrite split_body by done.
  assert (Hall := trim_last_ok _ Hok').
  induction Hall as [|x l Hx Hl IH]; [done |].
  rewrite filter_cons, IH. rewrite decide_True; [done |].
  destruct Hx as [_ Hx]. apply Is_true_true, negb_true_iff.
  by apply string_eqb_neq.
Qed.

(** The calls [saveLog(section, e)] for the entries in turn. *)
Definition saveLogs (section : string) (entries : list string) : M unit :=
  for_each entries (λ e, saveLog section e ;; ret tt).

Lemma saveLog_ok (section e : string) (ms : gmap string file) w :
  faults w = [] → sectionsDir w = Some ms →
  run (saveLog section e) w
    (λ r w',
       (∃ b, r = Ok b) ∧ faults w' = [] ∧ backupDir w' = backupDir w
       ∧ clock w' = clock w
       ∧ sectionsDir w'
         = Some (<[logName section :=
                     File (from_option f_data "" (ms !! logName section)
                           +:+ e +:+ String LF "") (clock w)]> ms)).
Proof.
  intros Hf Hs. unfold saveLog.
  apply run_try_catch, run_bind.
  eapply run_appendFileSync_ok; [done.. |]. simpl.
  apply run_bind. eapply run_statSync_ok; [done | |].
  { unfold lookup_file. simpl. fold (logName section).
    by rewrite lookup_insert_eq. }
  apply run_ret. split; [by eexists |]. by repeat split.
Qed.

Lemma saveLogs_ok (section : string) (entries : list string)
    (ms : gmap string file) w :
  faults w = [] → sectionsDir w = Some ms →
  run (saveLogs section entries) w
    (λ r w',
       r = Ok tt ∧ faults w' = []
       ∧ ∃ ms', sectionsDir w' = Some ms'
           ∧ f_data <$> ms' !! logName section
             = match entries with
               | [] => f_data <$> ms !! logName section
               | _ => Some (from_option f_data "" (ms !! logName section)
                            +:+ lines entries)
               end).
Proof.
  revert ms w. induction entries as [|e r IH]; intros ms w Hf Hs.
  { apply run_ret. split; [done |]. split; [done |]. by exists ms. }
  unfold saveLogs. simpl. apply run_bind, run_bind.
  eapply run_mono; [by apply saveLog_ok |].
  intros res w1 ([b ->] & Hf1 & _ & _ & Hs1).
  apply run_ret.
  eapply run_mono; [by apply IH |].
  intros res w2 (-> & Hf2 & ms' & Hs2 & Hdata).
  split; [done |]. split; [done |]. exists ms'. split; [done |].
  rewrite Hdata. rewrite lookup_insert_eq. simpl.
  destruct r as [|e' r]; simpl; [done |].
  by rewrite !app_assoc.
Qed.

(** C5, as amended: on a machine where nothing fails, after the entries
    are appended in turn to a section whose file was missing or empty,
    each entry being one line that is not blank, [loadAllLogs] returns
    them all in the order appended, none twice, changed only in that the
    first has lost its leading white space and the last its trailing
    white space; so it returns exactly the entries when the first does
    not start and the last does not end with white space. It returns the
    empty list when the file is missing, on any machine. *)
Theorem loadAllLogs_after_saveLog (section : string) (entries : list string)
    (ms : gmap string file) (w : world) :
  faults w = [] → sectionsDir w = Some ms →
  from_option f_data "" (ms !! logName section) = "" →
  Forall entry_ok entries →
  run (saveLogs section entries ;; loadAllLogs section) w
    (λ r _, r = Ok (trim_last (trim_first entries))
            ∧ (trim_first entries = entries → trim_last entries = entries →
               r = Ok entries))
  ∧ (∀ w0, lookup_file (getLogFilePath section) w0 = None →
       run (loadAllLogs section) w0 (λ r w', r = Ok [] ∧ w' = w0)).
Proof.
  intros Hf Hs Hold Hok. split.
  - apply run_bind.
    eapply run_mono; [by apply saveLogs_ok |].
    intros r w1 (-> & Hf1 & ms' & Hs1 & Hdata).
    assert (Hshape : ∀ r : outcome (list string),
              r = Ok (trim_last (trim_first entries)) →
              r = Ok (trim_last (trim_first entries))
              ∧ (trim_first entries = entries → trim_last entries = entries →
                 r = Ok entries)).
    { intros r ->. split; [done |]. by intros -> ->. }
    unfold loadAllLogs. apply run_try_catch, run_bind, run_existsSync.
    unfold lookup_file. simpl. rewrite Hs1. simpl. fold (logName section).
    destruct (ms' !! logName section) as [f|] eqn:Ef.
    + rewrite bool_decide_eq_true_2 by eauto.
      apply run_bind. eapply (run_readFileSync_ok _ f); [done | |].
      { unfold lookup_file. simpl. by rewrite Hs1. }
      apply run_ret. apply Hshape. f_equal.
      fold (parse_log (f_data f)).
      simpl in Hdata. rewrite Hold in Hdata.
      destruct entries as [|e r].
      * destruct (ms !! logName section) as [f0|]; [|done].
        simpl in Hdata, Hold. injection Hdata as Hd. by rewrite Hd, Hold.
      * injection Hdata as Hd. rewrite Hd, app_nil_l.
        by apply (parse_log_lines (e :: r)).
    + rewrite bool_decide_eq_false_2 by (by intros [? ?]).
      apply run_ret. apply Hshape. f_equal.
      destruct entries as [|e r]; [done | discriminate].
  - intros w0 Hnone. unfold loadAllLogs.
    apply run_try_catch, run_bind, run_existsSync. rewrite Hnone.
    rewrite bool_decide_eq_false_2 by (by intros [? ?]). by apply run_ret.
Qed.

(** A machine with both directories empty, at time 0, on which nothing
    fails. *)
Definition fresh : world := World (Some ∅) (Some ∅) 0 [] [].

Lemma loadAllLogs_after_saveLog_witness :
  run (saveLogs "notes" ["first"; "second"; "third"] ;; loadAllLogs "notes") fresh
    (λ r _, r = Ok ["first"; "second"; "third"]).
Proof.
  assert (Hok : Forall entry_ok ["first"; "second"; "third"]).
  { repeat constructor; vm_compute; discriminate. }
  destruct (loadAllLogs_after_saveLog "notes" ["first"; "second"; "third"]
              ∅ fresh eq_refl eq_refl eq_refl Hok) as [H _].
  eapply run_mono; [exact H |]. intros r _ [-> _]. reflexivity.
Defined.

(** C5, as stated, fails, whether the entries are to come back as they
    were appended or each without its trailing white space: an entry
    that starts with a space is one line and is not blank, and comes back
    without the space. *)
Lemma loadAllLogs_leading_space :
  let claim (post : list string → list string) :=
    ∀ (section : string) (entries : list string) (ms : gmap string file)
      (w : world),
      faults w = [] → sectionsDir w = Some ms →
      from_option f_data "" (ms !! logName section) = "" →
      Forall entry_ok entries →
      run (saveLogs section entries ;; loadAllLogs section) w
        (λ r _, r = Ok (post entries)) in
  ¬ claim id ∧ ¬ claim (fmap trimEnd).
Proof.
  assert (Hok : Forall entry_ok [" a"]).
  { repeat constructor; vm_compute; discriminate. }
  split; intros H;
    specialize (H "notes" [" a"] ∅ fresh eq_refl eq_refl eq_refl Hok);
    vm_compute in H; discriminate H.
Qed.

End LogFacts.

(* ===================================================================== *)
(** * backup.js: the full backup and its restoration                      *)
(* ===================================================================== *)

Module FullBackupFacts.
Import JS JSFacts Json Fs Config FsFacts Logger Backup RetentionFacts.
Import RestoreFacts FullRestoreFacts RetentionExact SectionFacts.

(** [entries[s] = c] on the texts of a snapshot. *)
Fixpoint set_entry (s c : string) (entries : list (string * string))
  : list (string * string) :=
  match entries with
  | [] => [(s, c)]
  | (s', c') :: r =>
      if string_eqb s s' then (s, c) :: r else (s', c') :: set_entry s c r
  end.

Lemma payload_set_entry s c entries :
  obj_set s (JStr c) (payload_sections entries)
  = payload_sections (set_entry s c entries).
Proof.
  induction entries as [|[s' c'] r IH]; simpl; [done |].
  destruct (string_eqb s s'); simpl; [done |]. by rewrite IH.
Qed.

Lemma set_entry_keys s c (entries : list (string * string)) :
  (set_entry s c entries).*1
  = if bool_decide (s ∈ entries.*1) then entries.*1 else entries.*1 ++ [s].
Proof.
  induction entries as [|[s' c'] r IH].
  { rewrite bool_decide_eq_false_2; [done |]. by intros ?%elem_of_nil. }
  cbn [set_entry]. destruct (string_eqb s s') eqn:Es; rewrite !fmap_cons; cbn [fst].
  - apply string_eqb_eq in Es as <-.
    rewrite bool_decide_eq_true_2; [done | by left].
  - apply string_eqb_neq in Es. rewrite IH.
    destruct (bool_decide (s ∈ r.*1)) eqn:Ein.
    + apply bool_decide_eq_true in Ein.
      rewrite bool_decide_eq_true_2; [done | by right].
    + apply bool_decide_eq_false in Ein.
      rewrite bool_decide_eq_false_2; [done |].
      by intros [?|?]%elem_of_cons.
Qed.

Lemma set_entry_NoDup s c (entries : list (string * string)) :
  NoDup (entries.*1) → NoDup ((set_entry s c entries).*1).
Proof.
  intros Hnd. rewrite set_entry_keys. case_bool_decide as Hin; [done |].
  apply NoDup_app. split; [done |]. split; [|apply NoDup_singleton].
  intros x Hx ->%list_elem_of_singleton. done.
Qed.

Lemma set_entry_elem s c (entries : list (string * string)) s' c' :
  (s', c') ∈ set_entry s c entries →
  (s' = s ∧ c' = c) ∨ (s', c') ∈ entries.
Proof.
  induction entries as [|[s0 c0] r IH]; simpl.
  - intros [= -> ->]%list_elem_of_singleton. by left.
  - destruct (string_eqb s s0).
    + intros [[= -> ->] | ?]%elem_of_cons; [by left |]. right. by right.
    + intros [[= -> ->] | H]%elem_of_cons; [right; by left |].
      destruct (IH H) as [? | ?]; [by left |]. right. by right.
Qed.

Lemma set_entry_same s c (entries : list (string * string)) :
  (s, c) ∈ set_entry s c entries.
Proof.
  induction entries as [|[s0 c0] r IH]; simpl; [by left |].
  destruct (string_eqb s s0); [by left | by right].
Qed.

Lemma set_entry_keeps s c (entries : list (string * string)) s' c' :
  s' ≠ s → (s', c') ∈ entries → (s', c') ∈ set_entry s c entries.
Proof.
  intros Hne. induction entries as [|[s0 c0] r IH]; simpl;
    [by intros ?%elem_of_nil |].
  intros [[= <- <-] | H]%elem_of_cons.
  - rewrite (proj2 (string_eqb_neq _ _)) by done. by left.
  - destruct (string_eqb s s0); right; [done | by apply IH].
Qed.

(** [entries[s] = c] as the assignment it is in the source. *)
Definition assign_entry (s c : string) (entries : list (string * string))
  : list (string * string) :=
  if string_eqb s "__proto__" then
    if bool_decide (s ∈ entries.*1) then set_entry s c entries else entries
  else set_entry s c entries.

Lemma obj_get_payload s (entries : list (string * string)) :
  obj_get s (payload_sections entries)
  = if bool_decide (s ∈ entries.*1)
    then obj_get s (payload_sections entries) else None.
Proof.
  case_bool_decide as Hin; [done |].
  induction entries as [|[s' c'] r IH]; [done |].
  rewrite fmap_cons in Hin. cbn [fst] in Hin.
  apply not_elem_of_cons in Hin as [Hne Hin].
  unfold payload_sections. cbn [map obj_get fst snd].
  rewrite (proj2 (string_eqb_neq _ _) Hne). by apply IH.
Qed.

Lemma obj_get_payload_elem s (entries : list (string * string)) :
  s ∈ entries.*1 → is_Some (obj_get s (payload_sections entries)).
Proof.
  induction entries as [|[s' c'] r IH]; [by intros ?%elem_of_nil |].
  rewrite fmap_cons. cbn [fst]. unfold payload_sections.
  cbn [map obj_get fst snd]. intros Hin.
  destruct (string_eqb s s') eqn:E; [by eexists |].
  apply string_eqb_neq in E. apply elem_of_cons in Hin as [? | Hin]; [done |].
  by apply IH.
Qed.

Lemma payload_assign_entry s c entries :
  obj_assign s (JStr c) (payload_sections entries)
  = payload_sections (assign_entry s c entries).
Proof.
  unfold obj_assign, assign_entry.
  destruct (string_eqb s "__proto__"); [|apply payload_set_entry].
  case_bool_decide as Hin.
  - destruct (obj_get_payload_elem s entries Hin) as [v ->].
    apply payload_set_entry.
  - rewrite obj_get_payload, bool_decide_eq_false_2; done.
Qed.

Lemma assign_entry_NoDup s c (entries : list (string * string)) :
  NoDup (entries.*1) → NoDup ((assign_entry s c entries).*1).
Proof.
  intros Hnd. unfold assign_entry.
  destruct (string_eqb s "__proto__"); [case_bool_decide |];
    (done || by apply set_entry_NoDup).
Qed.

Lemma assign_entry_elem s c (entries : list (string * string)) s' c' :
  (s', c') ∈ assign_entry s c entries →
  (s' = s ∧ c' = c) ∨ (s', c') ∈ entries.
Proof.
  unfold assign_entry.
  destruct (string_eqb s "__proto__"); [case_bool_decide |];
    (by right) || apply set_entry_elem.
Qed.

Lemma assign_entry_same s c (entries : list (string * string)) :
  s ≠ "__proto__" ∨ s ∈ entries.*1 → (s, c) ∈ assign_entry s c entries.
Proof.
  unfold assign_entry. intros [Hne | Hin].
  - rewrite (proj2 (string_eqb_neq _ _) Hne). apply set_entry_same.
  - rewrite bool_decide_eq_true_2 by done.
    destruct (string_eqb s "__proto__"); apply set_entry_same.
Qed.

Lemma assign_entry_keeps s c (entries : list (string * string)) s' c' :
  s' ≠ s → (s', c') ∈ entries → (s', c') ∈ assign_entry s c entries.
Proof.
  intros Hne Hin. unfold assign_entry.
  destruct (string_eqb s "__proto__"); [case_bool_decide |];
    done || by apply set_entry_keeps.
Qed.

(** A name that [sanitize] leaves as it is holds no dot, so that cutting
    the first [.txt] off its file name gives the name back. *)
Lemma replace_first_logName s :
  sanitize s = s → replace_first ".txt" "" (s +:+ ".txt") = s.
Proof.
  unfold sanitize. induction s as [|c s IH]; intros Hs; [done |].
  simpl in Hs. injection Hs as Hc Hs.
  rewrite app_cons.
  assert (Hdot : ascii_eqb "." c = false).
  { destruct (is_section_char c) eqn:Ec.
    - apply ascii_eqb_neq. intros <-. by vm_compute in Ec.
    - subst c. by vm_compute. }
  cbn [replace_first startsWith]. rewrite Hdot. simpl. by rewrite IH.
Qed.

Section WithPlatform.
Context `{P : Platform}.
Variable cfg : backupConfig.

(** What [getSections] returns for the sections directory [ms]. *)
Definition sections_of (ms : gmap string file) : list string :=
  map (replace_first ".txt" "")
    (filter (λ file, endsWith ".txt" file
                     && negb (string_eqb file "metadata.json")) (readdir ms)).

Definition snapshot_step (ms : gmap string file) (acc : list (string * string))
    (s : string) : list (string * string) :=
  match ms !! logName s with
  | Some f => assign_entry s (f_data f) acc
  | None => acc
  end.

(** The texts [createFullBackup] puts in the payload, by section. *)
Definition snapshot (ms : gmap string file) : list (string * string) :=
  foldl (snapshot_step ms) [] (sections_of ms).

Lemma snapshot_from_NoDup ms l acc :
  NoDup (acc.*1) → NoDup ((foldl (snapshot_step ms) acc l).*1).
Proof.
  revert acc. induction l as [|s l IH]; intros acc Hnd; [done |].
  simpl. apply IH. unfold snapshot_step.
  destruct (ms !! logName s); [by apply assign_entry_NoDup | done].
Qed.

Lemma snapshot_from_sound ms l acc s c :
  (s, c) ∈ foldl (snapshot_step ms) acc l →
  (s, c) ∈ acc ∨ f_data <$> ms !! logName s = Some c.
Proof.
  revert acc. induction l as [|s0 l IH]; intros acc Hin; [by left |].
  simpl in Hin. apply IH in Hin as [Hin | ?]; [|by right].
  unfold snapshot_step in Hin. destruct (ms !! logName s0) as [f|] eqn:Ef; [|by left].
  apply assign_entry_elem in Hin as [[-> ->] | ?]; [|by left].
  right. by rewrite Ef.
Qed.

Lemma snapshot_from_keeps ms l acc s f :
  ms !! logName s = Some f → (s, f_data f) ∈ acc →
  (s, f_data f) ∈ foldl (snapshot_step ms) acc l.
Proof.
  intros Hf. revert acc. induction l as [|s0 l IH]; intros acc Hin; [done |].
  simpl. apply IH. unfold snapshot_step.
  destruct (ms !! logName s0) as [f0|] eqn:Ef0; [|done].
  destruct (decide (s = s0)) as [<- | Hne].
  - rewrite Hf in Ef0. injection Ef0 as <-. apply assign_entry_same.
    right. apply list_elem_of_fmap. by exists (s, f_data f).
  - by apply assign_entry_keeps.
Qed.

Lemma snapshot_from_complete ms l acc s f :
  s ≠ "__proto__" → s ∈ l → ms !! logName s = Some f →
  (s, f_data f) ∈ foldl (snapshot_step ms) acc l.
Proof.
  intros Hne Hin Hf. revert acc. induction l as [|s0 l IH]; intros acc.
  { by apply elem_of_nil in Hin. }
  apply elem_of_cons in Hin as [<- | Hin]; simpl; [|by apply IH].
  apply snapshot_from_keeps; [done |].
  unfold snapshot_step. rewrite Hf. apply assign_entry_same. by left.
Qed.

Lemma snapshot_NoDup ms : NoDup ((snapshot ms).*1).
Proof. apply snapshot_from_NoDup. constructor. Qed.

Lemma snapshot_sound ms s c :
  (s, c) ∈ snapshot ms → f_data <$> ms !! logName s = Some c.
Proof.
  intros [Hin | ?]%snapshot_from_sound; [|done]. by apply elem_of_nil in Hin.
Qed.

Lemma snapshot_complete ms s f :
  s ≠ "__proto__" → sanitize s = s → ms !! logName s = Some f →
  (s, f_data f) ∈ snapshot ms.
Proof.
  intros Hne Hs Hf. apply snapshot_from_complete; [done | |done].
  unfold sections_of. apply list_elem_of_fmap. exists (logName s). split.
  - unfold logName. by rewrite replace_first_logName.
  - apply list_elem_of_filter. split.
    + apply Is_true_true, andb_true_iff. split.
      * apply endsWith_app.
      * apply negb_true_iff, string_eqb_neq, logName_not_metadata.
    + apply readdir_elem. by eexists.
Qed.

Lemma getSections_ok ms w :
  faults w = [] → sectionsDir w = Some ms →
  Backup.getSections w = (Ok (sections_of ms), w).
Proof.
  intros Hf Hs. apply run_eq. unfold Backup.getSections.
  apply run_try_catch, run_bind. eapply run_readdirSync_ok; [done.. |].
  by apply run_ret.
Qed.

Lemma snapshot_fold_ok ms w (l : list string) (acc : list (string * string)) :
  faults w = [] → sectionsDir w = Some ms →
  run (fold_each l (payload_sections acc) (λ section acc,
         let logFilePath := Path SectionsDir (section +:+ ".txt") in
         exs <- existsSync logFilePath;
         if exs then
           content <- readFileSync logFilePath;
           ret (obj_assign section (JStr content) acc)
         else ret acc)) w
    (λ r w', r = Ok (payload_sections (foldl (snapshot_step ms) acc l))
             ∧ w' = w).
Proof.
  intros Hf Hs. revert acc. induction l as [|s l IH]; intros acc; simpl.
  { by apply run_ret. }
  apply run_bind, run_bind, run_existsSync.
  unfold lookup_file. simpl. rewrite Hs. simpl. fold (logName s).
  unfold snapshot_step at 2.
  destruct (ms !! logName s) as [f|] eqn:Ef.
  - rewrite bool_decide_eq_true_2 by eauto.
    apply run_bind. eapply (run_readFileSync_ok _ f); [done | |].
    { unfold lookup_file. simpl. by rewrite Hs. }
    apply run_ret. rewrite payload_assign_entry. apply IH.
  - rewrite bool_decide_eq_false_2 by (by intros [? ?]).
    apply run_ret. apply IH.
Qed.

(** [w'] is [w] with more console output. *)
Definition printed (w w' : world) : Prop :=
  sectionsDir w' = sectionsDir w ∧ backupDir w' = backupDir w
  ∧ clock w' = clock w ∧ faults w' = faults w.

Lemma log_numbered_printed i (l : list backup) line w :
  run (log_numbered i l line) w (λ r w', r = Ok tt ∧ printed w w').
Proof.
  revert i w. induction l as [|b l IH]; intros i w; simpl.
  - apply run_ret. by repeat split.
  - apply run_bind, run_console_log.
    eapply run_mono; [apply IH |].
    intros r w' [-> (? & ? & ? & ?)]. by repeat split.
Qed.

Definition is_full (b : backup) : bool := backupType_eqb (b_type b) TFull.
Definition is_section (b : backup) : bool := backupType_eqb (b_type b) TSection.

Lemma listBackups_ok w mb :
  faults w = [] → backupDir w = Some mb →
  run (listBackups cfg None None) w
    (λ r w', r = Ok (filter (λ b, is_full b) (records cfg mb)
                     ++ filter (λ b, is_section b) (records cfg mb))
             ∧ printed w w').
Proof.
  intros Hf Hb. unfold listBackups. apply run_bind, run_bind.
  eapply run_from_eq; [by apply listAllBackups_ok |].
  apply run_ret.
  set (fulls := filter _ (records cfg mb)).
  set (sects := filter _ (records cfg mb)).
  assert (Hlines : ∀ (l : list backup) none line w1,
            printed w w1 →
            run (match l with
                 | [] => console_log none
                 | _ => log_numbered 0 l line
                 end) w1 (λ r w', r = Ok tt ∧ printed w w')).
  { intros l none line w1 (? & ? & ? & ?). destruct l as [|b l].
    - apply run_console_log. by repeat split.
    - eapply run_mono; [apply log_numbered_printed |].
      intros r w' [-> (? & ? & ? & ?)]. repeat split; congruence. }
  apply run_bind, run_console_log, run_bind, run_console_log, run_bind.
  eapply run_mono; [by apply Hlines |].
  intros r w1 [-> Hp1]. apply run_bind, run_console_log, run_bind.
  eapply run_mono; [by apply Hlines |].
  intros r w2 [-> Hp2].
  apply run_bind, run_console_log, run_bind, run_console_log, run_ret.
  split; [done |]. done.
Qed.

Lemma full_of_listed (l : list backup) :
  filter (λ b, is_full b)
    (filter (λ b, is_full b) l ++ filter (λ b, is_section b) l)
  = filter (λ b, is_full b) l.
Proof.
  rewrite filter_app.
  replace (filter (λ b, is_full b) (filter (λ b, is_section b) l))
    with (@nil backup).
  - rewrite app_nil_r, list_filter_filter. apply list_filter_iff. tauto.
  - symmetry. apply elem_of_nil_inv.
    intros b [Hf [Hs _]%list_elem_of_filter]%list_elem_of_filter.
    unfold is_full, is_section in *. by destruct (b_type b).
Qed.

Lemma cleanupOldFullBackups_ok w mb :
  faults w = [] → backupDir w = Some mb →
  run (cleanupOldFullBackups cfg) w
    (λ r w', r = Ok tt ∧ faults w' = [] ∧ sectionsDir w' = sectionsDir w
             ∧ clock w' = clock w
             ∧ ∃ l, backupDir w' = Some (del_all mb l)).
Proof.
  intros Hf Hb. unfold cleanupOldFullBackups.
  apply run_try_catch, run_bind.
  eapply run_mono; [by apply listBackups_ok |].
  intros r w1 [-> (Hs1 & Hb1 & Hc1 & Hf1)].
  fold (is_full). rewrite (full_of_listed (records cfg mb)).
  eapply run_mono.
  { apply (retention_rules cfg (filter (λ b, is_full b) (records cfg mb)) _ _ w1 mb);
      [congruence | congruence | |].
    - apply (sublist_NoDup _ (b_name <$> records cfg mb)).
      + rewrite records_names. apply readdir_NoDup.
      + apply fmap_sublist, sublist_filter.
    - intros b Hb'. apply (records_present cfg mb _ b) in Hb'; [done |].
      by intros b' [_ ?]%list_elem_of_filter. }
  intros r w2 (Hr & ? & ? & ? & ?).
  assert (Hend : faults w2 = [] ∧ sectionsDir w2 = sectionsDir w
                 ∧ clock w2 = clock w ∧ ∃ l, backupDir w2 = Some (del_all mb l)).
  { repeat split; [congruence.. |]. by eexists. }
  destruct Hr as [-> | ->]; [done |].
  by apply run_console_error.
Qed.

(** What [createFullBackup] captures of the sidecar: its parsed content, or
    the empty object when there is no sidecar. *)
Definition sidecar_value (w : world) : option json :=
  match lookup_file metadataFile w with
  | Some f => JSON_parse (f_data f)
  | None => Some (JObj [])
  end.

Lemma sidecar_value_wf w md : sidecar_value w = Some md → json_wf md.
Proof.
  unfold sidecar_value. destruct (lookup_file metadataFile w) as [f|].
  - apply JSON_parse_wf.
  - intros [= <-]. split; [constructor | done].
Qed.

Definition fullName (t : Z) : string :=
  fullBackupPrefix cfg +:+ dashes (toISOString t) +:+ backupExtension cfg.

Definition fullArtifact (t : Z) : path :=
  Path BackupDir
    (if useCompression cfg then fullName t +:+ ".gz" else fullName t).

Definition payload (t : Z) (md : json) (ms : gmap string file) : json :=
  JObj [("timestamp", JStr (toISOString t));
        ("metadata", md);
        ("sections", JObj (payload_sections (snapshot ms)))].

Definition fullArtifactData (t : Z) (md : json) (ms : gmap string file)
  : string :=
  if useCompression cfg then gzipSync (JSON_stringify (payload t md ms))
  else JSON_stringify (payload t md ms).

Lemma payload_sections_keys (entries : list (string * string)) :
  (payload_sections entries).*1 = entries.*1.
Proof.
  unfold payload_sections. induction entries as [|[s c] r IH]; [done |].
  cbn [map]. rewrite !fmap_cons. cbn [fst]. by f_equal.
Qed.

Lemma payload_wf t md ms : json_wf md → json_wf (payload t md ms).
Proof.
  intros Hmd. unfold payload. apply json_wf_obj. split.
  - by apply (bool_decide_unpack _).
  - apply Forall_cons; split; [done |]. apply Forall_cons; split; [done |].
    apply Forall_cons; split; [|constructor]. cbn [snd].
    apply (json_wf_obj (payload_sections (snapshot ms))). split.
    + rewrite payload_sections_keys. apply snapshot_NoDup.
    + unfold payload_sections. apply Forall_forall.
      by intros [k v] ([s c] & [= -> ->] & _)%list_elem_of_fmap.
Qed.

Lemma createFullBackup_ok w ms md :
  faults w = [] → sectionsDir w = Some ms → sidecar_value w = Some md →
  run (createFullBackup cfg) w (λ r w1,
    r = Ok (Some (fullArtifact (clock w)))
    ∧ faults w1 = [] ∧ sectionsDir w1 = Some ms ∧ clock w1 = clock w
    ∧ ∀ f, lookup_file (fullArtifact (clock w)) w1 = Some f →
           f_data f = fullArtifactData (clock w) md ms).
Proof.
  intros Hf Hs Hmd. unfold createFullBackup.
  apply run_try_catch, run_bind, run_existsDir, run_bind.
  apply (run_mono _ _ (λ r w0,
    r = Ok tt ∧ faults w0 = [] ∧ sectionsDir w0 = Some ms
    ∧ clock w0 = clock w ∧ sidecar_value w0 = Some md
    ∧ ∃ mb0, backupDir w0 = Some mb0)).
  { simpl. destruct (backupDir w) as [mb|] eqn:Eb.
    - rewrite bool_decide_eq_true_2 by eauto. simpl. apply run_ret.
      repeat split; try done. by exists mb.
    - rewrite bool_decide_eq_false_2 by (by intros [? ?]). simpl.
      apply run_mkdirSync_ok; [done |]. simpl. rewrite Eb.
      repeat split; try done. by exists ∅. }
  intros r w0 (-> & Hf0 & Hs0 & Hc0 & Hmd0 & mb0 & Hb0). clear Hf Hs Hmd.
  apply run_bind, run_now, run_bind.
  eapply run_from_eq; [by apply getSections_ok |].
  apply run_bind, run_now, run_bind, run_existsSync, run_bind.
  apply (run_mono _ _ (λ r w', r = Ok md ∧ w' = w0)).
  { unfold sidecar_value in Hmd0.
    destruct (lookup_file metadataFile w0) as [f|] eqn:Ef.
    - rewrite bool_decide_eq_true_2 by eauto.
      apply run_bind. eapply run_readFileSync_ok; [done.. |].
      unfold run, JSON_parse_or_throw. by rewrite Hmd0.
    - rewrite bool_decide_eq_false_2 by (by intros [? ?]).
      apply run_ret. by injection Hmd0 as ->. }
  intros r w' [-> ->]. apply run_bind.
  eapply run_mono; [apply (snapshot_fold_ok ms w0 _ []); done |].
  intros r w' [-> ->]. fold (snapshot ms). rewrite Hc0.
  fold (payload (clock w) md ms). fold (fullName (clock w)).
  set (finish (p : path) (data : string) (w1 : world) :=
         faults w1 = [] ∧ sectionsDir w1 = Some ms ∧ clock w1 = clock w
         ∧ ∀ f, lookup_file p w1 = Some f → f_data f = data).
  assert (Hfinish : ∀ name data msg,
    run (writeFileSync (Path BackupDir name) data ;;
         console_log msg ;;
         cleanupOldFullBackups cfg ;;
         ret (Some (Path BackupDir name))) w0
      (λ r w1, r = Ok (Some (Path BackupDir name))
               ∧ finish (Path BackupDir name) data w1)).
  { intros name data msg. apply run_bind.
    eapply run_writeFileSync_ok; [done | exact Hb0 |].
    apply run_bind, run_console_log, run_bind.
    eapply run_mono.
    { apply (cleanupOldFullBackups_ok _ (<[name := File data (clock w0)]> mb0));
        done. }
    intros r w1 (-> & Hf1 & Hs1 & Hc1 & l & Hb1). apply run_ret.
    simpl in Hs1, Hc1.
    split; [done |]. repeat split; [done | congruence | congruence |].
    intros f. unfold lookup_file. simpl. rewrite Hb1. simpl.
    rewrite del_all_lookup. case_decide; [done |].
    rewrite lookup_insert_eq. by intros [= <-]. }
  unfold fullArtifact, fullArtifactData, finish in *.
  destruct (useCompression cfg);
    (eapply run_mono; [apply Hfinish |]); by intros r w1 [-> ?].
Qed.

Lemma sections_of_sanitized ms s :
  sanitize s = s → is_Some (ms !! logName s) → s ∈ sections_of ms.
Proof.
  intros Hs Hf. unfold sections_of. apply list_elem_of_fmap.
  exists (logName s). split.
  - unfold logName. by rewrite replace_first_logName.
  - apply list_elem_of_filter. split.
    + apply Is_true_true, andb_true_iff. split.
      * apply endsWith_app.
      * apply negb_true_iff, string_eqb_neq, logName_not_metadata.
    + by apply readdir_elem.
Qed.

(** Restoring from an intact full-backup artifact. *)
Lemma restoreFromBackup_full t md ms w2 f :
  backupExtension cfg = ".bak" → json_wf md →
  faults w2 = [] →
  lookup_file (fullArtifact t) w2 = Some f →
  f_data f = fullArtifactData t md ms →
  run (restoreFromBackup cfg (fullArtifact t) None true) w2 (λ r w3,
    r = Ok true
    ∧ (∀ s c, (s, c) ∈ snapshot ms →
         lookup_file (Path SectionsDir (logName s)) w3
         = Some (File c (clock w2)))
    ∧ (∀ name, is_Some (lookup_file (Path SectionsDir name) w2) →
         is_Some (lookup_file (Path SectionsDir name) w3))
    ∧ (∀ name, name ≠ "metadata.json" →
         (∀ s, s ∈ (snapshot ms).*1 → name ≠ logName s) →
         lookup_file (Path SectionsDir name) w3
         = lookup_file (Path SectionsDir name) w2)
    ∧ lookup_file metadataFile w3
      = (if truthy (Some md)
         then Some (File (JSON_stringify md) (clock w2))
         else lookup_file metadataFile w2)
    ∧ backupDir w3 = backupDir w2).
Proof.
  intros Hext Hwf Hf Hart Hdata. unfold restoreFromBackup.
  apply run_try_catch, run_bind, run_existsSync.
  rewrite bool_decide_eq_true_2 by eauto. cbn [negb]. apply run_bind.
  apply (run_mono _ _ (λ r w', r = Ok (JSON_stringify (payload t md ms))
                               ∧ w' = w2)).
  { unfold fullArtifact, fullArtifactData, path_string in *.
    destruct (useCompression cfg); cbn [p_name p_dir].
    - replace (endsWith ".gz" _) with true
        by (by rewrite <- !app_assoc, endsWith_app).
      apply run_bind. eapply run_readFileSync_ok; [done.. |].
      unfold run, gunzip_or_throw. by rewrite Hdata, gunzip_gzip.
    - replace (endsWith ".gz" _) with false
        by (unfold fullName; by rewrite Hext, <- !app_assoc, endsWith_gz_bak).
      eapply run_readFileSync_ok; [done.. |]. by rewrite Hdata. }
  intros r w' [-> ->].
  assert (Hprefix : startsWith (fullBackupPrefix cfg) (p_name (fullArtifact t))
                    = true).
  { unfold fullArtifact, fullName. destruct (useCompression cfg); cbn [p_name].
    - rewrite app_assoc. apply startsWith_app.
    - apply startsWith_app. }
  rewrite Hprefix. apply run_bind.
  apply (run_mono _ _ (λ r w', r = Ok (payload t md ms) ∧ w' = w2)).
  { unfold run, JSON_parse_or_throw.
    by rewrite JSON_parse_stringify by by apply payload_wf. }
  intros r w' [-> ->].
  pose proof (restoreFullBackup_exact
                [("timestamp", JStr (toISOString t)); ("metadata", md);
                 ("sections", JObj (payload_sections (snapshot ms)))]
                (snapshot ms) true w2 Hf eq_refl (snapshot_NoDup ms)) as Hrun.
  cbv zeta in Hrun. eapply run_mono; [exact Hrun |]. clear Hrun.
  intros r w3 (-> & Hent & Hother & Hkeep & Hb & _ & Hmeta & _).
  split; [done |]. repeat split; try done.
  rewrite Hmeta. unfold restores_metadata.
  change (obj_get "metadata" _) with (Some md).
  by destruct (truthy (Some md)).
Qed.

(** When the sidecar does not parse, no backup is made: the call returns
    [null] and the sections directory is as it was. *)
Lemma createFullBackup_bad_sidecar w ms :
  faults w = [] → sectionsDir w = Some ms → sidecar_value w = None →
  run (createFullBackup cfg) w (λ r w1,
    r = Ok None ∧ sectionsDir w1 = Some ms
    ∧ from_option id ∅ (backupDir w1) = from_option id ∅ (backupDir w)).
Proof.
  intros Hf Hs Hmd. unfold createFullBackup.
  apply run_try_catch, run_bind, run_existsDir, run_bind.
  apply (run_mono _ _ (λ r w0,
    r = Ok tt ∧ faults w0 = [] ∧ sectionsDir w0 = Some ms
    ∧ sidecar_value w0 = None
    ∧ from_option id ∅ (backupDir w0) = from_option id ∅ (backupDir w))).
  { simpl. destruct (backupDir w) as [mb|] eqn:Eb.
    - rewrite bool_decide_eq_true_2 by eauto. simpl. apply run_ret.
      by rewrite Eb.
    - rewrite bool_decide_eq_false_2 by (by intros [? ?]). simpl.
      apply run_mkdirSync_ok; [done |]. simpl. by rewrite Eb. }
  intros r w0 (-> & Hf0 & Hs0 & Hmd0 & Hb0). clear Hf Hs Hmd.
  apply run_bind, run_now, run_bind.
  eapply run_from_eq; [by apply getSections_ok |].
  apply run_bind, run_now, run_bind, run_existsSync, run_bind.
  unfold sidecar_value in Hmd0.
  destruct (lookup_file metadataFile w0) as [f|] eqn:Ef; [|done].
  rewrite bool_decide_eq_true_2 by eauto.
  apply run_bind. eapply run_readFileSync_ok; [done.. |].
  unfold run at 1, JSON_parse_or_throw. rewrite Hmd0. simpl.
  by apply run_bind, run_console_error, run_ret.
Qed.

(** Restoring from the artifact of [createFullBackup], if retention has
    left it. On a machine where nothing fails, with a sidecar that is
    absent or parses, [createFullBackup] returns the path of its artifact
    and leaves the sections directory as it was, on a machine where still
    nothing fails; a sidecar that is absent is captured as the empty
    object. [restoreFromBackup] of that path with no section and
    [overwrite] set, run in any state that holds the artifact as
    [createFullBackup] left it,
    succeeds, deletes nothing and leaves alone every file that did not
    exist at snapshot time. Run in the state of the snapshot it leaves
    every file with the text it had and the sidecar with the value it had.
    Run in a later state, it gives back its text of snapshot time to every
    section the snapshot holds: every section of [getSections] whose file
    existed, so every section with a sanitized id, but [__proto__]; and,
    unless the captured sidecar value counts as false, it leaves a sidecar
    with that value, which is the old sidecar byte for byte when the old
    one was the serialisation of its value. *)
Lemma full_backup_roundtrip (w : world) (ms : gmap string file) (md : json) :
  backupExtension cfg = ".bak" →
  faults w = [] → sectionsDir w = Some ms → sidecar_value w = Some md →
  run (createFullBackup cfg) w (λ r w1,
    ∃ artifact, r = Ok (Some artifact) ∧ sectionsDir w1 = Some ms ∧
    faults w1 = [] ∧
    (lookup_file metadataFile w = None → md = JObj []) ∧
    ∀ w2 f, faults w2 = [] →
      lookup_file artifact w1 = Some f → lookup_file artifact w2 = Some f →
      run (restoreFromBackup cfg artifact None true) w2 (λ r3 w3,
        r3 = Ok true
        ∧ (∀ name, is_Some (lookup_file (Path SectionsDir name) w2) →
             is_Some (lookup_file (Path SectionsDir name) w3))
        ∧ (∀ name, name ≠ "metadata.json" → ms !! name = None →
             lookup_file (Path SectionsDir name) w3
             = lookup_file (Path SectionsDir name) w2)
        ∧ (sectionsDir w2 = Some ms →
             (∀ name, name ≠ "metadata.json" →
                f_data <$> lookup_file (Path SectionsDir name) w3
                = f_data <$> ms !! name)
             ∧ sidecar_value w3 = Some md)
        ∧ (∀ s f0, s ≠ "__proto__" →
             sanitize s = s ∨ s ∈ sections_of ms →
             ms !! logName s = Some f0 →
             f_data <$> lookup_file (Path SectionsDir (logName s)) w3
             = Some (f_data f0))
        ∧ (truthy (Some md) = true →
             sidecar_value w3 = Some md
             ∧ ∀ f0, lookup_file metadataFile w = Some f0 →
                 f_data f0 = JSON_stringify md →
                 f_data <$> lookup_file metadataFile w3 = Some (f_data f0)))).
Proof.
  intros Hext Hf Hs Hmd.
  eapply run_mono; [by apply (createFullBackup_ok w ms md) |].
  intros r w1 (-> & Hf1 & Hs1 & Hc1 & Hdata).
  exists (fullArtifact (clock w)). split; [done |]. split; [done |].
  split; [done |]. split.
  { unfold sidecar_value in Hmd. intros Hnone. rewrite Hnone in Hmd.
    by injection Hmd as <-. }
  intros w2 f Hf2 Hart1 Hart2.
  assert (Hwf := sidecar_value_wf w md Hmd).
  eapply run_mono.
  { apply (restoreFromBackup_full (clock w) md ms w2 f); try done.
    by apply Hdata. }
  intros r3 w3 (-> & Hent & Hkeep & Hother & Hmeta & _).
  assert (Hparse : truthy (Some md) = true → sidecar_value w3 = Some md).
  { intros Ht. unfold sidecar_value. rewrite Hmeta, Ht. simpl.
    by apply JSON_parse_stringify. }
  split; [done |]. split; [done |]. split; [|split; [|split]].
  - intros name Hne Habsent. apply Hother; [done |].
    intros s ([s' c] & -> & Hin)%list_elem_of_fmap ->.
    apply snapshot_sound in Hin. cbn [fst] in Habsent.
    by rewrite Habsent in Hin.
  - intros Hs2. split.
    + intros name Hne.
      destruct (decide (name ∈ logName <$> (snapshot ms).*1)) as [Hin | Hout].
      * apply list_elem_of_fmap in Hin as (s & -> & Hin).
        apply list_elem_of_fmap in Hin as ([s' c] & -> & Hin). cbn [fst].
        rewrite (Hent _ _ Hin). by apply snapshot_sound in Hin as ->.
      * rewrite Hother; [| done |].
        -- unfold lookup_file. simpl. by rewrite Hs2.
        -- intros s Hin ->. apply Hout. apply list_elem_of_fmap. eauto.
    + destruct (truthy (Some md)) eqn:Ht; [by apply Hparse |].
      rewrite <- Hmd. unfold sidecar_value. rewrite Hmeta.
      unfold lookup_file. simpl. by rewrite Hs2, Hs.
  - intros s f0 Hne Hsec Hfile.
    assert (Hin : (s, f_data f0) ∈ snapshot ms).
    { apply snapshot_from_complete; [done | | done].
      destruct Hsec as [Hsan | ?]; [|done].
      apply sections_of_sanitized; [done | by eexists]. }
    by rewrite (Hent _ _ Hin).
  - intros Ht. split; [by apply Hparse |].
    intros f0 _ Hbytes. by rewrite Hmeta, Ht, Hbytes.
Qed.

End WithPlatform.
End FullBackupFacts.
(* ===================================================================== *)
(** * backup.js: a section backup and its restoration                     *)
(* ===================================================================== *)

Module SectionRestoreFacts.
Import JS JSFacts Json Fs Config FsFacts Logger Backup RetentionFacts.
Import BackupFacts RestoreFacts FullRestoreFacts RetentionExact.

Section WithPlatform.
Context `{P : Platform}.
Variable cfg : backupConfig.

Definition sectionArtifactData (content : string) : string :=
  if useCompression cfg then gzipSync content else content.

(** [backupSection] without rotation, on a machine where nothing fails
    and both directories are in place. *)
Lemma backupSection_ok (section : string) w ms f mb :
  faults w = [] → sectionsDir w = Some ms →
  ms !! logName section = Some f → backupDir w = Some mb →
  run (backupSection cfg section false) w (λ r w1,
    r = Ok (Some (sectionArtifact cfg section (clock w)))
    ∧ faults w1 = [] ∧ sectionsDir w1 = Some ms
    ∧ ∀ a, lookup_file (sectionArtifact cfg section (clock w)) w1 = Some a →
           f_data a = sectionArtifactData (f_data f)).
Proof.
  intros Hf Hs Hfile Hb. unfold backupSection.
  assert (Hlog : lookup_file (Path SectionsDir (section +:+ ".txt")) w = Some f).
  { unfold lookup_file. simpl. by rewrite Hs. }
  apply run_try_catch, run_bind, run_existsSync.
  rewrite bool_decide_eq_true_2 by eauto. cbn [negb].
  apply run_bind, run_now, run_bind.
  eapply run_readFileSync_ok; [done.. |].
  assert (Hfinish : ∀ name data msg,
    run (writeFileSync (Path BackupDir name) data ;;
         ret tt ;;
         console_log msg ;;
         cleanupOldBackups cfg section ;;
         ret (Some (Path BackupDir name))) w
      (λ r w1, r = Ok (Some (Path BackupDir name))
               ∧ faults w1 = [] ∧ sectionsDir w1 = Some ms
               ∧ ∀ a, lookup_file (Path BackupDir name) w1 = Some a →
                      f_data a = data)).
  { intros name data msg. apply run_bind.
    eapply run_writeFileSync_ok; [done | exact Hb |].
    apply run_bind, run_ret, run_bind, run_console_log, run_bind.
    eapply run_mono.
    { apply (cleanupOldBackups_exact cfg section _
               (<[name := File data (clock w)]> mb)); done. }
    intros r w1 (-> & Hf1 & Hs1 & Hc1 & Hb1). apply run_ret.
    simpl in Hs1. split; [done |]. repeat split; [done | congruence |].
    intros a. unfold lookup_file. simpl. rewrite Hb1. simpl.
    rewrite del_all_lookup. case_decide; [done |].
    rewrite lookup_insert_eq. by intros [= <-]. }
  unfold sectionArtifact, sectionArtifactData.
  destruct (useCompression cfg);
    (eapply run_mono; [apply Hfinish |]); by intros r w1 [-> ?].
Qed.

(** The round trip of C1 for a section whose artifact does not bear the
    name of a full backup: the backup returns the path of its artifact
    and leaves the sections directory as it was, and the restore of that
    artifact for the section, in any later state that still holds it and
    has a sections directory, succeeds and leaves the log file with the
    text of backup time and every other file as it was. *)
Lemma backupSection_restore_roundtrip (section : string) w ms f mb :
  backupExtension cfg = ".bak" →
  faults w = [] → sectionsDir w = Some ms →
  ms !! logName section = Some f → backupDir w = Some mb →
  section ≠ "" →
  startsWith (fullBackupPrefix cfg)
    (p_name (sectionArtifact cfg section (clock w))) = false →
  run (backupSection cfg section false) w (λ r w1,
    ∃ artifact, r = Ok (Some artifact) ∧ sectionsDir w1 = Some ms ∧
    ∀ w2 a, faults w2 = [] → is_Some (sectionsDir w2) →
      lookup_file artifact w1 = Some a → lookup_file artifact w2 = Some a →
      run (restoreFromBackup cfg artifact (Some section) true) w2 (λ r3 w3,
        r3 = Ok true
        ∧ f_data <$> lookup_file (Path SectionsDir (logName section)) w3
          = Some (f_data f)
        ∧ (∀ name, name ≠ logName section →
             lookup_file (Path SectionsDir name) w3
             = lookup_file (Path SectionsDir name) w2)
        ∧ backupDir w3 = backupDir w2)).
Proof.
  intros Hext Hf Hs Hfile Hb Hsec Hprefix.
  eapply run_mono; [by apply (backupSection_ok section w ms f mb) |].
  intros r w1 (-> & Hf1 & Hs1 & Hdata).
  exists (sectionArtifact cfg section (clock w)).
  split; [done |]. split; [done |].
  intros w2 a Hf2 [ms2 Hs2] Hart1 Hart2.
  specialize (Hdata a Hart1).
  unfold restoreFromBackup.
  apply run_try_catch, run_bind, run_existsSync.
  rewrite bool_decide_eq_true_2 by eauto. cbn [negb]. apply run_bind.
  apply (run_mono _ _ (λ r w', r = Ok (f_data f) ∧ w' = w2)).
  { unfold sectionArtifact, sectionArtifactData, path_string in *.
    destruct (useCompression cfg); cbn [p_name p_dir] in *.
    - replace (endsWith ".gz" _) with true
        by (by rewrite <- !app_assoc, endsWith_app).
      apply run_bind. eapply run_readFileSync_ok; [done.. |].
      unfold run, gunzip_or_throw. by rewrite Hdata, gunzip_gzip.
    - replace (endsWith ".gz" _) with false
        by (by rewrite Hext, <- !app_assoc, endsWith_gz_bak).
      eapply run_readFileSync_ok; [done.. |]. by rewrite Hdata. }
  intros r w' [-> ->]. rewrite Hprefix.
  assert (Htruthy : truthy (JStr <$> Some section) = true).
  { simpl. by rewrite (proj2 (string_eqb_neq _ _) Hsec). }
  rewrite Htruthy. cbn [default]. unfold restoreSectionBackup.
  apply run_try_catch, run_bind, run_existsSync. cbn [orb].
  apply run_bind.
  eapply run_writeFileSync_ok; [done | exact Hs2 |].
  apply run_bind, run_console_log, run_ret.
  split; [done |]. unfold lookup_file. simpl. fold (logName section).
  split; [by rewrite lookup_insert_eq |]. split; [|done].
  intros name Hne. rewrite Hs2. simpl. by rewrite lookup_insert_ne.
Qed.

End WithPlatform.
End SectionRestoreFacts.

(* ===================================================================== *)
(** * The JSON codec reads back what it writes                            *)
(* ===================================================================== *)

Module NodeFacts.
Import JS JSFacts Json Fs Node SectionFacts.

Ltac each_char c :=
  destruct c as [[] [] [] [] [] [] [] []].

Ltac norm := rewrite ?app_assoc, ?app_cons, ?app_nil_l.

Lemma length_app (a b : string) :
  String.length (a +:+ b) = (String.length a + String.length b)%nat.
Proof. induction a as [|c a IH]; [done |]. rewrite app_cons. simpl. by rewrite IH. Qed.

(** ** White space *)

Fixpoint all_ws (s : string) : bool :=
  match s with
  | EmptyString => true
  | String c r => is_ws c && all_ws r
  end.

Lemma skip_ws_app (ws s : string) :
  all_ws ws = true → skip_ws (ws +:+ s) = skip_ws s.
Proof.
  induction ws as [|c ws IH]; [done |]. cbn [all_ws].
  intros [Hc Hws]%andb_true_iff. rewrite app_cons. cbn [skip_ws].
  rewrite Hc. auto.
Qed.

Lemma all_ws_pad n : all_ws (pad n) = true.
Proof. induction n; [done |]. simpl. by rewrite IHn. Qed.

Lemma all_ws_line n : all_ws (NL +:+ pad n) = true.
Proof. unfold NL. rewrite app_cons, app_nil_l. simpl. apply all_ws_pad. Qed.

(** ** Strings *)

Lemma parse_string_escape_char c tail :
  parse_string (escape_char c +:+ tail)
  = match parse_string tail with
    | Some (str, rest) => Some (String c str, rest)
    | None => None
    end.
Proof. each_char c; reflexivity. Qed.

Lemma parse_string_escape s rest :
  parse_string (escape s +:+ String DQ rest) = Some (s, rest).
Proof.
  induction s as [|c s IH]; [done |].
  cbn [escape]. by rewrite app_assoc, parse_string_escape_char, IH.
Qed.

(** ** Numbers *)

(** What may follow a value: no digit, and no sign of a fraction or of an
    exponent. *)
Definition ends_value (s : string) : bool :=
  match s with
  | EmptyString => true
  | String c _ => negb (is_digit c) && ends_integer s
  end.

Lemma read_number_done n rest :
  ends_value rest = true → read_number n rest = (n, rest).
Proof.
  destruct rest as [|c r]; [done |]. cbn [ends_value read_number].
  intros [Hd _]%andb_true_iff. by apply negb_true_iff in Hd as ->.
Qed.

Lemma digit_char d :
  (d < 10)%N →
  is_digit (pretty_N_char d) = true ∧ digit_val (pretty_N_char d) = d.
Proof.
  intros Hd.
  assert (d = 0 ∨ d = 1 ∨ d = 2 ∨ d = 3 ∨ d = 4 ∨ d = 5 ∨ d = 6 ∨ d = 7
          ∨ d = 8 ∨ d = 9)%N as Hcases by lia.
  repeat destruct Hcases as [-> | Hcases]; try subst d; done.
Qed.

Lemma read_number_pretty_go x s rest :
  read_number 0 (pretty_N_go x s +:+ rest) = read_number x (s +:+ rest).
Proof.
  revert s. induction (N.lt_wf_0 x) as [x _ IH]; intros s.
  assert (x = 0 ∨ 0 < x)%N as [-> | Hpos] by lia.
  { by rewrite pretty_N_go_0. }
  rewrite pretty_N_go_step by done.
  rewrite IH by (by apply N.div_lt).
  rewrite app_cons. cbn [read_number].
  destruct (digit_char (x `mod` 10)%N) as [-> ->].
  { by apply N.mod_lt. }
  f_equal. pose proof (N.div_mod x 10 ltac:(done)). lia.
Qed.

Lemma pretty_go_head x s :
  (0 < x)%N →
  ∃ c r, pretty_N_go x s = String c r
         ∧ is_digit c = true ∧ ascii_eqb c "0" = false.
Proof.
  revert s. induction (N.lt_wf_0 x) as [x _ IH]; intros s Hpos.
  rewrite pretty_N_go_step by done.
  destruct (N.eq_0_gt_0_cases (x `div` 10)) as [Hz | Hnz].
  - rewrite Hz, pretty_N_go_0. eexists _, _. split; [done |].
    assert (x < 10)%N as Hlt by (by apply N.div_small_iff in Hz).
    rewrite N.mod_small by done.
    assert (x = 1 ∨ x = 2 ∨ x = 3 ∨ x = 4 ∨ x = 5 ∨ x = 6 ∨ x = 7
            ∨ x = 8 ∨ x = 9)%N as Hcases by lia.
    repeat destruct Hcases as [-> | Hcases]; try subst x; done.
  - apply IH; [by apply N.div_lt | done].
Qed.

Lemma parse_nat_pretty (x : N) rest :
  ends_value rest = true → parse_nat (pretty x +:+ rest) = Some (x, rest).
Proof.
  intros Hrest. unfold pretty, pretty_N. case_decide as Hx.
  - subst x. rewrite app_cons, app_nil_l. cbn [parse_nat].
    change (ascii_eqb "0" "0") with true. cbn iota.
    destruct rest as [|d r]; [done |].
    cbn [ends_value] in Hrest. apply andb_true_iff in Hrest as [Hd _].
    by apply negb_true_iff in Hd as ->.
  - destruct (pretty_go_head x "" ltac:(lia)) as (c & r & E & Hc & Hc0).
    pose proof (read_number_pretty_go x "" rest) as Hread.
    rewrite app_nil_l, (read_number_done x rest) in Hread by done.
    rewrite E, app_cons in Hread |- *. cbn [parse_nat].
    by rewrite Hc0, Hc, Hread.
Qed.

(** The first character of a value that is not a number. *)
Definition opens_number (c : ascii) : bool := is_digit c || ascii_eqb c "-".

Lemma pretty_N_head (x : N) :
  ∃ c r, pretty x = String c r ∧ is_digit c = true.
Proof.
  unfold pretty, pretty_N. case_decide as Hx; [by eexists _, _ |].
  destruct (pretty_go_head x "" ltac:(lia)) as (c & r & E & Hc & _). eauto.
Qed.

Lemma digit_not_minus c : is_digit c = true → ascii_eqb c "-" = false.
Proof. each_char c; done. Qed.

Lemma pretty_Z_head (z : Z) :
  ∃ c r, pretty z = String c r ∧ opens_number c = true.
Proof.
  unfold opens_number. destruct z as [|p|p].
  - by eexists _, _.
  - change (pretty (Z.pos p)) with (pretty (N.pos p)).
    destruct (pretty_N_head (N.pos p)) as (c & r & E & Hc).
    exists c, r. by rewrite Hc.
  - change (pretty (Z.neg p)) with ("-" +:+ pretty (N.pos p)).
    exists "-"%char. eexists. by rewrite app_cons, app_nil_l.
Qed.

Lemma parse_number_pretty_N (x : N) rest :
  ends_value rest = true →
  parse_number (pretty x +:+ rest) = Some (JNum (Z.of_N x), rest).
Proof.
  intros Hrest.
  assert (Hint : ends_integer rest = true).
  { destruct rest; [done |]. cbn [ends_value] in Hrest.
    by apply andb_true_iff in Hrest as [_ ?]. }
  destruct (pretty_N_head x) as (c & r & E & Hc).
  unfold parse_number. rewrite E, app_cons, (digit_not_minus c Hc).
  rewrite <- app_cons, <- E, parse_nat_pretty by done. by rewrite Hint.
Qed.

Lemma parse_number_pretty (z : Z) rest :
  ends_value rest = true →
  parse_number (pretty z +:+ rest) = Some (JNum z, rest).
Proof.
  intros Hrest. destruct z as [|p|p].
  - change (pretty 0) with (pretty 0%N). by apply parse_number_pretty_N.
  - change (pretty (Z.pos p)) with (pretty (N.pos p)).
    by apply parse_number_pretty_N.
  - change (pretty (Z.neg p)) with ("-" +:+ pretty (N.pos p)).
    rewrite app_assoc, app_cons, app_nil_l.
    unfold parse_number. change (ascii_eqb "-" "-") with true. cbn iota.
    rewrite parse_nat_pretty by done.
    assert (ends_integer rest = true) as ->; [|done].
    destruct rest; [done |]. cbn [ends_value] in Hrest.
    by apply andb_true_iff in Hrest as [_ ?].
Qed.

(** ** Values *)

(** The nodes of a value: what the parser needs of fuel to read it. *)
Fixpoint size (v : json) : nat :=
  match v with
  | JArr items => S (list_sum (map size items))
  | JObj props => S (list_sum (map (λ kx, let '(_, x) := kx in size x) props))
  | _ => 1
  end.

Lemma list_sum_elem {A} (f : A → nat) (l : list A) x :
  x ∈ l → (f x ≤ list_sum (map f l))%nat.
Proof.
  induction l as [|y l IH]; [by intros ?%elem_of_nil |].
  intros [-> | Hin]%elem_of_cons; simpl; [lia |].
  apply IH in Hin. lia.
Qed.

Lemma list_sum_length {A} (f : A → nat) (l : list A) :
  (∀ x, 1 ≤ f x)%nat → (length l ≤ list_sum (map f l))%nat.
Proof.
  intros Hf. induction l as [|y l IH]; simpl; [lia |].
  pose proof (Hf y). lia.
Qed.

Lemma size_pos v : (1 ≤ size v)%nat.
Proof. destruct v; simpl; lia. Qed.

Definition item_text (indent : nat) (x : json) : string :=
  NL +:+ pad indent +:+ stringify indent x.

Definition member_text (indent : nat) (kx : string * json) : string :=
  NL +:+ pad indent +:+ quote kx.1 +:+ ": " +:+ stringify indent kx.2.

Lemma stringify_arr indent x xs :
  stringify indent (JArr (x :: xs))
  = "[" +:+ commas (map (item_text (indent + 2)) (x :: xs))
    +:+ NL +:+ pad indent +:+ "]".
Proof. reflexivity. Qed.

Lemma stringify_obj indent kx props :
  stringify indent (JObj (kx :: props))
  = "{" +:+ commas (map (member_text (indent + 2)) (kx :: props))
    +:+ NL +:+ pad indent +:+ "}".
Proof.
  cbn [stringify].
  by rewrite (map_ext _ (member_text (indent + 2))) by (by intros [??]).
Qed.

(** The characters a value can start with. *)
Definition opens_value (c : ascii) : bool :=
  opens_number c || ascii_eqb c "n" || ascii_eqb c "t" || ascii_eqb c "f"
  || ascii_eqb c DQ || ascii_eqb c "[" || ascii_eqb c "{".

Lemma stringify_head indent v :
  ∃ c r, stringify indent v = String c r ∧ opens_value c = true.
Proof.
  destruct v as [|b|n|s|items|props].
  - by eexists _, _.
  - destruct b; by eexists _, _.
  - destruct (pretty_Z_head n) as (c & r & E & Hc). exists c, r.
    split; [done |]. unfold opens_value. by rewrite Hc.
  - by eexists _, _.
  - destruct items as [|x xs]; [by eexists _, _ |].
    rewrite stringify_arr, app_cons. by eexists _, _.
  - destruct props as [|kx props]; [by eexists _, _ |].
    rewrite stringify_obj, app_cons. by eexists _, _.
Qed.

Lemma opens_value_plain c :
  opens_value c = true →
  is_ws c = false ∧ ascii_eqb c "]" = false ∧ ascii_eqb c "}" = false.
Proof. each_char c; done. Qed.

Lemma parse_value_number c r n :
  opens_number c = true →
  parse_value (S n) (String c r) = parse_number (String c r).
Proof. each_char c; try discriminate; reflexivity. Qed.

Lemma ends_value_plain c r :
  (is_ws c || ascii_eqb c "," || ascii_eqb c "]" || ascii_eqb c "}") = true →
  ends_value (String c r) = true.
Proof. each_char c; done. Qed.

Lemma ends_value_line n s : ends_value (NL +:+ pad n +:+ s) = true.
Proof. done. Qed.

Lemma parse_items_commas (value : string → option (json * string))
    (f : json → string) (items : list json) (tail rest : string) (fuel : nat) :
  items ≠ [] → (length items ≤ fuel)%nat →
  (∀ x rest', x ∈ items → ends_value rest' = true →
     value (f x +:+ rest') = Some (x, rest')) →
  skip_ws tail = String "]" rest → ends_value tail = true →
  parse_items value fuel (commas (map f items) +:+ tail) = Some (items, rest).
Proof.
  intros Hne Hfuel Hval Htail Hends. revert fuel Hfuel.
  induction items as [|x items IH]; [done |]. intros fuel Hfuel.
  destruct fuel as [|n]; [simpl in Hfuel; lia |].
  destruct items as [|y items].
  - cbn [map commas parse_items].
    rewrite Hval by (done || by left). by rewrite Htail.
  - change (commas (map f (x :: y :: items)))
      with (f x +:+ "," +:+ commas (map f (y :: items))).
    rewrite !app_assoc. cbn [parse_items]. rewrite Hval by (done || by left).
    rewrite app_cons, app_nil_l. cbn [skip_ws].
    change (is_ws ",") with false. cbn iota.
    change (ascii_eqb "," ",") with true. cbn iota.
    rewrite IH; [done | done | | simpl in *; lia].
    intros x' rest' Hin. apply Hval. by right.
Qed.

Lemma parse_members_commas (value : string → option (json * string))
    (indent : nat) (props : list (string * json)) (tail rest : string)
    (fuel : nat) :
  props ≠ [] → (length props ≤ fuel)%nat →
  (∀ kx rest', kx ∈ props → ends_value rest' = true →
     value (" " +:+ stringify indent kx.2 +:+ rest') = Some (kx.2, rest')) →
  skip_ws tail = String "}" rest → ends_value tail = true →
  parse_members value fuel (commas (map (member_text indent) props) +:+ tail)
  = Some (props, rest).
Proof.
  intros Hne Hfuel Hval Htail Hends. revert fuel Hfuel.
  induction props as [|[k x] props IH]; [done |]. intros fuel Hfuel.
  destruct fuel as [|n]; [simpl in Hfuel; lia |].
  assert (Hstep : ∀ after,
    ends_value after = true →
    ∃ r, skip_ws (member_text indent (k, x) +:+ after) = String DQ r
         ∧ parse_string r = Some (k, ": " +:+ stringify indent x +:+ after)).
  { intros after _. unfold member_text, quote, one. cbn [fst snd].
    rewrite <- !app_assoc. rewrite !app_assoc.
    rewrite <- (app_assoc NL), skip_ws_app by apply all_ws_line.
    rewrite !app_cons, !app_nil_l. cbn [skip_ws].
    change (is_ws DQ) with false. cbn iota. eexists. split; [done |].
    rewrite !app_assoc, !app_cons, !app_nil_l.
    by rewrite parse_string_escape. }
  assert (Hvalue : ∀ after,
    ends_value after = true →
    value (" " +:+ stringify indent x +:+ after) = Some (x, after)).
  { intros after Hafter. apply (Hval (k, x)); [by left | done]. }
  destruct props as [|ky props].
  - cbn [map commas parse_members].
    destruct (Hstep tail Hends) as (r & -> & Hkey).
    change (ascii_eqb DQ DQ) with true. cbn iota. rewrite Hkey.
    rewrite app_cons, app_cons, app_nil_l. cbn [skip_ws].
    change (is_ws ":") with false. cbn iota.
    change (ascii_eqb ":" ":") with true. cbn iota.
    change (String " " (stringify indent x +:+ tail))
      with (" " +:+ stringify indent x +:+ tail).
    rewrite Hvalue by done. by rewrite Htail.
  - change (commas (map (member_text indent) ((k, x) :: ky :: props)))
      with (member_text indent (k, x) +:+ ","
            +:+ commas (map (member_text indent) (ky :: props))).
    rewrite !app_assoc. cbn [parse_members].
    set (after := "," +:+ _).
    assert (Hafter : ends_value after = true) by done.
    destruct (Hstep after Hafter) as (r & -> & Hkey).
    change (ascii_eqb DQ DQ) with true. cbn iota. rewrite Hkey.
    rewrite app_cons, app_cons, app_nil_l. cbn [skip_ws].
    change (is_ws ":") with false. cbn iota.
    change (ascii_eqb ":" ":") with true. cbn iota.
    change (String " " (stringify indent x +:+ after))
      with (" " +:+ stringify indent x +:+ after).
    rewrite Hvalue by done. unfold after.
    rewrite app_cons, app_nil_l. cbn [skip_ws].
    change (is_ws ",") with false. cbn iota.
    change (ascii_eqb "," ",") with true. cbn iota.
    rewrite IH; [done | done | | simpl in *; lia].
    intros kx rest' Hin. apply Hval. by right.
Qed.

Lemma obj_set_fresh k v (props : list (string * json)) :
  k ∉ props.*1 → obj_set k v props = props ++ [(k, v)].
Proof.
  induction props as [|[k' v'] props IH]; [done |].
  rewrite fmap_cons. cbn [fst obj_set]. intros Hout.
  apply not_elem_of_cons in Hout as [Hne Hout].
  rewrite (proj2 (string_eqb_neq _ _) Hne). by rewrite IH.
Qed.

Lemma fold_obj_set (members acc : list (string * json)) :
  NoDup ((acc ++ members).*1) →
  fold_left (λ props kv, obj_set kv.1 kv.2 props) members acc = acc ++ members.
Proof.
  revert acc. induction members as [|[k v] members IH]; intros acc Hnd.
  { by rewrite app_nil_r. }
  assert (Hsplit : acc ++ (k, v) :: members = (acc ++ [(k, v)]) ++ members).
  { by rewrite <- List.app_assoc. }
  cbn [fold_left fst snd]. rewrite obj_set_fresh.
  - rewrite IH; by rewrite <- Hsplit.
  - rewrite fmap_app, fmap_cons in Hnd. cbn [fst] in Hnd.
    apply NoDup_app in Hnd as (_ & Hdisj & _).
    intros Hin. apply (Hdisj k Hin). by left.
Qed.

Lemma object_of_members (props : list (string * json)) :
  NoDup (props.*1) → object_of props = JObj props.
Proof. intros Hnd. unfold object_of. by rewrite fold_obj_set. Qed.

Lemma json_wf_arr (items : list json) :
  json_wf (JArr items) ↔ Forall json_wf items.
Proof.
  simpl. induction items as [|x items IH]; [by split; [constructor|] |].
  by rewrite Forall_cons, IH.
Qed.

(** The parser reads a printed value back, whatever the indentation, the
    white space before it and the text after it. *)
Lemma parse_value_stringify (fuel : nat) (v : json) (indent : nat)
    (ws rest : string) :
  json_wf v → (size v ≤ fuel)%nat →
  all_ws ws = true → ends_value rest = true →
  parse_value fuel (ws +:+ stringify indent v +:+ rest) = Some (v, rest).
Proof.
  revert v indent ws rest.
  induction fuel as [|n IH]; intros v indent ws rest Hwf Hsize Hws Hrest.
  { pose proof (size_pos v). lia. }
  destruct (stringify_head indent v) as (c & r & Ehead & Hc).
  destruct (opens_value_plain c Hc) as (Hcws & Hcb & Hcc).
  assert (Hskip : skip_ws (ws +:+ stringify indent v +:+ rest)
                  = stringify indent v +:+ rest).
  { rewrite skip_ws_app by done. rewrite Ehead, app_cons. cbn [skip_ws].
    by rewrite Hcws. }
  destruct v as [|b|z|s|items|props].
  - cbn [parse_value]. rewrite Hskip. reflexivity.
  - cbn [parse_value]. rewrite Hskip. destruct b; reflexivity.
  - destruct (pretty_Z_head z) as (c' & r' & E & Hc').
    cbn [parse_value]. rewrite Hskip. cbn [stringify]. rewrite E, app_cons.
    pose proof (parse_value_number c' (r' +:+ rest) n Hc') as Hnum.
    cbn [parse_value skip_ws] in Hnum.
    assert (is_ws c' = false) as Hws'.
    { revert Hc'. clear. each_char c'; done. }
    rewrite Hws' in Hnum. rewrite Hnum.
    rewrite <- app_cons, <- E. by apply parse_number_pretty.
  - cbn [parse_value]. rewrite Hskip. cbn [stringify]. unfold quote, one.
    rewrite app_cons. change (ascii_eqb DQ "n") with false.
    change (ascii_eqb DQ "t") with false. change (ascii_eqb DQ "f") with false.
    change (ascii_eqb DQ DQ) with true. cbn iota.
    by rewrite app_assoc, app_cons, app_nil_l, parse_string_escape.
  - destruct items as [|x xs].
    { cbn [parse_value]. rewrite Hskip. reflexivity. }
    apply json_wf_arr in Hwf. cbn [size] in Hsize.
    cbn [parse_value]. rewrite Hskip, stringify_arr.
    rewrite !app_assoc, app_cons, app_nil_l. cbv beta iota.
    set (items := x :: xs) in *.
    change (ascii_eqb "[" "n") with false. change (ascii_eqb "[" "t") with false.
    change (ascii_eqb "[" "f") with false. change (ascii_eqb "[" DQ) with false.
    change (ascii_eqb "[" "[") with true. cbv beta iota.
    set (tail := NL +:+ pad indent +:+ "]" +:+ rest).
    assert (Hitems :
      parse_items (parse_value n) n
        (commas (map (item_text (indent + 2)) items) +:+ tail)
      = Some (items, rest)).
    { apply parse_items_commas; [done | | | |].
      - pose proof (list_sum_length size items size_pos). lia.
      - intros y rest' Hin Hrest'. unfold item_text.
        rewrite !app_assoc, <- (app_assoc NL). apply IH; [| |apply all_ws_line|done].
        + by apply (proj1 (Forall_forall _ _) Hwf).
        + pose proof (list_sum_elem size items y Hin). lia.
      - unfold tail. rewrite <- (app_assoc NL), skip_ws_app by apply all_ws_line.
        by rewrite app_cons, app_nil_l.
      - apply ends_value_line. }
    rewrite Hitems.
    destruct (stringify_head (indent + 2) x) as (cx & rx & Ex & Hcx).
    destruct (opens_value_plain cx Hcx) as (Hxws & Hxb & _).
    assert (skip_ws (commas (map (item_text (indent + 2)) items) +:+ tail)
            = String cx (rx +:+ ((match xs with
                                  | [] => ""
                                  | _ => "," +:+ commas (map (item_text (indent + 2)) xs)
                                  end) +:+ tail))) as ->.
    { unfold items. destruct xs as [|y ys].
      - cbn [map commas]. unfold item_text at 1.
        rewrite !app_assoc, <- (app_assoc NL), skip_ws_app by apply all_ws_line.
        rewrite Ex, app_cons. cbn [skip_ws]. by rewrite Hxws, app_nil_l.
      - change (commas (map (item_text (indent + 2)) (x :: y :: ys)))
          with (item_text (indent + 2) x +:+ ","
                +:+ commas (map (item_text (indent + 2)) (y :: ys))).
        unfold item_text at 1.
        rewrite !app_assoc, <- (app_assoc NL), skip_ws_app by apply all_ws_line.
        rewrite Ex, app_cons. cbn [skip_ws]. by rewrite Hxws. }
    by rewrite Hxb.
  - destruct props as [|[k x] ps].
    { cbn [parse_value]. rewrite Hskip. reflexivity. }
    apply json_wf_obj in Hwf as [Hnd Hwf]. cbn [size] in Hsize.
    cbn [parse_value]. rewrite Hskip, stringify_obj.
    rewrite !app_assoc, app_cons, app_nil_l. cbv beta iota.
    set (props := (k, x) :: ps) in *.
    change (ascii_eqb "{" "n") with false. change (ascii_eqb "{" "t") with false.
    change (ascii_eqb "{" "f") with false. change (ascii_eqb "{" DQ) with false.
    change (ascii_eqb "{" "[") with false.
    change (ascii_eqb "{" "{") with true. cbv beta iota.
    set (tail := NL +:+ pad indent +:+ "}" +:+ rest).
    assert (Hmembers :
      parse_members (parse_value n) n
        (commas (map (member_text (indent + 2)) props) +:+ tail)
      = Some (props, rest)).
    { apply parse_members_commas; [done | | | |].
      - assert (length props
                ≤ list_sum (map (λ kx : string * json, let '(_, y) := kx in size y)
                              props))%nat; [|lia].
        apply list_sum_length. intros [? y]. apply size_pos.
      - intros ky rest' Hin Hrest'. apply IH; [| |done|done].
        + by apply (proj1 (Forall_forall _ _) Hwf).
        + pose proof (list_sum_elem (λ kx : string * json, let '(_, y) := kx in size y)
                        props ky Hin) as Hle.
          destruct ky as [? y]. simpl in *. lia.
      - unfold tail. rewrite <- (app_assoc NL), skip_ws_app by apply all_ws_line.
        by rewrite app_cons, app_nil_l.
      - apply ends_value_line. }
    rewrite Hmembers, (object_of_members props Hnd).
    assert (∃ r0, skip_ws (commas (map (member_text (indent + 2)) props) +:+ tail)
                  = String DQ r0) as [r0 ->].
    { unfold props. destruct ps as [|ky ps'].
      - cbn [map commas]. unfold member_text at 1.
        rewrite !app_assoc, <- (app_assoc NL), skip_ws_app by apply all_ws_line.
        unfold quote. rewrite app_cons. cbn [skip_ws]. by eexists.
      - change (commas (map (member_text (indent + 2)) ((k, x) :: ky :: ps')))
          with (member_text (indent + 2) (k, x) +:+ ","
                +:+ commas (map (member_text (indent + 2)) (ky :: ps'))).
        unfold member_text at 1.
        rewrite !app_assoc, <- (app_assoc NL), skip_ws_app by apply all_ws_line.
        unfold quote. rewrite app_cons. cbn [skip_ws]. by eexists. }
    reflexivity.
Qed.

Lemma commas_length {A} (g : A → nat) (f : A → string) (l : list A) :
  (∀ x, x ∈ l → (g x ≤ String.length (f x))%nat) →
  (list_sum (map g l) ≤ String.length (commas (map f l)))%nat.
Proof.
  induction l as [|x l IH]; intros Hle; [done |].
  assert (Hx := Hle x ltac:(by left)).
  assert (Hl : (list_sum (map g l) ≤ String.length (commas (map f l)))%nat).
  { apply IH. intros y Hy. apply Hle. by right. }
  destruct l as [|y l]; [simpl in *; lia |].
  change (commas (map f (x :: y :: l)))
    with (f x +:+ "," +:+ commas (map f (y :: l))).
  rewrite !length_app.
  change (list_sum (map g (x :: y :: l)))
    with (g x + list_sum (map g (y :: l)))%nat.
  lia.
Qed.

Lemma size_le_length (n : nat) (v : json) (indent : nat) :
  (size v ≤ n)%nat → (size v ≤ String.length (stringify indent v))%nat.
Proof.
  revert v indent. induction n as [|n IH]; intros v indent Hn.
  { pose proof (size_pos v). lia. }
  assert (Hone : (1 ≤ String.length (stringify indent v))%nat).
  { destruct (stringify_head indent v) as (c & r & -> & _). simpl. lia. }
  destruct v as [| | | |items|props]; try done.
  - destruct items as [|x xs]; [done |].
    rewrite stringify_arr, !length_app. cbn [size] in *.
    assert (list_sum (map size (x :: xs))
            ≤ String.length (commas (map (item_text (indent + 2)) (x :: xs))))%nat
      as Hsum.
    { apply commas_length. intros y Hy. unfold item_text. rewrite !length_app.
      pose proof (list_sum_elem size (x :: xs) y Hy).
      pose proof (IH y (indent + 2)%nat). lia. }
    change (String.length "[") with 1%nat. lia.
  - destruct props as [|kx ps]; [done |].
    rewrite stringify_obj, !length_app. cbn [size] in *.
    set (g := λ kx : string * json, let '(_, y) := kx in size y) in *.
    assert (list_sum (map g (kx :: ps))
            ≤ String.length (commas (map (member_text (indent + 2)) (kx :: ps))))%nat
      as Hsum.
    { apply commas_length. intros ky Hy. unfold member_text.
      rewrite !length_app.
      pose proof (list_sum_elem g (kx :: ps) ky Hy) as Hle.
      destruct ky as [k y]. cbn [fst snd g] in *.
      pose proof (IH y (indent + 2)%nat). lia. }
    change (String.length "{") with 1%nat. lia.
Qed.

(** [JSON.parse(JSON.stringify(v, null, 2))] is [v]. *)
Lemma parse_stringify (v : json) : json_wf v → parse (stringify 0 v) = Some v.
Proof.
  intros Hwf. unfold parse.
  pose proof (parse_value_stringify (S (String.length (stringify 0 v))) v 0
                "" "" Hwf) as Hparse.
  rewrite app_nil_l, app_empty_r in Hparse. rewrite Hparse; [done | | done..].
  pose proof (size_le_length (size v) v 0 ltac:(lia)). lia.
Qed.

(** ** What the parser returns is well formed *)

Lemma parse_items_wf (value : string → option (json * string)) fuel s vs rest :
  (∀ s v r, value s = Some (v, r) → json_wf v) →
  parse_items value fuel s = Some (vs, rest) → Forall json_wf vs.
Proof.
  intros Hvalue. revert s vs rest.
  induction fuel as [|n IH]; intros s vs rest; [done |].
  cbn [parse_items]. destruct (value s) as [[v r]|] eqn:Ev; [|done].
  apply Hvalue in Ev. destruct (skip_ws r) as [|c r1]; [done |].
  destruct (ascii_eqb c ",").
  - destruct (parse_items value n r1) as [[vs' rest']|] eqn:E; [|done].
    intros [= <- <-]. constructor; [done |]. by eapply IH.
  - destruct (ascii_eqb c "]"); [|done]. intros [= <- <-]. by repeat constructor.
Qed.

Lemma parse_members_wf (value : string → option (json * string)) fuel s kvs rest :
  (∀ s v r, value s = Some (v, r) → json_wf v) →
  parse_members value fuel s = Some (kvs, rest) →
  Forall (λ kv, json_wf kv.2) kvs.
Proof.
  intros Hvalue. revert s kvs rest.
  induction fuel as [|n IH]; intros s kvs rest; [done |].
  cbn [parse_members]. destruct (skip_ws s) as [|q r0]; [done |].
  destruct (ascii_eqb q DQ); [|done].
  destruct (parse_string r0) as [[k r1]|]; [|done].
  destruct (skip_ws r1) as [|colon r2]; [done |].
  destruct (ascii_eqb colon ":"); [|done].
  destruct (value r2) as [[v r3]|] eqn:Ev; [|done].
  apply Hvalue in Ev. destruct (skip_ws r3) as [|c r4]; [done |].
  destruct (ascii_eqb c ",").
  - destruct (parse_members value n r4) as [[kvs' rest']|] eqn:E; [|done].
    intros [= <- <-]. constructor; [done |]. by eapply IH.
  - destruct (ascii_eqb c "}"); [|done]. intros [= <- <-]. by repeat constructor.
Qed.

Lemma object_of_wf (kvs : list (string * json)) :
  Forall (λ kv, json_wf kv.2) kvs → json_wf (object_of kvs).
Proof.
  unfold object_of. intros Hall.
  assert (Hacc : json_wf (JObj [])) by (split; [constructor | done]).
  revert Hacc. generalize (@nil (string * json)) as acc.
  induction Hall as [|[k v] kvs Hv _ IH]; intros acc Hacc; [done |].
  cbn [fold_left fst snd]. apply IH. by apply obj_set_wf.
Qed.

Lemma parse_number_wf s v r : parse_number s = Some (v, r) → json_wf v.
Proof.
  unfold parse_number.
  destruct (match s with
            | EmptyString => (false, s)
            | String c r0 => if ascii_eqb c "-" then (true, r0) else (false, s)
            end) as [negative digits].
  destruct (parse_nat digits) as [[n rest]|]; [|done].
  destruct (ends_integer rest); [|done]. by intros [= <- _].
Qed.

Lemma parse_value_wf fuel s v r : parse_value fuel s = Some (v, r) → json_wf v.
Proof.
  revert s v r. induction fuel as [|n IH]; intros s v r; [done |].
  cbn [parse_value]. destruct (skip_ws s) as [|c r0]; [done |].
  assert (Hlit : ∀ p v0 s0, literal p v0 s0 = Some (v, r) → v = v0).
  { intros p v0 s0. unfold literal. destruct (strip_prefix p s0); [|done].
    by intros [= <- _]. }
  destruct (ascii_eqb c "n"); [by intros ->%Hlit |].
  destruct (ascii_eqb c "t"); [by intros ->%Hlit |].
  destruct (ascii_eqb c "f"); [by intros ->%Hlit |].
  destruct (ascii_eqb c DQ).
  { destruct (parse_string r0) as [[? ?]|]; [|done]. by intros [= <- _]. }
  destruct (ascii_eqb c "[").
  { destruct (skip_ws r0) as [|c1 r1]; [done |].
    destruct (ascii_eqb c1 "]"); [by intros [= <- _] |].
    destruct (parse_items (parse_value n) n r0) as [[vs rest]|] eqn:E; [|done].
    intros [= <- _]. apply json_wf_arr. eapply parse_items_wf; [|done]. apply IH. }
  destruct (ascii_eqb c "{").
  { destruct (skip_ws r0) as [|c1 r1]; [done |].
    destruct (ascii_eqb c1 "}").
    { intros [= <- _]. split; [constructor | done]. }
    destruct (parse_members (parse_value n) n r0) as [[kvs rest]|] eqn:E; [|done].
    intros [= <- _]. apply object_of_wf. eapply parse_members_wf; [|done].
    apply IH. }
  apply parse_number_wf.
Qed.

Lemma parse_wf s v : parse s = Some v → json_wf v.
Proof.
  unfold parse.
  destruct (parse_value _ s) as [[v' rest]|] eqn:E; [|done].
  destruct (skip_ws rest); [|done]. intros [= <-]. by eapply parse_value_wf.
Qed.

Lemma gunzip_gzip_stand_in s : gunzip (gzip s) = Some s.
Proof. done. Qed.

(** The platform the examples below run on. The default printing of a
    date depends on the locale; the ISO form stands for it. *)
#[export] Instance node : Platform := {|
  gzipSync := gzip;
  gunzipSync := gunzip;
  gunzip_gzip := gunzip_gzip_stand_in;
  JSON_stringify := stringify 0;
  JSON_parse := parse;
  JSON_parse_wf := parse_wf;
  JSON_parse_stringify := parse_stringify;
  readdir := listing;
  readdir_perm := λ m, reflexivity (listing m);
  toISOString := toISO;
  dateString := toISO
|}.

End NodeFacts.

(* ===================================================================== *)
(** * The program on the concrete platform                                *)
(* ===================================================================== *)

Module Examples.
Import JS JSFacts Json Fs Config FsFacts Logger Backup Node NodeFacts.
Import RetentionFacts RestoreFacts FullRestoreFacts RetentionExact.
Import SectionFacts FullBackupFacts.

(** 2026-11-02T00:00:00.123Z. *)
Definition today : Z := 1793577600123.

Definition quoted (s : string) : string := String DQ (s +:+ one DQ).

(** The JSON text [{"sections":{"full-backup":"x"}}], and a line feed. *)
Definition payload_line : string :=
  "{" +:+ quoted "sections" +:+ ":{" +:+ quoted "full-backup" +:+ ":"
  +:+ quoted "x" +:+ "}}" +:+ NL.

(** A store whose section [full-backup] holds that one entry. *)
Definition prefix_store : world :=
  World (Some {[ "full-backup.txt" := File payload_line 0 ]}) (Some ∅)
    today [] [].

Definition backup_then_restore (cfg : backupConfig) (section : string)
  : M bool :=
  saved <- backupSection cfg section false;
  match saved with
  | Some p => restoreFromBackup cfg p (Some section) true
  | None => ret false
  end.

(** [backupConfig] with compression off. *)
Definition plainConfig : backupConfig :=
  {| maxBackupsPerSection := 5;
     retentionDays := 30;
     useCompression := false;
     backupExtension := ".bak";
     compressedExtension := ".bak.gz";
     fullBackupPrefix := "full-backup-" |}.

(** Both directories in place and empty, at time 0. *)
Definition empty_store : world := World (Some ∅) (Some ∅) 0 [] [].

Definition work_sidecar : json :=
  JObj [("work", JObj [("description", JStr "notes")])].

Definition work_sections : gmap string file :=
  {[ "work.txt" := File "one" 7; "home.txt" := File "" 8;
     "metadata.json" := File (stringify 0 work_sidecar) 9 ]}.

(** Seven backups of [work], one of them from 1970, and one of [home]. *)
Definition work_backups : gmap string file :=
  {[ "work-a.bak.gz" := File (gzip "a") (today - 1);
     "work-b.bak.gz" := File (gzip "b") (today - 2);
     "work-c.bak.gz" := File (gzip "c") (today - 3);
     "work-d.bak.gz" := File (gzip "d") 1000;
     "work-e.bak.gz" := File (gzip "e") (today - 5);
     "work-f.bak.gz" := File (gzip "f") (today - 6);
     "work-g.bak" := File "g" (today - 7);
     "home-a.bak.gz" := File (gzip "h") (today - 8) ]}.

Definition work_store : world :=
  World (Some work_sections) (Some work_backups) today [] [].

(** The round trip of C1 on [prefix_store] under [cfg] succeeds and leaves
    the log file holding [x]. *)
Definition taken_for_full_backup (cfg : backupConfig) : Prop :=
  let after := backup_then_restore cfg "full-backup" prefix_store in
  after.1 = Ok true
  ∧ lookup_file (Path SectionsDir "full-backup.txt") after.2
    = Some (File "x" today)
  ∧ last (trace after.2) = Some (Log "restored 1 of 1 sections").

(** C1 fails for the section id [full-backup], with compression and
    without: the artifact of its backup has the name of a full backup, so
    the restore reads the text of the log as the payload of a full backup,
    and the log file, which held [payload_line], then holds [x]. *)
Theorem backupSection_restore_full_prefix :
  lookup_file (Path SectionsDir "full-backup.txt") prefix_store
  = Some (File payload_line 0)
  ∧ (backupSection defaultConfig "full-backup" false prefix_store).1
    = Ok (Some (Path BackupDir "full-backup-2026-11-02T00-00-00-123Z.bak.gz"))
  ∧ (backupSection plainConfig "full-backup" false prefix_store).1
    = Ok (Some (Path BackupDir "full-backup-2026-11-02T00-00-00-123Z.bak"))
  ∧ taken_for_full_backup defaultConfig
  ∧ taken_for_full_backup plainConfig.
Proof.
  split; [done |]. split; [by vm_compute |]. split; [by vm_compute |].
  split; by vm_compute.
Qed.

Lemma cleanupOldBackups_hyphen_deletes_nothing_witness :
  includes_char "-" "work-a" = true
  ∧ run (cleanupOldBackups defaultConfig "work-a") work_store
      (λ r w', r = Ok tt
               ∧ sectionsDir w' = Some work_sections
               ∧ backupDir w' = Some work_backups).
Proof.
  split; [reflexivity |].
  apply (cleanupOldBackups_hyphen_deletes_nothing defaultConfig "work-a"
           work_store).
  reflexivity.
Defined.

Lemma restoreFromBackup_skips_existing_witness :
  restoreFromBackup defaultConfig (Path BackupDir "work-a.bak.gz")
    (Some "work") false work_store
  = (Ok false, emit (Log "skipping section work (file exists)") work_store).
Proof.
  apply (proj2 (restoreFromBackup_skips_existing defaultConfig)
           (Path BackupDir "work-a.bak.gz") "work"
           (File (gzip "a") (today - 1)) (File "one" 7) "a" work_store).
  - reflexivity.
  - vm_compute. reflexivity.
  - vm_compute. reflexivity.
  - reflexivity.
  - discriminate.
  - vm_compute. reflexivity.
Defined.

Lemma createSection_spec_witness :
  faults work_store = []
  ∧ metadata_of work_store = work_sidecar
  ∧ run (createSection "my notes!" "ideas") work_store (λ r w',
      r = Ok "my_notes_"
      ∧ lookup_file (getLogFilePath "my_notes_") w' = Some (File "" today)
      ∧ metadata_of w'
        = JObj [("work", JObj [("description", JStr "notes")]);
                ("my_notes_", JObj [("description", JStr "ideas")])]).
Proof.
  assert (Hmeta : metadata_of work_store = work_sidecar).
  { vm_compute. reflexivity. }
  split; [reflexivity |]. split; [exact Hmeta |].
  eapply run_mono.
  - apply (createSection_spec "my notes!" "ideas" work_sections
             [("work", JObj [("description", JStr "notes")])] work_store);
      [reflexivity | reflexivity | exact Hmeta | discriminate].
  - intros r w' (Hr & Hfile & _ & _ & Hsidecar & _).
    split; [exact Hr |]. split; [exact Hfile | exact Hsidecar].
Defined.

(** C6 at the name [__proto__], which [sanitize] keeps: in the store where
    nothing has been created yet, [createSection] makes the log file and
    returns the name, and the sidecar it writes is the empty object, with
    no entry for that id; so it is not so that the sidecar holds the
    description under the id after every call. *)
Lemma createSection_proto :
  let after := createSection "__proto__" "ideas" empty_store in
  sanitize "__proto__" = "__proto__"
  ∧ after.1 = Ok "__proto__"
  ∧ lookup_file (getLogFilePath "__proto__") after.2 = Some (File "" 0)
  ∧ f_data <$> lookup_file metadataFile after.2 = Some "{}"
  ∧ metadata_of after.2 = JObj []
  ∧ ¬ (∀ (name description : string) (w : world),
         faults w = [] → is_Some (sectionsDir w) →
         metadata_of w = JObj [] →
         run (createSection name description) w (λ r w',
           ∃ props,
             metadata_of w' = JObj props
             ∧ obj_get (sanitize name) props
               = Some (JObj [("description", JStr description)]))).
Proof.
  split; [by vm_compute |]. split; [by vm_compute |]. split; [by vm_compute |].
  split; [by vm_compute |]. split; [by vm_compute |].
  intros Hclaim.
  specialize (Hclaim "__proto__" "ideas" empty_store eq_refl).
  destruct Hclaim as (props & Hmeta & Hget); [by eexists | by vm_compute |].
  vm_compute in Hmeta. injection Hmeta as <-. discriminate Hget.
Qed.

Definition three_sections : list (string * string) :=
  [("work", "W"); ("home", "H"); ("new", "N")].

Lemma restoreFullBackup_merges_witness :
  faults work_store = []
  ∧ run (restoreFullBackup
           (JObj [("sections", JObj (payload_sections three_sections))]) false)
      work_store (λ r w',
        r = Ok true
        ∧ lookup_file (Path SectionsDir "work.txt") w' = Some (File "one" 7)
        ∧ lookup_file (Path SectionsDir "new.txt") w' = Some (File "N" today)
        ∧ last (trace w') = Some (Log "restored 1 of 3 sections")).
Proof.
  split; [reflexivity |].
  assert (Hnd : NoDup (three_sections.*1)).
  { apply (bool_decide_unpack _). vm_compute. exact I. }
  eapply run_mono.
  - apply (restoreFullBackup_merges
             [("sections", JObj (payload_sections three_sections))]
             three_sections false work_store eq_refl eq_refl Hnd).
  - intros r w' (Hr & Hent & _ & _ & _ & _ & Hline).
    split; [exact Hr |].
    split; [apply (Hent "work" "W"); vm_compute; by left |].
    split; [apply (Hent "new" "N"); vm_compute; by right; right; left |].
    apply Hline; vm_compute; reflexivity.
Defined.

Definition full_backup_then_restore : M bool :=
  saved <- createFullBackup defaultConfig;
  match saved with
  | Some p => restoreFromBackup defaultConfig p None true
  | None => ret false
  end.

Lemma full_backup_roundtrip_witness :
  sidecar_value work_store = Some work_sidecar
  ∧ (let after := full_backup_then_restore work_store in
     after.1 = Ok true
     ∧ f_data <$> lookup_file (Path SectionsDir "work.txt") after.2 = Some "one"
     ∧ sidecar_value after.2 = Some work_sidecar)
  ∧ run (createFullBackup defaultConfig) work_store (λ r w1,
      ∃ artifact, r = Ok (Some artifact) ∧
      ∀ w2 f, faults w2 = [] →
        lookup_file artifact w1 = Some f → lookup_file artifact w2 = Some f →
        run (restoreFromBackup defaultConfig artifact None true) w2 (λ r3 w3,
          r3 = Ok true
          ∧ f_data <$> lookup_file (Path SectionsDir "work.txt") w3 = Some "one"
          ∧ f_data <$> lookup_file (Path SectionsDir "home.txt") w3 = Some ""
          ∧ sidecar_value w3 = Some work_sidecar)).
Proof.
  assert (Hmeta : sidecar_value work_store = Some work_sidecar).
  { vm_compute. reflexivity. }
  split; [exact Hmeta |]. split; [vm_compute; repeat split |].
  eapply run_mono.
  - apply (full_backup_roundtrip defaultConfig work_store work_sections
             work_sidecar eq_refl eq_refl eq_refl Hmeta).
  - intros r w1 (artifact & Hr & _ & _ & _ & Hrestore).
    exists artifact. split; [exact Hr |].
    intros w2 f Hf H1 H2. eapply run_mono; [exact (Hrestore w2 f Hf H1 H2) |].
    intros r3 w3 (Hr3 & _ & _ & _ & Hent & Hsidecar).
    split; [exact Hr3 |].
    split; [apply (Hent "work" (File "one" 7));
            [discriminate | by left | by vm_compute] |].
    split; [apply (Hent "home" (File "" 8));
            [discriminate | by left | by vm_compute] |].
    apply Hsidecar. reflexivity.
Defined.

Lemma retention_after_backupSection_witness :
  faults work_store = []
  ∧ (backupSection defaultConfig "work" false work_store).1
    = Ok (Some (Path BackupDir "work-2026-11-02T00-00-00-123Z.bak.gz"))
  ∧ run (backupSection defaultConfig "work" false) work_store (λ r w',
      ∀ p, r = Ok (Some p) →
      ∃ mb', backupDir w' = Some mb'
             ∧ (length (sectionBackups "work" (records defaultConfig mb')) ≤ 5)%nat
             ∧ ∀ b, b ∈ sectionBackups "work" (records defaultConfig mb') →
                    ¬ b_date b < today - 30 * msPerDay).
Proof.
  split; [reflexivity |]. split; [vm_compute; reflexivity |].
  eapply run_mono.
  - apply (retention_after_backupSection defaultConfig "work" false work_store).
    reflexivity.
  - intros r w' Hpost p Hp.
    destruct (Hpost p Hp) as (mb0 & a & mb' & _ & Hb & _ & _ & _ & _ & Hlen & Hage).
    exists mb'. split; [exact Hb |]. split; [exact Hlen |].
    apply Hage. reflexivity.
Defined.

End Examples.

(* ===================================================================== *)
(** * tag.js: what a tag is, and the colouring of a log                   *)
(* ===================================================================== *)

Module TagFormatFacts.
Import JS JSFacts Tag TagFacts.

Lemma lazy_until_close_sound s t :
  lazy_until_close s = Some t →
  ∃ rest, s = t +:+ String "]" rest
          ∧ includes_char "]" t = false ∧ single_line t = true.
Proof.
  revert t. induction s as [|c s IH]; intros t; [done |].
  cbn [lazy_until_close]. destruct (ascii_eqb c "]") eqn:Ec.
  - intros [= <-]. apply ascii_eqb_eq in Ec as ->. by exists s.
  - destruct (is_line_terminator c) eqn:El; [done |].
    destruct (lazy_until_close s) as [t'|]; [|done].
    intros [= <-]. destruct (IH t' eq_refl) as (rest & -> & Hc & Hl).
    exists rest. rewrite app_cons. split; [done |].
    cbn [includes_char single_line].
    by rewrite ascii_eqb_sym, Ec, Hc, El, Hl.
Qed.

Lemma lazy_until_close_some t rest :
  single_line t = true → is_Some (lazy_until_close (t +:+ String "]" rest)).
Proof.
  induction t as [|c t IH]; rewrite ?app_cons, ?app_nil_l.
  - intros _. by eexists.
  - cbn [single_line lazy_until_close].
    intros [Hl Ht]%andb_true_iff. apply negb_true_iff in Hl.
    destruct (ascii_eqb c "]"); [by eexists |]. rewrite Hl.
    destruct (IH Ht) as [t' ->]. by eexists.
Qed.

Lemma match_tag_sound log t :
  match_tag log = Some t →
  ∃ before after,
    log = before +:+ "[" +:+ t +:+ "]" +:+ after
    ∧ includes_char "]" t = false ∧ single_line t = true
    ∧ match_tag before = None.
Proof.
  induction log as [|c log IH]; [done |]. cbn [match_tag].
  destruct (ascii_eqb c "[") eqn:Ec.
  - destruct (lazy_until_close log) as [t'|] eqn:El.
    + intros [= ->]. apply ascii_eqb_eq in Ec as ->.
      apply lazy_until_close_sound in El as (rest & -> & Hc & Hl).
      exists "", rest. rewrite !app_nil_l, app_cons, app_nil_l.
      by rewrite (app_cons "]"), app_nil_l.
    + intros (before & after & -> & Hc & Hl & Hb)%IH.
      exists (String c before), after. rewrite app_cons.
      repeat split; try done. cbn [match_tag]. rewrite Ec.
      destruct (lazy_until_close before) as [t0|] eqn:E0; [|done].
      exfalso. apply lazy_until_close_sound in E0 as (rest0 & -> & _ & Hl0).
      destruct (lazy_until_close_some t0
                  (rest0 +:+ "[" +:+ t +:+ "]" +:+ after) Hl0) as [x Hs].
      rewrite !app_assoc, app_cons in El. congruence.
  - intros (before & after & -> & Hc & Hl & Hb)%IH.
    exists (String c before), after. rewrite app_cons.
    repeat split; try done. cbn [match_tag]. by rewrite Ec.
Qed.

Lemma match_tag_some before t after :
  single_line t = true →
  is_Some (match_tag (before +:+ "[" +:+ t +:+ "]" +:+ after)).
Proof.
  intros Hl. induction before as [|c before IH].
  - rewrite app_nil_l, app_cons, app_nil_l. cbn [match_tag].
    change (ascii_eqb "[" "[") with true. cbn iota.
    rewrite (app_cons "]"), app_nil_l.
    destruct (lazy_until_close_some t after Hl) as [t' ->]. by eexists.
  - rewrite app_cons. cbn [match_tag].
    destruct (ascii_eqb c "["); [|done].
    by destruct (lazy_until_close _); [eexists |].
Qed.

Lemma match_tag_bracket log t :
  match_tag log = Some t → includes_char "[" log = true.
Proof.
  intros (before & after & -> & _)%match_tag_sound.
  rewrite includes_char_app, (app_cons "["). cbn [includes_char].
  change (ascii_eqb "[" "[") with true. by rewrite orb_true_r.
Qed.

Lemma extractTag_match log : extractTag log = match_tag log.
Proof.
  unfold extractTag, hasTag. destruct (match_tag log) as [t|] eqn:E.
  - by rewrite (match_tag_bracket log t E).
  - by destruct (includes_char "[" log).
Qed.

(** [extractTag] gives the text between the first opening bracket that is
    closed on its line and the first closing bracket after it: the tag has
    no closing bracket and no line terminator, and no tag stands before
    it. It gives [null] exactly when the log has no bracket pair on one
    line; for [[]] it gives the empty string, not [null]. [hasTag] says
    whether [extractTag] gives a tag. *)
Theorem extractTag_first_bracket_pair (log : string) :
  (∀ tag, extractTag log = Some tag →
     ∃ before after,
       log = before +:+ "[" +:+ tag +:+ "]" +:+ after
       ∧ includes_char "]" tag = false ∧ single_line tag = true
       ∧ extractTag before = None)
  ∧ (extractTag log = None ↔
       ¬ ∃ before t after,
           log = before +:+ "[" +:+ t +:+ "]" +:+ after
           ∧ single_line t = true)
  ∧ (∀ after, extractTag ("[]" +:+ after) = Some "")
  ∧ hasTag log = bool_decide (is_Some (extractTag log)).
Proof.
  split; [|split; [|split]].
  - intros tag. rewrite extractTag_match.
    intros (before & after & E & Hc & Hl & Hb)%match_tag_sound.
    exists before, after. by rewrite extractTag_match.
  - rewrite extractTag_match. split.
    + intros Hnone (before & t & after & -> & Hl).
      destruct (match_tag_some before t after Hl) as [x Hx]. congruence.
    + intros Hno. destruct (match_tag log) as [t|] eqn:E; [|done].
      destruct Hno. apply match_tag_sound in E as (before & after & E & _ & Hl & _).
      by exists before, t, after.
  - intros after. rewrite extractTag_match. by rewrite app_cons.
  - unfold hasTag. rewrite extractTag_match.
    destruct (match_tag log) as [t|] eqn:E.
    + rewrite (match_tag_bracket log t E).
      by rewrite bool_decide_eq_true_2 by eauto.
    + rewrite bool_decide_eq_false_2 by (by intros [? ?]).
      apply andb_false_r.
Qed.

(** ** [formatTaggedLog] *)

Lemma string_length_app (a b : string) :
  String.length (a +:+ b) = (String.length a + String.length b)%nat.
Proof.
  induction a as [|c a IH]; [done |]. rewrite app_cons. simpl. by rewrite IH.
Qed.

Lemma startsWith_drop (p s : string) :
  startsWith p s = true → s = p +:+ drop_string (String.length p) s.
Proof.
  revert s. induction p as [|a p IH]; intros s.
  { intros _. by destruct s. }
  destruct s as [|b s]; [done |]. cbn [startsWith].
  intros [Hab Hp]%andb_true_iff. apply ascii_eqb_eq in Hab as ->.
  rewrite app_cons. cbn [String.length drop_string]. f_equal. by apply IH.
Qed.

Lemma indexOf_lower (pat s : string) : -1 ≤ indexOf pat s.
Proof.
  induction s as [|c s IH]; cbn [indexOf].
  - destruct (startsWith pat ""); lia.
  - destruct (startsWith pat (String c s)); [lia |].
    destruct (indexOf pat s <? 0) eqn:E; [lia |]. apply Z.ltb_ge in E. lia.
Qed.

(** A position [indexOf] returns is one where the pattern stands. *)
Lemma indexOf_found (pat s : string) :
  0 ≤ indexOf pat s →
  s = take_string (Z.to_nat (indexOf pat s)) s +:+ pat
      +:+ drop_string (Z.to_nat (indexOf pat s) + String.length pat) s
  ∧ (Z.to_nat (indexOf pat s) + String.length pat ≤ String.length s)%nat.
Proof.
  induction s as [|c s IH]; cbn [indexOf].
  - destruct (startsWith pat "") eqn:E; [|lia]. intros _.
    destruct pat; [done | done].
  - destruct (startsWith pat (String c s)) eqn:E.
    + intros _. change (Z.to_nat 0) with 0%nat.
      change (take_string 0 (String c s)) with "". rewrite app_nil_l.
      split; [by apply startsWith_drop |].
      apply startsWith_drop in E. apply (f_equal String.length) in E.
      rewrite string_length_app in E. simpl in *. lia.
    + destruct (indexOf pat s <? 0) eqn:En; [lia |]. apply Z.ltb_ge in En.
      intros _. destruct (IH En) as [Hs Hlen].
      replace (Z.to_nat (indexOf pat s + 1))
        with (S (Z.to_nat (indexOf pat s))) by lia.
      cbn [take_string Nat.add drop_string String.length].
      rewrite app_cons. split; [by f_equal | lia].
Qed.

(** Where the pattern occurs, [indexOf] finds it. *)
Lemma indexOf_occurs (pat before after : string) :
  0 ≤ indexOf pat (before +:+ pat +:+ after).
Proof.
  induction before as [|c before IH].
  - rewrite app_nil_l. destruct (pat +:+ after) eqn:E; cbn [indexOf];
      rewrite <- E, startsWith_app; lia.
  - rewrite app_cons. cbn [indexOf].
    destruct (startsWith pat _); [lia |].
    destruct (indexOf pat (before +:+ pat +:+ after) <? 0) eqn:En; [|lia].
    apply Z.ltb_lt in En. lia.
Qed.

Definition plain : palette := Palette id id id id.

(** [formatTaggedLog] changes the colour of a log and never its text. A
    log without a tag comes back as it is. A log whose first tag is
    [important], [idea] or [todo], in any case of the letters, comes back
    whole in red, green or blue. For any other tag the result is the text
    before the tag, the bracketed tag in cyan and the text after it, and
    these three parts make up the log. So with colours that add nothing
    the result is the log. *)
Theorem formatTaggedLog_keeps_text (chalk : palette) (log : string) :
  (extractTag log = None → formatTaggedLog chalk log = log)
  ∧ (∀ tag, extractTag log = Some tag →
       ∃ before after,
         log = before +:+ "[" +:+ tag +:+ "]" +:+ after
         ∧ formatTaggedLog chalk log
           = if string_eqb (toLowerCase tag) "important" then red chalk log
             else if string_eqb (toLowerCase tag) "idea" then green chalk log
             else if string_eqb (toLowerCase tag) "todo" then blue chalk log
             else before +:+ cyan chalk ("[" +:+ tag +:+ "]") +:+ after)
  ∧ formatTaggedLog plain log = log.
Proof.
  assert (Hparts : ∀ tag, match_tag log = Some tag →
    let i := indexOf ("[" +:+ tag +:+ "]") log in
    log = substring 0 i log +:+ ("[" +:+ tag +:+ "]")
          +:+ substring_from (i + Z.of_nat (String.length tag) + 2) log).
  { intros tag (before & after & E & _)%match_tag_sound i.
    assert (E' : log = before +:+ ("[" +:+ tag +:+ "]") +:+ after).
    { rewrite E. by rewrite !app_assoc. }
    assert (Hi : 0 ≤ i).
    { unfold i. rewrite E'. apply indexOf_occurs. }
    destruct (indexOf_found _ _ Hi) as [Hs Hlen]. fold i in Hs, Hlen.
    rewrite !string_length_app in Hlen. simpl in Hlen.
    assert (Hx : substring 0 i log = take_string (Z.to_nat i) log).
    { unfold substring, clamp. rewrite Z.max_id.
      change (Z.min 0 _) with (Z.min 0 (Z.of_nat (String.length log))).
      rewrite Z.min_l by lia. change (Z.to_nat 0) with 0%nat.
      rewrite Nat.max_0_l, Nat.min_0_l, Nat.sub_0_r.
      rewrite Z.max_l by lia. rewrite Z.min_l by lia. by destruct log. }
    assert (Hy : substring_from (i + Z.of_nat (String.length tag) + 2) log
                 = drop_string (Z.to_nat i + String.length ("[" +:+ tag +:+ "]"))
                     log).
    { unfold substring_from, clamp. rewrite !string_length_app. simpl.
      rewrite Z.max_l by lia. rewrite Z.min_l by lia. f_equal. lia. }
    rewrite Hx, Hy. exact Hs. }
  split; [|split].
  - rewrite extractTag_match. intros Hnone. unfold formatTaggedLog.
    rewrite Hnone. by destruct (includes_char "[" log).
  - intros tag. rewrite extractTag_match. intros Hm.
    pose proof (Hparts tag Hm) as Hlog. cbv zeta in Hlog.
    rewrite !app_assoc in Hlog.
    eexists _, _. split; [exact Hlog |].
    unfold formatTaggedLog. by rewrite (match_tag_bracket log tag Hm), Hm.
  - unfold formatTaggedLog. destruct (includes_char "[" log); [|done].
    destruct (match_tag log) as [tag|] eqn:Hm; [|done].
    repeat (destruct (string_eqb _ _); [done |]).
    symmetry. apply (Hparts tag eq_refl).
Qed.

End TagFormatFacts.

(* ===================================================================== *)
(** * logger.js: section ids, the list of sections, the sidecar           *)
(* ===================================================================== *)

Module StoreFacts.
Import JS JSFacts Json Fs Config FsFacts Logger Backup RetentionFacts.
Import FullRestoreFacts SectionFacts FullBackupFacts.

(** ** [sanitize] *)

Lemma is_section_char_underscore : is_section_char "_" = true.
Proof. done. Qed.

Lemma sanitize_chars (name : string) (c : ascii) :
  includes_char c (sanitize name) = true → is_section_char c = true.
Proof.
  unfold sanitize. induction name as [|a name IH]; [done |].
  cbn [map_chars includes_char]. intros [Hc | Hc]%orb_true_iff; [|by apply IH].
  apply ascii_eqb_eq in Hc as ->.
  by destruct (is_section_char a) eqn:E.
Qed.

Lemma sanitize_fixed (s : string) :
  (∀ c, includes_char c s = true → is_section_char c = true) → sanitize s = s.
Proof.
  unfold sanitize. induction s as [|a s IH]; [done |]. intros Hall.
  cbn [map_chars]. rewrite (Hall a).
  - f_equal. apply IH. intros c Hc. apply Hall. cbn [includes_char].
    by rewrite Hc, orb_true_r.
  - cbn [includes_char]. by rewrite ascii_eqb_refl.
Qed.

(** The id [createSection] makes of a name has the length of the name and
    only characters of [[a-zA-Z0-9-_]], so no dot, no slash, no space and
    no line feed; a name of such characters is its own id, so making the
    id of an id changes nothing. *)
Theorem sanitize_safe_id (name : string) :
  String.length (sanitize name) = String.length name
  ∧ (∀ c, includes_char c (sanitize name) = true → is_section_char c = true)
  ∧ includes_char "." (sanitize name) = false
  ∧ includes_char "/" (sanitize name) = false
  ∧ includes_char " " (sanitize name) = false
  ∧ includes_char LF (sanitize name) = false
  ∧ sanitize (sanitize name) = sanitize name
  ∧ (sanitize name = name ↔
     ∀ c, includes_char c name = true → is_section_char c = true).
Proof.
  assert (Hnot : ∀ c, is_section_char c = false →
                      includes_char c (sanitize name) = false).
  { intros c Hc. destruct (includes_char c (sanitize name)) eqn:E; [|done].
    apply sanitize_chars in E. congruence. }
  split; [|split; [|split; [|split; [|split; [|split; [|split]]]]]].
  - clear Hnot. unfold sanitize. induction name as [|a name IH]; [done |].
    simpl. by rewrite IH.
  - apply sanitize_chars.
  - by apply Hnot.
  - by apply Hnot.
  - by apply Hnot.
  - by apply Hnot.
  - apply sanitize_fixed, sanitize_chars.
  - split; [|apply sanitize_fixed]. intros <-. apply sanitize_chars.
Qed.

(** ** The file names [getSections] turns into an id *)

Lemma startsWith_drop_chars (p s : string) :
  startsWith p s = true → s = p +:+ drop_chars (String.length p) s.
Proof.
  revert s. induction p as [|a p IH]; intros s.
  { intros _. by destruct s. }
  destruct s as [|b s]; [done |]. cbn [startsWith].
  intros [Hab Hp]%andb_true_iff. apply ascii_eqb_eq in Hab as ->.
  rewrite app_cons. cbn [String.length drop_chars]. f_equal. by apply IH.
Qed.

(** [s.replace(pat, '')] cuts one occurrence of [pat] out, or leaves [s]
    as it is. *)
Lemma replace_first_split (pat s : string) :
  replace_first pat "" s = s
  ∨ ∃ u v, s = u +:+ pat +:+ v ∧ replace_first pat "" s = u +:+ v.
Proof.
  induction s as [|c s IH]; cbn [replace_first].
  - destruct (startsWith pat "") eqn:E; [|by left].
    right. exists "", (drop_chars (String.length pat) "").
    rewrite !app_nil_l. split; [by apply startsWith_drop_chars | done].
  - destruct (startsWith pat (String c s)) eqn:E.
    + right. exists "", (drop_chars (String.length pat) (String c s)).
      rewrite !app_nil_l. split; [by apply startsWith_drop_chars | done].
    + destruct IH as [-> | (u & v & Hs & ->)]; [by left |].
      right. exists (String c u), v. rewrite !app_cons. by rewrite <- Hs.
Qed.

Lemma includes_char_rev_string c (s : string) :
  includes_char c (rev_string s) = includes_char c s.
Proof.
  induction s as [|a s IH]; [done |]. cbn [rev_string includes_char].
  rewrite includes_char_app, IH. cbn [includes_char].
  by rewrite orb_false_r, orb_comm.
Qed.

Lemma endsWith_txt_dot (v : string) :
  endsWith ".txt" v = true → includes_char "." v = true.
Proof.
  unfold endsWith. rewrite <- (includes_char_rev_string "." v).
  change (rev_string ".txt") with "txt.".
  destruct (rev_string v) as [|a [|b [|c [|d r]]]]; cbn [startsWith];
    rewrite ?andb_false_r; try done.
  intros H. repeat (apply andb_true_iff in H as [? H]).
  cbn [includes_char].
  match goal with H : ascii_eqb "." d = true |- _ => rewrite H end.
  by rewrite !orb_true_r.
Qed.

(** After a [.txt], no text without a dot can stand before the end of a
    name that ends in [.txt]. *)
Lemma endsWith_txt_after (u v : string) :
  endsWith ".txt" (u +:+ ".txt" +:+ v) = true →
  includes_char "." v = false → v = "".
Proof.
  unfold endsWith. rewrite !rev_string_app.
  change (rev_string ".txt") with "txt.".
  rewrite <- (includes_char_rev_string "." v).
  intros Hs Hdot.
  assert (rev_string v = "") as Hv.
  { destruct (rev_string v) as [|a [|b [|c [|d r]]]]; [done | exfalso..];
      rewrite ?app_assoc, ?app_cons, ?app_nil_l in Hs;
      cbn [startsWith includes_char] in Hs, Hdot;
      repeat (apply andb_true_iff in Hs as [? Hs]);
      repeat match goal with H : ascii_eqb _ _ = true |- _ =>
        apply ascii_eqb_eq in H end; subst; try done. }
  by rewrite <- (rev_string_involutive v), Hv.
Qed.

(** A file name that ends in [.txt] and gives, with its first [.txt] cut
    out, a name without a dot, is that name followed by [.txt]. *)
Lemma replace_first_txt_inv (file s : string) :
  endsWith ".txt" file = true →
  replace_first ".txt" "" file = s →
  includes_char "." s = false →
  file = logName s.
Proof.
  intros Hend Hrep Hdot.
  destruct (replace_first_split ".txt" file) as [E | (u & v & Hfile & E)].
  - rewrite E in Hrep. subst s. apply endsWith_txt_dot in Hend. congruence.
  - rewrite E in Hrep. subst s file.
    rewrite includes_char_app in Hdot. apply orb_false_iff in Hdot as [_ Hv].
    rewrite (endsWith_txt_after u v Hend Hv). unfold logName.
    by rewrite !app_empty_r.
Qed.

Section WithPlatform.
Context `{P : Platform}.

Lemma sanitized_no_dot (s : string) : sanitize s = s → includes_char "." s = false.
Proof.
  intros <-. destruct (includes_char "." (sanitize s)) eqn:E; [|done].
  by apply sanitize_chars in E.
Qed.

Lemma sections_of_elem (ms : gmap string file) (s : string) :
  s ∈ sections_of ms ↔
  ∃ file, is_Some (ms !! file) ∧ endsWith ".txt" file = true
          ∧ s = replace_first ".txt" "" file.
Proof.
  unfold sections_of. rewrite list_elem_of_fmap. split.
  - intros (file & -> & [Hok Hin]%list_elem_of_filter).
    apply Is_true_true, andb_true_iff in Hok as [Hend _].
    exists file. split; [by apply RetentionExact.readdir_elem |]. done.
  - intros (file & Hfile & Hend & ->). exists file. split; [done |].
    apply list_elem_of_filter. split; [|by apply RetentionExact.readdir_elem].
    apply Is_true_true, andb_true_iff. split; [done |].
    apply negb_true_iff, string_eqb_neq. intros ->. by vm_compute in Hend.
Qed.

Lemma sections_of_sanitized_iff (ms : gmap string file) (s : string) :
  sanitize s = s → (s ∈ sections_of ms ↔ is_Some (ms !! logName s)).
Proof.
  intros Hs. rewrite sections_of_elem. split.
  - intros (file & Hfile & Hend & E).
    by rewrite <- (replace_first_txt_inv file s Hend (eq_sym E)
                     (sanitized_no_dot s Hs)).
  - intros Hfile. exists (logName s). split; [done |].
    split; [apply endsWith_app |]. unfold logName.
    by rewrite replace_first_logName.
Qed.

Lemma logger_getSections_ok ms w :
  faults w = [] → sectionsDir w = Some ms →
  Logger.getSections w = (Ok (sections_of ms), w).
Proof.
  intros Hf Hs. apply run_eq. unfold Logger.getSections.
  apply run_try_catch, run_bind. eapply run_readdirSync_ok; [done.. |].
  by apply run_ret.
Qed.

(** [getSections] of logger.js never throws and changes no file: when the
    directory cannot be read it prints an error and returns the empty
    list. When nothing fails it prints nothing, and it lists an id with
    only characters of [[a-zA-Z0-9-_]] exactly when the log file of that id
    exists; every name it lists comes from a file that ends in [.txt],
    with the first [.txt] of the file name cut out, so the sidecar
    [metadata.json] is never listed. *)
Theorem getSections_lists_sections (w : world) :
  run Logger.getSections w (λ r w', only_output w w' ∧ ∃ l, r = Ok l)
  ∧ (sectionsDir w = None →
     run Logger.getSections w (λ r w',
       r = Ok []
       ∧ ∃ e, trace w' = trace w ++ [LogError "Error loading sections:" (Some e)]))
  ∧ (∀ ms, faults w = [] → sectionsDir w = Some ms →
     ∃ l, Logger.getSections w = (Ok l, w)
          ∧ (∀ s, sanitize s = s → (s ∈ l ↔ is_Some (ms !! logName s)))
          ∧ (∀ s, s ∈ l ↔
               ∃ file, is_Some (ms !! file) ∧ endsWith ".txt" file = true
                       ∧ s = replace_first ".txt" "" file)).
Proof.
  split; [|split].
  - unfold Logger.getSections. apply run_try_catch, run_bind, run_readdirSync.
    + intros w' m Hq _. apply run_ret.
      split; [by apply only_output_quiet | by eexists].
    + intros w' e Hq. apply run_bind, run_console_error, run_ret.
      split; [by apply only_output_emit, only_output_quiet | by eexists].
  - intros Hnone. unfold Logger.getSections.
    apply run_try_catch, run_bind, run_readdirSync.
    + intros w' m _ Hm. simpl in Hm. congruence.
    + intros w' e (_ & _ & _ & Ht). apply run_bind, run_console_error, run_ret.
      split; [done |]. exists e. simpl. by rewrite Ht.
  - intros ms Hf Hs. exists (sections_of ms).
    split; [by apply logger_getSections_ok |].
    split; [intros s; apply sections_of_sanitized_iff | apply sections_of_elem].
Qed.

(** ** [createSection] *)

Definition description_of (description : string) : json :=
  JObj [("description", JStr description)].

(** [createSection] on a machine where nothing fails. *)
Lemma createSection_exact (name description : string)
    (ms : gmap string file) (props : list (string * json)) (w : world) :
  faults w = [] → sectionsDir w = Some ms → metadata_of w = JObj props →
  let id := sanitize name in
  let ms1 := match ms !! logName id with
             | Some _ => ms
             | None => <[logName id := File "" (clock w)]> ms
             end in
  run (createSection name description) w (λ r w',
    r = Ok id ∧ faults w' = [] ∧ backupDir w' = backupDir w
    ∧ clock w' = clock w
    ∧ sectionsDir w'
      = Some (<["metadata.json" :=
                  File (JSON_stringify
                          (JObj (obj_assign id (description_of description)
                                   props))) (clock w)]> ms1)).
Proof.
  intros Hf Hms Hmeta id ms1. unfold createSection. fold id.
  apply run_bind, run_existsSync, run_bind.
  apply (run_mono _ _ (λ r w1, r = Ok tt ∧ faults w1 = []
            ∧ sectionsDir w1 = Some ms1 ∧ backupDir w1 = backupDir w
            ∧ clock w1 = clock w)).
  { unfold lookup_file, ms1. simpl. rewrite Hms. simpl. fold (logName id).
    destruct (ms !! logName id) as [f|] eqn:Ef.
    - rewrite bool_decide_eq_true_2 by eauto. by apply run_ret.
    - rewrite bool_decide_eq_false_2 by (by intros [? ?]). simpl.
      eapply run_writeFileSync_ok; [done.. |]. by simpl. }
  intros r w1 (-> & Hf1 & Hs1 & Hb1 & Hc1).
  assert (Hmeta1 : metadata_of w1 = JObj props).
  { rewrite <- Hmeta. unfold metadata_of, lookup_file. simpl.
    rewrite Hs1, Hms. simpl. unfold ms1.
    destruct (ms !! logName id); [done |].
    rewrite lookup_insert_ne; [done | apply logName_not_metadata]. }
  apply run_bind.
  eapply run_mono; [by apply getSectionMetadata_ok |].
  intros r w2 (-> & Hf2 & Hs2 & Hb2 & Hc2). rewrite Hmeta1. simpl.
  apply run_bind, run_ret, run_bind.
  unfold saveSectionMetadata. apply run_try_catch.
  eapply run_writeFileSync_ok; [done | simpl; by rewrite Hs2, Hs1 |].
  apply run_ret. simpl. repeat split; [done | congruence | congruence |].
  by rewrite Hc2, Hc1.
Qed.

Lemma sections_of_mono (ms ms' : gmap string file) :
  (∀ file, is_Some (ms !! file) → is_Some (ms' !! file)) →
  ∀ s, s ∈ sections_of ms → s ∈ sections_of ms'.
Proof.
  intros Hsub s. rewrite !sections_of_elem.
  intros (file & Hfile & Hend & ->). exists file. auto.
Qed.

(** After [createSection], [getSections] lists the id it returned, for
    every name, and every section it listed before: on a machine where
    nothing fails, with the sections directory in place and a sidecar
    that is missing, unparsable or a JSON object. *)
Theorem createSection_then_listed (name description : string)
    (ms : gmap string file) (props : list (string * json)) (w : world) :
  faults w = [] → sectionsDir w = Some ms → metadata_of w = JObj props →
  run (createSection name description) w (λ r w1,
    r = Ok (sanitize name)
    ∧ ∃ before after,
        Logger.getSections w = (Ok before, w)
        ∧ Logger.getSections w1 = (Ok after, w1)
        ∧ sanitize name ∈ after
        ∧ ∀ s, s ∈ before → s ∈ after).
Proof.
  intros Hf Hms Hmeta.
  eapply run_mono; [by apply (createSection_exact name description ms props) |].
  cbv zeta. intros r w1 (-> & Hf1 & _ & _ & Hs1). split; [done |].
  eexists _, _. split; [by apply logger_getSections_ok |].
  split; [by apply logger_getSections_ok |].
  assert (Hkeep : ∀ file, is_Some (ms !! file) →
            is_Some ((<["metadata.json" :=
                         File (JSON_stringify
                                 (JObj (obj_assign (sanitize name)
                                          (description_of description) props)))
                           (clock w)]>
                       (match ms !! logName (sanitize name) with
                        | Some _ => ms
                        | None => <[logName (sanitize name) := File "" (clock w)]> ms
                        end)) !! file)).
  { intros file Hfile. rewrite lookup_insert. case_decide; [by eexists |].
    destruct (ms !! logName (sanitize name)); [done |].
    rewrite lookup_insert. by case_decide; [eexists |]. }
  split; [|by apply sections_of_mono].
  apply sections_of_sanitized_iff.
  { apply sanitize_fixed, sanitize_chars. }
  rewrite lookup_insert_ne by (symmetry; apply logName_not_metadata).
  destruct (ms !! logName (sanitize name)) eqn:E; [by rewrite E |].
  rewrite lookup_insert_eq. by eexists.
Qed.

(** [createSection] catches nothing itself. Without the sections
    directory it throws and creates nothing; and on a sidecar that holds
    [null] it throws a [TypeError] after it has created the log file. *)
Theorem createSection_throws (name description : string) (w : world) :
  (sectionsDir w = None →
   run (createSection name description) w (λ r w',
     (∃ e, r = Throw e) ∧ quiet w w'))
  ∧ (∀ ms, faults w = [] → sectionsDir w = Some ms →
       ms !! logName (sanitize name) = None →
       metadata_of w = JNull →
       run (createSection name description) w (λ r w',
         r = Throw TypeError
         ∧ lookup_file (getLogFilePath (sanitize name)) w'
           = Some (File "" (clock w))
         ∧ lookup_file metadataFile w' = lookup_file metadataFile w)).
Proof.
  split.
  - intros Hnone. unfold createSection.
    assert (Hl : lookup_file (getLogFilePath (sanitize name)) w = None).
    { unfold lookup_file. simpl. by rewrite Hnone. }
    apply run_bind, run_existsSync.
    rewrite bool_decide_eq_false_2 by (rewrite Hl; by intros [? ?]). simpl.
    apply run_bind, run_writeFileSync.
    + intros w' m _ Hm. simpl in Hm. congruence.
    + intros w' e Hq. split; [by eexists | done].
  - intros ms Hf Hms Hfile Hmeta. unfold createSection.
    assert (Hl : lookup_file (getLogFilePath (sanitize name)) w = None).
    { unfold lookup_file. simpl. rewrite Hms. simpl.
      by fold (logName (sanitize name)). }
    apply run_bind, run_existsSync.
    rewrite bool_decide_eq_false_2 by (rewrite Hl; by intros [? ?]). simpl.
    apply run_bind. eapply run_writeFileSync_ok; [done.. |].
    set (w1 := emit _ _).
    assert (Hmeta1 : metadata_of w1 = JNull).
    { rewrite <- Hmeta. unfold metadata_of, lookup_file, w1. simpl.
      rewrite Hms. simpl.
      rewrite lookup_insert_ne; [done | apply logName_not_metadata]. }
    apply run_bind.
    eapply run_mono; [by apply getSectionMetadata_ok |].
    intros r w2 (-> & Hf2 & Hs2 & Hb2 & Hc2). rewrite Hmeta1. simpl.
    apply run_bind, run_throw. split; [done |].
    unfold lookup_file. simpl. rewrite Hs2. unfold w1. simpl.
    fold (logName (sanitize name)). rewrite lookup_insert_eq.
    split; [done |]. rewrite Hms. simpl.
    rewrite lookup_insert_ne; [done | apply logName_not_metadata].
Qed.

(** ** The sidecar *)

(** [getSectionMetadata] never throws and writes nothing, whatever fails.
    It returns the empty object, in silence, when there is no sidecar; and
    on a machine where nothing fails it returns what the sidecar parses
    to, or the empty object with one line on [console.error] when the
    sidecar does not parse. *)
Theorem getSectionMetadata_safe (w : world) :
  run getSectionMetadata w (λ r w',
    ∃ v, r = Ok v ∧ only_output w w' ∧ json_wf v
      ∧ (lookup_file metadataFile w = None → v = JObj [] ∧ w' = w)
      ∧ (faults w = [] →
         v = metadata_of w
         ∧ ∀ f, lookup_file metadataFile w = Some f →
             match JSON_parse (f_data f) with
             | Some _ => trace w' = trace w
             | None =>
                 v = JObj []
                 ∧ trace w'
                   = trace w ++ [LogError "Error loading section metadata:"
                                   (Some SyntaxError)]
             end)).
Proof.
  unfold getSectionMetadata.
  apply run_try_catch, run_bind, run_existsSync.
  destruct (lookup_file metadataFile w) as [f|] eqn:Ef.
  - rewrite bool_decide_eq_true_2 by eauto.
    apply run_bind, run_readFileSync_cases.
    + intros w1 Hq Hf1 Hhead. apply run_bind, run_console_error, run_ret.
      exists (JObj []). split; [done |].
      split; [by apply only_output_emit, only_output_quiet |].
      split; [apply json_wf_obj; split; constructor |].
      split; [done |]. intros Hf. by rewrite Hf in Hhead.
    + intros w1 Hq Hf1 Hhead. rewrite Ef. unfold JSON_parse_or_throw.
      destruct (JSON_parse (f_data f)) as [v|] eqn:Ev.
      * apply run_ret. exists v. split; [done |].
        split; [by apply only_output_quiet |].
        split; [by eapply JSON_parse_wf |]. split; [done |].
        intros _. unfold metadata_of. rewrite Ef, Ev. split; [done |].
        intros f' [= <-]. rewrite Ev. by destruct Hq as (_&_&_&?).
      * apply run_throw, run_bind, run_console_error, run_ret.
        exists (JObj []). split; [done |].
        split; [by apply only_output_emit, only_output_quiet |].
        split; [apply json_wf_obj; split; constructor |].
        split; [done |].
        intros _. unfold metadata_of. rewrite Ef, Ev. split; [done |].
        intros f' [= <-]. rewrite Ev. split; [done |]. simpl.
        by destruct Hq as (_&_&_&->).
  - rewrite bool_decide_eq_false_2 by (by intros [? ?]). apply run_ret.
    exists (JObj []). split; [done |].
    split; [apply only_output_quiet, quiet_refl |].
    split; [apply json_wf_obj; split; constructor |].
    split; [done |]. intros _. unfold metadata_of. rewrite Ef.
    split; [done |]. by intros f.
Qed.

Lemma saveSectionMetadata_ok (v : json) (ms : gmap string file) (w : world) :
  faults w = [] → sectionsDir w = Some ms →
  run (saveSectionMetadata v) w (λ r w',
    r = Ok tt ∧ faults w' = [] ∧ backupDir w' = backupDir w
    ∧ clock w' = clock w
    ∧ sectionsDir w'
      = Some (<["metadata.json" := File (JSON_stringify v) (clock w)]> ms)).
Proof.
  intros Hf Hms. unfold saveSectionMetadata. apply run_try_catch.
  eapply run_writeFileSync_ok; [done.. |]. by simpl.
Qed.

(** What [saveSectionMetadata] saves, [getSectionMetadata] reads back:
    after the save of a value whose objects have distinct keys, on a
    machine where nothing fails and with the sections directory in place,
    the next [getSectionMetadata] returns that value, and the files beside
    the sidecar are as they were. And [saveSectionMetadata] never throws:
    without the sections directory it changes nothing and reports the
    error on [console.error]. *)
Theorem sidecar_save_then_get (v : json) (w : world) :
  run (saveSectionMetadata v) w (λ r w', r = Ok tt)
  ∧ (faults w = [] → sectionsDir w = None →
     run (saveSectionMetadata v) w (λ r w',
       same_files w w'
       ∧ trace w'
         = trace w ++ [LogError "Error saving section metadata:"
                         (Some ENOENT)]))
  ∧ (json_wf v → faults w = [] → is_Some (sectionsDir w) →
     run (saveSectionMetadata v ;; getSectionMetadata) w (λ r w',
       r = Ok v
       ∧ backupDir w' = backupDir w
       ∧ ∀ name, name ≠ "metadata.json" →
           lookup_file (Path SectionsDir name) w'
           = lookup_file (Path SectionsDir name) w)).
Proof.
  split; [|split].
  - unfold saveSectionMetadata. apply run_try_catch, run_writeFileSync.
    + by intros.
    + intros w' e _. by apply run_console_error.
  - intros Hf Hnone. unfold saveSectionMetadata.
    apply run_try_catch. apply run_writeFileSync_nodir; [done.. |].
    apply run_console_error. by split.
  - intros Hwf Hf [ms Hms]. apply run_bind.
    eapply run_mono; [by apply saveSectionMetadata_ok |].
    intros r w1 (-> & Hf1 & Hb1 & Hc1 & Hs1).
    eapply run_mono; [by apply getSectionMetadata_ok |].
    intros r w2 (-> & Hf2 & Hs2 & Hb2 & Hc2).
    split; [|split; [congruence |]].
    + f_equal. unfold metadata_of, lookup_file. simpl. rewrite Hs1. simpl.
      rewrite lookup_insert_eq. simpl. by rewrite JSON_parse_stringify.
    + intros name Hname. unfold lookup_file. simpl. rewrite Hs2, Hs1, Hms.
      simpl. by rewrite lookup_insert_ne.
Qed.

(** ** [ensureDefaultSection] and the first steps of [init] *)

Definition general : json := description_of "General thoughts".

(** [ensureDefaultSection] on a machine where nothing fails. *)
Lemma ensureDefaultSection_exact (ms : gmap string file)
    (props : list (string * json)) (w : world) :
  faults w = [] → sectionsDir w = Some ms → metadata_of w = JObj props →
  run ensureDefaultSection w (λ r w',
    r = Ok tt ∧ faults w' = [] ∧ backupDir w' = backupDir w
    ∧ clock w' = clock w
    ∧ match ms !! "base.txt" with
      | Some _ => w' = w
      | None =>
          sectionsDir w'
          = Some (<["metadata.json" :=
                      File (JSON_stringify
                              (JObj (obj_assign "base" general props)))
                        (clock w)]>
                    (<["base.txt" := File "" (clock w)]> ms))
          ∧ last (trace w') = Some (Log "Created default section: base")
      end).
Proof.
  intros Hf Hms Hmeta. unfold ensureDefaultSection.
  apply run_bind. eapply run_from_eq; [by apply logger_getSections_ok |].
  assert (Hin : "base" ∈ sections_of ms ↔ is_Some (ms !! "base.txt")).
  { by apply (sections_of_sanitized_iff ms "base"). }
  destruct (ms !! "base.txt") as [f|] eqn:Ef.
  - replace (existsb _ _) with true; [by apply run_ret |].
    symmetry. apply existsb_exists. exists "base". split.
    + apply list_elem_of_In, Hin. by eexists.
    + done.
  - replace (existsb _ _) with false.
    2:{ symmetry. apply not_true_is_false. intros Hex.
        apply existsb_exists in Hex as (s & Hs & Heq).
        apply list_elem_of_In in Hs.
        assert (s = "base") as ->.
        { unfold defaultSection in Heq. symmetry.
          by apply String.eqb_eq. }
        apply Hin in Hs. by destruct Hs. }
    simpl. apply run_bind.
    eapply run_mono;
      [by apply (createSection_exact "base" "General thoughts" ms props) |].
    cbv zeta. intros r w1 (-> & Hf1 & Hb1 & Hc1 & Hs1).
    apply run_console_log. simpl.
    change (sanitize "base") with "base" in Hs1.
    change (logName "base") with "base.txt" in Hs1. rewrite Ef in Hs1.
    repeat split; [done.. | exact Hs1 |].
    by rewrite last_snoc.
Qed.

Lemma ensureDefaultSection_after (ms : gmap string file)
    (props : list (string * json)) (w : world) :
  faults w = [] → sectionsDir w = Some ms → metadata_of w = JObj props →
  run ensureDefaultSection w (λ r w1,
    (r = Ok tt
     ∧ (is_Some (ms !! "base.txt") → w1 = w)
     ∧ (ms !! "base.txt" = None →
        lookup_file (getLogFilePath "base") w1 = Some (File "" (clock w))
        ∧ metadata_of w1 = JObj (obj_set "base" general props)
        ∧ last (trace w1) = Some (Log "Created default section: base")
        ∧ ∀ name, name ≠ "base.txt" → name ≠ "metadata.json" →
            lookup_file (Path SectionsDir name) w1 = ms !! name)
     ∧ (∃ sections,
          Logger.getSections w1 = (Ok sections, w1) ∧ "base" ∈ sections)
     ∧ ensureDefaultSection w1 = (Ok tt, w1))
    ∧ faults w1 = [] ∧ backupDir w1 = backupDir w).
Proof.
  intros Hf Hms Hmeta.
  eapply run_mono; [by apply (ensureDefaultSection_exact ms props) |].
  intros r w1 (-> & Hf1 & Hb1 & Hc1 & Hcase). split; [|done].
  split; [done |].
  assert (Hwf : json_wf (JObj (obj_set "base" general props))).
  { apply obj_set_wf.
    - rewrite <- Hmeta. apply metadata_of_wf.
    - apply json_wf_obj. split; [apply NoDup_singleton | by repeat constructor]. }
  destruct (ms !! "base.txt") as [f|] eqn:Ef.
  - subst w1. split; [done |]. split; [done |]. split.
    + eexists. split; [by apply logger_getSections_ok |].
      apply (sections_of_sanitized_iff ms "base"); [done |].
      change (logName "base") with "base.txt". rewrite Ef. by eexists.
    + apply run_eq.
      eapply run_mono; [by apply (ensureDefaultSection_exact ms props) |].
      intros r w1 (-> & _ & _ & _ & Hcase). by rewrite Ef in Hcase.
  - destruct Hcase as [Hs1 Htrace].
    rewrite obj_assign_plain in Hs1 by done.
    assert (Hmeta1 : metadata_of w1 = JObj (obj_set "base" general props)).
    { unfold metadata_of, lookup_file. simpl. rewrite Hs1. simpl.
      rewrite lookup_insert_eq. simpl. by rewrite JSON_parse_stringify. }
    split; [by intros [? ?] |]. split.
    { intros _. split; [|split; [done | split; [done |]]].
      - unfold lookup_file. simpl. rewrite Hs1. simpl.
        rewrite lookup_insert_ne by done. by rewrite lookup_insert_eq.
      - intros name Hn1 Hn2. unfold lookup_file. simpl. rewrite Hs1. simpl.
        by rewrite !lookup_insert_ne. }
    split.
    + eexists. split; [by apply logger_getSections_ok |].
      apply sections_of_sanitized_iff; [done |].
      change (logName "base") with "base.txt".
      rewrite lookup_insert_ne by done. rewrite lookup_insert_eq. by eexists.
    + apply run_eq.
      eapply run_mono; [by eapply ensureDefaultSection_exact |].
      intros r w2 (-> & _ & _ & _ & Hcase).
      rewrite lookup_insert_ne in Hcase by done.
      by rewrite lookup_insert_eq in Hcase.
Qed.

(** [ensureDefaultSection], on a machine where nothing fails, with the
    sections directory in place and a sidecar that is missing, unparsable
    or a JSON object: it changes nothing at all when [base.txt] exists;
    otherwise it creates [base.txt] empty, records the description
    "General thoughts" under [base] in the sidecar, leaves the other
    section files alone and says so on [console.log]. Either way
    [getSections] then lists [base], and a second call changes nothing. *)
Theorem ensureDefaultSection_once (ms : gmap string file)
    (props : list (string * json)) (w : world) :
  faults w = [] → sectionsDir w = Some ms → metadata_of w = JObj props →
  run ensureDefaultSection w (λ r w1,
    r = Ok tt
    ∧ (is_Some (ms !! "base.txt") → w1 = w)
    ∧ (ms !! "base.txt" = None →
       lookup_file (getLogFilePath "base") w1 = Some (File "" (clock w))
       ∧ metadata_of w1 = JObj (obj_set "base" general props)
       ∧ last (trace w1) = Some (Log "Created default section: base")
       ∧ ∀ name, name ≠ "base.txt" → name ≠ "metadata.json" →
           lookup_file (Path SectionsDir name) w1 = ms !! name)
    ∧ (∃ sections,
         Logger.getSections w1 = (Ok sections, w1) ∧ "base" ∈ sections)
    ∧ ensureDefaultSection w1 = (Ok tt, w1)).
Proof.
  intros Hf Hms Hmeta.
  eapply run_mono; [by apply (ensureDefaultSection_after ms props) |].
  by intros r w1 [H _].
Qed.

Lemma ensureDirectories_exact (w : world) :
  faults w = [] →
  run ensureDirectories w (λ r w',
    r = Ok tt ∧ faults w' = [] ∧ clock w' = clock w
    ∧ sectionsDir w' = Some (default ∅ (sectionsDir w))
    ∧ backupDir w' = Some (default ∅ (backupDir w))).
Proof.
  intros Hf. unfold ensureDirectories.
  apply run_bind, run_existsDir. simpl.
  destruct (backupDir w) as [mb|] eqn:Eb; simpl.
  - apply run_bind, run_ret, run_bind, run_existsDir. simpl.
    destruct (sectionsDir w) as [ms|] eqn:Es; simpl.
    + apply run_ret. by rewrite Es, Eb.
    + apply run_mkdirSync_ok; [done |]. simpl. rewrite Es. simpl.
      by rewrite Eb.
  - apply run_bind, run_mkdirSync_ok; [done |]. simpl. rewrite Eb.
    apply run_bind, run_existsDir. simpl.
    destruct (sectionsDir w) as [ms|] eqn:Es; simpl.
    + by apply run_ret.
    + by apply run_mkdirSync_ok.
Qed.

(** The two steps [init] takes before it starts the interface,
    [ensureDirectories] and then [ensureDefaultSection], from any store
    (with or without its directories) on a machine where nothing fails
    and with a sidecar that is missing, unparsable or a JSON object: both
    directories exist afterwards, every file that was there is kept as it
    was (the sidecar apart, which is rewritten only when [base] had to be
    created), [getSections] lists [base], and taking the two steps again
    changes nothing. *)
Theorem init_prepares_store (props : list (string * json)) (w : world) :
  faults w = [] → metadata_of w = JObj props →
  run (ensureDirectories ;; ensureDefaultSection) w (λ r w1,
    r = Ok tt
    ∧ is_Some (sectionsDir w1) ∧ is_Some (backupDir w1)
    ∧ (∀ name f, lookup_file (Path BackupDir name) w = Some f →
         lookup_file (Path BackupDir name) w1 = Some f)
    ∧ (∀ name f, name ≠ "metadata.json" →
         lookup_file (Path SectionsDir name) w = Some f →
         lookup_file (Path SectionsDir name) w1 = Some f)
    ∧ (is_Some (lookup_file (getLogFilePath "base") w) →
       lookup_file metadataFile w1 = lookup_file metadataFile w)
    ∧ (∃ sections,
         Logger.getSections w1 = (Ok sections, w1) ∧ "base" ∈ sections)
    ∧ (ensureDirectories ;; ensureDefaultSection) w1 = (Ok tt, w1)).
Proof.
  intros Hf Hmeta. apply run_bind.
  eapply run_mono; [by apply ensureDirectories_exact |].
  intros r w0 (-> & Hf0 & Hc0 & Hs0 & Hb0).
  assert (Hsame : ∀ name, lookup_file (Path SectionsDir name) w0
                          = lookup_file (Path SectionsDir name) w).
  { intros name. unfold lookup_file. simpl. rewrite Hs0.
    destruct (sectionsDir w); [done |]. simpl. apply lookup_empty. }
  assert (Hsameb : ∀ name, lookup_file (Path BackupDir name) w0
                           = lookup_file (Path BackupDir name) w).
  { intros name. unfold lookup_file. simpl. rewrite Hb0.
    destruct (backupDir w); [done |]. simpl. apply lookup_empty. }
  assert (Hmeta0 : metadata_of w0 = JObj props).
  { rewrite <- Hmeta. unfold metadata_of, metadataFile.
    by rewrite (Hsame "metadata.json"). }
  eapply run_mono; [by eapply ensureDefaultSection_after |].
  intros r w1 ((-> & Hold & Hnew & Hlisted & Hagain) & Hf1 & Hb1).
  split; [done |].
  assert (Hs1 : is_Some (sectionsDir w1)).
  { destruct (default ∅ (sectionsDir w) !! "base.txt") as [fb|] eqn:Eb.
    - rewrite Hold by (by eexists). rewrite Hs0. by eexists.
    - destruct (Hnew eq_refl) as (Hbase & _). unfold lookup_file in Hbase.
      simpl in Hbase. by destruct (sectionsDir w1); [eexists |]. }
  split; [done |]. split; [rewrite Hb1, Hb0; by eexists |].
  split.
  { intros name f. rewrite <- Hsameb. unfold lookup_file. simpl.
    by rewrite Hb1. }
  split.
  { intros name f Hname. rewrite <- Hsame.
    destruct (default ∅ (sectionsDir w) !! "base.txt") as [fb|] eqn:Eb.
    - rewrite Hold by (by eexists). done.
    - destruct (Hnew eq_refl) as (Hbase & _ & _ & Hrest).
      destruct (decide (name = "base.txt")) as [->|Hnb].
      + unfold lookup_file. simpl. rewrite Hs0. simpl. by rewrite Eb.
      + rewrite (Hrest name Hnb Hname). unfold lookup_file. simpl.
        by rewrite Hs0. }
  split.
  { unfold getLogFilePath, metadataFile.
    rewrite <- (Hsame "metadata.json"), <- (Hsame ("base" +:+ ".txt")).
    intros Hbase. rewrite Hold; [done |].
    revert Hbase. unfold lookup_file. simpl. by rewrite Hs0. }
  split; [done |].
  unfold bind.
  assert (Hdirs : ensureDirectories w1 = (Ok tt, w1)).
  { unfold ensureDirectories, bind, existsDir.
    rewrite bool_decide_eq_true_2 by (simpl; rewrite Hb1, Hb0; by eexists).
    simpl. unfold ret at 1.
    by rewrite bool_decide_eq_true_2 by done. }
  by rewrite Hdirs.
Qed.

End WithPlatform.
End StoreFacts.
(* ===================================================================== *)
(** * Writing and reading the entries of a section                        *)
(* ===================================================================== *)

Module EntryFacts.
Import JS JSFacts Json Fs Config FsFacts Logger Backup RetentionFacts.
Import FullRestoreFacts LogFacts.

Lemma run_appendFileSync p data w (Q : outcome unit → world → Prop) :
  (∀ w' m, quiet w w' → get_dir (p_dir p) w = Some m →
     Q (Ok tt)
       (emit (Appended p)
          (set_dir (p_dir p)
             (<[p_name p := File (from_option f_data "" (m !! p_name p) +:+ data)
                              (clock w)]> m) w'))) →
  (∀ w' e, quiet w w' → Q (Throw e) w') →
  run (appendFileSync p data) w Q.
Proof.
  intros Hok Hthrow. unfold appendFileSync. apply run_bind, run_fault.
  - intros w' Hq. unfold run.
    rewrite (quiet_get_dir _ _ _ Hq).
    destruct (get_dir (p_dir p) w) as [m|] eqn:E; simpl; [|by eauto].
    destruct Hq as (?&?&Hc&?). rewrite Hc.
    specialize (Hok w' m). destruct (m !! p_name p); apply Hok; by repeat split.
  - intros w' Hq. eauto.
Qed.

(** Text of which every character is one byte in UTF-8. *)
Fixpoint ascii_text (s : string) : bool :=
  match s with
  | EmptyString => true
  | String c r => (nat_of_ascii c <? 128)%nat && ascii_text r
  end.

(** The text of a section's log, empty when there is no file. *)
Definition log_text (section : string) (w : world) : string :=
  from_option f_data "" (lookup_file (getLogFilePath section) w).

Section WithPlatform.
Context `{P : Platform}.

(** [saveLog] never throws and touches no file but the section's log. It
    returns [true] only when the entry and a line feed have been appended
    and the log is then larger than [logRotationSize] (5 MiB); on a
    machine where nothing fails it appends and returns exactly that
    comparison, and without the sections directory it returns [false],
    changes nothing and reports the error. Sizes are those of ASCII text,
    one byte a character. *)
Theorem saveLog_reports_size (section entry : string) (w : world) :
  ascii_text (log_text section w) = true → ascii_text entry = true →
  let grown := log_text section w +:+ entry +:+ String LF "" in
  run (saveLog section entry) w (λ r w',
    ∃ b, r = Ok b
      ∧ backupDir w' = backupDir w
      ∧ (∀ name, name ≠ logName section →
           lookup_file (Path SectionsDir name) w'
           = lookup_file (Path SectionsDir name) w)
      ∧ (b = true →
         log_text section w' = grown
         ∧ logRotationSize < Z.of_nat (String.length grown)))
  ∧ (faults w = [] → is_Some (sectionsDir w) →
     run (saveLog section entry) w (λ r w',
       r = Ok (bool_decide (logRotationSize < Z.of_nat (String.length grown)))
       ∧ lookup_file (getLogFilePath section) w' = Some (File grown (clock w))
       ∧ trace w' = trace w ++ [Appended (getLogFilePath section)]))
  ∧ (faults w = [] → sectionsDir w = None →
     run (saveLog section entry) w (λ r w',
       r = Ok false ∧ same_files w w'
       ∧ trace w' = trace w ++ [LogError "Error saving log:" (Some ENOENT)])).
Proof.
  intros _ _ grown. split; [|split].
  - unfold saveLog. apply run_try_catch, run_bind, run_appendFileSync.
    + intros w1 m Hq Hm. simpl in Hm.
      set (w2 := emit _ _).
      assert (Hb2 : backupDir w2 = backupDir w).
      { unfold w2. simpl. by destruct Hq as (_&?&_). }
      assert (Hother : ∀ name, name ≠ logName section →
                lookup_file (Path SectionsDir name) w2
                = lookup_file (Path SectionsDir name) w).
      { intros name Hname. unfold w2, lookup_file. simpl. rewrite Hm. simpl.
        fold (logName section). by rewrite lookup_insert_ne. }
      assert (Hlog : lookup_file (getLogFilePath section) w2
                     = Some (File grown (clock w))).
      { unfold w2, lookup_file. simpl. fold (logName section).
        rewrite lookup_insert_eq. unfold grown, log_text, lookup_file. simpl.
        rewrite Hm. simpl. fold (logName section).
        by rewrite <- app_assoc. }
      apply run_bind, run_statSync.
      * intros w3 f Hq3 Hf. apply run_ret.
        eexists. split; [done |].
        split; [by rewrite (proj1 (proj2 Hq3)) |].
        split.
        { intros name Hname. rewrite (quiet_lookup_file _ _ _ Hq3). auto. }
        intros Hb. unfold log_text.
        rewrite (quiet_lookup_file _ _ _ Hq3), Hlog. simpl. split; [done |].
        rewrite Hlog in Hf. injection Hf as <-. simpl in Hb.
        by apply Z.ltb_lt in Hb.
      * intros w3 e Hq3. apply run_bind, run_console_error, run_ret.
        exists false. split; [done |].
        split; [simpl; by rewrite (proj1 (proj2 Hq3)) |].
        split; [|done].
        intros name Hname.
        change (lookup_file ?p (emit ?e ?x)) with (lookup_file p x).
        rewrite (quiet_lookup_file _ _ _ Hq3). auto.
    + intros w1 e Hq. apply run_bind, run_console_error, run_ret.
      exists false. split; [done |].
      split; [simpl; by destruct Hq as (_&?&_) |]. split; [|done].
      intros name _.
      change (lookup_file ?p (emit ?e ?x)) with (lookup_file p x).
      by rewrite (quiet_lookup_file _ _ _ Hq).
  - intros Hf [ms Hms]. unfold saveLog.
    apply run_try_catch, run_bind.
    eapply run_appendFileSync_ok; [done.. |]. simpl.
    assert (Hgrown : from_option f_data "" (ms !! (section +:+ ".txt"))
                     +:+ entry +:+ String LF "" = grown).
    { unfold grown, log_text, lookup_file. simpl. by rewrite Hms. }
    apply run_bind. eapply run_statSync_ok; [done | |].
    { unfold lookup_file. simpl. by rewrite lookup_insert_eq. }
    apply run_ret. simpl. rewrite Hgrown.
    split; [|split; [|done]].
    + f_equal. destruct (logRotationSize <? _) eqn:E.
      * apply Z.ltb_lt in E. by rewrite bool_decide_eq_true_2.
      * apply Z.ltb_ge in E. rewrite bool_decide_eq_false_2; [done | lia].
    + unfold lookup_file. simpl. by rewrite lookup_insert_eq.
  - intros Hf Hnone. unfold saveLog. apply run_try_catch, run_bind.
    unfold appendFileSync. apply run_bind, run_fault_none; [done |].
    unfold run. simpl. rewrite Hnone. simpl. by repeat split.
Qed.

(** ** Reading the entries back *)

(** [piece] occurs in [s] as a run of consecutive characters. *)
Definition occurs_in (piece s : string) : Prop :=
  ∃ a b, s = a +:+ piece +:+ b.

Lemma occurs_in_refl s : occurs_in s s.
Proof. exists "", "". by rewrite app_nil_l, app_empty_r. Qed.

Lemma occurs_in_trans a b c : occurs_in a b → occurs_in b c → occurs_in a c.
Proof.
  intros (x & y & ->) (x' & y' & ->). exists (x' +:+ x), (y +:+ y').
  by rewrite !app_assoc.
Qed.

Lemma trimStart_suffix s : ∃ a, s = a +:+ trimStart s.
Proof.
  induction s as [|c s [a IH]]; [by exists "" |]. simpl.
  destruct (is_white_space c).
  - exists (String c a). by rewrite app_cons, <- IH.
  - by exists "".
Qed.

Lemma trimEnd_prefix s : ∃ b, s = trimEnd s +:+ b.
Proof.
  unfold trimEnd. destruct (trimStart_suffix (rev_string s)) as [a Ha].
  exists (rev_string a). apply (f_equal rev_string) in Ha.
  by rewrite rev_string_involutive, rev_string_app in Ha.
Qed.

Lemma trim_occurs s : occurs_in (trim s) s.
Proof.
  unfold trim. destruct (trimStart_suffix s) as [a Ha].
  destruct (trimEnd_prefix (trimStart s)) as [b Hb].
  exists a, b. by rewrite <- Hb.
Qed.

Lemma split_on_nonempty c s : split_on c s ≠ [].
Proof.
  destruct s as [|d s]; simpl; [done |].
  destruct (ascii_eqb d c); [done |]. by destruct (split_on c s).
Qed.

Lemma split_on_no_sep c s :
  Forall (λ piece, includes_char c piece = false) (split_on c s).
Proof.
  induction s as [|d s IH]; simpl; [by repeat constructor |].
  destruct (ascii_eqb d c) eqn:Ed; [by constructor |].
  destruct (split_on c s) as [|p ps] eqn:Es;
    [by destruct (split_on_nonempty c s) |].
  apply Forall_cons in IH as [Hp Hps]. constructor; [|done].
  simpl. by rewrite ascii_eqb_sym, Ed.
Qed.

Lemma split_on_occurs c s piece : piece ∈ split_on c s → occurs_in piece s.
Proof.
  revert piece. induction s as [|d s IH]; intros piece; simpl.
  { intros ->%list_elem_of_singleton. apply occurs_in_refl. }
  destruct (ascii_eqb d c) eqn:Ed.
  - intros [->|Hin]%elem_of_cons.
    + by exists "", (String d s).
    + destruct (IH _ Hin) as (a & b & ->). by exists (String d a), b.
  - destruct (split_on c s) as [|p ps] eqn:Es;
      [by destruct (split_on_nonempty c s) |].
    intros [->|Hin]%elem_of_cons.
    + destruct (IH p) as (a & b & E); [by left |].
      (* the first piece starts where [s] starts *)
      assert (Hp : ∃ b', s = p +:+ b').
      { clear -Es. revert p ps Es. induction s as [|e s IHs]; intros p ps.
        - simpl. intros [= <- <-]. by exists "".
        - simpl. destruct (ascii_eqb e c).
          + intros [= <- <-]. by exists (String e s).
          + destruct (split_on c s) as [|q qs] eqn:Eq;
              [by destruct (split_on_nonempty c s) |].
            intros [= <- <-]. destruct (IHs q qs eq_refl) as [b' ->].
            by exists b'. }
      destruct Hp as [b' ->]. by exists "", b'.
    + destruct (IH piece) as (a & b & ->); [by right |].
      by exists (String d a), b.
Qed.

(** [loadAllLogs] never throws and changes no file, whatever fails. Every
    line it returns holds no line feed, is not blank, and stands in the
    section's log as it is returned; and on a machine where nothing fails
    it reports no error. A read that fails gives the empty list and one
    line on [console.error]. *)
Theorem loadAllLogs_lines (section : string) (w : world) :
  run (loadAllLogs section) w (λ r w',
    ∃ lines, r = Ok lines
      ∧ only_output w w'
      ∧ Forall (λ line, includes_char LF line = false
                        ∧ trim line ≠ ""
                        ∧ occurs_in line (log_text section w)) lines
      ∧ (faults w = [] → trace w' = trace w)
      ∧ (head (faults w) = Some true →
         is_Some (lookup_file (getLogFilePath section) w) →
         lines = []
         ∧ trace w' = trace w ++ [LogError "Error loading logs:" (Some EIO)])).
Proof.
  unfold loadAllLogs. apply run_try_catch, run_bind, run_existsSync.
  destruct (lookup_file (getLogFilePath section) w) as [f|] eqn:Ef.
  - rewrite bool_decide_eq_true_2 by eauto.
    apply run_bind, run_readFileSync_cases.
    + intros w1 Hq Hf1 Hhead. apply run_bind, run_console_error, run_ret.
      exists []. split; [done |].
      split; [by apply only_output_emit, only_output_quiet |].
      split; [constructor |]. split.
      * intros Hf. by rewrite Hf in Hhead.
      * intros _ _. split; [done |]. simpl. by destruct Hq as (_&_&_&->).
    + intros w1 Hq Hf1 Hhead. rewrite Ef. apply run_ret.
      eexists. split; [done |]. split; [by apply only_output_quiet |].
      split; [|split; [intros _; by destruct Hq as (_&_&_&?) | done]].
      apply Forall_forall. intros line [Hnb Hin]%list_elem_of_filter.
      split; [|split].
      * pose proof (split_on_no_sep LF (trim (f_data f))) as Hall.
        rewrite Forall_forall in Hall. by apply Hall.
      * intros E. rewrite E in Hnb. by rewrite string_eqb_refl in Hnb.
      * unfold log_text. rewrite Ef. simpl.
        eapply occurs_in_trans; [by eapply split_on_occurs |].
        apply trim_occurs.
  - rewrite bool_decide_eq_false_2 by (by intros [? ?]). apply run_ret.
    exists []. split; [done |].
    split; [apply only_output_quiet, quiet_refl |].
    split; [constructor |]. split; [done |]. by intros _ [? ?].
Qed.

End WithPlatform.
End EntryFacts.

(* ===================================================================== *)
(** * Rotation of a section's log                                          *)
(* ===================================================================== *)

Module RotationFacts.
Import JS JSFacts Json Fs Config FsFacts Logger Backup RetentionFacts.
Import FullRestoreFacts Rotation.

Lemma run_copyFileSync src dest w (Q : outcome unit → world → Prop) :
  (∀ w' f m, quiet w w' → lookup_file src w = Some f →
     get_dir (p_dir dest) w = Some m →
     Q (Ok tt)
       (emit (Wrote dest)
          (set_dir (p_dir dest) (<[p_name dest := File (f_data f) (clock w)]> m)
             w'))) →
  (∀ w' e, quiet w w' → Q (Throw e) w') →
  run (copyFileSync src dest) w Q.
Proof.
  intros Hok Hthrow. unfold copyFileSync. apply run_bind, run_fault.
  - intros w' Hq. unfold run.
    rewrite (quiet_lookup_file _ _ _ Hq), (quiet_get_dir _ _ _ Hq).
    destruct (lookup_file src w) as [f|] eqn:Ef; simpl; [|by eauto].
    destruct (get_dir (p_dir dest) w) as [m|] eqn:Em; simpl; [|by eauto].
    destruct Hq as (?&?&Hc&?). rewrite Hc. apply Hok; [by repeat split | done..].
  - intros w' Hq. eauto.
Qed.

Lemma run_copyFileSync_ok src dest f m w (Q : outcome unit → world → Prop) :
  faults w = [] → lookup_file src w = Some f →
  get_dir (p_dir dest) w = Some m →
  Q (Ok tt)
    (emit (Wrote dest)
       (set_dir (p_dir dest) (<[p_name dest := File (f_data f) (clock w)]> m) w)) →
  run (copyFileSync src dest) w Q.
Proof.
  intros Hf Hsrc Hdest HQ. unfold copyFileSync.
  apply run_bind, run_fault_none; [done |].
  unfold run. by rewrite Hsrc, Hdest.
Qed.

Section WithPlatform.
Context `{P : Platform}.

(** The name [createBackup] gives the copy it makes at time [t]. *)
Definition rotationCopy (section : string) (t : Z) : path :=
  Path BackupDir (section +:+ "-" +:+ dashes (toISOString t) +:+ ".bak").

(** [createBackup] never throws, whatever fails, and touches no file but
    the section's log and the copy it names after the section and the
    time. It empties the log only after the copy holds the text of the
    log, so a log that has changed is saved in the backup directory; and
    it returns [true] only when it was asked to rotate and has emptied
    the log. *)
Theorem createBackup_copies_before_truncating (section : string)
    (rotate : bool) (w : world) :
  run (createBackup section rotate) w (λ r w',
    ∃ b, r = Ok b
      ∧ (∀ name, name ≠ logName section →
           lookup_file (Path SectionsDir name) w'
           = lookup_file (Path SectionsDir name) w)
      ∧ (∀ name, name ≠ p_name (rotationCopy section (clock w)) →
           lookup_file (Path BackupDir name) w'
           = lookup_file (Path BackupDir name) w)
      ∧ (lookup_file (getLogFilePath section) w'
         = lookup_file (getLogFilePath section) w
         ∨ rotate = true
           ∧ lookup_file (getLogFilePath section) w' = Some (File "" (clock w))
           ∧ f_data <$> lookup_file (rotationCopy section (clock w)) w'
             = f_data <$> lookup_file (getLogFilePath section) w)
      ∧ (b = true →
         rotate = true
         ∧ lookup_file (getLogFilePath section) w' = Some (File "" (clock w)))).
Proof.
  unfold createBackup. apply run_try_catch, run_bind, run_existsSync.
  destruct (lookup_file (getLogFilePath section) w) as [f|] eqn:Ef.
  2:{ rewrite bool_decide_eq_false_2 by (by intros [? ?]). apply run_ret.
      exists false. split; [done |]. split; [done |]. split; [done |].
      split; [by left | done]. }
  rewrite bool_decide_eq_true_2 by eauto.
  apply run_bind, run_now, run_bind. fold (rotationCopy section (clock w)).
  assert (Hfail : ∀ w1 e, same_files w w1 →
            run (console_error "Error creating backup:" (Some e) ;; ret false) w1
              (λ r w', ∃ b, r = Ok b
                 ∧ (∀ name, name ≠ logName section →
                      lookup_file (Path SectionsDir name) w'
                      = lookup_file (Path SectionsDir name) w)
                 ∧ (∀ name, name ≠ p_name (rotationCopy section (clock w)) →
                      lookup_file (Path BackupDir name) w'
                      = lookup_file (Path BackupDir name) w)
                 ∧ (lookup_file (getLogFilePath section) w' = Some f
                    ∨ rotate = true
                      ∧ lookup_file (getLogFilePath section) w'
                        = Some (File "" (clock w))
                      ∧ f_data <$> lookup_file (rotationCopy section (clock w)) w'
                        = f_data <$> Some f)
                 ∧ (b = true →
                    rotate = true
                    ∧ lookup_file (getLogFilePath section) w'
                      = Some (File "" (clock w))))).
  { intros w1 e (Hs & Hb & Hc). apply run_bind, run_console_error, run_ret.
    exists false. split; [done |].
    assert (Hl : ∀ p, lookup_file p (emit (LogError "Error creating backup:"
                                             (Some e)) w1) = lookup_file p w).
    { intros [[] name]; unfold lookup_file; simpl; by rewrite ?Hs, ?Hb. }
    split; [by intros; apply Hl |]. split; [by intros; apply Hl |].
    split; [left; by rewrite Hl | done]. }
  apply run_copyFileSync.
  2:{ intros w1 e Hq. by apply Hfail, quiet_same_files. }
  intros w1 f' mb Hq Hf' Hmb. rewrite Ef in Hf'. injection Hf' as <-.
  simpl in Hmb. set (w2 := emit _ _).
  assert (Hs2 : sectionsDir w2 = sectionsDir w).
  { unfold w2. simpl. by destruct Hq as (?&_). }
  assert (Hc2 : clock w2 = clock w).
  { unfold w2. simpl. by destruct Hq as (_&_&?&_). }
  assert (Hcopy : lookup_file (rotationCopy section (clock w)) w2
                  = Some (File (f_data f) (clock w))).
  { unfold w2, lookup_file. simpl. by rewrite lookup_insert_eq. }
  assert (Hothers : ∀ name, name ≠ p_name (rotationCopy section (clock w)) →
            lookup_file (Path BackupDir name) w2
            = lookup_file (Path BackupDir name) w).
  { intros name Hname. unfold w2, lookup_file. simpl. rewrite Hmb. simpl.
    by rewrite lookup_insert_ne. }
  assert (Hsec2 : ∀ name, lookup_file (Path SectionsDir name) w2
                          = lookup_file (Path SectionsDir name) w).
  { intros name. unfold lookup_file. cbn [p_dir get_dir]. by rewrite Hs2. }
  assert (Hb2 : backupDir w2
                = Some (<[p_name (rotationCopy section (clock w)) :=
                            File (f_data f) (clock w)]> mb)) by done.
  clearbody w2.
  destruct rotate.
  - apply run_bind, run_writeFileSync.
    + intros w3 ms Hq3 Hms. apply run_ret. simpl in Hms.
      exists true. split; [done |].
      assert (Hlog : lookup_file (getLogFilePath section)
                       (emit (Wrote (getLogFilePath section))
                          (set_dir SectionsDir
                             (<[section +:+ ".txt" := File "" (clock w2)]> ms) w3))
                     = Some (File "" (clock w))).
      { unfold lookup_file. simpl. by rewrite lookup_insert_eq, Hc2. }
      split.
      { intros name Hname. rewrite <- Hsec2. unfold lookup_file. simpl.
        rewrite Hms. simpl. fold (logName section). by rewrite lookup_insert_ne. }
      split.
      { intros name Hname. rewrite <- (Hothers name Hname).
        unfold lookup_file. simpl. by destruct Hq3 as (_&->&_). }
      split; [|done]. right. split; [done |]. split; [exact Hlog |].
      unfold lookup_file. simpl.
      destruct Hq3 as (_&Hb3&_). rewrite Hb3.
      unfold lookup_file in Hcopy. simpl in Hcopy. by rewrite Hcopy.
    + intros w3 e Hq3. apply run_bind, run_console_error, run_ret.
      exists false. split; [done |].
      assert (Hl : ∀ p, lookup_file p (emit (LogError "Error creating backup:"
                                               (Some e)) w3) = lookup_file p w2).
      { intros p. change (lookup_file p (emit ?e ?x)) with (lookup_file p x).
        by apply quiet_lookup_file. }
      split; [intros; by rewrite Hl |]. split; [intros; rewrite Hl; auto |].
      split; [left; rewrite Hl; unfold getLogFilePath; by rewrite Hsec2 | done].
  - apply run_bind, run_console_log, run_ret. exists false. split; [done |].
    split; [intros; apply Hsec2 |]. split; [intros; by apply Hothers |].
    split; [left | done].
    change (lookup_file ?p (emit ?e ?x)) with (lookup_file p x).
    unfold getLogFilePath. by rewrite Hsec2.
Qed.

(** [createBackup] on a machine where nothing fails. With the log and the
    backup directory in place it copies the log under the name made of
    the section and the time, and returns its [rotate] argument: [true]
    with the log emptied, or [false] with the log as it was and the path
    printed. Without the log it returns [false] and does nothing at all;
    without the backup directory it returns [false], reports the error
    and leaves the log as it was. *)
Theorem createBackup_result (section : string) (rotate : bool) (w : world) :
  faults w = [] →
  (∀ f mb, lookup_file (getLogFilePath section) w = Some f →
     backupDir w = Some mb →
     run (createBackup section rotate) w (λ r w',
       r = Ok rotate
       ∧ backupDir w'
         = Some (<[p_name (rotationCopy section (clock w)) :=
                     File (f_data f) (clock w)]> mb)
       ∧ lookup_file (getLogFilePath section) w'
         = Some (if rotate then File "" (clock w) else f)
       ∧ (∀ name, name ≠ logName section →
            lookup_file (Path SectionsDir name) w'
            = lookup_file (Path SectionsDir name) w)
       ∧ trace w'
         = trace w
           ++ Wrote (rotationCopy section (clock w))
              :: (if rotate then [Wrote (getLogFilePath section)]
                  else [Log ("Logs backed up to "
                             +:+ path_string (rotationCopy section (clock w)))])))
  ∧ (lookup_file (getLogFilePath section) w = None →
     createBackup section rotate w = (Ok false, w))
  ∧ (is_Some (lookup_file (getLogFilePath section) w) → backupDir w = None →
     run (createBackup section rotate) w (λ r w',
       r = Ok false ∧ same_files w w'
       ∧ trace w'
         = trace w ++ [LogError "Error creating backup:" (Some ENOENT)])).
Proof.
  intros Hf. split; [|split].
  - intros f mb Hlog Hmb. unfold createBackup.
    apply run_try_catch, run_bind, run_existsSync.
    rewrite bool_decide_eq_true_2 by eauto.
    apply run_bind, run_now, run_bind.
    fold (rotationCopy section (clock w)).
    eapply run_copyFileSync_ok; [done.. |].
    destruct (sectionsDir w) as [ms|] eqn:Hms;
      [|unfold lookup_file in Hlog; simpl in Hlog; by rewrite Hms in Hlog].
    destruct rotate.
    + apply run_bind. eapply run_writeFileSync_ok; [done | by simpl |].
      apply run_ret. simpl. split; [done |]. split; [done |].
      unfold lookup_file. simpl. rewrite lookup_insert_eq. split; [done |].
      split; [|by rewrite <- (assoc_L (++))].
      intros name Hname. rewrite Hms. simpl. fold (logName section).
      by rewrite lookup_insert_ne.
    + apply run_bind, run_console_log, run_ret. simpl.
      split; [done |]. split; [done |].
      split; [unfold lookup_file in *; simpl in *; by rewrite Hms in * |].
      split; [|by rewrite <- (assoc_L (++))].
      intros name _. unfold lookup_file. simpl. by rewrite Hms.
  - intros Hnone. unfold createBackup, try_catch, bind, existsSync.
    rewrite bool_decide_eq_false_2; [done |]. rewrite Hnone. by intros [? ?].
  - intros Hlog Hnone. unfold createBackup.
    apply run_try_catch, run_bind, run_existsSync.
    rewrite bool_decide_eq_true_2 by done.
    apply run_bind, run_now, run_bind.
    unfold copyFileSync. apply run_bind, run_fault_none; [done |].
    destruct Hlog as [f Hlog]. unfold run. rewrite Hlog. simpl. rewrite Hnone.
    simpl. by repeat split.
Qed.

Variable cfg : backupConfig.

(** What [createBackup] saves when it rotates a log, [restoreFromBackup]
    of the backup module brings back, whether that module compresses its
    own artifacts or not: on a machine where nothing fails, for a section
    with a log, a non-empty id and a copy whose name does not start with
    the prefix of full backups, the rotation returns [true] and leaves
    the log empty, and the restore of the copy for that section, in any
    later state that still holds it, returns [true] and leaves the log
    with the text it had before the rotation and every other section
    file as it was. *)
Theorem createBackup_then_restore (section : string) (f : file)
    (mb : gmap string file) (w : world) :
  faults w = [] →
  lookup_file (getLogFilePath section) w = Some f →
  backupDir w = Some mb →
  section ≠ "" →
  startsWith (fullBackupPrefix cfg)
    (p_name (rotationCopy section (clock w))) = false →
  run (createBackup section true) w (λ r w1,
    r = Ok true
    ∧ f_data <$> lookup_file (getLogFilePath section) w1 = Some ""
    ∧ faults w1 = [] ∧ is_Some (sectionsDir w1)
    ∧ ∀ w2, faults w2 = [] → is_Some (sectionsDir w2) →
        lookup_file (rotationCopy section (clock w)) w2
        = lookup_file (rotationCopy section (clock w)) w1 →
        run (restoreFromBackup cfg (rotationCopy section (clock w))
               (Some section) true) w2 (λ r3 w3,
          r3 = Ok true
          ∧ f_data <$> lookup_file (getLogFilePath section) w3
            = Some (f_data f)
          ∧ (∀ name, name ≠ logName section →
               lookup_file (Path SectionsDir name) w3
               = lookup_file (Path SectionsDir name) w2)
          ∧ backupDir w3 = backupDir w2)).
Proof.
  intros Hf Hlog Hmb Hsec Hprefix. unfold createBackup.
  apply run_try_catch, run_bind, run_existsSync.
  rewrite bool_decide_eq_true_2 by eauto.
  apply run_bind, run_now, run_bind.
  fold (rotationCopy section (clock w)).
  eapply run_copyFileSync_ok; [done.. |].
  destruct (sectionsDir w) as [ms|] eqn:Hms;
    [|unfold lookup_file in Hlog; simpl in Hlog; by rewrite Hms in Hlog].
  apply run_bind. eapply run_writeFileSync_ok; [done | by simpl |].
  apply run_ret. split; [done |]. split.
  { unfold lookup_file. simpl. by rewrite lookup_insert_eq. }
  split; [done |]. split; [by eexists |].
  intros w2 Hf2 [ms2 Hs2] Hcopy.
  assert (Hart : lookup_file (rotationCopy section (clock w)) w2
                 = Some (File (f_data f) (clock w))).
  { rewrite Hcopy. unfold lookup_file. simpl. by rewrite lookup_insert_eq. }
  unfold restoreFromBackup.
  apply run_try_catch, run_bind, run_existsSync.
  rewrite bool_decide_eq_true_2 by eauto. cbn [negb]. apply run_bind.
  replace (endsWith ".gz" _) with false.
  2:{ unfold rotationCopy, path_string. cbn [p_name p_dir].
      by rewrite <- !app_assoc, endsWith_gz_bak. }
  eapply run_readFileSync_ok; [done.. |]. rewrite Hprefix.
  assert (Htruthy : truthy (JStr <$> Some section) = true).
  { simpl. by rewrite (proj2 (string_eqb_neq _ _) Hsec). }
  rewrite Htruthy. cbn [default f_data]. unfold restoreSectionBackup.
  apply run_try_catch, run_bind, run_existsSync. cbn [orb].
  apply run_bind.
  eapply run_writeFileSync_ok; [done | exact Hs2 |].
  apply run_bind, run_console_log, run_ret.
  split; [done |]. unfold lookup_file. simpl. fold (logName section).
  split; [by rewrite lookup_insert_eq |]. split; [|done].
  intros name Hne. rewrite Hs2. simpl. by rewrite lookup_insert_ne.
Qed.

End WithPlatform.
End RotationFacts.

(* ===================================================================== *)
(** * The backup engine: listing, owners and the retention of full backups *)
(* ===================================================================== *)

Module EngineFacts.
Import JS JSFacts Json Fs Config FsFacts Logger Backup RetentionFacts.
Import FullRestoreFacts RetentionExact FullBackupFacts.

Lemma before_dash_split file s :
  before_dash file = Some s ↔
  includes_char "-" s = false ∧ ∃ rest, file = s +:+ "-" +:+ rest.
Proof.
  revert s. induction file as [|c file IH]; intros s; simpl.
  { split; [done |]. intros (_ & rest & E). by destruct s. }
  destruct (ascii_eqb c "-") eqn:Ec.
  - apply ascii_eqb_eq in Ec as ->. split.
    + intros [= <-]. split; [done |]. by exists file.
    + intros (Hs & rest & E). destruct s as [|d s]; [done |].
      rewrite app_cons in E. injection E as Hd _. simpl in Hs.
      by rewrite <- Hd, ascii_eqb_refl in Hs.
  - split.
    + destruct (before_dash file) as [t|] eqn:Et; [|done].
      intros [= <-]. destruct (proj1 (IH t) eq_refl) as (Ht & rest & ->).
      split; [simpl; by rewrite ascii_eqb_sym, Ec |]. by exists rest.
    + intros (Hs & rest & E). destruct s as [|d s].
      * rewrite app_nil_l, app_cons in E. injection E as -> _.
        by rewrite ascii_eqb_refl in Ec.
      * rewrite app_cons in E. injection E as <- ->.
        simpl in Hs. apply orb_false_iff in Hs as [_ Hs].
        assert (Hb : before_dash (s +:+ "-" +:+ rest) = Some s).
        { apply IH. split; [done |]. by exists rest. }
        by rewrite Hb.
Qed.

Lemma match_section_name_iff (file s : string) :
  match_section_name file = Some s ↔
  s ≠ "" ∧ includes_char "-" s = false ∧ ∃ rest, file = s +:+ "-" +:+ rest.
Proof.
  unfold match_section_name. split.
  - destruct (before_dash file) as [[|c t]|] eqn:E; [done | | done].
    intros [= <-]. apply before_dash_split in E as [? ?]. by split.
  - intros (Hne & Hs & Hrest).
    assert (E : before_dash file = Some s) by (by apply before_dash_split).
    rewrite E. by destruct s.
Qed.

(** The owner [listAllBackups] reads off a file name with [/^([^-]+)-/]
    is [s] exactly when [s] is not empty, holds no hyphen, and the name is
    [s], a hyphen and anything. So the artifacts of a section whose id is
    not empty and holds no hyphen are owned by that section, whatever the
    time stamp and the extension; and a name that has no hyphen, or starts
    with one, has no owner. *)
Theorem match_section_name_owner (file : string) :
  (∀ s, match_section_name file = Some s ↔
        s ≠ "" ∧ includes_char "-" s = false
        ∧ ∃ rest, file = s +:+ "-" +:+ rest)
  ∧ (match_section_name file = None ↔
     includes_char "-" file = false ∨ startsWith "-" file = true)
  ∧ (∀ section tail,
       section ≠ "" → includes_char "-" section = false →
       match_section_name (section +:+ "-" +:+ tail) = Some section).
Proof.
  split; [intros s; apply match_section_name_iff |]. split.
  - unfold match_section_name. split.
    + destruct (before_dash file) as [[|c t]|] eqn:E; [| done |].
      * intros _. right. apply before_dash_split in E as (_ & rest & ->).
        by rewrite app_nil_l, app_cons.
      * intros _. left.
        induction file as [|c file IH]; [done |]. simpl in *.
        destruct (ascii_eqb c "-") eqn:Ec; [done |].
        rewrite ascii_eqb_sym, Ec. simpl. apply IH.
        by destruct (before_dash file).
    + intros [Hno | Hstart].
      * assert (E : before_dash file = None).
        { destruct (before_dash file) as [t|] eqn:E; [|done].
          apply before_dash_split in E as (_ & rest & ->).
          rewrite includes_char_app, app_cons in Hno. simpl in Hno.
          by rewrite orb_true_r in Hno. }
        by rewrite E.
      * destruct file as [|c file]; [done |]. simpl in *.
        by destruct (ascii_eqb "-" c) eqn:Ec;
          [rewrite ascii_eqb_sym, Ec |].
  - intros section tail Hne Hno. apply match_section_name_iff. split; [done |].
    split; [done |]. by exists tail.
Qed.

Section WithPlatform.
Context `{P : Platform}.
Variable cfg : backupConfig.

(** [listAllBackups] never throws and changes no file, whatever fails;
    without the backup directory it returns the empty list in silence.
    On a machine where nothing fails it returns one record for each file
    of the backup directory and no other, each with the path and the
    date of its file, typed as a full backup exactly when the
    name starts with [fullBackupPrefix], and otherwise owned by what the
    name holds before its first hyphen. *)
Theorem listAllBackups_lists_files (w : world) :
  run (listAllBackups cfg) w (λ r w', (∃ l, r = Ok l) ∧ only_output w w')
  ∧ (backupDir w = None → listAllBackups cfg w = (Ok [], w))
  ∧ (∀ mb, faults w = [] → backupDir w = Some mb →
       ∃ l, listAllBackups cfg w = (Ok l, w)
         ∧ b_name <$> l ≡ₚ (map_to_list mb).*1
         ∧ ∀ b, b ∈ l →
             ∃ f, mb !! b_name b = Some f
               ∧ b_path b = Path BackupDir (b_name b)
               ∧ b_date b = f_mtime f
               ∧ (b_type b = TFull ∧ b_section b = None
                  ∧ startsWith (fullBackupPrefix cfg) (b_name b) = true
                  ∨ b_type b = TSection
                    ∧ b_section b = match_section_name (b_name b)
                    ∧ startsWith (fullBackupPrefix cfg) (b_name b) = false)).
Proof.
  split; [|split].
  - eapply run_mono; [apply listAllBackups_reads |].
    intros r w' [Hout (l & -> & _)]. split; [by eexists | done].
  - intros Hnone. unfold listAllBackups, try_catch, bind, existsDir. simpl.
    rewrite Hnone. by rewrite bool_decide_eq_false_2 by (by intros [? ?]).
  - intros mb Hf Hb. exists (records cfg mb).
    split; [by apply listAllBackups_ok |].
    split; [by rewrite records_names, readdir_perm |].
    intros b (f & Hfile & ->)%records_elem. exists f. simpl.
    split; [done |]. split; [done |]. split; [done |].
    destruct (startsWith (fullBackupPrefix cfg) (b_name b)); [by left | by right].
Qed.

(** ** [listBackups] *)

Lemma full_or_section_all (l : list backup) :
  Forall (λ b, b_type b ≠ TUnknown) l →
  filter (λ b, is_full b) l ++ filter (λ b, is_section b) l ≡ₚ l.
Proof.
  induction 1 as [|b l Hb Hl IH]; [done |].
  destruct (b_type b) eqn:Eb; [done | |].
  - rewrite (filter_cons_True (λ b, is_full b))
      by (unfold is_full; by rewrite Eb).
    rewrite (filter_cons_False (λ b, is_section b))
      by (unfold is_section; rewrite Eb; by intros ?).
    simpl. by rewrite IH.
  - rewrite (filter_cons_False (λ b, is_full b))
      by (unfold is_full; rewrite Eb; by intros ?).
    rewrite (filter_cons_True (λ b, is_section b))
      by (unfold is_section; by rewrite Eb).
    rewrite <- Permutation_middle. by rewrite IH.
Qed.

Lemma records_typed mb : Forall (λ b, b_type b ≠ TUnknown) (records cfg mb).
Proof.
  apply Forall_forall. intros b (f & _ & ->)%records_elem. simpl.
  by destruct (startsWith _ _).
Qed.

(** [listBackups] only prints: it changes no file, whatever it is given.
    Given both lists it reads nothing and returns the full backups
    followed by the section backups, as given. Given none, on a machine
    where nothing fails, it returns every file of the backup directory
    exactly once, the full backups before the section backups; and
    without the backup directory it returns the empty list and prints
    that no backup is available. *)
Theorem listBackups_returns_all (w : world) :
  (∀ fulls sects,
     run (listBackups cfg (Some fulls) (Some sects)) w (λ r w',
       r = Ok (fulls ++ sects) ∧ printed w w'))
  ∧ (∀ mb, faults w = [] → backupDir w = Some mb →
       run (listBackups cfg None None) w (λ r w',
         ∃ l, r = Ok l ∧ printed w w'
           ∧ l ≡ₚ records cfg mb
           ∧ b_name <$> l ≡ₚ (map_to_list mb).*1
           ∧ ∃ fulls sects, l = fulls ++ sects
               ∧ Forall (λ b, b_type b = TFull) fulls
               ∧ Forall (λ b, b_type b = TSection) sects))
  ∧ (backupDir w = None →
     run (listBackups cfg None None) w (λ r w',
       r = Ok [] ∧ printed w w'
       ∧ trace w'
         = trace w
           ++ [Log "Available backups:";
               Log "Full backups:"; Log "No full backups available.";
               Log "Section backups:"; Log "No section backups available.";
               Log "Use /restore <type> <number> to restore a specific backup";
               Log "Example: /restore full 1 or /restore section 1"])).
Proof.
  assert (Hlines : ∀ (l : list backup) none line w1,
            printed w w1 →
            run (match l with
                 | [] => console_log none
                 | _ => log_numbered 0 l line
                 end) w1 (λ r w', r = Ok tt ∧ printed w w')).
  { intros l none line w1 (? & ? & ? & ?). destruct l as [|b l].
    - apply run_console_log. by repeat split.
    - eapply run_mono; [apply log_numbered_printed |].
      intros r w' [-> (? & ? & ? & ?)]. repeat split; congruence. }
  split; [|split].
  - intros fulls sects. unfold listBackups. apply run_bind, run_ret.
    apply run_bind, run_console_log, run_bind, run_console_log, run_bind.
    eapply run_mono; [by apply Hlines |].
    intros r w1 [-> Hp1]. apply run_bind, run_console_log, run_bind.
    eapply run_mono; [by apply Hlines |].
    intros r w2 [-> Hp2].
    by apply run_bind, run_console_log, run_bind, run_console_log, run_ret.
  - intros mb Hf Hb.
    eapply run_mono; [by apply listBackups_ok |].
    intros r w' [-> Hp]. eexists. split; [done |]. split; [done |].
    split; [apply full_or_section_all, records_typed |]. split.
    + rewrite (full_or_section_all _ (records_typed mb)).
      by rewrite records_names, readdir_perm.
    + eexists _, _. split; [done |]. split.
      * apply Forall_forall. intros b [Hb' _]%list_elem_of_filter.
        unfold is_full in Hb'. by destruct (b_type b).
      * apply Forall_forall. intros b [Hb' _]%list_elem_of_filter.
        unfold is_section in Hb'. by destruct (b_type b).
  - intros Hnone. unfold listBackups. apply run_bind, run_bind.
    apply (run_from_eq _ _ (Ok []) w).
    { unfold listAllBackups, try_catch, bind, existsDir. simpl.
      rewrite Hnone. by rewrite bool_decide_eq_false_2 by (by intros [? ?]). }
    apply run_ret. simpl.
    apply run_bind, run_console_log, run_bind, run_console_log, run_bind.
    apply run_console_log, run_bind, run_console_log, run_bind.
    apply run_console_log, run_bind, run_console_log, run_bind.
    apply run_console_log, run_ret. simpl.
    split; [done |]. split; [done |].
    by rewrite <- !(assoc_L (++)).
Qed.

(** ** Retention of full backups *)

Definition fullBackups (l : list backup) : list backup :=
  filter (λ b, is_full b) l.

(** The records the two retention rules keep of the list [backups]. *)
Definition kept_of (backups : list backup) (now : Z) : list backup :=
  filter (λ b, negb (expired cfg now b))
    (take (maxBackupsPerSection cfg) backups).

Lemma doomed_of_or_kept (backups : list backup) now b :
  NoDup (b_name <$> backups) → b ∈ backups →
  (b ∈ kept_of backups now
   ∧ b_name b ∉ (b_name <$> doomed_of cfg backups now))
  ∨ ((b ∉ kept_of backups now)
     ∧ b_name b ∈ (b_name <$> doomed_of cfg backups now)).
Proof.
  intros Hnd Hb. unfold kept_of, doomed_of.
  set (max := maxBackupsPerSection cfg).
  assert (Hsame : ∀ b', b' ∈ backups → b_name b' = b_name b → b' = b).
  { intros b' Hb' Heq. by apply (NoDup_fmap_eq b_name backups). }
  assert (Hnd' := Hnd). rewrite <- (take_drop max backups) in Hnd'.
  rewrite fmap_app in Hnd'. apply NoDup_app in Hnd' as (_ & Hdisj & _).
  rewrite <- (take_drop max backups) in Hb.
  apply elem_of_app in Hb as [Hb | Hb].
  - destruct (expired cfg now b) eqn:Eb.
    + right. split.
      * intros [Hk _]%list_elem_of_filter. by rewrite Eb in Hk.
      * apply list_elem_of_fmap. exists b. split; [done |].
        apply elem_of_app. right. apply list_elem_of_filter. by rewrite Eb.
    + left. split.
      * apply list_elem_of_filter. by rewrite Eb.
      * intros (b' & Heq & Hb')%list_elem_of_fmap.
        apply elem_of_app in Hb' as [Hb' | Hb'].
        -- apply (Hdisj (b_name b)); apply list_elem_of_fmap; eauto.
        -- apply list_elem_of_filter in Hb' as [Hex Hb'].
           rewrite (Hsame b') in Hex; [by rewrite Eb in Hex | | done].
           by apply (subseteq_take max).
  - right. split.
    + intros [_ Hk]%list_elem_of_filter.
      apply (Hdisj (b_name b)); apply list_elem_of_fmap; eauto.
    + apply list_elem_of_fmap. exists b. split; [done |].
      apply elem_of_app. by left.
Qed.

Lemma doomed_of_subset (backups : list backup) now b :
  b ∈ doomed_of cfg backups now → b ∈ backups.
Proof.
  unfold doomed_of. intros [Hb | [_ Hb]%list_elem_of_filter]%elem_of_app.
  - by apply (subseteq_drop (maxBackupsPerSection cfg)).
  - by apply (subseteq_take (maxBackupsPerSection cfg)).
Qed.

Lemma fullBackups_NoDup mb : NoDup (b_name <$> fullBackups (records cfg mb)).
Proof.
  apply (sublist_NoDup _ (b_name <$> records cfg mb)).
  - rewrite records_names. apply readdir_NoDup.
  - apply fmap_sublist, sublist_filter.
Qed.

Lemma cleanupOldFullBackups_exact w mb :
  faults w = [] → backupDir w = Some mb →
  run (cleanupOldFullBackups cfg) w
    (λ r w', r = Ok tt ∧ faults w' = [] ∧ sectionsDir w' = sectionsDir w
             ∧ clock w' = clock w
             ∧ backupDir w'
               = Some (del_all mb
                         (doomed_of cfg (fullBackups (records cfg mb)) (clock w)))).
Proof.
  intros Hf Hb. unfold cleanupOldFullBackups.
  apply run_try_catch, run_bind.
  eapply run_mono; [by apply listBackups_ok |].
  intros r w1 [-> (Hs1 & Hb1 & Hc1 & Hf1)].
  fold (is_full). rewrite (full_of_listed (records cfg mb)).
  fold (fullBackups (records cfg mb)).
  eapply run_mono.
  { apply (retention_rules cfg (fullBackups (records cfg mb)) _ _ w1 mb);
      [congruence | congruence | apply fullBackups_NoDup |].
    intros b Hb'. apply (records_present cfg mb _ b) in Hb'; [done |].
    by intros b' [_ ?]%list_elem_of_filter. }
  intros r w2 (Hr & ? & ? & ? & Hb2). rewrite Hc1 in Hb2.
  assert (Hend : faults w2 = [] ∧ sectionsDir w2 = sectionsDir w
                 ∧ clock w2 = clock w
                 ∧ backupDir w2
                   = Some (del_all mb
                             (doomed_of cfg (fullBackups (records cfg mb))
                                (clock w)))).
  { repeat split; congruence. }
  destruct Hr as [-> | ->]; [done |].
  by apply run_console_error.
Qed.

(** [cleanupOldFullBackups] on a machine where nothing fails, with the
    backup directory in place: it only deletes, and only files whose name
    starts with [fullBackupPrefix]; of the full backups in the order
    [listAllBackups] gives them it keeps the first [maxBackupsPerSection]
    that are not older than the current time less [retentionDays] days,
    and deletes the others. So at most [maxBackupsPerSection] full
    backups remain and, when [retentionDays] is positive, none of them is
    older than that. *)
Theorem cleanupOldFullBackups_retention (mb : gmap string file) (w : world) :
  faults w = [] → backupDir w = Some mb →
  run (cleanupOldFullBackups cfg) w (λ r w',
    r = Ok tt ∧ sectionsDir w' = sectionsDir w
    ∧ ∃ mb', backupDir w' = Some mb'
      ∧ (∀ name f, mb' !! name = Some f → mb !! name = Some f)
      ∧ (∀ name, startsWith (fullBackupPrefix cfg) name = false →
           mb' !! name = mb !! name)
      ∧ (∀ b, b ∈ fullBackups (records cfg mb) →
           if expired cfg (clock w) b then mb' !! b_name b = None
           else b ∈ take (maxBackupsPerSection cfg)
                      (fullBackups (records cfg mb)) →
                mb' !! b_name b = mb !! b_name b)
      ∧ (∀ b, b ∈ drop (maxBackupsPerSection cfg)
                    (fullBackups (records cfg mb)) →
           mb' !! b_name b = None)
      ∧ (length (fullBackups (records cfg mb')) ≤ maxBackupsPerSection cfg)%nat
      ∧ (0 < retentionDays cfg →
         ∀ b, b ∈ fullBackups (records cfg mb') →
              ¬ b_date b < clock w - retentionDays cfg * msPerDay)).
Proof.
  intros Hf Hb.
  eapply run_mono; [by apply cleanupOldFullBackups_exact |].
  intros r w' (-> & _ & Hs & _ & Hb'). split; [done |]. split; [done |].
  set (fulls := fullBackups (records cfg mb)) in *.
  set (gone := doomed_of cfg fulls (clock w)) in *.
  exists (del_all mb gone). split; [done |].
  assert (Hlisted : ∀ b, b ∈ fullBackups (records cfg (del_all mb gone)) →
            b ∈ kept_of fulls (clock w)).
  { intros b [Hfull Hrec]%list_elem_of_filter.
    apply records_elem in Hrec as (f & Hfile & Hrec).
    rewrite del_all_lookup in Hfile. case_decide as Hd; [done |].
    assert (Hin : b ∈ fulls).
    { apply list_elem_of_filter. split; [done |]. apply records_elem. eauto. }
    destruct (doomed_of_or_kept fulls (clock w) b) as [[? _] | [_ ?]];
      [apply fullBackups_NoDup | done | done | done]. }
  split; [|split; [|split; [|split; [|split]]]].
  - intros name f. rewrite del_all_lookup. by case_decide.
  - intros name Hname. rewrite del_all_lookup. rewrite decide_False; [done |].
    intros (b & -> & Hin)%list_elem_of_fmap.
    apply doomed_of_subset, list_elem_of_filter in Hin as [Hfull Hrec].
    apply records_elem in Hrec as (f & _ & Hrec).
    rewrite Hrec in Hfull. unfold is_full in Hfull. simpl in Hfull.
    rewrite Hrec in Hname. simpl in Hname. by rewrite Hname in Hfull.
  - intros b Hin. rewrite del_all_lookup.
    destruct (doomed_of_or_kept fulls (clock w) b) as [[Hk Hd] | [Hk Hd]];
      [apply fullBackups_NoDup | done | |].
    + apply list_elem_of_filter in Hk as [Hex _].
      destruct (expired cfg (clock w) b); [done |]. intros _.
      by rewrite decide_False.
    + rewrite decide_True by done.
      destruct (expired cfg (clock w) b) eqn:Eb; [done |].
      intros Ht. destruct Hk. apply list_elem_of_filter. by rewrite Eb.
  - intros b Hin. rewrite del_all_lookup. rewrite decide_True; [done |].
    apply list_elem_of_fmap. exists b. split; [done |].
    unfold gone, doomed_of. apply elem_of_app. by left.
  - transitivity (length (kept_of fulls (clock w))).
    + apply submseteq_length, NoDup_submseteq; [|exact Hlisted].
      apply (sublist_NoDup _ (records cfg (del_all mb gone)));
        [apply records_NoDup | apply sublist_filter].
    + unfold kept_of. etransitivity; [apply length_filter |].
      rewrite length_take. lia.
  - intros Hpos b Hin Hold. apply Hlisted in Hin.
    apply list_elem_of_filter in Hin as [Hex _]. unfold expired in Hex.
    rewrite (proj2 (Z.ltb_lt _ _) Hpos), (proj2 (Z.ltb_lt _ _) Hold) in Hex.
    done.
Qed.

End WithPlatform.
End EngineFacts.

(* ===================================================================== *)
(** * Restoring: what a failed restore leaves behind                      *)
(* ===================================================================== *)

Module RestoreSafetyFacts.
Import JS JSFacts Json Fs Config FsFacts Logger Backup RetentionFacts.
Import RestoreFacts FullRestoreFacts.

(** [w'] has the backup directory of [w]. *)
Definition backups_kept (w w' : world) : Prop := backupDir w' = backupDir w.

Lemma backups_kept_quiet w w1 w2 :
  backups_kept w w1 → quiet w1 w2 → backups_kept w w2.
Proof. unfold backups_kept. intros H (_ & Hb & _). congruence. Qed.

Lemma backups_kept_write w w1 w2 name data t m :
  backups_kept w w1 → quiet w1 w2 →
  backups_kept w
    (emit (Wrote (Path SectionsDir name))
       (set_dir SectionsDir (<[name := File data t]> m) w2)).
Proof. unfold backups_kept. intros H (_ & Hb & _). simpl. congruence. Qed.

Section WithPlatform.
Context `{P : Platform}.
Variable cfg : backupConfig.

Lemma restoreSectionBackup_total (section content : string) (overwrite : bool)
    w0 w :
  backups_kept w0 w →
  run (restoreSectionBackup section content overwrite) w
    (λ r w', (∃ b, r = Ok b) ∧ backups_kept w0 w').
Proof.
  intros H0. unfold restoreSectionBackup.
  apply run_try_catch, run_bind, run_existsSync.
  apply run_if; intros _.
  - apply run_bind, run_writeFileSync.
    + intros w1 m Hq Hm. apply run_bind, run_console_log, run_ret.
      split; [by eexists |]. by apply (backups_kept_write w0 w w1).
    + intros w1 e Hq. apply run_bind, run_console_error, run_ret.
      split; [by eexists |]. by apply (backups_kept_quiet w0 w w1).
  - apply run_bind, run_console_log, run_ret. split; [by eexists | done].
Qed.

Lemma restoreFullBackup_total (backupData : json) (overwrite : bool) w0 w :
  backups_kept w0 w →
  run (restoreFullBackup backupData overwrite) w
    (λ r w', (∃ b, r = Ok b) ∧ backups_kept w0 w').
Proof.
  intros H0. unfold restoreFullBackup.
  assert (Hcatch : ∀ w1 e, backups_kept w0 w1 →
            run (console_error "error restoring full backup:" (Some e) ;;
                 ret false) w1 (λ r w', (∃ b, r = Ok b) ∧ backups_kept w0 w')).
  { intros w1 e H1. apply run_bind, run_console_error, run_ret.
    split; [by eexists | done]. }
  apply run_try_catch, run_bind, run_existsDir, run_bind.
  eapply (run_mono _ _ (λ _ w1, backups_kept w0 w1)).
  { apply run_if; intros _; [|by apply run_ret].
    apply run_mkdirSync.
    + intros w1 Hq _. by eapply backups_kept_quiet.
    + intros w1 Hq _. unfold backups_kept. simpl.
      destruct Hq as (_ & Hb & _). unfold backups_kept in H0. congruence.
    + intros w1 e Hq. by eapply backups_kept_quiet. }
  intros [[]|e] w1 H1; [|by apply Hcatch].
  apply run_bind, run_js_get. intros [metadata|e]; [|by apply Hcatch].
  apply run_bind.
  eapply (run_mono _ _ (λ _ w2, backups_kept w0 w2)).
  { apply run_if; intros _; [|by apply run_ret].
    apply run_bind, run_existsSync. apply run_if; intros _.
    - apply run_bind, run_writeFileSync.
      + intros w2 m Hq Hm. apply run_console_log.
        by apply (backups_kept_write w0 w1 w2).
      + intros w2 e Hq. by eapply backups_kept_quiet.
    - by apply run_console_log. }
  intros [[]|e] w2 H2; [|by apply Hcatch].
  apply run_bind, run_js_get. intros [sections|e]; [|by apply Hcatch].
  apply run_bind, run_Object_entries. intros [keys|e]; [|by apply Hcatch].
  apply run_bind, run_Object_entries. intros [entries|e]; [|by apply Hcatch].
  apply run_bind.
  eapply run_mono.
  { apply (run_fold_each (backups_kept w0)); [done |].
    intros [section content] n w3 _ H3.
    apply run_bind, run_existsSync. apply run_if; intros _.
    - apply run_bind. destruct content; try done.
      apply run_writeFileSync.
      + intros w4 m Hq Hm. apply run_ret.
        by apply (backups_kept_write w0 w3 w4).
      + intros w4 e Hq. by eapply backups_kept_quiet.
    - by apply run_bind, run_console_log, run_ret. }
  intros [n|e] w3 H3; [|by apply Hcatch].
  apply run_bind, run_console_log, run_ret. split; [by eexists | done].
Qed.

Lemma restoreFromBackup_total (backupPath : path) (section : option string)
    (overwrite : bool) w :
  run (restoreFromBackup cfg backupPath section overwrite) w
    (λ r w', (∃ b, r = Ok b) ∧ backups_kept w w').
Proof.
  unfold restoreFromBackup.
  assert (Hcatch : ∀ w1 e, backups_kept w w1 →
            run (console_error "error restoring from backup:" (Some e) ;;
                 ret false) w1 (λ r w', (∃ b, r = Ok b) ∧ backups_kept w w')).
  { intros w1 e H1. apply run_bind, run_console_error, run_ret.
    split; [by eexists | done]. }
  assert (Hw : backups_kept w w) by done.
  apply run_try_catch, run_bind, run_existsSync.
  apply run_if; intros _.
  { apply run_bind, run_console_error, run_ret. split; [by eexists | done]. }
  apply run_bind.
  eapply (run_mono _ _ (λ _ w1, backups_kept w w1)).
  { apply run_if; intros _.
    - apply run_bind, run_readFileSync.
      + intros w1 f Hq _. apply run_gunzip_or_throw. intros _.
        by apply (backups_kept_quiet w w).
      + intros w1 e Hq. by apply (backups_kept_quiet w w).
    - apply run_readFileSync; intros; by apply (backups_kept_quiet w w). }
  intros [content|e] w1 H1; [|by apply Hcatch].
  apply run_if; intros _.
  - apply run_bind, run_JSON_parse_or_throw. intros [data|e]; [|by apply Hcatch].
    eapply run_mono; [by apply restoreFullBackup_total |].
    intros [b|e] w2 [[b' Hb'] H2]; [by split; [eexists |] | discriminate].
  - apply run_if; intros _.
    + eapply run_mono; [by apply restoreSectionBackup_total |].
      intros [b|e] w2 [[b' Hb'] H2]; [by split; [eexists |] | discriminate].
    + apply run_bind, run_console_error, run_ret. split; [by eexists | done].
Qed.

(** The names a restore from the artifact at [backupPath] joins to the
    sections directory hold no path separator: the section argument, and
    the keys of the [sections] object when the artifact parses to a
    payload that has one. *)
Definition flat_names (backupPath : path) (section : option string)
    (w : world) : Prop :=
  (∀ s, section = Some s → separator_free s = true)
  ∧ (∀ a content props secs,
       lookup_file backupPath w = Some a → decodes backupPath a content →
       JSON_parse content = Some (JObj props) →
       obj_get "sections" props = Some (JObj secs) →
       Forall (λ k, separator_free k = true) secs.*1).

(** [restoreFromBackup] never throws, whatever the artifact, the
    arguments and the failures; and it never changes the backup
    directory when the names it joins to the sections directory hold no
    path separator ([path.join] takes a name such as [../backups/x] out
    of the sections directory). It returns [false] and changes no file,
    with one line on [console.error], when the artifact is missing; and,
    on a machine where nothing fails, when the artifact is a section
    backup and no section is named, when a [.gz] artifact is not gzip
    data, and when the artifact of a full backup does not parse. *)
Theorem restoreFromBackup_failures (backupPath : path)
    (section : option string) (overwrite : bool) (w : world) :
  run (restoreFromBackup cfg backupPath section overwrite) w
    (λ r w', ∃ b, r = Ok b)
  ∧ (flat_names backupPath section w →
     run (restoreFromBackup cfg backupPath section overwrite) w
       (λ r w', backupDir w' = backupDir w))
  ∧ (lookup_file backupPath w = None →
     restoreFromBackup cfg backupPath section overwrite w
     = (Ok false,
        emit (LogError ("backup file not found: " +:+ path_string backupPath)
                None) w))
  ∧ (∀ a, faults w = [] → lookup_file backupPath w = Some a →
       let failed e :=
         restoreFromBackup cfg backupPath section overwrite w
         = (Ok false, emit (LogError "error restoring from backup:" (Some e)) w) in
       (endsWith ".gz" (path_string backupPath) = true →
        gunzipSync (f_data a) = None → failed ZlibError)
       ∧ (∀ content, decodes backupPath a content →
            (startsWith (fullBackupPrefix cfg) (p_name backupPath) = true →
             JSON_parse content = None → failed SyntaxError)
            ∧ (startsWith (fullBackupPrefix cfg) (p_name backupPath) = false →
               section = None ∨ section = Some "" →
               restoreFromBackup cfg backupPath section overwrite w
               = (Ok false,
                  emit (LogError
                          "section name required for individual backup restoration"
                          None) w)))).
Proof.
  split.
  { eapply run_mono; [apply restoreFromBackup_total |]. by intros r w' [? _]. }
  split.
  { intros _. eapply run_mono; [apply restoreFromBackup_total |].
    by intros r w' [_ ?]. }
  split.
  - intros Hnone. unfold restoreFromBackup, try_catch, bind, existsSync.
    rewrite bool_decide_eq_false_2; [done |]. rewrite Hnone. by intros [? ?].
  - intros a Hf Ha failed.
    assert (Hread : readFileSync backupPath w = (Ok (f_data a), w)).
    { apply run_eq. by eapply run_readFileSync_ok. }
    assert (Hex : existsSync backupPath w = (Ok true, w)).
    { unfold existsSync. by rewrite bool_decide_eq_true_2 by (by eexists). }
    split.
    + intros Hgz Hbad. unfold failed, restoreFromBackup, try_catch, bind.
      rewrite Hex. cbn [negb]. rewrite Hgz, Hread.
      unfold gunzip_or_throw. by rewrite Hbad.
    + intros content Hdec.
      assert (Hcontent :
        (if endsWith ".gz" (path_string backupPath)
         then bind (readFileSync backupPath) (λ compressed,
                gunzip_or_throw compressed)
         else readFileSync backupPath) w = (Ok content, w)).
      { unfold decodes in Hdec.
        destruct (endsWith ".gz" (path_string backupPath)).
        - unfold bind. rewrite Hread. unfold gunzip_or_throw. by rewrite Hdec.
        - by rewrite Hread, Hdec. }
      split.
      * intros Hfull Hbad. unfold failed, restoreFromBackup, try_catch.
        unfold bind at 1. rewrite Hex. cbn [negb].
        unfold bind at 1. rewrite Hcontent. rewrite Hfull.
        unfold bind, JSON_parse_or_throw. by rewrite Hbad.
      * intros Hsec Hnone. unfold restoreFromBackup, try_catch.
        unfold bind at 1. rewrite Hex. cbn [negb].
        unfold bind at 1. rewrite Hcontent. rewrite Hsec.
        by destruct Hnone as [-> | ->].
Qed.

(** A restore that fails may have restored the sidecar already: for a
    payload that has a [metadata] value and no [sections], on a machine
    where nothing fails and with the sections directory in place,
    [restoreFullBackup] returns [false] and reports a [TypeError], after
    it has replaced the sidecar with the payload's (when [overwrite] is
    set or there was no sidecar); no other file is touched. *)
Theorem restoreFullBackup_without_sections (props : list (string * json))
    (md : json) (ms : gmap string file) (overwrite : bool) (w : world) :
  faults w = [] → sectionsDir w = Some ms →
  obj_get "metadata" props = Some md → truthy (Some md) = true →
  obj_get "sections" props = None →
  run (restoreFullBackup (JObj props) overwrite) w (λ r w',
    r = Ok false
    ∧ backupDir w' = backupDir w
    ∧ sectionsDir w'
      = Some (if overwrite || negb (bool_decide (is_Some (ms !! "metadata.json")))
              then <["metadata.json" := File (JSON_stringify md) (clock w)]> ms
              else ms)
    ∧ last (trace w')
      = Some (LogError "error restoring full backup:" (Some TypeError))).
Proof.
  intros Hf Hms Hmd Htruthy Hsec. unfold restoreFullBackup.
  apply run_try_catch, run_bind, run_existsDir. simpl. rewrite Hms.
  rewrite bool_decide_eq_true_2 by eauto. simpl.
  apply run_bind, run_ret, run_bind, run_ret. rewrite Hmd, Htruthy.
  apply run_bind, run_bind, run_existsSync.
  unfold lookup_file. simpl. rewrite Hms. simpl.
  destruct (overwrite || negb (bool_decide (is_Some (ms !! "metadata.json"))))
    eqn:Ew.
  - apply run_bind. eapply run_writeFileSync_ok; [done.. |].
    apply run_console_log, run_bind, run_ret. rewrite Hsec.
    apply run_bind, run_throw, run_bind, run_console_error, run_ret.
    simpl. split; [done |]. split; [done |]. split; [done |].
    by rewrite last_snoc.
  - apply run_console_log, run_bind, run_ret. rewrite Hsec.
    apply run_bind, run_throw, run_bind, run_console_error, run_ret.
    simpl. split; [done |]. split; [done |]. split; [done |].
    by rewrite last_snoc.
Qed.

End WithPlatform.

(** ** [restoreBackup] *)

Lemma at_index_some {A} (i : Z) (l : list A) :
  is_Some (at_index i l) ↔ 0 ≤ i < Z.of_nat (length l).
Proof.
  unfold at_index. destruct (i <? 0) eqn:Ei.
  - apply Z.ltb_lt in Ei. split; [by intros [? ?] | lia].
  - apply Z.ltb_ge in Ei. rewrite lookup_lt_is_Some. lia.
Qed.

(** [restoreBackup] restores nothing: whatever its arguments, it changes
    no file and prints one line. The line names a backup exactly when
    the type is [full] or [section] and the number, counted from 1, is
    within the list of that type; the backup it names is then the one at
    that place of the list. *)
Theorem restoreBackup_only_prints (type : string) (number : Z)
    (fullBackups sectionBackups : list backup) (w : world) :
  ∃ line,
    restoreBackup type number fullBackups sectionBackups w
    = (Ok tt, emit (Log line) w)
    ∧ let chosen :=
        if string_eqb type "full" then fullBackups
        else if string_eqb type "section" then sectionBackups
        else [] in
      (1 ≤ number ≤ Z.of_nat (length chosen) →
       ∃ b, chosen !! Z.to_nat (number - 1) = Some b
            ∧ line = "Restoring backup: " +:+ b_name b)
      ∧ (¬ 1 ≤ number ≤ Z.of_nat (length chosen) →
         line = "Invalid backup number or type.").
Proof.
  unfold restoreBackup.
  set (chosen := if string_eqb type "full" then fullBackups
                 else if string_eqb type "section" then sectionBackups
                 else []).
  assert (Hsel : (if string_eqb type "full" then at_index (number - 1) fullBackups
                  else if string_eqb type "section"
                       then at_index (number - 1) sectionBackups
                       else None) = at_index (number - 1) chosen).
  { unfold chosen. destruct (string_eqb type "full"); [done |].
    destruct (string_eqb type "section"); [done |].
    unfold at_index. destruct (number - 1 <? 0); [done |].
    by rewrite lookup_nil. }
  rewrite Hsel. pose proof (at_index_some (number - 1) chosen) as Hin.
  destruct (at_index (number - 1) chosen) as [b|] eqn:Eb.
  - eexists. split; [done |]. cbv zeta. split.
    + intros _. exists b. split; [|done].
      unfold at_index in Eb. by destruct (number - 1 <? 0).
    + intros Hout. destruct Hout. assert (0 ≤ number - 1 < Z.of_nat (length chosen)).
      { apply Hin. by eexists. }
      lia.
  - eexists. split; [done |]. cbv zeta. split; [|done].
    intros Hrange. assert (Hs : is_Some (@None backup)) by (apply Hin; lia).
    by destruct Hs.
Qed.

End RestoreSafetyFacts.

(* ===================================================================== *)
(** * Full backups never touch the sections                               *)
(* ===================================================================== *)

Module FullBackupSafetyFacts.
Import JS JSFacts Json Fs Config FsFacts Logger Backup RetentionFacts.
Import RestoreFacts FullRestoreFacts RetentionExact FullBackupFacts.

(** [w'] has the sections directory and the clock of [w]. *)
Definition sections_kept (w w' : world) : Prop :=
  sectionsDir w' = sectionsDir w ∧ clock w' = clock w.

Lemma sections_kept_quiet w w1 w2 :
  sections_kept w w1 → quiet w1 w2 → sections_kept w w2.
Proof. intros [? ?] (? & _ & ? & _). split; congruence. Qed.

Lemma sections_kept_only_output w w1 w2 :
  sections_kept w w1 → only_output w1 w2 → sections_kept w w2.
Proof. intros [? ?] [(? & _ & ?) _]. split; congruence. Qed.

Lemma sections_kept_printed w w1 w2 :
  sections_kept w w1 → printed w1 w2 → sections_kept w w2.
Proof. intros [? ?] (? & _ & ? & _). split; congruence. Qed.

Section WithPlatform.
Context `{P : Platform}.
Variable cfg : backupConfig.

Lemma getSections_reads w :
  run Backup.getSections w (λ r w', (∃ l, r = Ok l) ∧ only_output w w').
Proof.
  unfold Backup.getSections. apply run_try_catch, run_bind, run_readdirSync.
  - intros w' m Hq _. apply run_ret. split; [by eexists |].
    by apply only_output_quiet.
  - intros w' e Hq. apply run_bind, run_console_error, run_ret.
    split; [by eexists |]. by apply only_output_emit, only_output_quiet.
Qed.

Lemma listBackups_kept w0 w :
  sections_kept w0 w →
  run (listBackups cfg None None) w (λ r w',
    sections_kept w0 w'
    ∧ ∃ l, r = Ok l ∧ Forall (λ b, p_dir (b_path b) = BackupDir) l).
Proof.
  intros H0. unfold listBackups. apply run_bind, run_bind.
  eapply run_mono; [apply listAllBackups_reads |].
  intros r w1 [Hout (l & -> & Hl)]. apply run_ret.
  assert (H1 := sections_kept_only_output _ _ _ H0 Hout).
  assert (Hlines : ∀ (l : list backup) none line w2,
            sections_kept w0 w2 →
            run (match l with
                 | [] => console_log none
                 | _ => log_numbered 0 l line
                 end) w2 (λ r w', r = Ok tt ∧ sections_kept w0 w')).
  { intros l' none line w2 H2. destruct l' as [|b l'].
    - by apply run_console_log.
    - eapply run_mono; [apply log_numbered_printed |].
      intros r w' [-> Hp]. split; [done |]. by eapply sections_kept_printed. }
  apply run_bind, run_console_log, run_bind, run_console_log, run_bind.
  eapply run_mono; [by apply Hlines |].
  intros r w2 [-> H2]. apply run_bind, run_console_log, run_bind.
  eapply run_mono; [by apply Hlines |].
  intros r w3 [-> H3].
  apply run_bind, run_console_log, run_bind, run_console_log, run_ret.
  split; [done |]. eexists. split; [done |].
  assert (Hdir : Forall (λ b, p_dir (b_path b) = BackupDir) l).
  { eapply Forall_impl; [exact Hl |]. intros b Hb.
    apply listed_path in Hb. by rewrite Hb. }
  apply Forall_app.
  split; apply Forall_forall; intros b [_ Hb]%list_elem_of_filter;
    rewrite Forall_forall in Hdir; by apply Hdir.
Qed.

Lemma run_delete_kept (w0 : world) (l : list backup) (msg : backup → string) w :
  Forall (λ b, p_dir (b_path b) = BackupDir) l →
  sections_kept w0 w →
  run (for_each l (λ b, unlinkSync (b_path b) ;; console_log (msg b))) w
    (λ _ w', sections_kept w0 w').
Proof.
  intros Hl Hw. apply (run_for_each (sections_kept w0)); [done |].
  intros b w1 Hb Hw1. rewrite Forall_forall in Hl. specialize (Hl _ Hb).
  apply run_bind, run_unlinkSync.
  - intros w2 m Hq _ _. apply run_console_log. rewrite Hl.
    by apply (sections_kept_quiet w0 w1 w2).
  - intros w2 e Hq. by eapply sections_kept_quiet.
Qed.

Lemma cleanupOldFullBackups_kept w0 w :
  sections_kept w0 w →
  run (cleanupOldFullBackups cfg) w (λ r w', r = Ok tt ∧ sections_kept w0 w').
Proof.
  intros H0. unfold cleanupOldFullBackups. apply run_try_catch, run_bind.
  eapply run_mono; [by apply listBackups_kept |].
  intros r w1 [H1 (l & -> & Hl)].
  assert (Hsub : ∀ l', l' ⊆ l → Forall (λ b, p_dir (b_path b) = BackupDir) l').
  { intros l' Hsub. apply Forall_forall. intros b Hb.
    rewrite Forall_forall in Hl. by apply Hl, Hsub. }
  set (backups := filter _ l).
  assert (Hb : backups ⊆ l) by (intros b [_ ?]%list_elem_of_filter; done).
  apply run_bind.
  eapply (run_mono _ _ (λ _ w2, sections_kept w0 w2)).
  { apply run_if; intros _; [|by apply run_ret].
    apply run_delete_kept; [|done]. apply Hsub.
    intros b Hb'. by apply Hb, (subseteq_drop (maxBackupsPerSection cfg)). }
  intros [[]|e] w2 Hw2.
  - apply run_if; intros _; [|by apply run_ret].
    apply run_bind, run_now.
    eapply run_mono.
    { apply (run_delete_kept w0); [|done]. apply Hsub.
      intros b [_ ?]%list_elem_of_filter. by apply Hb. }
    intros [[]|e] w3 Hw3; simpl; [done |].
    by apply run_console_error.
  - by apply run_console_error.
Qed.

(** [createFullBackup] never throws and never changes the sections
    directory, whatever fails: it only reads there. It returns either the
    path it names its artifact from the time of the call, or [null] after
    a line on [console.error] that says the full backup failed. *)
Theorem createFullBackup_reads_sections (w : world) :
  run (createFullBackup cfg) w (λ r w',
    sectionsDir w' = sectionsDir w
    ∧ (r = Ok (Some (fullArtifact cfg (clock w)))
       ∨ r = Ok None
         ∧ ∃ e, last (trace w')
                = Some (LogError "error creating full backup:" (Some e)))).
Proof.
  match goal with |- run _ _ ?post => set (Q := post) end.
  assert (Hcatch : ∀ w1 e, sections_kept w w1 →
            run (console_error "error creating full backup:" (Some e) ;;
                 ret (None : option path)) w1 Q).
  { intros w1 e [H1 _]. apply run_bind, run_console_error, run_ret.
    split; [done |]. right. split; [done |]. exists e. simpl.
    by rewrite last_snoc. }
  unfold createFullBackup.
  apply run_try_catch, run_bind, run_existsDir, run_bind.
  eapply (run_mono _ _ (λ _ w1, sections_kept w w1)).
  { apply run_if; intros _; [|by apply run_ret].
    apply run_mkdirSync.
    - intros w1 Hq _. by apply (sections_kept_quiet w w).
    - intros w1 Hq _. destruct Hq as (? & _ & ? & _). by split.
    - intros w1 e Hq. by apply (sections_kept_quiet w w). }
  intros [[]|e] w1 H1; [|by apply Hcatch].
  apply run_bind, run_now, run_bind.
  eapply run_mono; [apply getSections_reads |].
  intros r w2 [[sections ->] Hout].
  assert (H2 := sections_kept_only_output _ _ _ H1 Hout).
  apply run_bind, run_now, run_bind, run_existsSync, run_bind.
  eapply (run_mono _ _ (λ _ w3, sections_kept w w3)).
  { apply run_if; intros _; [|by apply run_ret].
    apply run_bind, run_readFileSync.
    - intros w3 f Hq _. apply run_JSON_parse_or_throw. intros _.
      by eapply sections_kept_quiet.
    - intros w3 e Hq. by eapply sections_kept_quiet. }
  intros [metadata|e] w3 H3; [|by apply Hcatch].
  apply run_bind.
  eapply run_mono.
  { apply (run_fold_each (sections_kept w)); [done |].
    intros section acc w4 _ H4.
    apply run_bind, run_existsSync. apply run_if; intros _; [|by apply run_ret].
    apply run_bind, run_readFileSync.
    - intros w5 f Hq _. apply run_ret. by eapply sections_kept_quiet.
    - intros w5 e Hq. by eapply sections_kept_quiet. }
  intros [contents|e] w4 H4; [|by apply Hcatch].
  assert (Hclock : clock w1 = clock w) by apply H1.
  assert (Hfinish : ∀ name data msg,
    run (writeFileSync (Path BackupDir name) data ;;
         console_log msg ;;
         cleanupOldFullBackups cfg ;;
         ret (Some (Path BackupDir name))) w4
      (λ r w', match r with
               | Ok a => a = Some (Path BackupDir name) ∧ sections_kept w w'
               | Throw _ => sections_kept w w'
               end)).
  { intros name data msg. apply run_bind, run_writeFileSync.
    - intros w5 m Hq Hm. apply run_bind, run_console_log, run_bind.
      eapply run_mono.
      { apply (cleanupOldFullBackups_kept w).
        destruct H4 as [? ?], Hq as (? & _ & ? & _). split; simpl; congruence. }
      intros r w6 [-> H6]. by apply run_ret.
    - intros w5 e Hq. by eapply sections_kept_quiet. }
  rewrite Hclock.
  destruct (useCompression cfg) eqn:Ec;
    (eapply run_mono; [apply Hfinish |]);
    (intros [a|e] w5 H5; [|by apply Hcatch]);
    destruct H5 as [-> [H5 _]];
    (split; [done |]; left; unfold fullArtifact, fullName; by rewrite Ec).
Qed.

(** The two modules list the same sections: [getSections] of the backup
    module and [getSections] of the logger return the same list from
    every state, whatever fails, and leave the same files; they differ
    only in the words of the error they print. *)
Theorem getSections_agree (w : world) :
  (Backup.getSections w).1 = (Logger.getSections w).1
  ∧ same_files (Backup.getSections w).2 (Logger.getSections w).2
  ∧ faults (Backup.getSections w).2 = faults (Logger.getSections w).2
  ∧ ∃ l, (Logger.getSections w).1 = Ok l.
Proof.
  unfold Backup.getSections, Logger.getSections, try_catch, bind.
  destruct (readdirSync SectionsDir w) as [[files|e] w1]; simpl.
  - split; [done |]. split; [done |]. split; [done |]. by eexists.
  - split; [done |]. split; [done |]. split; [done |]. by eexists.
Qed.

End WithPlatform.
End FullBackupSafetyFacts.

(* ===================================================================== *)
(** * Tagged messages and artifacts, from their making to their reading   *)
(* ===================================================================== *)

Module MakingFacts.
Import JS JSFacts Json Fs Config Logger Backup Tag TagFacts TagFormatFacts.
Import FsFacts RetentionFacts BackupFacts RestoreFacts FullRestoreFacts.
Import EngineFacts.

Lemma indexOf_prefix (pat rest : string) : indexOf pat (pat +:+ rest) = 0.
Proof.
  destruct (pat +:+ rest) eqn:E; cbn [indexOf]; by rewrite <- E, startsWith_app.
Qed.

Lemma drop_string_app (a b : string) :
  drop_string (String.length a) (a +:+ b) = b.
Proof.
  induction a as [|c a IH]; [by destruct b |]. by rewrite app_cons.
Qed.

(** How a message made by [createTaggedMessage] is shown: for a tag with
    no closing bracket and no line terminator, [formatTaggedLog] gives
    the whole message in red, green or blue when the tag is [important],
    [idea] or [todo] in any case of the letters, and otherwise the
    bracketed tag in cyan followed by a space and the message as it
    was. *)
Theorem formatTaggedLog_createTaggedMessage (chalk : palette)
    (tag message : string) :
  includes_char "]" tag = false →
  single_line tag = true →
  formatTaggedLog chalk (createTaggedMessage tag message)
  = if string_eqb (toLowerCase tag) "important"
    then red chalk (createTaggedMessage tag message)
    else if string_eqb (toLowerCase tag) "idea"
    then green chalk (createTaggedMessage tag message)
    else if string_eqb (toLowerCase tag) "todo"
    then blue chalk (createTaggedMessage tag message)
    else cyan chalk ("[" +:+ tag +:+ "]") +:+ " " +:+ message.
Proof.
  intros Hclose Hline. unfold formatTaggedLog.
  rewrite (match_tag_tagged tag message Hclose Hline).
  set (pat := "[" +:+ tag +:+ "]").
  assert (Hlog : createTaggedMessage tag message = pat +:+ " " +:+ message).
  { unfold createTaggedMessage, pat. rewrite !app_assoc.
    by rewrite (app_cons "]" "" (" " +:+ message)). }
  assert (Hopen : includes_char "[" (createTaggedMessage tag message) = true).
  { unfold createTaggedMessage. by rewrite app_cons. }
  rewrite Hopen. cbv zeta.
  destruct (string_eqb (toLowerCase tag) "important"); [done |].
  destruct (string_eqb (toLowerCase tag) "idea"); [done |].
  destruct (string_eqb (toLowerCase tag) "todo"); [done |].
  rewrite Hlog, indexOf_prefix.
  assert (Hbefore : substring 0 0 (pat +:+ " " +:+ message) = "").
  { unfold substring, clamp. rewrite Z.max_id, Z.min_l by lia. done. }
  assert (Hafter : substring_from (0 + Z.of_nat (String.length tag) + 2)
                     (pat +:+ " " +:+ message) = " " +:+ message).
  { unfold substring_from, clamp.
    assert (Hpat : String.length pat = S (String.length tag + 1)).
    { unfold pat. rewrite app_cons, app_nil_l. cbn [String.length].
      by rewrite string_length_app. }
    rewrite string_length_app, Hpat.
    rewrite Z.max_l by lia. rewrite Z.min_l by lia.
    replace (Z.to_nat (0 + Z.of_nat (String.length tag) + 2))
      with (String.length pat) by lia.
    apply drop_string_app. }
  by rewrite Hbefore, Hafter, app_nil_l.
Qed.

Lemma formatTaggedLog_createTaggedMessage_witness :
  formatTaggedLog plain (createTaggedMessage "Later" "buy milk")
  = "[Later] buy milk".
Proof.
  apply (formatTaggedLog_createTaggedMessage plain "Later" "buy milk");
    reflexivity.
Defined.

Section WithPlatform.
Context `{P : Platform}.
Variable cfg : backupConfig.

(** Which sections retention can see: the artifact [backupSection] makes
    for a section is listed by [listAllBackups] as a backup of that
    section exactly when its name does not start with [fullBackupPrefix]
    and the section id is not empty and holds no hyphen. For any other
    section the filter of [cleanupOldBackups] finds none of its
    artifacts. *)
Theorem sectionArtifact_owner (section : string) (t : Z) (st : stats) :
  let b := record_of cfg (p_name (sectionArtifact cfg section t)) st in
  (section_is section b = true ∧ b_type b = TSection)
  ↔ (startsWith (fullBackupPrefix cfg)
       (p_name (sectionArtifact cfg section t)) = false
     ∧ section ≠ "" ∧ includes_char "-" section = false).
Proof.
  cbv zeta. unfold record_of, section_is. cbn [b_section b_type].
  assert (Hname : ∃ tail,
            p_name (sectionArtifact cfg section t) = section +:+ "-" +:+ tail).
  { unfold sectionArtifact. cbn [p_name].
    destruct (useCompression cfg); eexists; by rewrite ?app_assoc. }
  destruct Hname as [tail Hname]. rewrite Hname.
  destruct (startsWith (fullBackupPrefix cfg) (section +:+ "-" +:+ tail)).
  { split; [by intros [? ?] | by intros [? ?]]. }
  split.
  - intros [Hsec _].
    destruct (match_section_name (section +:+ "-" +:+ tail)) as [s|] eqn:E;
      [|done].
    apply string_eqb_eq in Hsec as ->.
    apply match_section_name_iff in E as (? & ? & _). done.
  - intros (_ & Hne & Hno).
    assert (E : match_section_name (section +:+ "-" +:+ tail) = Some section).
    { apply match_section_name_iff. split; [done |]. split; [done |].
      by exists tail. }
    rewrite E. by rewrite string_eqb_refl.
Qed.

(** The restore of one section, on a machine where nothing fails, from a
    readable artifact that is not named as a full backup, for a section
    id that is not empty and with the sections directory in place: the
    log is written exactly when [overwrite] is set or the section has no
    log, and the call returns whether it wrote. When it writes, the log
    holds the content of the artifact (unzipped when the artifact ends in
    [.gz]); when it does not, the log is as it was. No other file is
    touched either way. *)
Theorem restoreFromBackup_section_writes_iff (backupPath : path)
    (section : string) (overwrite : bool) (a : file) (content : string)
    (w : world) :
  faults w = [] → is_Some (sectionsDir w) →
  lookup_file backupPath w = Some a →
  decodes backupPath a content →
  startsWith (fullBackupPrefix cfg) (p_name backupPath) = false →
  section ≠ "" →
  let log := Path SectionsDir (logName section) in
  let wrote := overwrite || negb (bool_decide (is_Some (lookup_file log w))) in
  run (restoreFromBackup cfg backupPath (Some section) overwrite) w (λ r w',
    r = Ok wrote
    ∧ lookup_file log w'
      = (if wrote then Some (File content (clock w)) else lookup_file log w)
    ∧ (∀ name, name ≠ logName section →
         lookup_file (Path SectionsDir name) w'
         = lookup_file (Path SectionsDir name) w)
    ∧ backupDir w' = backupDir w
    ∧ last (trace w')
      = Some (Log (if wrote
                   then "section " +:+ section +:+ " restored successfully"
                   else "skipping section " +:+ section +:+ " (file exists)"))).
Proof.
  intros Hf [ms Hms] Ha Hdec Hprefix Hsec log wrote.
  unfold restoreFromBackup.
  apply run_try_catch, run_bind, run_existsSync.
  rewrite bool_decide_eq_true_2 by eauto. cbn [negb]. apply run_bind.
  apply (run_mono _ _ (λ r w', r = Ok content ∧ w' = w)).
  { unfold decodes in Hdec. destruct (endsWith ".gz" (path_string backupPath)).
    - apply run_bind. eapply run_readFileSync_ok; [done.. |].
      unfold run, gunzip_or_throw. by rewrite Hdec.
    - eapply run_readFileSync_ok; [done.. |]. by rewrite Hdec. }
  intros r w' [-> ->]. rewrite Hprefix.
  assert (Htruthy : truthy (JStr <$> Some section) = true).
  { simpl. by rewrite (proj2 (string_eqb_neq _ _) Hsec). }
  rewrite Htruthy. cbn [default from_option id]. unfold restoreSectionBackup.
  apply run_try_catch, run_bind, run_existsSync.
  change (Path SectionsDir (section +:+ ".txt")) with log.
  subst wrote.
  destruct (overwrite || negb (bool_decide (is_Some (lookup_file log w))))
    eqn:Ew.
  - apply run_bind. eapply run_writeFileSync_ok; [done | exact Hms |].
    apply run_bind, run_console_log, run_ret.
    split; [done |]. unfold log, lookup_file. simpl.
    split; [by rewrite lookup_insert_eq |]. split.
    + intros name Hne. rewrite Hms. simpl. by rewrite lookup_insert_ne.
    + split; [done |]. by rewrite last_snoc.
  - apply run_bind, run_console_log, run_ret.
    split; [done |]. split; [done |]. split; [done |]. split; [done |].
    simpl. by rewrite last_snoc.
Qed.

End WithPlatform.

End MakingFacts.

(* ===================================================================== *)
(** * The further properties on a concrete store                          *)
(* ===================================================================== *)

Module Scenarios.
Import JS JSFacts Json Fs Config FsFacts Logger Backup Rotation Node NodeFacts.
Import RetentionFacts RestoreFacts FullRestoreFacts RetentionExact.
Import SectionFacts FullBackupFacts SectionRestoreFacts.
Import StoreFacts EntryFacts RotationFacts EngineFacts RestoreSafetyFacts.
Import MakingFacts.

(** 2026-11-02T12:00:00.000Z. *)
Definition noon : Z := 1793620800000.

Definition diary_text : string := "mon" +:+ NL +:+ "tue" +:+ NL.

Definition diary_sidecar : json :=
  JObj [("diary", JObj [("description", JStr "days")])].

Definition diary_sections : gmap string file :=
  {[ "diary.txt" := File diary_text 5;
     "metadata.json" := File (stringify 0 diary_sidecar) 6 ]}.

(** Seven full backups, one of them from 1970, and one backup of a
    section. *)
Definition diary_backups : gmap string file :=
  {[ "full-backup-a.bak.gz" := File (gzip "a") (noon - 1);
     "full-backup-b.bak.gz" := File (gzip "b") (noon - 2);
     "full-backup-c.bak.gz" := File (gzip "c") 1000;
     "full-backup-d.bak.gz" := File (gzip "d") (noon - 4);
     "full-backup-e.bak.gz" := File (gzip "e") (noon - 5);
     "full-backup-f.bak.gz" := File (gzip "f") (noon - 6);
     "full-backup-g.bak.gz" := File (gzip "g") (noon - 7);
     "diary-a.bak.gz" := File "not gzip" (noon - 8) ]}.

Definition diary_store : world :=
  World (Some diary_sections) (Some diary_backups) noon [] [].

(** A machine on which the program has never run. *)
Definition bare_store : world := World None None noon [] [].

Lemma diary_metadata : metadata_of diary_store = diary_sidecar.
Proof. vm_compute. reflexivity. Qed.

Lemma getSections_lists_sections_witness :
  Logger.getSections diary_store = (Ok ["diary"], diary_store)
  ∧ run Logger.getSections bare_store (λ r w', r = Ok []).
Proof.
  destruct (getSections_lists_sections diary_store) as (_ & _ & Hlist).
  destruct (getSections_lists_sections bare_store) as (_ & Hnone & _).
  split.
  - vm_compute. reflexivity.
  - eapply run_mono; [apply Hnone; reflexivity |]. by intros r w' [-> _].
Defined.

Lemma createSection_then_listed_witness :
  run (createSection "my notes!" "ideas") diary_store (λ r w1,
    r = Ok "my_notes_"
    ∧ ∃ after, Logger.getSections w1 = (Ok after, w1)
               ∧ "my_notes_" ∈ after ∧ "diary" ∈ after).
Proof.
  eapply run_mono.
  - apply (createSection_then_listed "my notes!" "ideas" diary_sections
             [("diary", JObj [("description", JStr "days")])] diary_store);
      [reflexivity | reflexivity | exact diary_metadata].
  - intros r w1 (Hr & before & after & Hbefore & Hafter & Hin & Hkeep).
    split; [exact Hr |]. exists after. split; [exact Hafter |].
    split; [exact Hin |]. apply Hkeep.
    assert (E : before = ["diary"]).
    { vm_compute in Hbefore. by injection Hbefore as <-. }
    rewrite E. by left.
Defined.

Lemma createSection_throws_witness :
  run (createSection "notes" "ideas") bare_store (λ r w',
    (∃ e, r = Throw e) ∧ quiet bare_store w').
Proof.
  apply (proj1 (createSection_throws "notes" "ideas" bare_store)).
  reflexivity.
Defined.

Lemma sidecar_save_then_get_witness :
  run (saveSectionMetadata diary_sidecar ;; getSectionMetadata)
    (World (Some ∅) (Some ∅) noon [] []) (λ r w', r = Ok diary_sidecar).
Proof.
  eapply run_mono.
  - apply (proj2 (proj2 (sidecar_save_then_get diary_sidecar
                           (World (Some ∅) (Some ∅) noon [] [])))).
    + rewrite <- diary_metadata. apply metadata_of_wf.
    + reflexivity.
    + by eexists.
  - by intros r w' [-> _].
Defined.

Lemma ensureDefaultSection_once_witness :
  run ensureDefaultSection diary_store (λ r w1,
    r = Ok tt
    ∧ lookup_file (getLogFilePath "base") w1 = Some (File "" noon)
    ∧ metadata_of w1
      = JObj [("diary", JObj [("description", JStr "days")]);
              ("base", JObj [("description", JStr "General thoughts")])]
    ∧ ensureDefaultSection w1 = (Ok tt, w1)).
Proof.
  eapply run_mono.
  - apply (ensureDefaultSection_once diary_sections
             [("diary", JObj [("description", JStr "days")])] diary_store);
      [reflexivity | reflexivity | exact diary_metadata].
  - intros r w1 (Hr & _ & Hnew & _ & Hagain).
    destruct (Hnew eq_refl) as (Hfile & Hmeta & _).
    split; [exact Hr |]. split; [exact Hfile |]. split; [exact Hmeta |].
    exact Hagain.
Defined.

Lemma init_prepares_store_witness :
  run (ensureDirectories ;; ensureDefaultSection) bare_store (λ r w1,
    r = Ok tt
    ∧ is_Some (sectionsDir w1) ∧ is_Some (backupDir w1)
    ∧ ∃ sections,
        Logger.getSections w1 = (Ok sections, w1) ∧ "base" ∈ sections).
Proof.
  eapply run_mono.
  - apply (init_prepares_store [] bare_store); reflexivity.
  - intros r w1 (Hr & Hs & Hb & _ & _ & _ & Hlisted & _).
    split; [exact Hr |]. split; [exact Hs |]. split; [exact Hb |].
    exact Hlisted.
Defined.

Lemma saveLog_reports_size_witness :
  run (saveLog "diary" "wed") diary_store (λ r w',
    r = Ok false
    ∧ lookup_file (getLogFilePath "diary") w'
      = Some (File (diary_text +:+ "wed" +:+ NL) noon)).
Proof.
  eapply run_mono.
  - apply (proj1 (proj2 (saveLog_reports_size "diary" "wed" diary_store
                           eq_refl eq_refl)));
      [reflexivity | by eexists].
  - cbv zeta. intros r w' (Hr & Hfile & _). split; [|exact Hfile].
    rewrite Hr. reflexivity.
Defined.

Lemma createBackup_result_witness :
  run (createBackup "diary" true) diary_store (λ r w',
    r = Ok true
    ∧ lookup_file (getLogFilePath "diary") w' = Some (File "" noon)
    ∧ lookup_file (Path BackupDir "diary-2026-11-02T12-00-00-000Z.bak") w'
      = Some (File diary_text noon)).
Proof.
  eapply run_mono.
  - apply (proj1 (createBackup_result "diary" true diary_store eq_refl)
             (File diary_text 5) diary_backups); reflexivity.
  - intros r w' (Hr & Hb & Hlog & _). split; [exact Hr |].
    split; [exact Hlog |]. unfold lookup_file. simpl. rewrite Hb. simpl.
    apply lookup_insert_eq.
Defined.

Lemma createBackup_then_restore_witness :
  run (createBackup "diary" true) diary_store (λ r w1,
    r = Ok true
    ∧ f_data <$> lookup_file (getLogFilePath "diary") w1 = Some ""
    ∧ run (restoreFromBackup defaultConfig (rotationCopy "diary" noon)
             (Some "diary") true) w1 (λ r3 w3,
        r3 = Ok true
        ∧ f_data <$> lookup_file (getLogFilePath "diary") w3
          = Some diary_text)).
Proof.
  eapply run_mono.
  - apply (createBackup_then_restore defaultConfig "diary" (File diary_text 5)
             diary_backups diary_store);
      [reflexivity | reflexivity | reflexivity | discriminate |
       vm_compute; reflexivity].
  - intros r w1 (Hr & Hlog & Hf1 & Hs1 & Hrestore).
    split; [exact Hr |]. split; [exact Hlog |].
    eapply run_mono; [apply (Hrestore w1 Hf1 Hs1 eq_refl) |].
    intros r3 w3 (Hr3 & Hback & _). split; [exact Hr3 | exact Hback].
Defined.

Lemma cleanupOldFullBackups_retention_witness :
  run (cleanupOldFullBackups defaultConfig) diary_store (λ r w',
    r = Ok tt
    ∧ ∃ mb', backupDir w' = Some mb'
      ∧ mb' !! "diary-a.bak.gz" = Some (File "not gzip" (noon - 8))
      ∧ (length (fullBackups (records defaultConfig mb')) ≤ 5)%nat
      ∧ ∀ b, b ∈ fullBackups (records defaultConfig mb') →
             ¬ b_date b < noon - 30 * msPerDay).
Proof.
  eapply run_mono.
  - apply (cleanupOldFullBackups_retention defaultConfig diary_backups
             diary_store); reflexivity.
  - intros r w' (Hr & _ & mb' & Hb & _ & Hother & _ & _ & Hlen & Hage).
    split; [exact Hr |]. exists mb'. split; [exact Hb |].
    split; [rewrite Hother; reflexivity |]. split; [exact Hlen |].
    apply Hage. reflexivity.
Defined.

Lemma restoreFromBackup_failures_witness :
  restoreFromBackup defaultConfig (Path BackupDir "diary-a.bak.gz")
    (Some "diary") true diary_store
  = (Ok false,
     emit (LogError "error restoring from backup:" (Some ZlibError))
       diary_store)
  ∧ run (restoreFromBackup defaultConfig (Path BackupDir "diary-a.bak.gz")
           (Some "diary") true) diary_store
      (λ r w', backupDir w' = Some diary_backups).
Proof.
  destruct (restoreFromBackup_failures defaultConfig
              (Path BackupDir "diary-a.bak.gz") (Some "diary") true
              diary_store) as (_ & Hkept & _ & Hfail).
  split.
  - apply (proj1 (Hfail (File "not gzip" (noon - 8)) eq_refl eq_refl));
      reflexivity.
  - apply Hkept. split.
    + intros s [= <-]. reflexivity.
    + intros a content props secs Ha Hdec. vm_compute in Ha.
      injection Ha as <-. vm_compute in Hdec. discriminate Hdec.
Defined.

Lemma restoreFullBackup_without_sections_witness :
  run (restoreFullBackup (JObj [("metadata", JObj [])]) true) diary_store
    (λ r w',
       r = Ok false
       ∧ f_data <$> lookup_file metadataFile w' = Some "{}").
Proof.
  eapply run_mono.
  - apply (restoreFullBackup_without_sections [("metadata", JObj [])]
             (JObj []) diary_sections true diary_store); reflexivity.
  - intros r w' (Hr & _ & Hs & _). split; [exact Hr |].
    unfold lookup_file. simpl. rewrite Hs. reflexivity.
Defined.

Lemma backupSection_restore_roundtrip_witness :
  let after := backupSection defaultConfig "diary" false diary_store in
  let artifact := Path BackupDir "diary-2026-11-02T12-00-00-000Z.bak.gz" in
  after.1 = Ok (Some artifact)
  ∧ run (restoreFromBackup defaultConfig artifact (Some "diary") true) after.2
      (λ r3 w3,
         r3 = Ok true
         ∧ f_data <$> lookup_file (Path SectionsDir "diary.txt") w3
           = Some diary_text).
Proof.
  intros after artifact.
  assert (Hr : after.1 = Ok (Some artifact)) by (vm_compute; reflexivity).
  split; [exact Hr |].
  pose proof (backupSection_restore_roundtrip defaultConfig "diary" diary_store
                diary_sections (File diary_text 5) diary_backups
                eq_refl eq_refl eq_refl eq_refl eq_refl) as Hround.
  destruct Hround as (artifact' & Hr' & _ & Hrestore);
    [discriminate | vm_compute; reflexivity |].
  fold after in Hr', Hrestore. rewrite Hr in Hr'. injection Hr' as <-.
  eapply run_mono.
  - apply (Hrestore after.2 (File (gzip diary_text) noon));
      [reflexivity | by eexists | vm_compute; reflexivity
       | vm_compute; reflexivity].
  - intros r3 w3 (Hr3 & Hback & _). split; [exact Hr3 | exact Hback].
Defined.

Lemma restoreFromBackup_section_writes_iff_witness :
  let artifact := Path BackupDir "notes-a.bak" in
  let w := World (Some ({[ "notes.txt" := File "new" 2 ]} : gmap string file))
             (Some ({[ "notes-a.bak" := File "old" 1 ]} : gmap string file))
             3 [] [] in
  run (restoreFromBackup defaultConfig artifact (Some "notes") false) w
    (λ r w', r = Ok false
             ∧ lookup_file (Path SectionsDir "notes.txt") w'
               = Some (File "new" 2))
  ∧ run (restoreFromBackup defaultConfig artifact (Some "notes") true) w
      (λ r w', r = Ok true
               ∧ lookup_file (Path SectionsDir "notes.txt") w'
                 = Some (File "old" 3)).
Proof.
  intros artifact w. split.
  - eapply run_mono.
    + apply (restoreFromBackup_section_writes_iff defaultConfig artifact
               "notes" false (File "old" 1) "old" w);
        [reflexivity | by eexists | reflexivity | reflexivity | reflexivity
         | discriminate].
    + cbv zeta. intros r w' (Hr & Hlog & _). split; [exact Hr | exact Hlog].
  - eapply run_mono.
    + apply (restoreFromBackup_section_writes_iff defaultConfig artifact
               "notes" true (File "old" 1) "old" w);
        [reflexivity | by eexists | reflexivity | reflexivity | reflexivity
         | discriminate].
    + cbv zeta. intros r w' (Hr & Hlog & _). split; [exact Hr | exact Hlog].
Defined.

End Scenarios.

(* ===================================================================== *)
(** * A full backup and its restoration, retention included               *)
(* ===================================================================== *)

Module RoundTripFacts.
Import JS JSFacts Json Fs Config FsFacts Logger Backup RetentionFacts.
Import RestoreFacts FullRestoreFacts RetentionExact SectionFacts.
Import FullBackupFacts EngineFacts.

Section WithPlatform.
Context `{P : Platform}.
Variable cfg : backupConfig.









End WithPlatform.
End RoundTripFacts.

(* ===================================================================== *)
(** * Retention, read off the names in the backup directory               *)
(* ===================================================================== *)

Module NamedRetentionFacts.
Import JS JSFacts Json Fs Config FsFacts Logger Backup RetentionFacts.
Import RetentionExact EngineFacts.



Section WithPlatform.
Context `{P : Platform}.
Variable cfg : backupConfig.

(** The names [backupSection] gives the artifacts of [section]: the id,
    a ['-'], a time stamp and the extension. *)
Definition named_for (section name : string) : bool :=
  startsWith (section +:+ "-") name.

(** The files of a backup directory that are named for [section], in
    the order [readdirSync] lists them. *)
Definition artifacts_of (section : string) (mb : gmap string file)
  : list string :=
  filter (λ name, named_for section name) (readdir mb).

Section Owner.
Variable section : string.
Hypothesis Hsome : section ≠ "".
Hypothesis Hdash : includes_char "-" section = false.
Hypothesis Hfull : startsWith (section +:+ "-") (fullBackupPrefix cfg) = false.
Hypothesis Hfull' : startsWith (fullBackupPrefix cfg) (section +:+ "-") = false.




End Owner.


End WithPlatform.
End NamedRetentionFacts.

(* ===================================================================== *)
(** * A file system that lists names in order                             *)
(* ===================================================================== *)

Module ByName.
Import JS Json Fs Node NodeFacts.






End ByName.

(* ===================================================================== *)
(** * Backups and retention on the concrete platform                      *)
(* ===================================================================== *)

Module Cases.
Import JS JSFacts Json Fs Config FsFacts Logger Backup Node NodeFacts.
Import RetentionFacts RestoreFacts FullRestoreFacts RetentionExact.
Import SectionFacts FullBackupFacts EngineFacts.
Import Examples Scenarios RoundTripFacts NamedRetentionFacts ByName.

(** A section [my-notes], an id that [sanitize] keeps, with six backups:
    one a day from 2026-10-28 to 2026-11-01, and one of 2026-09-01, more
    than thirty days before [noon]. *)
Definition notes_backups : gmap string file :=
  {[ "my-notes-2026-09-01T12-00-00-000Z.bak.gz"
       := File (gzip "a") (noon - 62 * msPerDay);
     "my-notes-2026-10-28T12-00-00-000Z.bak.gz"
       := File (gzip "b") (noon - 5 * msPerDay);
     "my-notes-2026-10-29T12-00-00-000Z.bak.gz"
       := File (gzip "c") (noon - 4 * msPerDay);
     "my-notes-2026-10-30T12-00-00-000Z.bak.gz"
       := File (gzip "d") (noon - 3 * msPerDay);
     "my-notes-2026-10-31T12-00-00-000Z.bak.gz"
       := File (gzip "e") (noon - 2 * msPerDay);
     "my-notes-2026-11-01T12-00-00-000Z.bak.gz"
       := File (gzip "f") (noon - 1 * msPerDay) ]}.

Definition notes_store : world :=
  World (Some {[ "my-notes.txt" := File diary_text 5 ]}) (Some notes_backups)
    noon [] [].

Definition notes_artifact : path :=
  Path BackupDir "my-notes-2026-11-02T12-00-00-000Z.bak.gz".










(** C2 fails for the section id [my-notes]: [createSection] accepts the id as
    it is; with six backups of the section in the backup directory, one
    of them sixty-two days old, and nothing failing, [backupSection]
    returns the path of a seventh and its retention deletes nothing: the
    seven files are all there afterwards, the old one among them,
    under the default configuration that allows five and thirty days. *)
Theorem backupSection_hyphen_keeps_all :
  let after := backupSection defaultConfig "my-notes" false notes_store in
  (createSection "my-notes" "" empty_store).1 = Ok "my-notes"
  ∧ after.1 = Ok (Some notes_artifact)
  ∧ backupDir after.2
    = Some (<[p_name notes_artifact
              := File (gzip diary_text) noon]> notes_backups)
  ∧ length (artifacts_of "my-notes" (default ∅ (backupDir after.2))) = 7%nat
  ∧ (maxBackupsPerSection defaultConfig < 7)%nat
  ∧ (∃ f, lookup_file
            (Path BackupDir "my-notes-2026-09-01T12-00-00-000Z.bak.gz") after.2
          = Some f
          ∧ f_mtime f < noon - retentionDays defaultConfig * msPerDay)
  ∧ trace after.2
    = [Wrote notes_artifact;
       Log ("compressed backup created: " +:+ path_string notes_artifact)].
Proof.
  cbv zeta. split; [vm_compute; reflexivity |].
  split; [vm_compute; reflexivity |].
  split; [vm_compute; reflexivity |].
  split; [vm_compute; reflexivity |].
  split; [vm_compute; lia |].
  split; [|vm_compute; reflexivity].
  exists (File (gzip "a") (noon - 62 * msPerDay)).
  split; [vm_compute; reflexivity | vm_compute; reflexivity].
Qed.




End Cases.
